(** * libGPUCounters specification tooling (lgcpy): a shallow embedding

    The development follows the Python sources of [specification/lgcpy]
    and [specification/lgcpy_validate.py]:

    - [Py]: the fragment of the Python runtime the sources rely on
      (exceptions, truthiness, [str.lower], [float], [int], [str],
      insertion-ordered [dict]);
    - [equationutils]: equation trees, the pretty-print transformer and the
      resolve transformer;
    - [equationgrammar]: the equation parser;
    - [counterview], [indexedview]: the per-product compiled views;
    - [semanticinfo]: documentation lookup;
    - [lgcpy_validate]: the stable-ID and cardinality checks.

    Definitions come first; all lemmas and theorems follow. *)

From Stdlib Require Import ZArith String Ascii List Lia SpecFloat.
From Stdlib Require Import Decimal DecimalPos DecimalString.
From Stdlib Require Import Sorted Permutation.
From stdpp Require Import base decidable option list gmap strings.

Set Warnings "-register-all".

Open Scope Z_scope.
Open Scope string_scope.

(* ===================================================================== *)
(** * The Python runtime fragment                                         *)
(* ===================================================================== *)

Module Py.

(** Exceptions the modelled code can raise. *)
Inductive exn :=
| AssertionError (msg : string)
| KeyError (msg : string)
| ValueError
| ZeroDivisionError
| OverflowError
| RecursionError
| AttributeError
| TypeError
| VisitError (orig_exc : exn)
| LarkError (msg : string).

(** A computation either returns a value or raises. *)
Inductive result (A : Type) :=
| Ok (a : A)
| Raise (e : exn).
Arguments Ok {A} a.
Arguments Raise {A} e.

Definition bind {A B} (m : result A) (k : A -> result B) : result B :=
  match m with
  | Ok a => k a
  | Raise e => Raise e
  end.

Definition is_ok {A} (m : result A) : bool :=
  match m with Ok _ => true | Raise _ => false end.

(** [assert c, msg] *)
Definition assert (c : bool) (msg : string) : result unit :=
  if c then Ok tt else Raise (AssertionError msg).

(** [for x in l: acc = body(acc, x)], stopping at the first exception. *)
Fixpoint for_each {A S} (body : S -> A -> result S) (l : list A) (s : S)
  : result S :=
  match l with
  | [] => Ok s
  | x :: l' => bind (body s x) (for_each body l')
  end.

(** [[f(x) for x in l]], stopping at the first exception. *)
Fixpoint map_result {A B} (f : A -> result B) (l : list A) : result (list B) :=
  match l with
  | [] => Ok []
  | x :: l' =>
      bind (f x) (fun y => bind (map_result f l') (fun ys => Ok (y :: ys)))
  end.

(** ** Characters and strings *)

Definition chr_between (lo hi c : ascii) : bool :=
  (nat_of_ascii lo <=? nat_of_ascii c)%nat &&
  (nat_of_ascii c <=? nat_of_ascii hi)%nat.

Definition is_upper (c : ascii) : bool := chr_between "A" "Z" c.
Definition is_lower (c : ascii) : bool := chr_between "a" "z" c.
Definition is_digit (c : ascii) : bool := chr_between "0" "9" c.
Definition is_alpha (c : ascii) : bool := is_upper c || is_lower c.

(** [str.lower] on text of the first 256 code points: the letters A to Z
    and the capital letters of Latin-1 (192 to 214 and 216 to 222) move
    up by 32. *)
Definition chr_lower (c : ascii) : ascii :=
  let n := nat_of_ascii c in
  if is_upper c
     || ((192 <=? n)%nat && (n <=? 214)%nat)
     || ((216 <=? n)%nat && (n <=? 222)%nat)
  then ascii_of_nat (n + 32) else c.

Fixpoint lower (s : string) : string :=
  match s with
  | EmptyString => EmptyString
  | String c s' => String (chr_lower c) (lower s')
  end.

(** Truthiness of a [str] and of an [Optional[str]]. *)
Definition truthy_str (s : string) : bool := negb (String.eqb s "").

Definition truthy_opt_str (o : option string) : bool :=
  match o with
  | Some s => truthy_str s
  | None => false
  end.

(** [sep.join(parts)] *)
Fixpoint join (sep : string) (parts : list string) : string :=
  match parts with
  | [] => ""
  | [p] => p
  | p :: rest => p +:+ sep +:+ join sep rest
  end.

(** [x in s] for a character and a string. *)
Fixpoint contains_chr (c : ascii) (s : string) : bool :=
  match s with
  | EmptyString => false
  | String d s' => Ascii.eqb c d || contains_chr c s'
  end.

(** [x in l] for a list of strings. *)
Definition str_in (x : string) (l : list string) : bool :=
  existsb (String.eqb x) l.

(** [str(n)] for an [int]. *)
Definition str_of_int (z : Z) : string := NilZero.string_of_int (Z.to_int z).

(** ** Floating point: IEEE 754 binary64, as CPython's [float] *)

Definition prec : Z := 53.
Definition emax : Z := 1024.

Definition float := spec_float.

Definition float_mul : float -> float -> float := SFmul prec emax.

Definition float_is_zero (x : float) : bool :=
  match x with S754_zero _ => true | _ => false end.

(** [a / b] raises on a zero divisor. *)
Definition float_truediv (a b : float) : result float :=
  if float_is_zero b then Raise ZeroDivisionError
  else Ok (SFdiv prec emax a b).

(** [a == b] *)
Definition float_eq : float -> float -> bool := SFeqb.

(** [float(n)] for an [int], rounding to nearest even. *)
Definition float_of_int (z : Z) : float := binary_normalize prec emax z 0 false.

(** [int(x)]: truncation towards zero; raises on infinities and NaN. *)
Definition int_of_float (x : float) : result Z :=
  match x with
  | S754_zero _ => Ok 0
  | S754_infinity _ => Raise OverflowError
  | S754_nan => Raise ValueError
  | S754_finite s m e =>
      let a := match e with
               | Z0 => Zpos m
               | Zpos p => Zpos m * 2 ^ Zpos p
               | Zneg p => Zpos m / 2 ^ Zpos p
               end in
      Ok (if s then - a else a)
  end.

(** *** [float(s)] for a [str]

    Accepted text, after stripping surrounding whitespace (the characters
    of [str.isspace]: 9 to 13, 28 to 32, 133 and 160 among the first 256
    code points): an optional
    sign followed by [inf], [infinity] or [nan] in any letter case, or by
    a decimal numeral [digits [. digits] [e [sign] digits]] with at least
    one digit before the exponent; digits may be grouped by single
    underscores.  The value is the correctly rounded binary64. *)

Definition is_space (c : ascii) : bool :=
  let n := nat_of_ascii c in
  ((9 <=? n)%nat && (n <=? 13)%nat) || ((28 <=? n)%nat && (n <=? 32)%nat)
  || (n =? 133)%nat || (n =? 160)%nat.

Fixpoint lstrip (l : list ascii) : list ascii :=
  match l with
  | c :: l' => if is_space c then lstrip l' else l
  | [] => []
  end.

Definition strip (l : list ascii) : list ascii :=
  rev (lstrip (rev (lstrip l))).

Definition digit_val (c : ascii) : Z := Z.of_nat (nat_of_ascii c) - 48.

(** Reads [digit (_? digit)*]; returns the digits read and the rest.
    [after_digit] tells whether the previous character was a digit. *)
Fixpoint read_digits (after_digit : bool) (acc : list Z) (l : list ascii)
  : option (list Z * list ascii) :=
  match l with
  | c :: l' =>
      if is_digit c then read_digits true (acc ++ [digit_val c]) l'
      else if Ascii.eqb c "_" then
        if after_digit then
          match l' with
          | d :: _ => if is_digit d then read_digits false acc l' else None
          | [] => None
          end
        else None
      else Some (acc, l)
  | [] => Some (acc, [])
  end.

Definition digits_value (ds : list Z) : Z :=
  fold_left (fun acc d => 10 * acc + d) ds 0.

Definition read_sign (l : list ascii) : bool * list ascii :=
  match l with
  | c :: l' =>
      if Ascii.eqb c "-" then (true, l')
      else if Ascii.eqb c "+" then (false, l')
      else (false, l)
  | [] => (false, [])
  end.

(** The float nearest to [(-1)^s * m * 10^e]. *)
Definition float_of_decimal (s : bool) (m : Z) (e : Z) : float :=
  match m with
  | Zpos p =>
      match e with
      | Zneg k =>
          SFdiv prec emax (S754_finite s p 0)
                          (S754_finite false (Pos.pow 10 k) 0)
      | _ => binary_normalize prec emax ((if s then - m else m) * 10 ^ e) 0 s
      end
  | _ => S754_zero s
  end.

(** The decimal numeral that follows the sign. *)
Definition float_of_numeral (s : bool) (l : list ascii) : result float :=
  match read_digits false [] l with
  | None => Raise ValueError
  | Some (ip, l1) =>
      let frac :=
        match l1 with
        | c :: l2 =>
            if Ascii.eqb c "." then
              match l2 with
              | d :: _ => if is_digit d then read_digits false [] l2
                          else Some ([], l2)
              | [] => Some ([], [])
              end
            else Some ([], l1)
        | [] => Some ([], [])
        end in
      match frac with
      | None => Raise ValueError
      | Some (fp, l3) =>
          if (length ip + length fp =? 0)%nat then Raise ValueError
          else
            let m := digits_value (ip ++ fp) in
            let k := Z.of_nat (length fp) in
            match l3 with
            | [] => Ok (float_of_decimal s m (- k))
            | c :: l4 =>
                if Ascii.eqb c "e" || Ascii.eqb c "E" then
                  let '(es, l5) := read_sign l4 in
                  match l5 with
                  | d :: _ =>
                      if is_digit d then
                        match read_digits false [] l5 with
                        | Some (ed, []) =>
                            let ev := digits_value ed in
                            Ok (float_of_decimal s m
                                  ((if es then - ev else ev) - k))
                        | _ => Raise ValueError
                        end
                      else Raise ValueError
                  | [] => Raise ValueError
                  end
                else Raise ValueError
            end
      end
  end.

Definition float_of_str (text : string) : result float :=
  let l := strip (list_ascii_of_string text) in
  let '(s, l) := read_sign l in
  let w := lower (string_of_list_ascii l) in
  if String.eqb w "inf" || String.eqb w "infinity" then Ok (S754_infinity s)
  else if String.eqb w "nan" then Ok S754_nan
  else float_of_numeral s l.

(** ** Insertion-ordered dictionaries

    A Python [dict] keeps its keys in insertion order; assigning to an
    existing key replaces the value where it stands. *)

Section Dict.
Context {K V : Type} (eqb : K -> K -> bool).

Definition dict := list (K * V).

Fixpoint dict_get (d : dict) (k : K) : option V :=
  match d with
  | [] => None
  | (k', v) :: d' => if eqb k k' then Some v else dict_get d' k
  end.

Fixpoint dict_set (d : dict) (k : K) (v : V) : dict :=
  match d with
  | [] => [(k, v)]
  | (k', v') :: d' =>
      if eqb k k' then (k', v) :: d' else (k', v') :: dict_set d' k v
  end.

Definition dict_contains (d : dict) (k : K) : bool :=
  match dict_get d k with Some _ => true | None => false end.

Definition dict_keys (d : dict) : list K := map fst d.
Definition dict_values (d : dict) : list V := map snd d.
End Dict.

Arguments dict : clear implicits.

End Py.

Import Py.

Notation "'let*' x ':=' m 'in' k" := (Py.bind m (fun x => k))
  (at level 10, x name, m at level 100, k at level 200).

(* ===================================================================== *)
(** * Equation trees (the parse trees of [equationutils.py])              *)
(* ===================================================================== *)

(** The Lark tree of an equation.  Rule nodes are [start], [name], [add],
    [mul], [function], [min] and [max]; [NUMBER] tokens stand as operands
    of their own.  The child of a [name] node is a [NAME] token as parsed
    ([T_name]); the resolve transformer replaces that token by a whole
    resolved tree ([T_name_tree]), or by [None] where the counter named
    has no parsed equation ([T_name_None]).  Operators are kept as the
    token text. *)
Inductive Tree :=
| T_start (expr : Tree)
| T_name (NAME : string)
| T_name_tree (sub : Tree)
| T_name_None
| T_NUMBER (text : string)
| T_add (operand_a : Tree) (operator : string) (operand_b : Tree)
| T_mul (operand_a : Tree) (operator : string) (operand_b : Tree)
| T_function (fname : string) (params : list Tree)
| T_min (params : list Tree)
| T_max (params : list Tree).

(* ===================================================================== *)
(** * The raw databases                                                   *)
(* ===================================================================== *)

(** [data/counterinfo.py] *)
Module CounterVisibility.
Inductive t := NOVICE | ADVANCED_APPLICATION | ADVANCED_SYSTEM | INTERNAL.

Definition value (v : t) : Z :=
  match v with
  | NOVICE => 1
  | ADVANCED_APPLICATION => 2
  | ADVANCED_SYSTEM => 3
  | INTERNAL => 4
  end.
End CounterVisibility.

Module CounterInfo.
Record t := mk {
  machine_name : string;
  stable_id : option Z;
  source_name : option string;
  source_name_aliases : list string;
  human_name : string;
  group_name : string;
  group_human_name : string;
  visibility : CounterVisibility.t;
  units : string;
  equation_ast : option Tree;
  gpu_support : list string
}.

Definition supports_gpu (self : t) (key : string) : bool :=
  str_in key (gpu_support self).

Definition set_stable_id (self : t) (id : option Z) : t :=
  mk (machine_name self) id (source_name self) (source_name_aliases self)
     (human_name self) (group_name self) (group_human_name self)
     (visibility self) (units self) (equation_ast self) (gpu_support self).
End CounterInfo.

(** [data/productinfo.py] *)
Module ProductInfo.
Record t := mk {
  database_key : string;
  features : list string
}.

Definition has_feature (self : t) (feature : string) : bool :=
  str_in feature (features self).
End ProductInfo.

(** Modelled from the spec: [data/hardwarelayout.py] is not among the
    sources.  Per the spec's HardwareLayoutSpec a layout is an ordered list
    of hardware blocks, each an ordered list of native counter slots giving
    the counter's source name and a power-of-two scale shift; the block
    types are the four the validator maps to domains.  The lookup
    [get_counter_by_name] of a layout is taken as a parameter of the
    functions that use it. *)
Module HardwareBlockType.
Inductive t := GPU_FRONTEND | SHADER_CORE | MEMORY_SYSTEM | TILER.

Definition eqb (a b : t) : bool :=
  match a, b with
  | GPU_FRONTEND, GPU_FRONTEND | SHADER_CORE, SHADER_CORE
  | MEMORY_SYSTEM, MEMORY_SYSTEM | TILER, TILER => true
  | _, _ => false
  end.
End HardwareBlockType.

Module HardwareCounterLayout.
Record t := mk {
  name : string;
  index : Z;
  shift : N
}.
End HardwareCounterLayout.

Module HardwareBlockLayout.
Record t := mk {
  btype : HardwareBlockType.t;
  bank : Z;
  counters : list HardwareCounterLayout.t
}.
End HardwareBlockLayout.

Module HardwareLayout.
(** [hw_db.get_counter_by_name] *)
Definition t := string -> option (HardwareBlockLayout.t * HardwareCounterLayout.t).
End HardwareLayout.

(* ===================================================================== *)
(** * Compiled views                                                      *)
(* ===================================================================== *)

(** [view/counterview.py] *)
Module CounterClockDomain.
Inductive t := GPU | SHADER_CORE.
End CounterClockDomain.

Module CounterView.
Record t := mk {
  block_type : option HardwareBlockType.t;
  block_index : Z;
  scale_multiplier : Z;
  clock_domain : option CounterClockDomain.t;
  machine_name : string;
  stable_id : Z;
  human_name : string;
  group_name : string;
  group_human_name : string;
  visibility : CounterVisibility.t;
  unit : string;
  equation_ast : option Tree;
  equation_ast_resolved : option Tree;
  equation_ast_resolved_error : option string;
  source_name : option string
}.

(** [CounterView.__init__].  A block or slot object that is passed is
    truthy; a member of the block-type enumeration is truthy. *)
Definition init (pi : ProductInfo.t) (hw_name : option string)
    (hw_bl : option HardwareBlockLayout.t)
    (hw_cl : option HardwareCounterLayout.t)
    (ci : CounterInfo.t) : result t :=
  let block_type := None in
  let block_index := 0 in
  let scale_multiplier := 1 in
  let block_type :=
    match hw_bl with
    | Some bl => Some (HardwareBlockLayout.btype bl)
    | None => block_type
    end in
  let '(block_index, scale_multiplier) :=
    match hw_cl with
    | Some cl => (HardwareCounterLayout.index cl,
                  Z.shiftl 1 (Z.of_N (HardwareCounterLayout.shift cl)))
    | None => (block_index, scale_multiplier)
    end in
  let clock_domain :=
    match block_type with
    | None => None
    | Some bt =>
        if negb (ProductInfo.has_feature pi "async_clock")
        then Some CounterClockDomain.GPU
        else if HardwareBlockType.eqb bt HardwareBlockType.SHADER_CORE
        then Some CounterClockDomain.SHADER_CORE
        else Some CounterClockDomain.GPU
    end in
  match CounterInfo.stable_id ci with
  | None => Raise (AssertionError "")
  | Some sid =>
      Ok (mk block_type block_index scale_multiplier clock_domain
             (CounterInfo.machine_name ci) sid
             (CounterInfo.human_name ci) (CounterInfo.group_name ci)
             (CounterInfo.group_human_name ci) (CounterInfo.visibility ci)
             (CounterInfo.units ci) (CounterInfo.equation_ast ci)
             None None hw_name)
  end.

Definition is_derived (self : t) : bool :=
  negb (truthy_opt_str (source_name self)).

Definition is_visible (self : t) (max_visibility : CounterVisibility.t) : bool :=
  Z.leb (CounterVisibility.value (visibility self))
        (CounterVisibility.value max_visibility).
End CounterView.

(** [view/indexedview.py] *)
Module IndexedView.
Record t := mk {
  gpu : string;
  key : string;
  by_stable_id : dict Z CounterView.t;
  by_machine_name : dict string CounterView.t;
  by_source_name : dict string CounterView.t;
  by_human_name : dict string CounterView.t;
  by_group_names : dict string CounterView.t
}.

(** [IndexedView.__init__] *)
Definition init (gpu key : string) : t := mk gpu key [] [] [] [] [].

Definition get_by_stable_id (self : t) (key : Z) : option CounterView.t :=
  dict_get Z.eqb (by_stable_id self) key.

Definition get_by_machine_name (self : t) (key : string) : option CounterView.t :=
  dict_get String.eqb (by_machine_name self) (lower key).

Definition get_by_source_name (self : t) (key : string) : option CounterView.t :=
  dict_get String.eqb (by_source_name self) (lower key).

Definition get_by_human_name (self : t) (key : string) : option CounterView.t :=
  dict_get String.eqb (by_human_name self) (lower key).

Definition get_by_group_names (self : t) (group_name group_human_name : string)
  : option CounterView.t :=
  let group_index := group_name +:+ "|" +:+ group_human_name in
  dict_get String.eqb (by_group_names self) (lower group_index).

(** [IndexedView.__iter__] *)
Definition iter (self : t) : list CounterView.t :=
  dict_values (by_machine_name self).

(** The five index assignments that follow "Add the indexes" in both
    [filter] and [from_db]. *)
Definition add_indexes (view : t) (counter : CounterView.t) : t :=
  let by_stable_id :=
    dict_set Z.eqb (by_stable_id view) (CounterView.stable_id counter) counter in
  let by_machine_name :=
    dict_set String.eqb (by_machine_name view)
      (lower (CounterView.machine_name counter)) counter in
  let by_source_name :=
    match CounterView.source_name counter with
    | Some sn =>
        if truthy_str sn
        then dict_set String.eqb (by_source_name view) (lower sn) counter
        else by_source_name view
    | None => by_source_name view
    end in
  let by_human_name :=
    dict_set String.eqb (by_human_name view)
      (lower (CounterView.human_name counter)) counter in
  let group_index :=
    CounterView.group_name counter +:+ "|" +:+ CounterView.group_human_name counter in
  let by_group_names :=
    dict_set String.eqb (by_group_names view) (lower group_index) counter in
  mk (gpu view) (key view) by_stable_id by_machine_name by_source_name
     by_human_name by_group_names.

(** The search of [from_db] through [source_name] and its aliases: the
    first name the layout knows, with its block and slot. *)
Fixpoint find_hw (hw_db : HardwareLayout.t) (source_names : list string)
  : option (string * HardwareBlockLayout.t * HardwareCounterLayout.t) :=
  match source_names with
  | [] => None
  | name :: rest =>
      match hw_db name with
      | Some (hw_bl, hw_cl) => Some (name, hw_bl, hw_cl)
      | None => find_hw hw_db rest
      end
  end.

(** The counter view that one iteration of the loop of [from_db] builds
    for a counter supported by the product. *)
Definition from_db_counter_view (pi : ProductInfo.t) (hw_db : HardwareLayout.t)
    (counter : CounterInfo.t) : result CounterView.t :=
  let '(hw_name, hw_bl, hw_cl) :=
    if truthy_opt_str (CounterInfo.source_name counter) then
      let source_names :=
        (match CounterInfo.source_name counter with
         | Some sn => [sn]
         | None => []
         end ++ CounterInfo.source_name_aliases counter)%list in
      match find_hw hw_db source_names with
      | Some (name, hw_bl, hw_cl) => (Some name, Some hw_bl, Some hw_cl)
      | None => (CounterInfo.source_name counter, None, None)
      end
    else (None, None, None) in
  CounterView.init pi hw_name hw_bl hw_cl counter.

(** One iteration of the loop of [from_db]. *)
Definition from_db_step (pi : ProductInfo.t) (hw_db : HardwareLayout.t)
    (view : t) (counter : CounterInfo.t) : result t :=
  if negb (CounterInfo.supports_gpu counter (key view)) then Ok view
  else
    let* ct_view := from_db_counter_view pi hw_db counter in
    Ok (add_indexes view ct_view).

(** [IndexedView.from_db] *)
Definition from_db (product : string) (pi : ProductInfo.t)
    (hw_db : HardwareLayout.t) (ct_db : list CounterInfo.t) : result t :=
  let view := init product (ProductInfo.database_key pi) in
  for_each (from_db_step pi hw_db) ct_db view.

(** ** The object store

    [filter] allocates a new view object and fills it in place.  Views
    live in a heap (a list) addressed by position; counter views are not written
    to by [filter] and are held by value. *)
Definition addr := nat.

Definition alloc (h : list t) (v : t) : list t * addr := ((h ++ [v])%list, length h).

Definition update (h : list t) (a : addr) (f : t -> t) : list t :=
  match h !! a with
  | Some v => <[a := f v]> h
  | None => h
  end.

(** One iteration of the loop of [filter], writing to [filtered_view]. *)
Definition filter_step (max_visibility : CounterVisibility.t) (derived : bool)
    (filtered_view : addr) (h : list t) (counter : CounterView.t) : list t :=
  if negb (CounterView.is_visible counter max_visibility) then h
  else if CounterView.is_derived counter && negb derived then h
  else update h filtered_view (fun view => add_indexes view counter).

(** [IndexedView.filter]: the new heap and the address of the new view;
    [None] if [self] is not an object of the heap. *)
Definition filter (h : list t) (self : addr)
    (max_visibility : CounterVisibility.t) (derived : bool)
  : option (list t * addr) :=
  match h !! self with
  | None => None
  | Some v =>
      let '(h1, filtered_view) := alloc h (init (gpu v) (key v)) in
      Some (fold_left (filter_step max_visibility derived filtered_view)
                      (dict_values (by_stable_id v)) h1,
            filtered_view)
  end.
End IndexedView.

(* ===================================================================== *)
(** * [equationutils.py]                                                  *)
(* ===================================================================== *)

(** [CONSTANT_PATTERN = re.compile('^[A-Z0-9_]+$')], used through
    [CONSTANT_PATTERN.match]: one or more characters of the class, up to
    the end of the text or to a final newline. *)
Definition constant_chr (c : ascii) : bool :=
  is_upper c || is_digit c || Ascii.eqb c "_".

Fixpoint constant_tail (s : string) : bool :=
  match s with
  | EmptyString => true
  | String c s' =>
      if constant_chr c then constant_tail s'
      else Ascii.eqb c "010" && String.eqb s' ""
  end.

Definition CONSTANT_PATTERN_match (s : string) : bool :=
  match s with
  | EmptyString => false
  | String c s' => constant_chr c && constant_tail s'
  end.

(** What a pretty-print callback returns: a [str] (or token), an
    [OperatorNode] or a [FunctionNode].  [op_a] and [op_b] of an operator
    node are the operands after [add_parens]. *)
Inductive pval :=
| PStr (s : string)
| POperatorNode (operator : string) (precedence : Z) (op_a op_b : pval)
                (string : string)
| PFunctionNode (function : string) (string : string).

(** [str(x)] *)
Definition py_str (x : pval) : string :=
  match x with
  | PStr s => s
  | POperatorNode _ _ _ _ s => s
  | PFunctionNode _ s => s
  end.

(** [x == lit] for a string literal [lit]: node objects compare by
    identity and are never equal to a string. *)
Definition py_eq_str (x : pval) (lit : string) : bool :=
  match x with
  | PStr s => String.eqb s lit
  | _ => false
  end.

(** [float(x)]: a node object is not convertible. *)
Definition py_float (x : pval) : result float :=
  match x with
  | PStr s => float_of_str s
  | _ => Raise TypeError
  end.

Definition is_number (value : pval) : bool :=
  is_ok (float_of_str (py_str value)).

Definition to_literal (value : float) : result string :=
  let* i := int_of_float value in
  let int_str := str_of_int i in
  let* int_test := float_of_str int_str in
  if float_eq value int_test then Ok int_str
  else Ok "<class 'float'>".

(** [FunctionNode.__init__] *)
Definition FunctionNode (function : string) (params : list pval) : pval :=
  PFunctionNode function
    (function +:+ "(" +:+ join ", " (map py_str params) +:+ ")").

(** [OperatorNode.needs_parens], for a node with the given operator and
    precedence and an operand that is an operator node. *)
Definition needs_parens (self_operator : string) (self_precedence : Z)
    (operand_operator : string) (operand_precedence : Z) : bool :=
  negb (String.eqb self_operator operand_operator)
  || negb (Z.eqb self_precedence operand_precedence).

(** [OperatorNode.add_parens] *)
Definition add_parens (self_operator : string) (self_precedence : Z)
    (operand : pval) : pval :=
  match operand with
  | POperatorNode o p _ _ _ =>
      if needs_parens self_operator self_precedence o p
      then PStr ("(" +:+ py_str operand +:+ ")")
      else operand
  | _ => operand
  end.

(** [OperatorNode.__init__] *)
Definition OperatorNode (op_a : pval) (operator : string) (op_b : pval)
    (precedence : Z) : pval :=
  let a := add_parens operator precedence op_a in
  let b := add_parens operator precedence op_b in
  POperatorNode operator precedence a b
    (py_str a +:+ " " +:+ operator +:+ " " +:+ py_str b).

(** A Lark transformer wraps what a callback raises in a [VisitError]. *)
Definition call_userfunc {A} (r : result A) : result A :=
  match r with
  | Ok a => Ok a
  | Raise e => Raise (VisitError e)
  end.

Module EquationPrettyPrintTransformer.

Definition start (nodes : list pval) : result pval :=
  match nodes with
  | n :: _ => Ok n
  | [] => Raise (KeyError "")
  end.

Definition fname (name : string) : string := name.

Definition function (name : string) (params : list pval) : pval :=
  FunctionNode name params.

Definition min (params : list pval) : pval := FunctionNode "min" params.

Definition max (params : list pval) : pval := FunctionNode "max" params.

Definition add (operand_a : pval) (operator : string) (operand_b : pval) : pval :=
  OperatorNode operand_a operator operand_b 0.

Definition _simplify_mul_str_str (operand_a : pval) (operator : string)
    (operand_b : pval) : result (option string) :=
  match operand_a, operand_b with
  | PStr _, PStr _ =>
      if negb (is_number operand_a) || negb (is_number operand_b) then Ok None
      else
        let* num_a := py_float operand_a in
        let* num_b := py_float operand_b in
        if String.eqb operator "*" then
          let* r := to_literal (float_mul num_a num_b) in Ok (Some r)
        else
          let* q := float_truediv num_a num_b in
          let* r := to_literal q in Ok (Some r)
  | _, _ => Ok None
  end.

Definition _simplify_mul_op_str (operand_a : pval) (operator : string)
    (operand_b : pval) : result (option pval) :=
  match operand_a, operand_b with
  | POperatorNode a_operator _ a_op_a a_op_b _, PStr _ =>
      if negb (is_number a_op_b) || negb (is_number operand_b) then Ok None
      else
        let* num_a := py_float a_op_b in
        let* num_b := py_float operand_b in
        if String.eqb a_operator "*" && String.eqb operator "*" then
          let* ab := to_literal (float_mul num_a num_b) in
          Ok (Some (OperatorNode a_op_a "*" (PStr ab) 1))
        else Ok None
  | _, _ => Ok None
  end.

Definition mul (operand_a : pval) (operator : string) (operand_b : pval)
  : result pval :=
  if py_eq_str operand_b "1" then Ok operand_a
  else if String.eqb operator "*" && py_eq_str operand_a "1" then Ok operand_b
  else
    let* value := _simplify_mul_str_str operand_a operator operand_b in
    if truthy_opt_str value then
      match value with Some v => Ok (PStr v) | None => Raise TypeError end
    else
      let* value := _simplify_mul_op_str operand_a operator operand_b in
      match value with
      | Some v => Ok v
      | None => Ok (OperatorNode operand_a operator operand_b 1)
      end.

Definition name (args : pval) : pval :=
  match args with
  | POperatorNode _ _ _ _ _ => args
  | _ => PStr (py_str args)
  end.

(** [Transformer.transform]: children first, left to right, then the
    callback of the rule.  A child that is [None] is handed to [name] as
    it is, and [str(None)] is the text [None]. *)
Fixpoint transform (t : Tree) : result pval :=
  match t with
  | T_start e =>
      let* v := transform e in call_userfunc (start [v])
  | T_name n => Ok (name (PStr n))
  | T_name_tree sub =>
      let* v := transform sub in Ok (name v)
  | T_name_None => Ok (PStr "None")
  | T_NUMBER s => Ok (PStr s)
  | T_add a op b =>
      let* va := transform a in
      let* vb := transform b in
      Ok (add va op vb)
  | T_mul a op b =>
      let* va := transform a in
      let* vb := transform b in
      call_userfunc (mul va op vb)
  | T_function f ps =>
      let* vs := map_result transform ps in
      Ok (function (fname f) vs)
  | T_min ps =>
      let* vs := map_result transform ps in Ok (min vs)
  | T_max ps =>
      let* vs := map_result transform ps in Ok (max vs)
  end.

End EquationPrettyPrintTransformer.

Module EquationResolveTransformer.

(** What [NAME] returns in the place of the token: the token, a resolved
    tree, or [None]. *)
Inductive replacement :=
| keep_token (args : string)
| put_tree (resolved : Tree)
| put_None.

(** [EquationResolveTransformer.NAME]; [transform] is the transformer the
    callback creates for the equation of a derived counter, [None] when
    the recursion limit of the interpreter is reached.
    [Transformer.transform] hands back a value that is neither a tree nor
    a token as it is, so for a derived counter without a parsed equation
    ([equation_ast] is [None]) the callback returns [None]. *)
Definition NAME (transform : option (Tree -> result Tree))
    (index_view : IndexedView.t) (args : string) : result replacement :=
  if CONSTANT_PATTERN_match args then Ok (keep_token args)
  else
    match IndexedView.get_by_machine_name index_view args with
    | None => Raise (AssertionError ("Missing counter: " +:+ args))
    | Some counter =>
        if negb (CounterView.is_derived counter) then Ok (keep_token args)
        else
          match transform with
          | None => Raise RecursionError
          | Some transform =>
              match CounterView.equation_ast counter with
              | None => Ok put_None
              | Some ast =>
                  let* resolved := transform ast in Ok (put_tree resolved)
              end
          end
    end.

(** The tree walk with a token callback ([visit_tokens=True]). *)
Fixpoint walk (NAME : string -> result replacement) (t : Tree)
  : result Tree :=
  match t with
  | T_start e => let* e' := walk NAME e in Ok (T_start e')
  | T_name n =>
      let* r := call_userfunc (NAME n) in
      Ok (match r with
          | keep_token tok => T_name tok
          | put_tree sub => T_name_tree sub
          | put_None => T_name_None
          end)
  | T_name_tree sub => let* sub' := walk NAME sub in Ok (T_name_tree sub')
  | T_name_None => Ok T_name_None
  | T_NUMBER s => Ok (T_NUMBER s)
  | T_add a op b =>
      let* a' := walk NAME a in
      let* b' := walk NAME b in
      Ok (T_add a' op b')
  | T_mul a op b =>
      let* a' := walk NAME a in
      let* b' := walk NAME b in
      Ok (T_mul a' op b')
  | T_function f ps =>
      let* ps' := map_result (walk NAME) ps in Ok (T_function f ps')
  | T_min ps => let* ps' := map_result (walk NAME) ps in Ok (T_min ps')
  | T_max ps => let* ps' := map_result (walk NAME) ps in Ok (T_max ps')
  end.

(** [EquationResolveTransformer(index_view).transform(t)], with [depth]
    nested transformers left before the interpreter's recursion limit. *)
Fixpoint transform (depth : nat) (index_view : IndexedView.t) (t : Tree)
  : result Tree :=
  walk (NAME (match depth with
              | O => None
              | S d => Some (transform d index_view)
              end) index_view) t.

End EquationResolveTransformer.

(** ** The equation parser *)

(** Modelled from the spec: the grammar file [equationgrammar.lark] that
    [_load_grammar] reads is not among the sources.  Per the spec (4.1) an
    equation is built from identifiers [[A-Za-z_][A-Za-z0-9_]*], numeric
    literals, binary [+ - * /] with standard precedence (additive
    operators binding less tightly than multiplicative ones),
    parenthesized grouping, and calls [name(arg, arg, ...)] with the
    built-ins [min] and [max] taking two or more arguments.  Operators of
    one level are taken to associate to the left, the standard reading,
    which the shape [(a*lit1)*lit2] of the pretty-printer's fourth
    peephole rule relies on.  A numeric literal is taken to be a run of
    digits with an optional fractional part; white space separates tokens.
    Grouping parentheses leave no node in the tree. *)
Module equationgrammar.

Inductive token :=
| NAME (text : string)
| NUMBER (text : string)
| ADD_OP (text : string)
| MUL_OP (text : string)
| LPAR
| RPAR
| COMMA.

Definition is_name_start (c : ascii) : bool := is_alpha c || Ascii.eqb c "_".
Definition is_name_chr (c : ascii) : bool :=
  is_alpha c || is_digit c || Ascii.eqb c "_".
Definition is_word_chr (c : ascii) : bool := is_name_chr c || Ascii.eqb c ".".

Fixpoint all_chr (p : ascii -> bool) (s : string) : bool :=
  match s with
  | EmptyString => true
  | String c s' => p c && all_chr p s'
  end.

Definition is_NAME (s : string) : bool :=
  match s with
  | EmptyString => false
  | String c s' => is_name_start c && all_chr is_name_chr s'
  end.

(** The digits after the first one, then an optional [. digits]. *)
Fixpoint number_tail (s : string) : bool :=
  match s with
  | EmptyString => true
  | String c s' =>
      if is_digit c then number_tail s'
      else Ascii.eqb c "." && negb (String.eqb s' "") && all_chr is_digit s'
  end.

Definition is_NUMBER (s : string) : bool :=
  match s with
  | EmptyString => false
  | String c s' => is_digit c && number_tail s'
  end.

(** A maximal run of word characters is one token. *)
Definition classify (w : string) : option token :=
  if is_NAME w then Some (NAME w)
  else if is_NUMBER w then Some (NUMBER w)
  else None.

Definition flush (w : string) : option (list token) :=
  match w with
  | EmptyString => Some []
  | _ => match classify w with Some t => Some [t] | None => None end
  end.

Definition sep_token (c : ascii) : option (list token) :=
  if is_space c then Some []
  else if Ascii.eqb c "+" then Some [ADD_OP "+"]
  else if Ascii.eqb c "-" then Some [ADD_OP "-"]
  else if Ascii.eqb c "*" then Some [MUL_OP "*"]
  else if Ascii.eqb c "/" then Some [MUL_OP "/"]
  else if Ascii.eqb c "(" then Some [LPAR]
  else if Ascii.eqb c ")" then Some [RPAR]
  else if Ascii.eqb c "," then Some [COMMA]
  else None.

(** The lexer, with the word read so far. *)
Fixpoint lex_from (cur : string) (s : string) : option (list token) :=
  match s with
  | EmptyString => flush cur
  | String c s' =>
      if is_word_chr c then lex_from (cur +:+ String c EmptyString) s'
      else
        match flush cur, sep_token c, lex_from EmptyString s' with
        | Some a, Some b, Some d => Some (a ++ b ++ d)%list
        | _, _, _ => None
        end
  end.

Definition lex (s : string) : option (list token) := lex_from EmptyString s.

Definition parser := list token -> option (Tree * list token).

(** [( "," expr )* ")"] after a first argument. *)
Fixpoint args_loop (expr : parser) (k : nat) (acc : list Tree)
    (ts : list token) : option (list Tree * list token) :=
  match ts with
  | RPAR :: r => Some (acc, r)
  | COMMA :: r =>
      match k with
      | O => None
      | S k' =>
          match expr r with
          | Some (e, r') => args_loop expr k' (acc ++ [e])%list r'
          | None => None
          end
      end
  | _ => None
  end.

Definition call (fname : string) (params : list Tree) : option Tree :=
  if String.eqb fname "min" then
    if (2 <=? length params)%nat then Some (T_min params) else None
  else if String.eqb fname "max" then
    if (2 <=? length params)%nat then Some (T_max params) else None
  else Some (T_function fname params).

(** A number, a call, a name or a parenthesized expression. *)
Definition atom (expr : parser) (ts : list token) : option (Tree * list token) :=
  match ts with
  | NUMBER s :: r => Some (T_NUMBER s, r)
  | NAME f :: LPAR :: r =>
      match expr r with
      | Some (e, r') =>
          match args_loop expr (length r') [e] r' with
          | Some (params, r'') =>
              match call f params with
              | Some t => Some (t, r'')
              | None => None
              end
          | None => None
          end
      | None => None
      end
  | NAME n :: r => Some (T_name n, r)
  | LPAR :: r =>
      match expr r with
      | Some (e, RPAR :: r') => Some (e, r')
      | _ => None
      end
  | _ => None
  end.

(** [( MUL_OP atom )*], associating to the left. *)
Fixpoint mul_loop (expr : parser) (k : nat) (acc : Tree) (ts : list token)
  : option (Tree * list token) :=
  match ts with
  | MUL_OP op :: r =>
      match k with
      | O => None
      | S k' =>
          match atom expr r with
          | Some (b, r') => mul_loop expr k' (T_mul acc op b) r'
          | None => None
          end
      end
  | _ => Some (acc, ts)
  end.

Definition product (expr : parser) (ts : list token) : option (Tree * list token) :=
  match atom expr ts with
  | Some (a, r) => mul_loop expr (length r) a r
  | None => None
  end.

(** [( ADD_OP product )*], associating to the left. *)
Fixpoint add_loop (expr : parser) (k : nat) (acc : Tree) (ts : list token)
  : option (Tree * list token) :=
  match ts with
  | ADD_OP op :: r =>
      match k with
      | O => None
      | S k' =>
          match product expr r with
          | Some (b, r') => add_loop expr k' (T_add acc op b) r'
          | None => None
          end
      end
  | _ => Some (acc, ts)
  end.

Definition sum (expr : parser) (ts : list token) : option (Tree * list token) :=
  match product expr ts with
  | Some (a, r) => add_loop expr (length r) a r
  | None => None
  end.

(** An expression, with [depth] levels of parentheses and calls left. *)
Fixpoint expr (depth : nat) (ts : list token) : option (Tree * list token) :=
  match depth with
  | O => None
  | S d => sum (expr d) ts
  end.

(** Modelled from the spec: [g_parser.parse(string)], the parser of the
    grammar described above run on the whole text. *)
Definition parse (text : string) : result Tree :=
  match lex text with
  | None => Raise (LarkError "unexpected character")
  | Some ts =>
      match expr (S (length ts)) ts with
      | Some (e, []) => Ok (T_start e)
      | _ => Raise (LarkError "unexpected token")
      end
  end.

End equationgrammar.

(** [equation_string_to_ast] *)
Definition equation_string_to_ast (text : string) : option Tree * option string :=
  match equationgrammar.parse text with
  | Ok ast => (Some ast, None)
  | Raise ex => (None, Some (match ex with LarkError msg => msg | _ => "" end))
  end.

(** [str(ex)] for the exceptions a resolve can meet.  The text of a
    [VisitError] names the callback, here always that of the [NAME] token,
    between double quotes, and gives the text of the original exception
    after an empty line. *)
Fixpoint str_of_exn (e : exn) : string :=
  match e with
  | AssertionError msg => msg
  | KeyError msg => msg
  | LarkError msg => msg
  | RecursionError => "maximum recursion depth exceeded"
  | VisitError e' =>
      "Error trying to process rule " +:+ String "034" "NAME"
        +:+ String "034" ":" +:+ String "010" (String "010" "")
        +:+ str_of_exn e'
  | _ => ""
  end.

Definition equation_ast_to_string (ast : Tree) : result pval :=
  EquationPrettyPrintTransformer.transform ast.

(** [str(equation_ast_to_string(ast))], the text the callers render. *)
Definition equation_ast_to_str (ast : Tree) : result string :=
  let* v := equation_ast_to_string ast in Ok (py_str v).

(** [equation_ast_to_resolved_ast]: only a [VisitError] is caught. *)
Definition equation_ast_to_resolved_ast (depth : nat) (ast : Tree)
    (index_view : IndexedView.t) : result (option Tree * option string) :=
  match EquationResolveTransformer.transform depth index_view ast with
  | Ok resolved => Ok (Some resolved, None)
  | Raise (VisitError orig_exc) => Ok (None, Some (str_of_exn orig_exc))
  | Raise e => Raise e
  end.

(* ===================================================================== *)
(** * [data/semanticinfo.py]                                              *)
(* ===================================================================== *)

(** The loop of [get_info_for] with the code after it; the group and the
    section container run the same loop over their own entry type.
    [no_default] and [two_defaults] are the exceptions of the two failure
    exits. *)
Section GetInfoFor.
Context {Info : Type} (gpu_support : Info -> list string).
Context (no_default two_defaults : exn).

Fixpoint scan (key : string) (info_list : list Info) (default : option Info)
  : result Info :=
  match info_list with
  | [] =>
      match default with
      | None => Raise no_default
      | Some d => Ok d
      end
  | info :: rest =>
      if str_in key (gpu_support info) then Ok info
      else
        match gpu_support info with
        | [] =>
            match default with
            | Some _ => Raise two_defaults
            | None => scan key rest (Some info)
            end
        | _ :: _ => scan key rest default
        end
  end.
End GetInfoFor.

Module SemanticGroupInfo.
Record t := mk {
  name : string;
  long_description : string;
  gpu_support : list string
}.
End SemanticGroupInfo.

Module SemanticGroupInfos.
Record t := mk {
  groups : dict string (list SemanticGroupInfo.t)
}.

Definition get_info_for (self : t) (key group : string)
  : result SemanticGroupInfo.t :=
  match dict_get String.eqb (groups self) group with
  | None | Some [] => Raise (KeyError ("No group for " +:+ key +:+ "." +:+ group))
  | Some group_list =>
      scan SemanticGroupInfo.gpu_support
           (KeyError ("No default for " +:+ key +:+ "." +:+ group))
           (AssertionError "")
           key group_list None
  end.
End SemanticGroupInfos.

Module SemanticSectionInfo.
Record t := mk {
  name : string;
  long_description : string;
  gpu_support : list string
}.
End SemanticSectionInfo.

Module SemanticSectionInfos.
Record t := mk {
  sections : dict string (list SemanticSectionInfo.t)
}.

Definition get_info_for (self : t) (key section : string)
  : result SemanticSectionInfo.t :=
  match dict_get String.eqb (sections self) section with
  | None | Some [] =>
      Raise (KeyError ("No section for " +:+ key +:+ "." +:+ section))
  | Some section_list =>
      scan SemanticSectionInfo.gpu_support
           (KeyError ("No default for " +:+ key +:+ "." +:+ section))
           (AssertionError ("Two defaults for " +:+ section))
           key section_list None
  end.
End SemanticSectionInfos.

(* ===================================================================== *)
(** * [lgcpy_validate.py]                                                 *)
(* ===================================================================== *)

Module lgcpy_validate.

(** ** [validate_stable_ids] *)

(** The state of the first loop.  [missing_ids] keeps, per machine name,
    the positions in the database of the entries without an ID: the
    entries are patched in place afterwards. *)
Record scan_state := mk_scan {
  errors : nat;
  found_ids : dict Z CounterInfo.t;
  found_names : dict string CounterInfo.t;
  missing_ids : dict string (list nat)
}.

(** [missing_ids[machine_name].append(counter)] on a [defaultdict(list)] *)
Definition missing_append (d : dict string (list nat)) (machine_name : string)
    (pos : nat) : dict string (list nat) :=
  match dict_get String.eqb d machine_name with
  | Some l => dict_set String.eqb d machine_name (l ++ [pos])%list
  | None => dict_set String.eqb d machine_name [pos]
  end.

(** The body of [for counter in cnt_db]. *)
Definition scan_step (st : scan_state) (entry : nat * CounterInfo.t) : scan_state :=
  let '(pos, counter) := entry in
  let machine_name := CounterInfo.machine_name counter in
  match CounterInfo.stable_id counter with
  | None =>
      mk_scan (errors st) (found_ids st) (found_names st)
              (missing_append (missing_ids st) machine_name pos)
  | Some stable_id =>
      let '(errors1, found_ids1) :=
        match dict_get Z.eqb (found_ids st) stable_id with
        | None => (errors st, dict_set Z.eqb (found_ids st) stable_id counter)
        | Some other =>
            if negb (String.eqb (CounterInfo.machine_name other) machine_name)
            then (S (errors st), found_ids st)
            else (errors st, found_ids st)
        end in
      let '(errors2, found_names1) :=
        match dict_get String.eqb (found_names st) machine_name with
        | None =>
            (errors1, dict_set String.eqb (found_names st) machine_name counter)
        | Some other =>
            match CounterInfo.stable_id other with
            | Some other_id =>
                if negb (Z.eqb other_id stable_id)
                then (S errors1, found_names st)
                else (errors1, found_names st)
            | None => (S errors1, found_names st)
            end
        end in
      mk_scan errors2 found_ids1 found_names1 (missing_ids st)
  end.

(** [enumerate(cnt_db)]: each entry with its position. *)
Definition enumerate {A} (l : list A) : list (nat * A) :=
  combine (seq 0 (length l)) l.

(** [max(found_ids.keys())] *)
Definition max_key (d : dict Z CounterInfo.t) : result Z :=
  match dict_keys d with
  | [] => Raise ValueError
  | k :: ks => Ok (fold_left Z.max ks k)
  end.

(** The loop of [get_unassigned_id] over [range(i, i + n)]. *)
Fixpoint first_unassigned (d : dict Z CounterInfo.t) (i : Z) (n : nat) : Z :=
  match n with
  | O => 0
  | S n' =>
      if negb (dict_contains Z.eqb d i) then i
      else first_unassigned d (i + 1) n'
  end.

Definition get_unassigned_id (found_ids : dict Z CounterInfo.t) : result Z :=
  let* m := max_key found_ids in
  Ok (first_unassigned found_ids 0 (Z.to_nat (m + 2))).

(** [counter.stable_id = stable_id] for the entry at a position. *)
Definition patch (db : list CounterInfo.t) (stable_id : option Z) (pos : nat)
  : list CounterInfo.t :=
  match db !! pos with
  | Some c => <[pos := CounterInfo.set_stable_id c stable_id]> db
  | None => db
  end.

(** The body of [for machine_name, counters in missing_ids.items()]. *)
Definition assign_step (found_ids : dict Z CounterInfo.t)
    (found_names : dict string CounterInfo.t)
    (acc : nat * list CounterInfo.t) (item : string * list nat)
  : result (nat * list CounterInfo.t) :=
  let '(errors, db) := acc in
  let '(machine_name, counters) := item in
  let* stable_id :=
    match dict_get String.eqb found_names machine_name with
    | Some other => Ok (CounterInfo.stable_id other)
    | None => let* i := get_unassigned_id found_ids in Ok (Some i)
    end in
  Ok (fold_left (fun '(errors, db) pos => (S errors, patch db stable_id pos))
                counters (errors, db)).

(** [validate_stable_ids] on the counter database: the number of errors
    and the database as patched in place. *)
Definition validate_stable_ids (cnt_db : list CounterInfo.t)
  : result (nat * list CounterInfo.t) :=
  let st := fold_left scan_step (enumerate cnt_db) (mk_scan O [] [] []) in
  for_each (assign_step (found_ids st) (found_names st))
           (missing_ids st) (errors st, cnt_db).

(** ** [validate_derived_equation_cardinality] *)

Inductive Domain := GPU | MEM | SC.

#[export] Instance Domain_eq_dec : EqDecision Domain.
Proof. solve_decision. Defined.

Definition Domain_to_nat (d : Domain) : nat :=
  match d with GPU => 0 | MEM => 1 | SC => 2 end%nat.

Definition Domain_of_nat (n : nat) : option Domain :=
  match n with
  | 0 => Some GPU | 1 => Some MEM | 2 => Some SC | _ => None
  end%nat.

#[export] Instance Domain_countable : Countable Domain.
Proof.
  refine (inj_countable Domain_to_nat Domain_of_nat _).
  intros []; reflexivity.
Defined.

(** The [domains] table. *)
Definition domains (b : HardwareBlockType.t) : Domain :=
  match b with
  | HardwareBlockType.GPU_FRONTEND => GPU
  | HardwareBlockType.TILER => GPU
  | HardwareBlockType.MEMORY_SYSTEM => MEM
  | HardwareBlockType.SHADER_CORE => SC
  end.

(** The [scaling_constants] table. *)
Definition scaling_constants (var_name : string) : option Domain :=
  if String.eqb var_name "MALI_CONFIG_L2_CACHE_COUNT" then Some MEM
  else if String.eqb var_name "MALI_CONFIG_SHADER_CORE_COUNT" then Some SC
  else None.

Definition other_constants : list string :=
  ["MALI_CONFIG_TIME_SPAN"; "MALI_CONFIG_EXT_BUS_BYTE_SIZE"].

Definition exceptions : list string :=
  ["MaliFragOverdraw"; "MaliSCBusTileWrBPerPx"].

(** [str(node.children[0])] for the [name] nodes that
    [find_data('name')] yields.  The child is a token, or after a resolve
    a whole tree or [None]; the text of a tree is its [repr], which always
    has an opening parenthesis, so only that is recorded; the text of
    [None] is [None]. *)
Inductive name_child :=
| child_token (text : string)
| child_tree
| child_None.

Fixpoint find_data_name (t : Tree) : list name_child :=
  match t with
  | T_start e => find_data_name e
  | T_name n => [child_token n]
  | T_name_tree sub => child_tree :: find_data_name sub
  | T_name_None => [child_None]
  | T_NUMBER _ => []
  | T_add a _ b => find_data_name a ++ find_data_name b
  | T_mul a _ b => find_data_name a ++ find_data_name b
  | T_function _ ps => flat_map find_data_name ps
  | T_min ps => flat_map find_data_name ps
  | T_max ps => flat_map find_data_name ps
  end%list.

(** ['(' in var_name] *)
Definition has_paren (c : name_child) : bool :=
  match c with
  | child_token text => contains_chr "(" text
  | child_tree => true
  | child_None => false
  end.

(** The body of [for node in ...find_data('name')]. *)
Definition use_step (cnt_db : IndexedView.t)
    (acc : gset Domain * gset Domain) (node : name_child)
  : result (gset Domain * gset Domain) :=
  let '(domain_use, scale_use) := acc in
  match match node with
        | child_token text => Some text
        | child_tree => None
        | child_None => Some "None"
        end with
  | None => Ok acc
  | Some var_name =>
      if str_in var_name other_constants || has_paren node then Ok acc
      else
        match scaling_constants var_name with
        | Some d => Ok (domain_use, {[ d ]} ∪ scale_use)
        | None =>
            match IndexedView.get_by_machine_name cnt_db var_name with
            | None => Raise (AssertionError "")
            | Some var_counter =>
                match CounterView.block_type var_counter with
                | None => Raise (AssertionError "")
                | Some index => Ok ({[ domains index ]} ∪ domain_use, scale_use)
                end
            end
        end
  end.

(** The final [for domain in domain_use] loop over the elements of the
    set, in whatever order the set yields them. *)
Definition count_missing (domain_use scale_use : gset Domain) : nat :=
  fold_left
    (fun errors domain =>
       if bool_decide (domain = GPU) then errors
       else if bool_decide (domain ∉ scale_use) then S errors
       else errors)
    (elements domain_use) O.

(** The body of [for counter in cnt_db]: the errors added for [counter]. *)
Definition check_counter (cnt_db : IndexedView.t) (counter : CounterView.t)
  : result nat :=
  match CounterView.equation_ast_resolved counter with
  | None => Ok O
  | Some resolved =>
      if CounterView.is_derived counter then
        if str_in (CounterView.machine_name counter) exceptions then Ok O
        else
          let* use := for_each (use_step cnt_db) (find_data_name resolved) (∅, ∅) in
          let '(domain_use, scale_use) := use in
          if (size domain_use <=? 1)%nat then Ok O
          else Ok (count_missing domain_use scale_use)
      else Ok O
  end.

(** [validate_derived_equation_cardinality], given the indexed view
    [CounterDatabase.get_indexed_view_for(gpu)]. *)
Definition validate_derived_equation_cardinality (cnt_db : IndexedView.t)
  : result nat :=
  for_each (fun errors counter =>
              let* n := check_counter cnt_db counter in Ok (errors + n)%nat)
           (IndexedView.iter cnt_db) O.

End lgcpy_validate.

(* ===================================================================== *)
(** * Examples used by the properties below                               *)
(* ===================================================================== *)

Module Examples.

Definition A := T_name "A".
Definition B := T_name "B".
Definition C := T_name "C".

(** The tree of [(A + B) * C]. *)
Definition sum_times := T_start (T_mul (T_add A "+" B) "*" C).

(** The tree of [A + B * C]. *)
Definition plus_product := T_start (T_add A "+" (T_mul B "*" C)).

(** A product without the asynchronous clock and one with it. *)
Definition product_sync := ProductInfo.mk "Mali-G78" [].
Definition product_async := ProductInfo.mk "Mali-G715" ["async_clock"].

(** A hardware layout with one shader-core slot and one tiler slot. *)
Definition layout : HardwareLayout.t :=
  fun name =>
    if String.eqb name "FRAG_ACTIVE" then
      Some (HardwareBlockLayout.mk HardwareBlockType.SHADER_CORE 0 [],
            HardwareCounterLayout.mk "FRAG_ACTIVE" 4 0)
    else if String.eqb name "TILER_ACTIVE" then
      Some (HardwareBlockLayout.mk HardwareBlockType.TILER 0 [],
            HardwareCounterLayout.mk "TILER_ACTIVE" 5 2)
    else None.

Definition native (machine_name : string) (stable_id : Z) (source_name : string)
    (gpus : list string) : CounterInfo.t :=
  CounterInfo.mk machine_name (Some stable_id) (Some source_name) [source_name]
    machine_name "Group" machine_name CounterVisibility.NOVICE "cycles"
    None gpus.

Definition derived (machine_name : string) (stable_id : Z)
    (visibility : CounterVisibility.t) (equation : Tree) (gpus : list string)
  : CounterInfo.t :=
  CounterInfo.mk machine_name (Some stable_id) None []
    machine_name "Group" machine_name visibility "cycles"
    (Some equation) gpus.

(** A native counter whose source name no slot of [layout] carries. *)
Definition orphan := native "MaliOrphan" 7 "NO_SUCH_SLOT" ["Mali-G78"; "Mali-G715"].

Definition frag := native "MaliFragActive" 1 "FRAG_ACTIVE" ["Mali-G78"; "Mali-G715"].
Definition tiler := native "MaliTilerActive" 2 "TILER_ACTIVE" ["Mali-G78"; "Mali-G715"].

End Examples.

Module Examples2.

(** The view [from_db] builds for [Examples.orphan]. *)
Definition orphan_view : CounterView.t :=
  CounterView.mk None 0 1 None "MaliOrphan" 7 "MaliOrphan" "Group" "MaliOrphan"
    CounterVisibility.NOVICE "cycles" None None None (Some "NO_SUCH_SLOT").

(** The view [from_db] builds for [Examples.frag] on the product with the
    asynchronous clock. *)
Definition frag_view : CounterView.t :=
  CounterView.mk (Some HardwareBlockType.SHADER_CORE) 4 1
    (Some CounterClockDomain.SHADER_CORE) "MaliFragActive" 1 "MaliFragActive"
    "Group" "MaliFragActive" CounterVisibility.NOVICE "cycles" None None None
    (Some "FRAG_ACTIVE").

End Examples2.

(** What the XML loader guarantees of a counter entry: source-name aliases
    are non-empty ([assert child_node.text]). *)
Definition aliases_nonempty (ci : CounterInfo.t) : Prop :=
  forall a, In a (CounterInfo.source_name_aliases ci) -> truthy_str a = true.

(** The names [from_db] tries against the layout, in order. *)
Definition source_names (ci : CounterInfo.t) : list string :=
  (match CounterInfo.source_name ci with
   | Some sn => [sn]
   | None => []
   end ++ CounterInfo.source_name_aliases ci)%list.

(** ** Documentation lookup, as a selection rule

    The entries that stand before the first entry naming the key are the
    ones the loop looks at for a default. *)
Section GetInfoRule.
Context {Info : Type} (gpu_support : Info -> list string).
Context (no_default two_defaults : exn).

Definition names_key (key : string) (info : Info) : bool :=
  str_in key (gpu_support info).

Definition is_default (info : Info) : bool :=
  match gpu_support info with [] => true | _ :: _ => false end.

Fixpoint before_match (key : string) (l : list Info) : list Info :=
  match l with
  | [] => []
  | info :: rest =>
      if names_key key info then [] else info :: before_match key rest
  end.

(** Two defaults before any entry naming the key are an assertion failure;
    otherwise the first entry naming the key is returned; failing that,
    the single default; failing that, a [KeyError]. *)
Definition select (key : string) (l : list Info) : result Info :=
  match List.filter is_default (before_match key l) with
  | _ :: _ :: _ => Raise two_defaults
  | defaults =>
      match List.find (names_key key) l with
      | Some info => Ok info
      | None =>
          match defaults with
          | [d] => Ok d
          | _ => Raise no_default
          end
      end
  end.
End GetInfoRule.

Module Examples3.

Definition exact := SemanticGroupInfo.mk "Shader core" "For this product" ["Mali-G78"].
Definition default1 := SemanticGroupInfo.mk "Shader core" "Default" [].
Definition default2 := SemanticGroupInfo.mk "Shader core" "Another default" [].
Definition other := SemanticGroupInfo.mk "Shader core" "For another product" ["Mali-G710"].

Definition infos (l : list SemanticGroupInfo.t) : SemanticGroupInfos.t :=
  SemanticGroupInfos.mk [("Shader core", l)].

End Examples3.

Module Examples4.

Definition entry (machine_name : string) (stable_id : option Z) : CounterInfo.t :=
  CounterInfo.mk machine_name stable_id (Some machine_name) [machine_name]
    machine_name "Group" machine_name CounterVisibility.NOVICE "cycles"
    None ["Mali-G78"].

(** One entry with an ID and two entries, of different machine names,
    without. *)
Definition two_missing : list CounterInfo.t :=
  [entry "MaliA" (Some 0); entry "MaliB" None; entry "MaliC" None].

Definition two_missing_patched : list CounterInfo.t :=
  [entry "MaliA" (Some 0); entry "MaliB" (Some 1); entry "MaliC" (Some 1)].

(** A database in which no entry has an ID yet. *)
Definition none_assigned : list CounterInfo.t := [entry "MaliA" None].

End Examples4.

(** ** The predicate of [filter] and the shape of an index by stable ID *)

(** [c.visibility.value <= max_visibility.value and
    (derived or not c.is_derived())]. *)
Definition passes (max_visibility : CounterVisibility.t) (derived : bool)
    (c : CounterView.t) : bool :=
  CounterView.is_visible c max_visibility
  && (derived || negb (CounterView.is_derived c)).

(** The keys of a dictionary are distinct, and the index by stable ID
    files each counter under its own stable ID, as [from_db] and [filter]
    build it. *)
Definition by_stable_id_wf (view : IndexedView.t) : Prop :=
  NoDup (dict_keys (IndexedView.by_stable_id view))
  /\ forall k c, In (k, c) (IndexedView.by_stable_id view) ->
                 k = CounterView.stable_id c.

(** The five indices built over a list of counters, in order. *)
Definition build_indexes (gpu key : string) (counters : list CounterView.t)
  : IndexedView.t :=
  fold_left IndexedView.add_indexes counters (IndexedView.init gpu key).


Module Examples5.

Definition view_of (ci : CounterInfo.t) (block : option HardwareBlockType.t)
    (source_name : option string) : CounterView.t :=
  CounterView.mk block 0 1 (option_map (fun _ => CounterClockDomain.GPU) block)
    (CounterInfo.machine_name ci)
    (match CounterInfo.stable_id ci with Some i => i | None => 0 end)
    (CounterInfo.human_name ci) (CounterInfo.group_name ci)
    (CounterInfo.group_human_name ci) (CounterInfo.visibility ci)
    (CounterInfo.units ci) (CounterInfo.equation_ast ci) None None source_name.

Definition frag_view :=
  view_of Examples.frag (Some HardwareBlockType.SHADER_CORE) (Some "FRAG_ACTIVE").
Definition tiler_view :=
  view_of Examples.tiler (Some HardwareBlockType.TILER) (Some "TILER_ACTIVE").
Definition ratio_view :=
  view_of (Examples.derived "MaliRatio" 3 CounterVisibility.NOVICE
             (T_start (T_mul (T_name "MaliFragActive") "/" (T_name "MaliTilerActive")))
             ["Mali-G78"]) None None.
Definition internal_view :=
  view_of (Examples.derived "MaliInternal" 4 CounterVisibility.INTERNAL
             (T_start (T_name "MaliFragActive")) ["Mali-G78"]) None None.

Definition source_view : IndexedView.t :=
  build_indexes "Mali-G78" "Mali-G78"
    [frag_view; tiler_view; ratio_view; internal_view].

End Examples5.

(** ** Resolved trees

    The names a tree holds: the tokens of its [name] nodes, also inside
    the sub-trees a resolve has put in the place of a token. *)
Fixpoint leaf_names (t : Tree) : list string :=
  match t with
  | T_start e => leaf_names e
  | T_name n => [n]
  | T_name_tree sub => leaf_names sub
  | T_name_None => []
  | T_NUMBER _ => []
  | T_add a _ b => leaf_names a ++ leaf_names b
  | T_mul a _ b => leaf_names a ++ leaf_names b
  | T_function _ ps => flat_map leaf_names ps
  | T_min ps => flat_map leaf_names ps
  | T_max ps => flat_map leaf_names ps
  end%list.

(** Some [name] node of the tree holds [None]. *)
Fixpoint holds_None (t : Tree) : bool :=
  match t with
  | T_start e => holds_None e
  | T_name _ => false
  | T_name_tree sub => holds_None sub
  | T_name_None => true
  | T_NUMBER _ => false
  | T_add a _ b => holds_None a || holds_None b
  | T_mul a _ b => holds_None a || holds_None b
  | T_function _ ps => existsb holds_None ps
  | T_min ps => existsb holds_None ps
  | T_max ps => existsb holds_None ps
  end.

(** A name that may stay in a resolved tree: a constant, kept literally,
    or the machine name of a native counter of the view. *)
Definition primitive_name (index_view : IndexedView.t) (n : string) : Prop :=
  CONSTANT_PATTERN_match n = true
  \/ exists counter,
       IndexedView.get_by_machine_name index_view n = Some counter
       /\ CounterView.is_derived counter = false.

(** [resolved_of index_view t r]: [r] is [t] with every name that refers
    to a derived counter replaced, in place, by the resolved tree of that
    counter's own equation; everything else is as in [t]. *)
Inductive resolved_of (index_view : IndexedView.t) : Tree -> Tree -> Prop :=
| res_start e e' :
    resolved_of index_view e e' ->
    resolved_of index_view (T_start e) (T_start e')
| res_constant n :
    CONSTANT_PATTERN_match n = true ->
    resolved_of index_view (T_name n) (T_name n)
| res_native n counter :
    CONSTANT_PATTERN_match n = false ->
    IndexedView.get_by_machine_name index_view n = Some counter ->
    CounterView.is_derived counter = false ->
    resolved_of index_view (T_name n) (T_name n)
| res_derived n counter ast r :
    CONSTANT_PATTERN_match n = false ->
    IndexedView.get_by_machine_name index_view n = Some counter ->
    CounterView.is_derived counter = true ->
    CounterView.equation_ast counter = Some ast ->
    resolved_of index_view ast r ->
    resolved_of index_view (T_name n) (T_name_tree r)
| res_name_tree sub sub' :
    resolved_of index_view sub sub' ->
    resolved_of index_view (T_name_tree sub) (T_name_tree sub')
| res_NUMBER s :
    resolved_of index_view (T_NUMBER s) (T_NUMBER s)
| res_add a op b a' b' :
    resolved_of index_view a a' -> resolved_of index_view b b' ->
    resolved_of index_view (T_add a op b) (T_add a' op b')
| res_mul a op b a' b' :
    resolved_of index_view a a' -> resolved_of index_view b b' ->
    resolved_of index_view (T_mul a op b) (T_mul a' op b')
| res_function f ps ps' :
    Forall2 (resolved_of index_view) ps ps' ->
    resolved_of index_view (T_function f ps) (T_function f ps')
| res_min ps ps' :
    Forall2 (resolved_of index_view) ps ps' ->
    resolved_of index_view (T_min ps) (T_min ps')
| res_max ps ps' :
    Forall2 (resolved_of index_view) ps ps' ->
    resolved_of index_view (T_max ps) (T_max ps').

Module Examples6.

(** A derived counter that refers to another derived counter and to a
    constant. *)
Definition scaled_view :=
  Examples5.view_of
    (Examples.derived "MaliScaled" 5 CounterVisibility.NOVICE
       (T_start (T_mul (T_name "MaliRatio") "*" (T_name "MALI_CONFIG_SHADER_CORE_COUNT")))
       ["Mali-G78"]) None None.

Definition view : IndexedView.t :=
  build_indexes "Mali-G78" "Mali-G78"
    [Examples5.frag_view; Examples5.tiler_view; Examples5.ratio_view; scaled_view].

Definition scaled_equation : Tree :=
  T_start (T_mul (T_name "MaliRatio") "*" (T_name "MALI_CONFIG_SHADER_CORE_COUNT")).

Definition scaled_resolved : Tree :=
  T_start
    (T_mul
       (T_name_tree
          (T_start (T_mul (T_name "MaliFragActive") "/" (T_name "MaliTilerActive"))))
       "*" (T_name "MALI_CONFIG_SHADER_CORE_COUNT")).

End Examples6.

Module Examples17.

Definition ratio_equation : Tree :=
  T_start (T_mul (T_name "MaliFragActive") "/" (T_name "MaliTilerActive")).

(** A derived counter whose machine name matches the constant pattern. *)
Definition constant_named_view :=
  Examples5.view_of
    (Examples.derived "MALIRATIO" 10 CounterVisibility.NOVICE ratio_equation
       ["Mali-G78"]) None None.

(** [MALIRATIO * 100] *)
Definition percent_equation : Tree :=
  T_start (T_mul (T_name "MALIRATIO") "*" (T_NUMBER "100")).

Definition percent_view :=
  Examples5.view_of
    (Examples.derived "MaliRatioPercent" 11 CounterVisibility.NOVICE
       percent_equation ["Mali-G78"]) None None.

(** A derived counter whose equation did not parse: [equation_ast] is
    [None]. *)
Definition broken_view :=
  Examples5.view_of
    (CounterInfo.mk "MaliBroken" (Some 12) None [] "MaliBroken" "Group"
       "MaliBroken" CounterVisibility.NOVICE "cycles" None ["Mali-G78"])
    None None.

(** [MaliBroken + 1] *)
Definition broken_user_equation : Tree :=
  T_start (T_add (T_name "MaliBroken") "+" (T_NUMBER "1")).

(** What its resolve returns: [None] stands where the name stood. *)
Definition broken_user_resolved : Tree :=
  T_start (T_add T_name_None "+" (T_NUMBER "1")).

Definition broken_user_view :=
  Examples5.view_of
    (Examples.derived "MaliBrokenUser" 13 CounterVisibility.NOVICE
       broken_user_equation ["Mali-G78"]) None None.

Definition view : IndexedView.t :=
  build_indexes "Mali-G78" "Mali-G78"
    [Examples5.frag_view; Examples5.tiler_view; constant_named_view;
     percent_view; broken_view; broken_user_view].

End Examples17.

(** ** The cardinality rule, stated on the names of the expression *)

Module cardinality.
Import lgcpy_validate.

(** The texts of the token children among the [name] nodes. *)
Fixpoint token_texts (nodes : list name_child) : list string :=
  match nodes with
  | [] => []
  | child_token text :: rest => text :: token_texts rest
  | child_tree :: rest => token_texts rest
  | child_None :: rest => "None" :: token_texts rest
  end.

Definition name_tokens (resolved : Tree) : list string :=
  token_texts (find_data_name resolved).

(** A name that stands for a counter operand: not one of the constants
    that are ignored, not a scaling constant. *)
Definition counter_operand (n : string) : bool :=
  negb (str_in n other_constants) && negb (contains_chr "(" n)
  && match scaling_constants n with Some _ => false | None => true end.

Definition in_domain (cnt_db : IndexedView.t) (d : Domain) (n : string) : bool :=
  counter_operand n
  && match IndexedView.get_by_machine_name cnt_db n with
     | Some c =>
         match CounterView.block_type c with
         | Some bt => bool_decide (domains bt = d)
         | None => false
         end
     | None => false
     end.

(** The expression has a counter operand in domain [d]. *)
Definition touches (cnt_db : IndexedView.t) (names : list string) (d : Domain) : bool :=
  existsb (in_domain cnt_db d) names.

(** The scaling constant that matches a domain. *)
Definition scaling_constant_of (d : Domain) : option string :=
  match d with
  | GPU => None
  | MEM => Some "MALI_CONFIG_L2_CACHE_COUNT"
  | SC => Some "MALI_CONFIG_SHADER_CORE_COUNT"
  end.

(** The scaling constant of [d] stands somewhere in the expression. *)
Definition constant_present (names : list string) (d : Domain) : bool :=
  match scaling_constant_of d with
  | Some k => str_in k names
  | None => false
  end.

(** The number of domains the expression touches. *)
Definition domains_touched (cnt_db : IndexedView.t) (names : list string) : nat :=
  length (List.filter (touches cnt_db names) [GPU; MEM; SC]).

(** The non-GPU domains touched without their scaling constant. *)
Definition missing_scaling (cnt_db : IndexedView.t) (names : list string) : list Domain :=
  List.filter (fun d => touches cnt_db names d && negb (constant_present names d))
              [MEM; SC].

(** What the two assertions of the loop take for granted: a counter
    operand is a counter of the view placed in a hardware block. *)
Definition operands_known (cnt_db : IndexedView.t) (names : list string) : Prop :=
  forall n, In n names -> counter_operand n = true ->
    exists c bt, IndexedView.get_by_machine_name cnt_db n = Some c
                 /\ CounterView.block_type c = Some bt.

(** The same for one name, as a test: the name is no counter operand, or
    it is a counter of the view placed in a hardware block. *)
Definition operand_known (cnt_db : IndexedView.t) (n : string) : bool :=
  negb (counter_operand n)
  || match IndexedView.get_by_machine_name cnt_db n with
     | Some c =>
         match CounterView.block_type c with
         | Some _ => true
         | None => false
         end
     | None => false
     end.

(** The resolved equation of a counter that the check examines: the
    counter is derived, has a resolved equation and is not in the
    exception list. *)
Definition examined (counter : CounterView.t) : option Tree :=
  match CounterView.equation_ast_resolved counter with
  | Some resolved =>
      if CounterView.is_derived counter
         && negb (str_in (CounterView.machine_name counter) exceptions)
      then Some resolved else None
  | None => None
  end.

(** Every name of the examined equation is known. *)
Definition names_known (cnt_db : IndexedView.t) (counter : CounterView.t) : bool :=
  match examined counter with
  | Some resolved => forallb (operand_known cnt_db) (name_tokens resolved)
  | None => true
  end.

(** The errors the rule asks for one counter: none unless it is examined
    and its operands touch more than one domain; then one for each of
    MEM and SC touched without its scaling constant. *)
Definition expected_errors (cnt_db : IndexedView.t) (counter : CounterView.t) : nat :=
  match examined counter with
  | Some resolved =>
      let names := name_tokens resolved in
      if (domains_touched cnt_db names <=? 1)%nat then O
      else length (missing_scaling cnt_db names)
  | None => O
  end.

End cardinality.

Module Examples7.

Definition mem_view :=
  Examples5.view_of (Examples.native "MaliL2Rd" 6 "L2_RD" ["Mali-G78"])
    (Some HardwareBlockType.MEMORY_SYSTEM) (Some "L2_RD").

Definition with_resolved (cv : CounterView.t) (resolved : Tree) : CounterView.t :=
  CounterView.mk (CounterView.block_type cv) (CounterView.block_index cv)
    (CounterView.scale_multiplier cv) (CounterView.clock_domain cv)
    (CounterView.machine_name cv) (CounterView.stable_id cv)
    (CounterView.human_name cv) (CounterView.group_name cv)
    (CounterView.group_human_name cv) (CounterView.visibility cv)
    (CounterView.unit cv) (CounterView.equation_ast cv)
    (Some resolved) None (CounterView.source_name cv).

(** [MaliFragActive + MaliL2Rd]: a shader-core counter and a memory-system
    counter, no scaling constant. *)
Definition mixed_equation : Tree :=
  T_start (T_add (T_name "MaliFragActive") "+" (T_name "MaliL2Rd")).

Definition mixed_view :=
  with_resolved
    (Examples5.view_of
       (Examples.derived "MaliMixed" 8 CounterVisibility.NOVICE mixed_equation
          ["Mali-G78"]) None None)
    mixed_equation.

(** The same with both scaling constants as divisors. *)
Definition scaled_equation : Tree :=
  T_start (T_add (T_mul (T_name "MaliFragActive") "/"
                        (T_name "MALI_CONFIG_SHADER_CORE_COUNT"))
                 "+"
                 (T_mul (T_name "MaliL2Rd") "/"
                        (T_name "MALI_CONFIG_L2_CACHE_COUNT"))).

Definition scaled_view :=
  with_resolved
    (Examples5.view_of
       (Examples.derived "MaliMixedScaled" 9 CounterVisibility.NOVICE
          scaled_equation ["Mali-G78"]) None None)
    scaled_equation.

Definition view : IndexedView.t :=
  build_indexes "Mali-G78" "Mali-G78"
    [Examples5.frag_view; Examples5.tiler_view; mem_view; mixed_view; scaled_view].

End Examples7.

Module Examples18.

(** [MaliFragActive + MaliL2Rd * MALI_CONFIG_FOO]: a shader-core counter
    and a memory-system counter, and a constant that the validator does
    not list. *)
Definition foo_equation : Tree :=
  T_start (T_add (T_name "MaliFragActive") "+"
                 (T_mul (T_name "MaliL2Rd") "*" (T_name "MALI_CONFIG_FOO"))).

Definition foo_view :=
  Examples7.with_resolved
    (Examples5.view_of
       (Examples.derived "MaliFoo" 14 CounterVisibility.NOVICE foo_equation
          ["Mali-G78"]) None None)
    foo_equation.

Definition view : IndexedView.t :=
  build_indexes "Mali-G78" "Mali-G78"
    [Examples5.frag_view; Examples7.mem_view; foo_view].

End Examples18.

(** ** The peephole rules of a multiplicative node, as a relation *)

(** The digits of a decimal numeral, most significant first. *)
Fixpoint udigits (d : Decimal.uint) : list Z :=
  match d with
  | Decimal.Nil => []
  | Decimal.D0 d => 0 :: udigits d
  | Decimal.D1 d => 1 :: udigits d
  | Decimal.D2 d => 2 :: udigits d
  | Decimal.D3 d => 3 :: udigits d
  | Decimal.D4 d => 4 :: udigits d
  | Decimal.D5 d => 5 :: udigits d
  | Decimal.D6 d => 6 :: udigits d
  | Decimal.D7 d => 7 :: udigits d
  | Decimal.D8 d => 8 :: udigits d
  | Decimal.D9 d => 9 :: udigits d
  end.

(** The float [r] is exactly the integer [z]. *)
Definition float_integer (r : float) (z : Z) : Prop :=
  int_of_float r = Ok z /\ float_eq r (float_of_int z) = true.

(** A numeric literal: a string that reads as a number. *)
Definition literal (v : pval) : bool :=
  match v with
  | PStr _ => is_number v
  | _ => false
  end.

(** The product or the quotient of two floats. *)
Definition float_binop (op : string) (x y : float) : result float :=
  if String.eqb op "*" then Ok (float_mul x y) else float_truediv x y.

(** An operator node with a numeric right operand, next to a literal. *)
Definition reassociation_candidate (a b : pval) : bool :=
  match a, b with
  | POperatorNode _ _ _ ab _, PStr _ => is_number ab && is_number b
  | _, _ => false
  end.

(** [mul_rule a op b r]: the multiplicative node of operands [a] and [b]
    is rewritten to [r].  The rules are tried in the order given; the last
    one leaves the node as it stands. *)
Inductive mul_rule : pval -> string -> pval -> pval -> Prop :=
| rule_right_one a op :
    mul_rule a op (PStr "1") a
| rule_left_one b :
    py_eq_str b "1" = false ->
    mul_rule (PStr "1") "*" b b
| rule_fold sa op sb x y r z :
    sb <> "1" -> (op = "*" -> sa <> "1") ->
    float_of_str sa = Ok x -> float_of_str sb = Ok y ->
    float_binop op x y = Ok r -> float_integer r z ->
    mul_rule (PStr sa) op (PStr sb) (PStr (str_of_int z))
| rule_reassociate p aa sab s sb x y z :
    sb <> "1" ->
    float_of_str sab = Ok x -> float_of_str sb = Ok y ->
    float_integer (float_mul x y) z ->
    mul_rule (POperatorNode "*" p aa (PStr sab) s) "*" (PStr sb)
             (OperatorNode aa "*" (PStr (str_of_int z)) 1)
| rule_plain a op b :
    py_eq_str b "1" = false ->
    (op = "*" -> py_eq_str a "1" = false) ->
    literal a && literal b = false ->
    (reassociation_candidate a b = false
     \/ exists ao p aa sab s,
          a = POperatorNode ao p aa (PStr sab) s /\ ~ (ao = "*" /\ op = "*")) ->
    mul_rule a op b (OperatorNode a op b 1).

Module Examples8.

(** The trees of [A * 1], [2 * 3], [(A * 2) * 3] and [6 / 3]. *)
Definition times_one := T_start (T_mul (T_name "A") "*" (T_NUMBER "1")).
Definition two_times_three := T_start (T_mul (T_NUMBER "2") "*" (T_NUMBER "3")).
Definition nested_literals :=
  T_start (T_mul (T_mul (T_name "A") "*" (T_NUMBER "2")) "*" (T_NUMBER "3")).
Definition six_by_three := T_start (T_mul (T_NUMBER "6") "/" (T_NUMBER "3")).

End Examples8.

(** ** Trees in the form the parser builds

    [inline t] is [t] without the [start] and [name] wrappers that a
    resolve leaves around a substituted equation: the tree of the same
    expression as the parser would build it. *)
Fixpoint inline (t : Tree) : Tree :=
  match t with
  | T_start e => inline e
  | T_name n => T_name n
  | T_name_tree sub => inline sub
  | T_name_None => T_name_None
  | T_NUMBER s => T_NUMBER s
  | T_add a op b => T_add (inline a) op (inline b)
  | T_mul a op b => T_mul (inline a) op (inline b)
  | T_function f ps => T_function f (map inline ps)
  | T_min ps => T_min (map inline ps)
  | T_max ps => T_max (map inline ps)
  end.

(** The operator and the precedence class of the binary node an
    expression is, if it is one. *)
Fixpoint top_operator (t : Tree) : option (string * Z) :=
  match t with
  | T_start e => top_operator e
  | T_name_tree sub => top_operator sub
  | T_add _ op _ => Some (op, 0)
  | T_mul _ op _ => Some (op, 1)
  | _ => None
  end.

(** The expression is a function call. *)
Fixpoint is_call (t : Tree) : bool :=
  match t with
  | T_start e => is_call e
  | T_name_tree sub => is_call sub
  | T_function _ _ | T_min _ | T_max _ => true
  | _ => false
  end.

(** [left_associated t]: names and numbers are tokens of the grammar;
    operators are those of their node; no right operand is a binary node
    with the operator of its parent (the parser associates to the left); a
    substituted equation is not a bare function call; on no multiplicative
    node does the pretty-printer find a peephole simplification to apply;
    a call has at least one argument, [min] and [max] at least two. *)
Inductive left_associated : Tree -> Prop :=
| la_start e :
    left_associated e -> left_associated (T_start e)
| la_name n :
    equationgrammar.is_NAME n = true -> left_associated (T_name n)
| la_name_tree sub :
    left_associated sub -> is_call sub = false ->
    left_associated (T_name_tree sub)
| la_NUMBER s :
    equationgrammar.is_NUMBER s = true -> left_associated (T_NUMBER s)
| la_add a op b :
    op = "+" \/ op = "-" ->
    left_associated a -> left_associated b ->
    top_operator b <> Some (op, 0) ->
    left_associated (T_add a op b)
| la_mul a op b :
    op = "*" \/ op = "/" ->
    left_associated a -> left_associated b ->
    top_operator b <> Some (op, 1) ->
    (forall va vb,
        EquationPrettyPrintTransformer.transform a = Ok va ->
        EquationPrettyPrintTransformer.transform b = Ok vb ->
        EquationPrettyPrintTransformer.mul va op vb = Ok (OperatorNode va op vb 1)) ->
    left_associated (T_mul a op b)
| la_function f p ps :
    equationgrammar.is_NAME f = true -> f <> "min" -> f <> "max" ->
    Forall left_associated (p :: ps) ->
    left_associated (T_function f (p :: ps))
| la_min p q ps :
    Forall left_associated (p :: q :: ps) ->
    left_associated (T_min (p :: q :: ps))
| la_max p q ps :
    Forall left_associated (p :: q :: ps) ->
    left_associated (T_max (p :: q :: ps)).

(** The tokens of the text the pretty-printer writes for a tree. *)
Module rendering.
Import equationgrammar.

(** An operand between parentheses when it is a binary node that differs
    from its parent in operator or precedence class. *)
Definition operand (operator : string) (precedence : Z) (x : Tree)
    (ts : list token) : list token :=
  match top_operator x with
  | Some (o, p) =>
      if needs_parens operator precedence o p
      then (LPAR :: ts ++ [RPAR])%list
      else ts
  | None => ts
  end.

Fixpoint tokens (t : Tree) : list token :=
  let arguments :=
    fix arguments (ps : list Tree) : list token :=
      match ps with
      | [] => []
      | [p] => tokens p
      | p :: ps' => (tokens p ++ COMMA :: arguments ps')%list
      end in
  match t with
  | T_start e => tokens e
  | T_name n => [NAME n]
  | T_name_tree sub => tokens sub
  | T_name_None => [NAME "None"]
  | T_NUMBER s => [NUMBER s]
  | T_add a op b =>
      (operand op 0 a (tokens a) ++ ADD_OP op :: operand op 0 b (tokens b))%list
  | T_mul a op b =>
      (operand op 1 a (tokens a) ++ MUL_OP op :: operand op 1 b (tokens b))%list
  | T_function f ps => (NAME f :: LPAR :: arguments ps ++ [RPAR])%list
  | T_min ps => (NAME "min" :: LPAR :: arguments ps ++ [RPAR])%list
  | T_max ps => (NAME "max" :: LPAR :: arguments ps ++ [RPAR])%list
  end.

Fixpoint arguments (ps : list Tree) : list token :=
  match ps with
  | [] => []
  | [p] => tokens p
  | p :: ps' => (tokens p ++ COMMA :: arguments ps')%list
  end.

End rendering.

(** ** The round trip through the parser

    What the lexer and the parser make of the text the pretty-printer
    writes. *)

Section RoundTripDefinitions.
Import equationgrammar.

(** The text that may follow a token: nothing, or a separator. *)
Definition sep_start (s : string) : Prop :=
  match s with
  | EmptyString => True
  | String c _ => is_word_chr c = false
  end.

(** The text begins with a separator. *)
Definition sep_head (s : string) : Prop :=
  match s with
  | EmptyString => False
  | String c _ => is_word_chr c = false
  end.

(** [lexes s ts]: in front of the end of the text or of a separator, [s]
    lexes to the tokens [ts]. *)
Definition lexes (s : string) (ts : list token) : Prop :=
  forall s', sep_start s' ->
    lex_from "" (s +:+ s') =
      match lex_from "" s' with
      | Some d => Some (ts ++ d)%list
      | None => None
      end.

(** The value the pretty-printer returns for a tree of a given top. *)
Definition value_shape (t : Tree) (v : pval) : Prop :=
  match top_operator t with
  | Some (o, p) => exists a b s, v = POperatorNode o p a b s
  | None =>
      if is_call t then exists f s, v = PFunctionNode f s
      else exists s, v = PStr s
  end.

Definition prints (t : Tree) (v : pval) : Prop :=
  EquationPrettyPrintTransformer.transform t = Ok v
  /\ value_shape t v
  /\ lexes (py_str v) (rendering.tokens t).

(** A parser that never returns more input than it was given. *)
Definition consumes (E : parser) : Prop :=
  forall ts e r, E ts = Some (e, r) -> (length r <= length ts)%nat.

Definition no_lpar (rest : list token) : Prop :=
  match rest with LPAR :: _ => False | _ => True end.

Definition no_mul (rest : list token) : Prop :=
  match rest with MUL_OP _ :: _ => False | _ => True end.

Definition no_add (rest : list token) : Prop :=
  match rest with ADD_OP _ :: _ => False | _ => True end.

(** What may follow a whole expression. *)
Definition closing (rest : list token) : Prop :=
  no_lpar rest /\ no_mul rest /\ no_add rest.

(** The arguments after the first, each behind its comma. *)
Fixpoint rest_arguments (ps : list Tree) : list token :=
  match ps with
  | [] => []
  | p :: ps' => (COMMA :: rendering.tokens p ++ rest_arguments ps')%list
  end.

(** [parses_as t]: in front of anything but an opening parenthesis, the
    tokens of [t] are read as [inline t]: by [atom] when [t] is no binary
    node, else up to the point where the loop of its level goes on. *)
Definition parses_as (t : Tree) : Prop :=
  forall d rest,
    (length (rendering.tokens t) <= d)%nat -> no_lpar rest ->
    match top_operator t with
    | None => atom (expr d) (rendering.tokens t ++ rest) = Some (inline t, rest)
    | Some (_, p) =>
        if (p =? 1)%Z then
          forall k, (length rest <= k)%nat ->
            product (expr d) (rendering.tokens t ++ rest)
            = mul_loop (expr d) k (inline t) rest
        else
          no_mul rest ->
          forall k, (length rest <= k)%nat ->
            sum (expr d) (rendering.tokens t ++ rest)
            = add_loop (expr d) k (inline t) rest
    end.

End RoundTripDefinitions.

Module Examples9.

(** The resolved tree of [(A + D) * C], with [D] a derived counter of
    equation [B - 2]. *)
Definition substituted : Tree :=
  T_start
    (T_mul
       (T_add (T_name "A") "+"
          (T_name_tree (T_start (T_add (T_name "B") "-" (T_NUMBER "2")))))
       "*" (T_name "C")).

(** An equation with a literal on either side of a parenthesis, over a
    native counter of [Examples6.view]. *)
Definition nested_product_text : string := "2 * (3 * MaliFragActive)".

Definition nested_product : Tree :=
  T_start
    (T_mul (T_NUMBER "2") "*"
       (T_mul (T_NUMBER "3") "*" (T_name "MaliFragActive"))).

Definition reparsed_product : Tree :=
  T_start
    (T_mul (T_mul (T_NUMBER "2") "*" (T_NUMBER "3")) "*"
       (T_name "MaliFragActive")).

(** An equation whose two literals have the product 1, and the tree of
    the text it prints as. *)
Definition halved_doubled_text : string := "(MaliFragActive * 0.5) * 2".

Definition halved_doubled : Tree :=
  T_start
    (T_mul (T_mul (T_name "MaliFragActive") "*" (T_NUMBER "0.5")) "*"
       (T_NUMBER "2")).

Definition product_with_one : Tree :=
  T_start (T_mul (T_name "MaliFragActive") "*" (T_NUMBER "1")).

(** [(MaliFragActive / 6) / 3] and [MaliFragActive / (6 / 3)] *)
Definition left_quotient : Tree :=
  T_start
    (T_mul (T_mul (T_name "MaliFragActive") "/" (T_NUMBER "6")) "/"
       (T_NUMBER "3")).

Definition right_quotient : Tree :=
  T_start
    (T_mul (T_name "MaliFragActive") "/"
       (T_mul (T_NUMBER "6") "/" (T_NUMBER "3"))).

(** [A - (B - C)] and [(A - B) - C] *)
Definition right_difference : Tree :=
  T_start (T_add (T_name "A") "-" (T_add (T_name "B") "-" (T_name "C"))).

Definition left_difference : Tree :=
  T_start (T_add (T_add (T_name "A") "-" (T_name "B")) "-" (T_name "C")).

(** [(A * 2) * 3], [(A * 6) * 1] and [A * 6] *)
Definition folded_product : Tree :=
  T_start (T_mul (T_mul (T_name "A") "*" (T_NUMBER "2")) "*" (T_NUMBER "3")).

Definition times_one : Tree :=
  T_start (T_mul (T_mul (T_name "A") "*" (T_NUMBER "6")) "*" (T_NUMBER "1")).

Definition times_six : Tree :=
  T_start (T_mul (T_name "A") "*" (T_NUMBER "6")).

(** A derived counter of equation [f(A)] substituted for its name, and
    the call itself. *)
Definition substituted_call : Tree :=
  T_start (T_name_tree (T_start (T_function "f" [T_name "A"]))).

Definition bare_call : Tree :=
  T_start (T_function "f" [T_name "A"]).

End Examples9.

(** ** What the lookups of an indexed view return *)

(** The entries of the counter database that [from_db] does not skip. *)
Definition supported (key : string) (ct_db : list CounterInfo.t)
  : list CounterInfo.t :=
  List.filter (fun c => CounterInfo.supports_gpu c key) ct_db.

(** The last element of a list that satisfies a test. *)
Definition last_match {A} (p : A -> bool) (l : list A) : option A :=
  find p (rev l).

(** The key a counter is filed under in the index by source name, when it
    is filed there at all. *)
Definition source_key (c : CounterView.t) : option string :=
  match CounterView.source_name c with
  | Some sn => if truthy_str sn then Some (lower sn) else None
  | None => None
  end.

Definition group_index (c : CounterView.t) : string :=
  CounterView.group_name c +:+ "|" +:+ CounterView.group_human_name c.

(** The lower of two visibility levels. *)
Definition lower_visibility (a b : CounterVisibility.t) : CounterVisibility.t :=
  if Z.leb (CounterVisibility.value a) (CounterVisibility.value b) then a else b.

(* ===================================================================== *)
(** * [view/hardwareview.py]                                              *)
(* ===================================================================== *)

(** [HardwareBlockView], a list of counter views that carries the type of
    its block. *)
Module HardwareBlockView.
Record t := mk {
  btype : HardwareBlockType.t;
  counters : list CounterView.t
}.

(** [HardwareBlockView.__init__] *)
Definition init (btype : HardwareBlockType.t) : t := mk btype [].

(** [list.append] *)
Definition append (self : t) (counter : CounterView.t) : t :=
  mk (btype self) (counters self ++ [counter])%list.

(** [HardwareBlockView.from_db]; iterating over a block of the layout
    yields its slots in order.  A counter view is a truthy object. *)
Definition from_db (hw_db : HardwareBlockLayout.t) (i_view : IndexedView.t)
  : result t :=
  let view := init (HardwareBlockLayout.btype hw_db) in
  for_each
    (fun view hw_cnt =>
       let child_view :=
         IndexedView.get_by_source_name i_view (HardwareCounterLayout.name hw_cnt) in
       match child_view with
       | Some child_view => Ok (append view child_view)
       | None => Raise (AssertionError "")
       end)
    (HardwareBlockLayout.counters hw_db) view.
End HardwareBlockView.

(** [HardwareView], a list of block views. *)
Module HardwareView.
Definition t := list HardwareBlockView.t.

(** [HardwareView.iter_counters] *)
Definition iter_counters (self : t) : list CounterView.t :=
  flat_map HardwareBlockView.counters self.

(** The inner loop of [filter] over the counters of one block. *)
Definition filter_block (max_visibility : CounterVisibility.t) (derived : bool)
    (block : HardwareBlockView.t) : HardwareBlockView.t :=
  let filtered_block := HardwareBlockView.init (HardwareBlockView.btype block) in
  fold_left
    (fun filtered_block counter =>
       if negb (CounterView.is_visible counter max_visibility) then filtered_block
       else if CounterView.is_derived counter && negb derived then filtered_block
       else HardwareBlockView.append filtered_block counter)
    (HardwareBlockView.counters block) filtered_block.

(** [HardwareView.filter]; a block view is truthy when it is not empty. *)
Definition filter (self : t) (max_visibility : CounterVisibility.t)
    (derived : bool) : t :=
  let filtered_view := [] in
  fold_left
    (fun filtered_view block =>
       let filtered_block := filter_block max_visibility derived block in
       match HardwareBlockView.counters filtered_block with
       | _ :: _ => (filtered_view ++ [filtered_block])%list
       | [] => filtered_view
       end)
    self filtered_view.

(** [HardwareView.from_db]; [hw_db] is given by the blocks that iterating
    over the layout of the product yields, in layout order. *)
Definition from_db (hw_db : list HardwareBlockLayout.t) (i_view : IndexedView.t)
  : result t :=
  let view := [] in
  for_each
    (fun view hw_bl =>
       if negb (Z.eqb (HardwareBlockLayout.bank hw_bl) 0) then Ok view
       else
         let* child_view := HardwareBlockView.from_db hw_bl i_view in
         Ok (view ++ [child_view])%list)
    hw_db view.
End HardwareView.

(** The blocks of a layout that feed the hardware view. *)
Definition bank0 (hw_db : list HardwareBlockLayout.t) : list HardwareBlockLayout.t :=
  List.filter (fun bl => Z.eqb (HardwareBlockLayout.bank bl) 0) hw_db.

(** The block view in which every slot of a block of the layout holds the
    counter the index by source name returns for the name of the slot. *)
Definition block_of_layout (i_view : IndexedView.t) (bv : HardwareBlockView.t)
    (bl : HardwareBlockLayout.t) : Prop :=
  HardwareBlockView.btype bv = HardwareBlockLayout.btype bl
  /\ Forall2 (fun cv slot =>
                IndexedView.get_by_source_name i_view
                  (HardwareCounterLayout.name slot) = Some cv)
             (HardwareBlockView.counters bv) (HardwareBlockLayout.counters bl).

(** The blocks [filter] keeps, stated on lists. *)
Fixpoint kept_blocks (m : CounterVisibility.t) (d : bool)
    (v : list HardwareBlockView.t) : list HardwareBlockView.t :=
  match v with
  | [] => []
  | b :: v' =>
      match List.filter (passes m d) (HardwareBlockView.counters b) with
      | [] => kept_blocks m d v'
      | cs => HardwareBlockView.mk (HardwareBlockView.btype b) cs
              :: kept_blocks m d v'
      end
  end.

Module Examples10.

Definition blocks : list HardwareBlockLayout.t :=
  [HardwareBlockLayout.mk HardwareBlockType.SHADER_CORE 0
     [HardwareCounterLayout.mk "FRAG_ACTIVE" 4 0];
   HardwareBlockLayout.mk HardwareBlockType.SHADER_CORE 1
     [HardwareCounterLayout.mk "FRAG_ACTIVE_BANK1" 4 0];
   HardwareBlockLayout.mk HardwareBlockType.TILER 0
     [HardwareCounterLayout.mk "TILER_ACTIVE" 5 2]].

(** The indexed view of two native counters. *)
Definition index_view : IndexedView.t :=
  build_indexes "Mali-G78" "Mali-G78" [Examples5.frag_view; Examples5.tiler_view].

Definition hardware_view : HardwareView.t :=
  [HardwareBlockView.mk HardwareBlockType.SHADER_CORE [Examples5.frag_view];
   HardwareBlockView.mk HardwareBlockType.TILER [Examples5.tiler_view]].

(** A view with a block that holds an internal counter only. *)
Definition mixed_view : HardwareView.t :=
  [HardwareBlockView.mk HardwareBlockType.SHADER_CORE
     [Examples5.frag_view; Examples5.internal_view];
   HardwareBlockView.mk HardwareBlockType.MEMORY_SYSTEM [Examples5.internal_view];
   HardwareBlockView.mk HardwareBlockType.TILER [Examples5.tiler_view]].

End Examples10.

(* ===================================================================== *)
(** * [data/semanticlayout.py]                                            *)
(* ===================================================================== *)

Module SemanticCounterLayout.
Record t := mk {
  name : string
}.
End SemanticCounterLayout.

Module SemanticGroupLayout.
Record t := mk {
  name : string;
  counters : dict string SemanticCounterLayout.t
}.

(** [SemanticGroupLayout.__init__] *)
Definition init (name : string) : t := mk name [].

(** [SemanticGroupLayout.append] *)
Definition append (self : t) (counter : SemanticCounterLayout.t) : result t :=
  let* _ := assert (negb (dict_contains String.eqb (counters self)
                            (SemanticCounterLayout.name counter)))
                   ("Duplicate semantic counter: "
                      +:+ SemanticCounterLayout.name counter) in
  Ok (mk (name self)
         (dict_set String.eqb (counters self)
                   (SemanticCounterLayout.name counter) counter)).

(** [SemanticGroupLayout.__iter__] *)
Definition iter (self : t) : list SemanticCounterLayout.t :=
  dict_values (counters self).
End SemanticGroupLayout.

Module SemanticSectionLayout.
Record t := mk {
  name : string;
  groups : dict string SemanticGroupLayout.t
}.

(** [SemanticSectionLayout.__init__] *)
Definition init (name : string) : t := mk name [].

(** [SemanticSectionLayout.append] *)
Definition append (self : t) (group : SemanticGroupLayout.t) : result t :=
  let* _ := assert (negb (dict_contains String.eqb (groups self)
                            (SemanticGroupLayout.name group)))
                   ("Duplicate semantic group: "
                      +:+ SemanticGroupLayout.name group) in
  Ok (mk (name self)
         (dict_set String.eqb (groups self)
                   (SemanticGroupLayout.name group) group)).

(** [SemanticSectionLayout.__iter__] *)
Definition iter (self : t) : list SemanticGroupLayout.t :=
  dict_values (groups self).
End SemanticSectionLayout.

Module SemanticLayout.
Record t := mk {
  copyright : string;
  sections : dict string SemanticSectionLayout.t
}.

(** [SemanticLayout.__init__] *)
Definition init (copyright_msg : string) : t := mk copyright_msg [].

(** [SemanticLayout.append] *)
Definition append (self : t) (section : SemanticSectionLayout.t) : result t :=
  let* _ := assert (negb (dict_contains String.eqb (sections self)
                            (SemanticSectionLayout.name section)))
                   ("Duplicate semantic section: "
                      +:+ SemanticSectionLayout.name section) in
  Ok (mk (copyright self)
         (dict_set String.eqb (sections self)
                   (SemanticSectionLayout.name section) section)).

(** [SemanticLayout.iter_sections] and [SemanticLayout.__iter__] *)
Definition iter_sections (self : t) : list SemanticSectionLayout.t :=
  dict_values (sections self).

Definition iter (self : t) : list SemanticSectionLayout.t :=
  dict_values (sections self).

(** [SemanticLayout.iter_groups] *)
Definition iter_groups (self : t) : list SemanticGroupLayout.t :=
  flat_map (fun section => dict_values (SemanticSectionLayout.groups section))
           (dict_values (sections self)).
End SemanticLayout.

(* ===================================================================== *)
(** * [view/semanticview.py]                                              *)
(* ===================================================================== *)

(** [x in string.ascii_lowercase + string.digits] for a character *)
Definition valid_anchor_chr (x : ascii) : bool := is_lower x || is_digit x.


(** [''.join(x for x in anchor if x in valid_chars)] *)
Fixpoint keep_chrs (p : ascii -> bool) (s : string) : string :=
  match s with
  | EmptyString => EmptyString
  | String c s' => if p c then String c (keep_chrs p s') else keep_chrs p s'
  end.

Module SemanticGroupView.
Record t := mk {
  name : string;
  long_description : string;
  counters : dict string CounterView.t
}.

(** [SemanticGroupView.__init__] *)
Definition init (name long_description : string) : t :=
  mk name long_description [].

(** [SemanticGroupView.__iter__] *)
Definition iter (self : t) : list CounterView.t := dict_values (counters self).

(** [SemanticGroupView.get_anchor] *)
Definition get_anchor (self : t) : string :=
  let anchor := lower (name self) in
  let anchor := keep_chrs valid_anchor_chr anchor in
  "g_" +:+ anchor.

(** [sem_view.counters[name] = child_view] *)
Definition set_counter (self : t) (key : string) (c : CounterView.t) : t :=
  mk (name self) (long_description self)
     (dict_set String.eqb (counters self) key c).

(** [SemanticGroupView.from_db]; a counter view is a truthy object. *)
Definition from_db (gpu : string) (sem_db : SemanticGroupLayout.t)
    (grp_db : SemanticGroupInfos.t) (i_view : IndexedView.t) : result t :=
  let* info :=
    SemanticGroupInfos.get_info_for grp_db gpu (SemanticGroupLayout.name sem_db) in
  let sem_view := init (SemanticGroupLayout.name sem_db)
                       (SemanticGroupInfo.long_description info) in
  Ok (fold_left
        (fun sem_view counter =>
           let child_view :=
             IndexedView.get_by_group_names i_view (name sem_view)
               (SemanticCounterLayout.name counter) in
           match child_view with
           | Some child_view =>
               set_counter sem_view (SemanticCounterLayout.name counter) child_view
           | None => sem_view
           end)
        (SemanticGroupLayout.iter sem_db) sem_view).
End SemanticGroupView.

Module SemanticSectionView.
Record t := mk {
  name : string;
  long_description : string;
  groups : dict string SemanticGroupView.t
}.

(** [SemanticSectionView.__init__] *)
Definition init (name long_description : string) : t :=
  mk name long_description [].

(** [SemanticSectionView.__iter__] *)
Definition iter (self : t) : list SemanticGroupView.t := dict_values (groups self).

(** [SemanticSectionView.get_anchor] *)
Definition get_anchor (self : t) : string :=
  let anchor := lower (name self) in
  let anchor := keep_chrs valid_anchor_chr anchor in
  "s_" +:+ anchor.

(** [sem_view.groups[name] = child_view] *)
Definition set_group (self : t) (key : string) (g : SemanticGroupView.t) : t :=
  mk (name self) (long_description self)
     (dict_set String.eqb (groups self) key g).

(** [SemanticSectionView.from_db]; a [KeyError] from a group is caught and
    the group is passed over, any other exception goes to the caller. *)
Definition from_db (key : string) (sem_db : SemanticSectionLayout.t)
    (sec_db : SemanticSectionInfos.t) (grp_db : SemanticGroupInfos.t)
    (i_view : IndexedView.t) : result t :=
  let* info :=
    SemanticSectionInfos.get_info_for sec_db key (SemanticSectionLayout.name sem_db) in
  let sem_view := init (SemanticSectionLayout.name sem_db)
                       (SemanticSectionInfo.long_description info) in
  for_each
    (fun sem_view group =>
       match SemanticGroupView.from_db key group grp_db i_view with
       | Ok child_view =>
           match SemanticGroupView.counters child_view with
           | _ :: _ =>
               Ok (set_group sem_view (SemanticGroupLayout.name group) child_view)
           | [] => Ok sem_view
           end
       | Raise (KeyError _) => Ok sem_view
       | Raise e => Raise e
       end)
    (SemanticSectionLayout.iter sem_db) sem_view.
End SemanticSectionView.

Module SemanticView.
Record t := mk {
  sections : dict string SemanticSectionView.t
}.

(** [SemanticView.__init__] *)
Definition init : t := mk [].

(** [SemanticView.iter_sections] and [SemanticView.__iter__] *)
Definition iter_sections (self : t) : list SemanticSectionView.t :=
  dict_values (sections self).

Definition iter (self : t) : list SemanticSectionView.t :=
  dict_values (sections self).

(** [SemanticView.iter_groups] *)
Definition iter_groups (self : t) : list SemanticGroupView.t :=
  flat_map (fun section => dict_values (SemanticSectionView.groups section))
           (dict_values (sections self)).

(** [SemanticView.iter_counters] *)
Definition iter_counters (self : t) : list CounterView.t :=
  flat_map
    (fun section =>
       flat_map (fun group => dict_values (SemanticGroupView.counters group))
                (dict_values (SemanticSectionView.groups section)))
    (dict_values (sections self)).

(** The loop of [filter] over the counters of a group. *)
Definition filter_group (max_visibility : CounterVisibility.t) (derived : bool)
    (grp_name : string) (grp : SemanticGroupView.t) : SemanticGroupView.t :=
  let flt_grp :=
    SemanticGroupView.init grp_name (SemanticGroupView.long_description grp) in
  fold_left
    (fun flt_grp '(cnt_name, cnt) =>
       if negb (CounterView.is_visible cnt max_visibility) then flt_grp
       else if CounterView.is_derived cnt && negb derived then flt_grp
       else SemanticGroupView.set_counter flt_grp cnt_name cnt)
    (SemanticGroupView.counters grp) flt_grp.

(** The loop of [filter] over the groups of a section. *)
Definition filter_section (max_visibility : CounterVisibility.t) (derived : bool)
    (sec_name : string) (sec : SemanticSectionView.t) : SemanticSectionView.t :=
  let flt_sec :=
    SemanticSectionView.init sec_name (SemanticSectionView.long_description sec) in
  fold_left
    (fun flt_sec '(grp_name, grp) =>
       let flt_grp := filter_group max_visibility derived grp_name grp in
       match SemanticGroupView.counters flt_grp with
       | _ :: _ => SemanticSectionView.set_group flt_sec grp_name flt_grp
       | [] => flt_sec
       end)
    (SemanticSectionView.groups sec) flt_sec.

(** [SemanticView.filter]; a dictionary is truthy when it is not empty. *)
Definition filter (self : t) (max_visibility : CounterVisibility.t)
    (derived : bool) : t :=
  let flt_view := init in
  fold_left
    (fun flt_view '(sec_name, sec) =>
       let flt_sec := filter_section max_visibility derived sec_name sec in
       match SemanticSectionView.groups flt_sec with
       | _ :: _ =>
           mk (dict_set String.eqb (sections flt_view) sec_name flt_sec)
       | [] => flt_view
       end)
    (sections self) flt_view.

(** [SemanticView.from_db]; a [KeyError] from a section is caught and the
    section is passed over. *)
Definition from_db (key : string) (sem_db : SemanticLayout.t)
    (sec_db : SemanticSectionInfos.t) (grp_db : SemanticGroupInfos.t)
    (i_view : IndexedView.t) : result t :=
  let sem_view := init in
  for_each
    (fun sem_view section =>
       match SemanticSectionView.from_db key section sec_db grp_db i_view with
       | Ok child_view =>
           match SemanticSectionView.groups child_view with
           | _ :: _ =>
               Ok (mk (dict_set String.eqb (sections sem_view)
                                (SemanticSectionLayout.name section) child_view))
           | [] => Ok sem_view
           end
       | Raise (KeyError _) => Ok sem_view
       | Raise e => Raise e
       end)
    (SemanticLayout.iter sem_db) sem_view.
End SemanticView.

(** ** Well-formed semantic views

    The keys of a Python dictionary are distinct. *)
Definition distinct_keys {V} (d : dict string V) : Prop := NoDup (dict_keys d).

Definition semantic_view_wf (v : SemanticView.t) : Prop :=
  distinct_keys (SemanticView.sections v)
  /\ Forall (fun sec =>
               distinct_keys (SemanticSectionView.groups sec)
               /\ Forall (fun grp => distinct_keys (SemanticGroupView.counters grp))
                         (dict_values (SemanticSectionView.groups sec)))
            (dict_values (SemanticView.sections v)).

(** No section without a group and no group without a counter. *)
Definition no_empty_part (v : SemanticView.t) : Prop :=
  Forall (fun sec =>
            SemanticSectionView.groups sec <> []
            /\ Forall (fun grp => SemanticGroupView.counters grp <> [])
                      (dict_values (SemanticSectionView.groups sec)))
         (dict_values (SemanticView.sections v)).

(** The entries of a dictionary that a test-and-transform keeps, in
    order. *)
Definition items_map {V W} (f : string -> V -> option W) (d : dict string V)
  : dict string W :=
  flat_map (fun kx => match f (fst kx) (snd kx) with
                      | Some y => [(fst kx, y)]
                      | None => []
                      end) d.

(** What [filter] keeps of a group, of a section and of a view. *)
Definition kept_counter (m : CounterVisibility.t) (d : bool) (_ : string)
    (c : CounterView.t) : option CounterView.t :=
  if passes m d c then Some c else None.

Definition kept_group (m : CounterVisibility.t) (d : bool) (grp_name : string)
    (grp : SemanticGroupView.t) : option SemanticGroupView.t :=
  match items_map (kept_counter m d) (SemanticGroupView.counters grp) with
  | [] => None
  | cs => Some (SemanticGroupView.mk grp_name
                  (SemanticGroupView.long_description grp) cs)
  end.

Definition kept_section (m : CounterVisibility.t) (d : bool) (sec_name : string)
    (sec : SemanticSectionView.t) : option SemanticSectionView.t :=
  match items_map (kept_group m d) (SemanticSectionView.groups sec) with
  | [] => None
  | gs => Some (SemanticSectionView.mk sec_name
                  (SemanticSectionView.long_description sec) gs)
  end.

(** What a view may raise: a [KeyError] that the caller catches, or an
    assertion error. *)
Definition key_or_assertion (e : exn) : Prop :=
  (exists msg, e = KeyError msg) \/ (exists msg, e = AssertionError msg).

(** The groups of a section that [from_db] has built. *)
Definition groups_ok (gs : dict string SemanticGroupView.t) : Prop :=
  distinct_keys gs
  /\ Forall (fun g => distinct_keys (SemanticGroupView.counters g)
                      /\ SemanticGroupView.counters g <> [])
            (dict_values gs).

Module Examples11.

(** A semantic view of one section with two groups; the second group
    holds an internal counter only. *)
Definition semantic_view : SemanticView.t :=
  SemanticView.mk
    [("Shader core",
      SemanticSectionView.mk "Shader core" "Shader core counters."
        [("Activity",
          SemanticGroupView.mk "Activity" "Activity counters."
            [("Fragment active", Examples5.frag_view);
             ("Ratio", Examples5.ratio_view)]);
         ("Internal",
          SemanticGroupView.mk "Internal" "Internal counters."
            [("Internal", Examples5.internal_view)])])].

End Examples11.

(** Appending to a dictionary what is not in it, as the three [append]
    methods of the semantic layout do. *)
Definition append_new {V} (key msg : V -> string) (d : dict string V) (x : V)
  : result (dict string V) :=
  let* _ := assert (negb (dict_contains String.eqb d (key x))) (msg x) in
  Ok (dict_set String.eqb d (key x) x).

(** The outcome of a layout built by appending the elements of a list to
    an empty container. *)
Definition appended {V T} (key msg : V -> string) (contents : T -> list V)
    (l : list V) (r : result T) : Prop :=
  match r with
  | Ok t => NoDup (map key l) /\ contents t = l
  | Raise e =>
      ~ NoDup (map key l)
      /\ exists x, In x l /\ e = AssertionError (msg x)
  end.

(* ===================================================================== *)
(** * Enumerations and their XML text                                     *)
(* ===================================================================== *)

(** [CounterVisibility.from_xml] and [CounterVisibility.to_xml] of
    [data/counterinfo.py].  The closing [assert False] of a [to_xml] is not
    reached for a member of the enumeration. *)
Definition CounterVisibility_from_xml (value : string)
  : result CounterVisibility.t :=
  if String.eqb value "Novice" then Ok CounterVisibility.NOVICE
  else if String.eqb value "Advanced application"
  then Ok CounterVisibility.ADVANCED_APPLICATION
  else if String.eqb value "Advanced system"
  then Ok CounterVisibility.ADVANCED_SYSTEM
  else if String.eqb value "Internal" then Ok CounterVisibility.INTERNAL
  else Raise (AssertionError ("Unknown enumeration string " +:+ value)).

Definition CounterVisibility_to_xml (self : CounterVisibility.t) : string :=
  match self with
  | CounterVisibility.NOVICE => "Novice"
  | CounterVisibility.ADVANCED_APPLICATION => "Advanced application"
  | CounterVisibility.ADVANCED_SYSTEM => "Advanced system"
  | CounterVisibility.INTERNAL => "Internal"
  end.

(** [data/counterinfo.py] *)
Module CounterTrend.
Inductive t := HIGHER_BETTER | INFORMATIVE | LOWER_BETTER.

Definition from_xml (value : string) : result t :=
  if String.eqb value "Higher better" then Ok HIGHER_BETTER
  else if String.eqb value "Lower better" then Ok LOWER_BETTER
  else if String.eqb value "Informative" then Ok INFORMATIVE
  else Raise (AssertionError ("Unknown enumeration string " +:+ value)).

Definition to_xml (self : t) : string :=
  match self with
  | LOWER_BETTER => "Lower better"
  | HIGHER_BETTER => "Higher better"
  | INFORMATIVE => "Informative"
  end.
End CounterTrend.

(** [data/productinfo.py] *)
Module ProductVisibility.
Inductive t := PUBLIC | CONFIDENTIAL.

Definition from_xml (value : string) : result t :=
  if String.eqb value "Public" then Ok PUBLIC
  else if String.eqb value "Confidential" then Ok CONFIDENTIAL
  else Raise (AssertionError ("Unknown enumeration string " +:+ value)).

Definition to_xml (self : t) : string :=
  match self with
  | PUBLIC => "Public"
  | CONFIDENTIAL => "Confidential"
  end.
End ProductVisibility.

Module ProductArchitecture.
Inductive t := BIFROST | VALHALL | FIFTH_GENERATION.

Definition eqb (a b : t) : bool :=
  match a, b with
  | BIFROST, BIFROST | VALHALL, VALHALL
  | FIFTH_GENERATION, FIFTH_GENERATION => true
  | _, _ => false
  end.

Definition from_xml (value : string) : result t :=
  if String.eqb value "Bifrost" then Ok BIFROST
  else if String.eqb value "Valhall" then Ok VALHALL
  else if String.eqb value "5th Generation" then Ok FIFTH_GENERATION
  else Raise (AssertionError ("Unknown enumeration string " +:+ value)).

Definition to_xml (self : t) : string :=
  match self with
  | BIFROST => "Bifrost"
  | VALHALL => "Valhall"
  | FIFTH_GENERATION => "5th Generation"
  end.

(** [__str__] *)
Definition str (self : t) : string := to_xml self.
End ProductArchitecture.

(* ===================================================================== *)
(** * [data/architectureinfo.py]                                          *)
(* ===================================================================== *)

Module ArchitectureInfo.
Record t := mk {
  name : ProductArchitecture.t;
  long_description : string;
  gpu_support : list string
}.
End ArchitectureInfo.

Module ArchitectureInfos.
Record t := mk {
  architectures : dict ProductArchitecture.t (list ArchitectureInfo.t)
}.

(** [ArchitectureInfos.get_info_for]: the loop is the one of the semantic
    containers. *)
Definition get_info_for (self : t) (key : string)
    (architecture : ProductArchitecture.t) : result ArchitectureInfo.t :=
  match dict_get ProductArchitecture.eqb (architectures self) architecture with
  | None | Some [] =>
      Raise (KeyError ("No architecture for "
                         +:+ ProductArchitecture.str architecture))
  | Some info_list =>
      scan ArchitectureInfo.gpu_support
           (KeyError ("No default for " +:+ key))
           (AssertionError ("Two defaults for "
                              +:+ ProductArchitecture.str architecture))
           key info_list None
  end.
End ArchitectureInfos.

(* ===================================================================== *)
(** * [ProductInfos] of [data/productinfo.py] and the database keys       *)
(* ===================================================================== *)

Module ProductInfos.
Record t := mk {
  copyright : string;
  products : dict string ProductInfo.t
}.

(** [ProductInfos.get_gpus] *)
Definition get_gpus (self : t) : list string := dict_keys (products self).

(** [ProductInfos.__iter__] *)
Definition iter (self : t) : list ProductInfo.t := dict_values (products self).

(** [ProductInfos.get_gpu]; a product info is a truthy object. *)
Definition get_gpu (self : t) (name : string) : result ProductInfo.t :=
  match dict_get String.eqb (products self) name with
  | Some product => Ok product
  | None =>
      match List.find (fun product =>
                         String.eqb (ProductInfo.database_key product) name)
                      (dict_values (products self)) with
      | Some product => Ok product
      | None => Raise (KeyError ("Unknown GPU product " +:+ name))
      end
  end.
End ProductInfos.

(** [CounterDatabase.get_supported_database_keys] of [database.py], for
    the product database it reads. *)
Definition get_supported_database_keys (g_product_info_db : ProductInfos.t)
  : list string :=
  fold_left
    (fun keys product =>
       if negb (str_in (ProductInfo.database_key product) keys)
       then (keys ++ [ProductInfo.database_key product])%list
       else keys)
    (ProductInfos.iter g_product_info_db) [].

Module Examples12.

Definition bifrost_default :=
  ArchitectureInfo.mk ProductArchitecture.BIFROST "Bifrost." [].
Definition bifrost_g76 :=
  ArchitectureInfo.mk ProductArchitecture.BIFROST "Bifrost on Mali-G76."
    ["Mali-G76"].

Definition architecture_infos : ArchitectureInfos.t :=
  ArchitectureInfos.mk
    [(ProductArchitecture.BIFROST, [bifrost_default; bifrost_g76])].

(** Three products, two of which share a database key that is not the
    name of a product. *)
Definition product_infos : ProductInfos.t :=
  ProductInfos.mk "Copyright"
    [("Mali-G78", ProductInfo.mk "Mali-G78" []);
     ("Mali G1-Ultra", ProductInfo.mk "Mali G1" ["async_clock"]);
     ("Mali G1-Pro", ProductInfo.mk "Mali G1" ["async_clock"])].

End Examples12.

(* ===================================================================== *)
(** * [EquationStreamlineTransformer] of [equationutils.py]               *)
(* ===================================================================== *)

Module EquationStreamlineTransformer.

(** What a call does: it returns, or raises one of three exceptions. *)
Inductive outcome :=
| Returns (value : string)
| RaisesAssertionError
| RaisesIndexError
| RaisesKeyError (key : string).

(** A character of the class [[_A-Za-z0-9]]. *)
Definition is_word (c : ascii) : bool :=
  Ascii.eqb c "_" || is_alpha c || is_digit c.

(** [re.split(r'[^_A-Za-z0-9]+', s)]: the text between the runs of other
    characters, with an empty string where the text starts or ends with
    such a run.  [cur] is the part being read, [in_sep] tells whether the
    previous character was of a run. *)
Fixpoint re_split (cur : string) (in_sep : bool) (s : string) : list string :=
  match s with
  | EmptyString => [cur]
  | String c s' =>
      if is_word c then re_split (cur +:+ String c EmptyString) false s'
      else if in_sep then re_split EmptyString true s'
      else cur :: re_split EmptyString true s'
  end.

(** [str.upper] of a character of ASCII text. *)
Definition chr_upper (c : ascii) : ascii :=
  if is_lower c then ascii_of_nat (nat_of_ascii c - 32) else c.

(** The loop over the parts: empty parts are passed over, the others get
    their first letter in upper case. *)
Fixpoint capitalized (parts : list string) : list string :=
  match parts with
  | [] => []
  | EmptyString :: rest => capitalized rest
  | String c part :: rest => String (chr_upper c) part :: capitalized rest
  end.

(** [EquationStreamlineTransformer.mangle_variable_name] *)
Definition mangle_variable_name (counter : CounterView.t) : outcome :=
  if CounterView.is_derived counter then RaisesAssertionError
  else
    let full_name :=
      CounterView.group_name counter +:+ " "
        +:+ CounterView.group_human_name counter in
    let parts := capitalized (re_split EmptyString false full_name) in
    let new_name := join "" parts in
    match new_name with
    | EmptyString => RaisesIndexError
    | String c _ =>
        let new_name :=
          if contains_chr c "0123456789" then "_" +:+ new_name else new_name in
        Returns ("$Mali" +:+ new_name)
    end.

(** [EquationStreamlineTransformer.mangle_constant_name] *)
Definition mangle_constant_name (counter : string) : outcome :=
  if String.eqb counter "MALI_CONFIG_TIME_SPAN" then Returns "$ZOOM"
  else if String.eqb counter "MALI_CONFIG_L2_CACHE_COUNT"
  then Returns "$MaliConstantsL2SliceCount"
  else if String.eqb counter "MALI_CONFIG_SHADER_CORE_COUNT"
  then Returns "$MaliConstantsShaderCoreCount"
  else if String.eqb counter "MALI_CONFIG_EXT_BUS_BYTE_SIZE"
  then Returns "($MaliConstantsBusWidthBits / 8)"
  else RaisesKeyError counter.

(** [EquationStreamlineTransformer.NAME]; a counter view is a truthy
    object. *)
Definition NAME (index_view : IndexedView.t) (args : string) : outcome :=
  if CONSTANT_PATTERN_match args then mangle_constant_name args
  else
    match IndexedView.get_by_machine_name index_view args with
    | None => RaisesAssertionError
    | Some counter => mangle_variable_name counter
    end.

End EquationStreamlineTransformer.

(** Every character of a text passes a test. *)
Definition each_chr (p : ascii -> bool) (s : string) : Prop :=
  Forall (fun c => p c = true) (list_ascii_of_string s).

(** The text has a character of the class [[_A-Za-z0-9]]. *)
Definition has_word_chr (s : string) : Prop :=
  Exists (fun c => EquationStreamlineTransformer.is_word c = true)
         (list_ascii_of_string s).

Module Examples13.

(** The trees of [6 / 0] and of [A / 0]. *)
Definition six_by_zero := T_start (T_mul (T_NUMBER "6") "/" (T_NUMBER "0")).

(** A native counter of the group "Shader core" with the group human
    name "2x fragment active-cycles". *)
Definition counter : CounterView.t :=
  CounterView.mk (Some HardwareBlockType.SHADER_CORE) 4 1
    (Some CounterClockDomain.GPU) "MaliFragActive" 1 "Fragment active"
    "Shader core" "2x fragment active-cycles" CounterVisibility.NOVICE "cycles"
    None None None (Some "FRAG_ACTIVE").

End Examples13.

(* ===================================================================== *)
(** * More checks of [lgcpy_validate.py]                                  *)
(* ===================================================================== *)

(** ** [validate_name_uniqueness]

    The four sets of names seen so far are used through membership tests
    only and are kept as lists.  The messages the check prints are left
    out; the function returns the number of errors. *)
Module name_uniqueness.

Record state := mk {
  errors : nat;
  found_source_names : list (option string);
  found_machine_names : list string;
  found_human_names : list string;
  found_group_names : list string
}.

(** [x in found] for the optional source name *)
Definition opt_in (x : option string) (found : list (option string)) : bool :=
  existsb (fun y => match x, y with
                    | Some a, Some b => String.eqb a b
                    | None, None => true
                    | _, _ => false
                    end) found.

(** One iteration of the loop. *)
Definition step (gpu : string) (st : state) (counter : CounterInfo.t) : state :=
  if negb (CounterInfo.supports_gpu counter gpu) then st
  else if opt_in (CounterInfo.source_name counter) (found_source_names st)
          && negb (truthy_opt_str (CounterInfo.source_name counter))
  then st
  else
    let errors := errors st in
    let errors :=
      if opt_in (CounterInfo.source_name counter) (found_source_names st)
      then S errors else errors in
    let found_source_names :=
      (found_source_names st ++ [CounterInfo.source_name counter])%list in
    let errors :=
      if str_in (CounterInfo.machine_name counter) (found_machine_names st)
      then S errors else errors in
    let found_machine_names :=
      (found_machine_names st ++ [CounterInfo.machine_name counter])%list in
    let errors :=
      if str_in (CounterInfo.human_name counter) (found_human_names st)
      then S errors else errors in
    let found_human_names :=
      (found_human_names st ++ [CounterInfo.human_name counter])%list in
    let group_name :=
      CounterInfo.group_name counter +:+ "."
        +:+ CounterInfo.group_human_name counter in
    let errors :=
      if str_in group_name (found_group_names st) then S errors else errors in
    let found_group_names := (found_group_names st ++ [group_name])%list in
    mk errors found_source_names found_machine_names found_human_names
       found_group_names.

Definition scan (gpu : string) (cnt_db : list CounterInfo.t) (st : state) : state :=
  fold_left (step gpu) cnt_db st.

End name_uniqueness.

(** [validate_name_uniqueness(gpu)], for the counter database it reads. *)
Definition validate_name_uniqueness (cnt_db : list CounterInfo.t) (gpu : string)
  : nat :=
  name_uniqueness.errors
    (name_uniqueness.scan gpu cnt_db (name_uniqueness.mk 0 [] [] [] [])).

(** The native counters of a product: the supported entries with a source
    name. *)
Definition native_counters (gpu : string) (cnt_db : list CounterInfo.t)
  : list CounterInfo.t :=
  List.filter (fun c => CounterInfo.supports_gpu c gpu
                        && truthy_opt_str (CounterInfo.source_name c)) cnt_db.

Definition group_key (c : CounterInfo.t) : string :=
  CounterInfo.group_name c +:+ "." +:+ CounterInfo.group_human_name c.

(** The names the loop has not seen yet and will not see twice. *)
Definition fresh_in (st : name_uniqueness.state) (c : CounterInfo.t) : Prop :=
  ~ In (CounterInfo.source_name c) (name_uniqueness.found_source_names st)
  /\ ~ In (CounterInfo.machine_name c) (name_uniqueness.found_machine_names st)
  /\ ~ In (CounterInfo.human_name c) (name_uniqueness.found_human_names st)
  /\ ~ In (group_key c) (name_uniqueness.found_group_names st).

Definition distinct_names (l : list CounterInfo.t) : Prop :=
  NoDup (map CounterInfo.source_name l)
  /\ NoDup (map CounterInfo.machine_name l)
  /\ NoDup (map CounterInfo.human_name l)
  /\ NoDup (map group_key l).

(** ** [validate_source_name_consistency]

    [hw_counters] are the slots that [hw_db.iter_counters()] yields for the
    layout of the product, [cnt_db] is the indexed view of the product. *)
Definition view_source_names (cnt_db : IndexedView.t) : list string :=
  flat_map (fun x => match CounterView.source_name x with
                     | Some sn => if truthy_str sn then [sn] else []
                     | None => []
                     end) (IndexedView.iter cnt_db).

Definition validate_source_name_consistency
    (hw_counters : list HardwareCounterLayout.t) (cnt_db : IndexedView.t) : nat :=
  let hw_source_names : gset string :=
    list_to_set (map HardwareCounterLayout.name hw_counters) in
  let cnt_source_names : gset string :=
    list_to_set (view_source_names cnt_db) in
  let hw_only := hw_source_names ∖ cnt_source_names in
  let cnt_only := cnt_source_names ∖ hw_source_names in
  (size hw_only + size cnt_only)%nat.

Module Examples14.


End Examples14.

(* ===================================================================== *)
(** * [gpuutils.py]                                                       *)
(* ===================================================================== *)

Module gpuutils.

(** A character that [\S] does not match: the white space of
    [str.isspace] among the first 256 code points. *)
Definition is_re_space (c : ascii) : bool :=
  let n := nat_of_ascii c in
  ((9 <=? n)%nat && (n <=? 13)%nat) || ((28 <=? n)%nat && (n <=? 32)%nat)
  || (n =? 133)%nat || (n =? 160)%nat.

(** [s] without the prefix [p], if it starts with it. *)
Fixpoint strip_prefix (p s : string) : option string :=
  match p, s with
  | EmptyString, _ => Some s
  | String a p', String b s' =>
      if Ascii.eqb a b then strip_prefix p' s' else None
  | String _ _, EmptyString => None
  end.

(** The longest prefix of characters of a class, and the rest. *)
Fixpoint span (p : ascii -> bool) (s : string) : string * string :=
  match s with
  | EmptyString => (EmptyString, EmptyString)
  | String c s' =>
      if p c then let '(a, b) := span p s' in (String c a, b)
      else (EmptyString, s)
  end.

(** [$]: the end of the text, or the newline that ends it. *)
Definition at_end (s : string) : bool :=
  String.eqb s "" || String.eqb s (String "010" "").

(** [(\d+)$] *)
Definition digits_end (s : string) : option string :=
  let '(d, rest) := span is_digit s in
  if negb (String.eqb d "") && at_end rest then Some d else None.

(** [(\S+)$] *)
Definition word_end (s : string) : option string :=
  let '(w, rest) := span (fun c => negb (is_re_space c)) s in
  if negb (String.eqb w "") && at_end rest then Some w else None.

(** [_GPU_GROUP_0.match]: [^(Mali|Immortalis)-G(\d+)$] *)
Definition _GPU_GROUP_0 (s : string) : option (string * string) :=
  match strip_prefix "Mali-G" s with
  | Some r => option_map (fun d => ("Mali", d)) (digits_end r)
  | None =>
      match strip_prefix "Immortalis-G" s with
      | Some r => option_map (fun d => ("Immortalis", d)) (digits_end r)
      | None => None
      end
  end.

(** [_GPU_GROUP_1.match]: [^Mali G(\d+)$] *)
Definition _GPU_GROUP_1 (s : string) : option string :=
  match strip_prefix "Mali G" s with
  | Some r => digits_end r
  | None => None
  end.

(** [_GPU_GROUP_2.match]: [^Mali G(\d+)-(\S+)$] *)
Definition _GPU_GROUP_2 (s : string) : option (string * string) :=
  match strip_prefix "Mali G" s with
  | Some r =>
      let '(d, rest) := span is_digit r in
      if String.eqb d "" then None
      else
        match strip_prefix "-" rest with
        | Some r' => option_map (fun w => (d, w)) (word_end r')
        | None => None
        end
  | None => None
  end.

(** [_GPU_GROUP_3.match]: [^Mali (\S+)$] *)
Definition _GPU_GROUP_3 (s : string) : option string :=
  match strip_prefix "Mali " s with
  | Some r => word_end r
  | None => None
  end.

(** [int(s)] for a run of digits: the interpreter refuses to convert more
    than 4300 digits. *)
Definition int_of_digits (s : string) : result Z :=
  if (4300 <? String.length s)%nat then Raise ValueError
  else Ok (fold_left (fun acc c => 10 * acc + digit_val c)
                     (list_ascii_of_string s) 0).

(** The sortable tuple [(group, product, subproduct, name)]. *)
Record code := mk {
  group : Z;
  product : Z;
  subproduct : Z;
  name : string
}.

(** [sum((plen - i) * 256 * ord(x) for i, x in enumerate(s))] *)
Fixpoint weighted_sum (plen : Z) (i : Z) (s : string) : Z :=
  match s with
  | EmptyString => 0
  | String x s' =>
      (plen - i) * 256 * Z.of_nat (nat_of_ascii x) + weighted_sum plen (i + 1) s'
  end.

(** [_sort_gpu_code] *)
Definition _sort_gpu_code (product_name : string) : result code :=
  match _GPU_GROUP_0 product_name with
  | Some (g1, g2) =>
      let group := 0 in
      let* product := int_of_digits g2 in
      let* subproduct :=
        if String.eqb g1 "Mali" then Ok 0
        else if String.eqb g1 "Immortalis" then Ok 1
        else Raise (KeyError g1) in
      Ok (mk group product subproduct product_name)
  | None =>
      match _GPU_GROUP_1 product_name with
      | Some g1 =>
          let* product := int_of_digits g1 in
          Ok (mk 1 product 0 product_name)
      | None =>
          match _GPU_GROUP_2 product_name with
          | Some (g1, g2) =>
              let group := 2 in
              let* product := int_of_digits g1 in
              let* subproduct :=
                if String.eqb g2 "Pro" then Ok 0
                else if String.eqb g2 "Premium" then Ok 1
                else if String.eqb g2 "Ultra" then Ok 2
                else Raise (KeyError g2) in
              Ok (mk group product subproduct product_name)
          | None =>
              match _GPU_GROUP_3 product_name with
              | Some g1 =>
                  let plen := Z.of_nat (String.length g1) in
                  Ok (mk 3 (weighted_sum plen 0 g1) 0 product_name)
              | None => Raise (AssertionError "")
              end
          end
      end
  end.

(** [x < y] for two of the tuples: the first components that differ
    decide, strings being compared by their characters. *)
Definition code_lt (x y : code) : bool :=
  if negb (Z.eqb (group x) (group y)) then Z.ltb (group x) (group y)
  else if negb (Z.eqb (product x) (product y)) then Z.ltb (product x) (product y)
  else if negb (Z.eqb (subproduct x) (subproduct y))
  then Z.ltb (subproduct x) (subproduct y)
  else String.ltb (name x) (name y).

(** [list.sort]: a stable sort; an element is put behind the elements it
    is not less than. *)
Fixpoint insert (x : code) (l : list code) : list code :=
  match l with
  | [] => [x]
  | y :: l' => if code_lt x y then x :: l else y :: insert x l'
  end.

Definition sort (l : list code) : list code :=
  fold_left (fun sorted x => insert x sorted) l [].

(** [sort_gpus] *)
Definition sort_gpus (product_names : list string) : result (list string) :=
  let* product_list := map_result _sort_gpu_code product_names in
  let product_list := sort product_list in
  Ok (map name product_list).

End gpuutils.

(** [x <= y] for two of the tuples. *)
Definition code_le (x y : gpuutils.code) : Prop := gpuutils.code_lt y x = false.

Module Examples15.

Definition names : list string :=
  ["Mali G1-Ultra"; "Mali-G77"; "Immortalis-G715"; "Mali G1"; "Mali-G715";
   "Mali G1-Pro"; "Mali-G68"].

Definition sorted_names : list string :=
  ["Mali-G68"; "Mali-G77"; "Mali-G715"; "Immortalis-G715"; "Mali G1";
   "Mali G1-Pro"; "Mali G1-Ultra"].

End Examples15.

(* ===================================================================== *)
(** * [xmlutils.py]                                                       *)
(* ===================================================================== *)

Module xmlutils.

(** ** Methods of [str], for text of the first 256 code points *)

(** [c.isspace()] *)
Definition isspace (c : ascii) : bool :=
  let n := nat_of_ascii c in
  ((9 <=? n)%nat && (n <=? 13)%nat) || ((28 <=? n)%nat && (n <=? 32)%nat)
  || (n =? 133)%nat || (n =? 160)%nat.

(** A character that ends a line for [str.splitlines]. *)
Definition is_linebreak (c : ascii) : bool :=
  let n := nat_of_ascii c in
  ((10 <=? n)%nat && (n <=? 13)%nat) || ((28 <=? n)%nat && (n <=? 30)%nat)
  || (n =? 133)%nat.

Fixpoint lstrip (s : string) : string :=
  match s with
  | EmptyString => EmptyString
  | String c s' => if isspace c then lstrip s' else s
  end.

(** [s.rstrip()] *)
Fixpoint rstrip (s : string) : string :=
  match s with
  | EmptyString => EmptyString
  | String c s' =>
      match rstrip s' with
      | EmptyString => if isspace c then EmptyString else String c EmptyString
      | r => String c r
      end
  end.

(** [s.strip()] *)
Definition strip (s : string) : string := rstrip (lstrip s).

(** [s.splitlines()]: [cur] is the line being read; a carriage return
    followed by a line feed ends one line. *)
Fixpoint splitlines_from (cur : string) (s : string) : list string :=
  match s with
  | EmptyString => match cur with EmptyString => [] | _ => [cur] end
  | String c s' =>
      if is_linebreak c then
        cur :: match c, s' with
               | "013"%char, String "010"%char s'' => splitlines_from EmptyString s''
               | _, _ => splitlines_from EmptyString s'
               end
      else splitlines_from (cur +:+ String c EmptyString) s'
  end.

Definition splitlines (s : string) : list string := splitlines_from EmptyString s.

(** [s.startswith(prefix)] *)
Fixpoint startswith (s prefix : string) : bool :=
  match prefix, s with
  | EmptyString, _ => true
  | String a p', String b s' => Ascii.eqb a b && startswith s' p'
  | String _ _, EmptyString => false
  end.

(** [' ' * n] *)
Definition spaces (n : Z) : string :=
  string_of_list_ascii (repeat " "%char (Z.to_nat n)).

(** What a call raises. *)
Inductive error := assertion_failed | index_out_of_range.

(** ** [get_copyright_from_yaml_str] *)

(** The loop, with its [break]. *)
Fixpoint copyright_lines (lines : list string) (copyright_msg : list string)
  : list string :=
  match lines with
  | [] => copyright_msg
  | line :: rest =>
      let is_comment := startswith line "#" in
      if negb is_comment
         && match copyright_msg with [] => false | _ :: _ => true end
      then copyright_msg
      else copyright_lines rest (copyright_msg ++ [line])
  end.

Definition get_copyright_from_yaml_str (document : string) : string :=
  let copyright_msg := [] in
  let lines := splitlines document in
  join (String "010" "") (copyright_lines lines copyright_msg).

(** ** Pretty-printing *)

Section Textwrap.
(** [textwrap.wrap(text, break_on_hyphens=False, width=width)] and
    [textwrap.indent(text, prefix)] of the Python library. *)
Context (wrap : string -> Z -> list string).
Context (indent_text : string -> string -> string).

(** [_to_pretty_xml__form_blocks] *)
Definition _to_pretty_xml__form_blocks (data : string) (indent width : Z)
  : list string :=
  let paras := splitlines data in
  map (fun para =>
         let is_list := startswith para "*" in
         let new_text :=
           if is_list then
             join (String "010" "  ") (wrap para (width - indent - 2))
           else join (String "010" "") (wrap para (width - indent)) in
         indent_text new_text (spaces indent))
      paras.

(** The loop of [_to_pretty_xml__space_blocks]: [first] tells whether the
    index is 0. *)
Fixpoint space_blocks_loop (bullet_indent : string) (first was_in_list : bool)
    (paras : list string) : list string :=
  match paras with
  | [] => []
  | para :: rest =>
      let in_list_now := startswith para bullet_indent in
      let end_of_list := was_in_list && negb in_list_now in
      let blank :=
        if negb first && (negb was_in_list || end_of_list) then [""] else [] in
      (blank ++ para :: space_blocks_loop bullet_indent false in_list_now rest)%list
  end.

(** [_to_pretty_xml__space_blocks] *)
Definition _to_pretty_xml__space_blocks (paras : list string) (indent : Z)
  : list string :=
  let bullet_indent := spaces indent +:+ "*" in
  space_blocks_loop bullet_indent true false paras.

(** [to_pretty_xml] *)
Definition to_pretty_xml (data : string) (multiline : bool)
    (indent outdent width : Z) : string :=
  if negb multiline then
    String "010" "" +:+ spaces indent +:+ data +:+ String "010" ""
      +:+ spaces outdent
  else
    let paras := _to_pretty_xml__form_blocks data indent width in
    let paras := _to_pretty_xml__space_blocks paras indent in
    let document := join (String "010" "") paras in
    String "010" "" +:+ document +:+ String "010" "" +:+ spaces outdent.

End Textwrap.

(** The state of the loop of [from_pretty_xml]. *)
Inductive status := is_newline | is_text | is_bullet.

(** [pattern.match(s)] for the pattern [^.*\S{1}-$]: the dot matches no
    line feed, and the dollar matches at the end or before a last line
    feed. *)
Fixpoint ends_with_hyphen (s : string) : bool :=
  match s with
  | String a (String b EmptyString) => negb (isspace a) && Ascii.eqb b "-"
  | String a (String b (String "010" EmptyString)) =>
      negb (isspace a) && Ascii.eqb b "-"
  | String a s' => negb (Ascii.eqb a "010") && ends_with_hyphen s'
  | EmptyString => false
  end.

(** [new_data[-1] += text] *)
Fixpoint append_to_last (new_data : list string) (text : string)
  : option (list string) :=
  match new_data with
  | [] => None
  | [last] => Some [last +:+ text]
  | p :: rest => option_map (cons p) (append_to_last rest text)
  end.

Definition last_of (new_data : list string) : option string :=
  List.last (map Some new_data) None.

(** One iteration of the loop over the lines. *)
Definition unwrap_step (st : status * list string) (line : string)
  : option (status * list string) :=
  let '(status, new_data) := st in
  let line := strip line in
  match line with
  | EmptyString => Some (is_newline, new_data)
  | _ =>
      match status with
      | is_newline =>
          Some (if startswith line "*" then is_bullet else is_text,
                (new_data ++ [line])%list)
      | _ =>
          if match status with is_bullet => startswith line "*" | _ => false end
          then Some (status, (new_data ++ [line])%list)
          else
            match last_of new_data with
            | None => None
            | Some last =>
                let spacing :=
                  if (2 <=? String.length last)%nat && ends_with_hyphen last
                  then "" else " " in
                option_map (fun nd => (status, nd))
                           (append_to_last new_data (spacing +:+ line))
            end
      end
  end.

Fixpoint unwrap_loop (lines : list string) (st : status * list string)
  : option (status * list string) :=
  match lines with
  | [] => Some st
  | line :: rest =>
      match unwrap_step st line with
      | Some st' => unwrap_loop rest st'
      | None => None
      end
  end.

(** [from_pretty_xml] *)
Definition from_pretty_xml (data : string) (multiline : bool) : string + error :=
  let lines := splitlines (strip data) in
  if negb multiline then
    match lines with
    | [line] => inl (strip line)
    | _ => inr assertion_failed
    end
  else
    match unwrap_loop lines (is_newline, []) with
    | Some (_, new_data) => inl (join (String "010" "") new_data)
    | None => inr index_out_of_range
    end.

End xmlutils.

(** The text has no character that ends a line. *)
Fixpoint no_linebreak (s : string) : bool :=
  match s with
  | EmptyString => true
  | String c s' => negb (xmlutils.is_linebreak c) && no_linebreak s'
  end.

(** The text is not empty and is one line. *)
Definition single_line (s : string) : bool :=
  negb (String.eqb s "") && no_linebreak s.

(** The longest prefix of [l] whose elements all pass [f]. *)
Fixpoint leading {A} (f : A -> bool) (l : list A) : list A :=
  match l with
  | [] => []
  | x :: l' => if f x then x :: leading f l' else []
  end.

(** The line starts a comment of a YAML document. *)
Definition is_comment (line : string) : bool := xmlutils.startswith line "#".

(** [l] with an empty string between any two neighbours. *)
Fixpoint blank_between (l : list string) : list string :=
  match l with
  | [] => []
  | [x] => [x]
  | x :: l' => x :: "" :: blank_between l'
  end.

Definition nonblank (s : string) : bool := negb (String.eqb s "").

(** The text holds white space only. *)
Fixpoint all_space (s : string) : bool :=
  match s with
  | EmptyString => true
  | String c s' => xmlutils.isspace c && all_space s'
  end.

(** A paragraph is open whenever the last thing seen is no blank line. *)
Definition paragraph_open (st : xmlutils.status * list string) : Prop :=
  fst st <> xmlutils.is_newline -> snd st <> [].

Module Examples16.
(** The two functions of [textwrap], not used by single-line text. *)
Definition no_wrap (text : string) (width : Z) : list string := [text].
Definition no_indent (text prefix : string) : string := text.
Definition pretty (data : string) : string :=
  xmlutils.to_pretty_xml no_wrap no_indent data false 6 4 79.
End Examples16.

(* ===================================================================== *)
(** * Properties                                                          *)
(* ===================================================================== *)

(** ** The result monad *)

Lemma bind_Ok {A B} (m : result A) (k : A -> result B) (b : B) :
  Py.bind m k = Ok b -> exists a, m = Ok a /\ k a = Ok b.
Proof. destruct m as [a|e]; simpl; [eauto | discriminate]. Qed.

Lemma call_userfunc_Ok {A} (r : result A) (a : A) :
  call_userfunc r = Ok a -> r = Ok a.
Proof. destruct r; simpl; congruence. Qed.

(** ** Parenthesization (C3) *)

(** C3 (as amended).  An operand that is an operator node is wrapped in
    parentheses exactly when its operator or its precedence class differs
    from the parent's; other operands are left alone; additive nodes are
    built with class 0 and an operator node renders as its two operands
    around the operator.  The tree of (A + B) * C prints as "(A + B) * C",
    and the tree of A + B * C prints as "A + (B * C)": the product differs
    in operator from the sum and is wrapped. *)
Theorem parenthesization_rule :
  (forall op prec o p a b s,
      add_parens op prec (POperatorNode o p a b s) =
        if bool_decide (op <> o \/ prec <> p)
        then PStr ("(" +:+ s +:+ ")")
        else POperatorNode o p a b s)
  /\ (forall op prec s, add_parens op prec (PStr s) = PStr s)
  /\ (forall op prec f s, add_parens op prec (PFunctionNode f s) = PFunctionNode f s)
  /\ (forall a op b,
         EquationPrettyPrintTransformer.add a op b = OperatorNode a op b 0)
  /\ (forall a op b prec,
         OperatorNode a op b prec =
           POperatorNode op prec (add_parens op prec a) (add_parens op prec b)
             (py_str (add_parens op prec a) +:+ " " +:+ op +:+ " "
                +:+ py_str (add_parens op prec b)))
  /\ equation_ast_to_str Examples.sum_times = Ok "(A + B) * C"
  /\ equation_ast_to_str Examples.plus_product = Ok "A + (B * C)".
Proof.
  repeat split; try reflexivity.
  intros op prec o p a b s. unfold add_parens, needs_parens.
  destruct (String.eqb_spec op o) as [->|Hop];
    destruct (Z.eqb_spec prec p) as [->|Hp]; simpl.
  - rewrite bool_decide_eq_false_2; [reflexivity | intros [H|H]; congruence].
  - rewrite bool_decide_eq_true_2; [reflexivity | right; assumption].
  - rewrite bool_decide_eq_true_2; [reflexivity | left; assumption].
  - rewrite bool_decide_eq_true_2; [reflexivity | left; assumption].
Qed.

(** C3, counterexample.  The tree of A + B * C does not print as
    "A + B * C": the pretty-printer wraps the product. *)
Lemma parenthesization_counterexample :
  equation_ast_to_str Examples.plus_product = Ok "A + (B * C)"
  /\ equation_ast_to_str Examples.plus_product <> Ok "A + B * C".
Proof. split; [reflexivity | discriminate]. Qed.

(** ** Dictionaries *)

Section DictFacts.
Context {K V : Type} (eqb : K -> K -> bool).
Context (eqb_spec : forall a b, reflect (a = b) (eqb a b)).

Lemma dict_get_set_eq (d : dict K V) k v :
  dict_get eqb (dict_set eqb d k v) k = Some v.
Proof.
  induction d as [|[k' v'] d IH]; simpl.
  - destruct (eqb_spec k k); congruence.
  - destruct (eqb_spec k k') as [->|Hne]; simpl.
    + destruct (eqb_spec k' k'); congruence.
    + destruct (eqb_spec k k'); [congruence | exact IH].
Qed.

Lemma dict_get_set_ne (d : dict K V) k k' v :
  k <> k' -> dict_get eqb (dict_set eqb d k v) k' = dict_get eqb d k'.
Proof.
  intros Hne. induction d as [|[k0 v0] d IH]; simpl.
  - destruct (eqb_spec k' k); congruence.
  - destruct (eqb_spec k k0) as [->|Hk]; simpl.
    + destruct (eqb_spec k' k0); congruence.
    + destruct (eqb_spec k' k0); [reflexivity | exact IH].
Qed.

Lemma dict_get_None_keys (d : dict K V) k :
  dict_get eqb d k = None <-> ~ In k (dict_keys d).
Proof.
  induction d as [|[k' v'] d IH]; simpl.
  - tauto.
  - destruct (eqb_spec k k') as [->|Hne].
    + split; [discriminate | intros H; exfalso; apply H; left; reflexivity].
    + rewrite IH. split; intros H; [intros [E|E]; [congruence | tauto] | tauto].
Qed.

Lemma dict_set_fresh (d : dict K V) k v :
  dict_get eqb d k = None -> dict_set eqb d k v = (d ++ [(k, v)])%list.
Proof.
  induction d as [|[k' v'] d IH]; simpl; [reflexivity|].
  destruct (eqb_spec k k'); [discriminate|].
  intros H. rewrite IH by exact H. reflexivity.
Qed.

Lemma dict_set_values_incl (d : dict K V) k v x :
  In x (dict_values (dict_set eqb d k v)) -> x = v \/ In x (dict_values d).
Proof.
  induction d as [|[k' v'] d IH]; simpl.
  - intros [H|[]]; left; congruence.
  - destruct (eqb_spec k k'); simpl.
    + intros [H|H]; [left; congruence | right; right; exact H].
    + intros [H|H]; [right; left; exact H | destruct (IH H); tauto].
Qed.
End DictFacts.

(** ** Clock domains and the views built by [from_db] (C6, C10) *)

Lemma init_fields pi hw_name hw_bl hw_cl ci cv :
  CounterView.init pi hw_name hw_bl hw_cl ci = Ok cv ->
  CounterView.block_type cv = option_map HardwareBlockLayout.btype hw_bl
  /\ CounterView.source_name cv = hw_name
  /\ CounterInfo.stable_id ci = Some (CounterView.stable_id cv)
  /\ CounterView.machine_name cv = CounterInfo.machine_name ci
  /\ CounterView.clock_domain cv =
       match option_map HardwareBlockLayout.btype hw_bl with
       | None => None
       | Some bt =>
           if negb (ProductInfo.has_feature pi "async_clock")
           then Some CounterClockDomain.GPU
           else if HardwareBlockType.eqb bt HardwareBlockType.SHADER_CORE
           then Some CounterClockDomain.SHADER_CORE
           else Some CounterClockDomain.GPU
       end
  /\ (hw_cl = None ->
      CounterView.block_index cv = 0 /\ CounterView.scale_multiplier cv = 1).
Proof.
  unfold CounterView.init. intros H.
  destruct hw_bl as [bl|], hw_cl as [cl|];
    destruct (CounterInfo.stable_id ci) as [sid|]; try discriminate;
    injection H as <-; simpl; repeat split; intros; congruence.
Qed.


Lemma find_hw_Some hw_db names name bl cl :
  IndexedView.find_hw hw_db names = Some (name, bl, cl) ->
  In name names /\ hw_db name = Some (bl, cl).
Proof.
  induction names as [|n names IH]; simpl; [discriminate|].
  destruct (hw_db n) as [[b c]|] eqn:E.
  - intros H; injection H as <- <- <-. split; [left; reflexivity | exact E].
  - intros H. destruct (IH H). split; [right; assumption | assumption].
Qed.

Lemma HardwareBlockType_eqb_spec a b :
  reflect (a = b) (HardwareBlockType.eqb a b).
Proof. destruct a, b; simpl; constructor; congruence. Qed.
Lemma from_db_counter_view_cases pi hw_db ci :
  IndexedView.from_db_counter_view pi hw_db ci =
    if truthy_opt_str (CounterInfo.source_name ci) then
      match IndexedView.find_hw hw_db (source_names ci) with
      | Some (name, bl, cl) => CounterView.init pi (Some name) (Some bl) (Some cl) ci
      | None => CounterView.init pi (CounterInfo.source_name ci) None None ci
      end
    else CounterView.init pi None None None ci.
Proof.
  unfold IndexedView.from_db_counter_view, source_names.
  destruct (truthy_opt_str (CounterInfo.source_name ci)); [|reflexivity].
  destruct (IndexedView.find_hw hw_db _) as [[[name bl] cl]|]; reflexivity.
Qed.

Lemma source_names_truthy ci name :
  aliases_nonempty ci ->
  truthy_opt_str (CounterInfo.source_name ci) = true ->
  In name (source_names ci) -> truthy_str name = true.
Proof.
  unfold source_names. intros Hal Ht Hin.
  apply in_app_or in Hin as [Hin|Hin]; [|auto].
  destruct (CounterInfo.source_name ci) as [sn|]; [|destruct Hin].
  destruct Hin as [<-|[]]. exact Ht.
Qed.

(** C6 (as amended).  For the counter view that [from_db] builds: the
    clock domain is None exactly when the counter has no hardware block;
    that is the case for every derived counter, and for a native counter
    exactly when none of its source names is a slot of the layout.  A
    counter with a hardware block has the GPU domain when the product lacks
    the asynchronous clock; on a product with it the domain is SHADER_CORE
    exactly for counters of the shader-core block and GPU for counters of
    any other block. *)
Theorem clock_domain_rule pi hw_db ci cv :
  aliases_nonempty ci ->
  IndexedView.from_db_counter_view pi hw_db ci = Ok cv ->
  (CounterView.clock_domain cv = None <-> CounterView.block_type cv = None)
  /\ (CounterView.is_derived cv = true -> CounterView.clock_domain cv = None)
  /\ (CounterView.is_derived cv = false ->
      (CounterView.clock_domain cv = None <->
       IndexedView.find_hw hw_db (source_names ci) = None))
  /\ (forall bt, CounterView.block_type cv = Some bt ->
        ProductInfo.has_feature pi "async_clock" = false ->
        CounterView.clock_domain cv = Some CounterClockDomain.GPU)
  /\ (ProductInfo.has_feature pi "async_clock" = true ->
      (CounterView.clock_domain cv = Some CounterClockDomain.SHADER_CORE <->
       CounterView.block_type cv = Some HardwareBlockType.SHADER_CORE))
  /\ (forall bt, CounterView.block_type cv = Some bt ->
        ProductInfo.has_feature pi "async_clock" = true ->
        bt <> HardwareBlockType.SHADER_CORE ->
        CounterView.clock_domain cv = Some CounterClockDomain.GPU).
Proof.
  intros Hal H. rewrite from_db_counter_view_cases in H.
  assert (Hd : CounterView.is_derived cv
               = negb (truthy_opt_str (CounterInfo.source_name ci))
             /\ (truthy_opt_str (CounterInfo.source_name ci) = false ->
                 CounterView.block_type cv = None)
             /\ (truthy_opt_str (CounterInfo.source_name ci) = true ->
                 (CounterView.block_type cv = None <->
                  IndexedView.find_hw hw_db (source_names ci) = None))
             /\ exists hw_name hw_bl hw_cl,
                 CounterView.init pi hw_name hw_bl hw_cl ci = Ok cv).
  { unfold CounterView.is_derived.
    destruct (truthy_opt_str (CounterInfo.source_name ci)) eqn:Ht.
    - destruct (IndexedView.find_hw hw_db (source_names ci))
        as [[[name bl] cl]|] eqn:Hf.
      + destruct (init_fields _ _ _ _ _ _ H) as (Hb & Hs & _).
        apply find_hw_Some in Hf as [Hin _].
        rewrite Hs, Hb. simpl.
        rewrite (source_names_truthy ci name Hal Ht Hin).
        repeat split; try discriminate; eauto.
      + destruct (init_fields _ _ _ _ _ _ H) as (Hb & Hs & _).
        rewrite Hs, Hb, Ht. simpl. repeat split; try discriminate; eauto.
    - destruct (init_fields _ _ _ _ _ _ H) as (Hb & Hs & _).
      rewrite Hs, Hb. simpl. repeat split; try discriminate; eauto. }
  destruct Hd as (Hder & Hnone & Hsome & hw_name & hw_bl & hw_cl & Hinit).
  destruct (init_fields _ _ _ _ _ _ Hinit) as (Hb & _ & _ & _ & Hc & _).
  rewrite <- Hb in Hc.
  assert (Hiff : CounterView.clock_domain cv = None <-> CounterView.block_type cv = None).
  { rewrite Hc. destruct (CounterView.block_type cv) as [bt|]; [|tauto].
    clear. destruct (ProductInfo.has_feature pi "async_clock"); simpl;
      [destruct (HardwareBlockType.eqb _ _)|]; split; intros E; discriminate E. }
  split; [exact Hiff|].
  split.
  { intros Hd. apply Hiff, Hnone. rewrite Hder in Hd.
    destruct (truthy_opt_str _); [discriminate | reflexivity]. }
  split.
  { intros Hd. rewrite Hiff. apply Hsome. rewrite Hder in Hd.
    destruct (truthy_opt_str _); [reflexivity | discriminate]. }
  split.
  { intros bt Hbt Hf. rewrite Hc, Hbt, Hf. reflexivity. }
  split.
  { intros Hf. rewrite Hc, Hf. simpl.
    destruct (CounterView.block_type cv) as [bt|]; [|split; discriminate].
    destruct (HardwareBlockType_eqb_spec bt HardwareBlockType.SHADER_CORE) as [->|Hne];
      split; intros E; try reflexivity; try discriminate; congruence. }
  intros bt Hbt Hf Hne. rewrite Hc, Hbt, Hf. simpl.
  destruct (HardwareBlockType_eqb_spec bt HardwareBlockType.SHADER_CORE);
    [contradiction | reflexivity].
Qed.

(** Witness for C6: the shader-core counter on the product with the
    asynchronous clock. *)
Lemma clock_domain_rule_witness :
  IndexedView.from_db_counter_view Examples.product_async Examples.layout
    Examples.frag = Ok Examples2.frag_view
  /\ CounterView.clock_domain Examples2.frag_view
     = Some CounterClockDomain.SHADER_CORE.
Proof.
  split; [reflexivity|].
  apply (clock_domain_rule Examples.product_async Examples.layout
           Examples.frag Examples2.frag_view).
  - intros a [<-|[]]. reflexivity.
  - reflexivity.
  - reflexivity.
  - reflexivity.
Defined.

(** C6, counterexample.  A native counter whose source name matches no
    slot of the layout is not derived, yet its clock domain is None, also
    on a product without the asynchronous clock (where the claim gives
    every hardware counter the GPU domain). *)
Lemma clock_domain_counterexample :
  IndexedView.from_db_counter_view Examples.product_sync Examples.layout
    Examples.orphan = Ok Examples2.orphan_view
  /\ CounterView.is_derived Examples2.orphan_view = false
  /\ CounterView.clock_domain Examples2.orphan_view = None
  /\ ProductInfo.has_feature Examples.product_sync "async_clock" = false.
Proof. repeat split. Qed.

Lemma add_indexes_key view cv :
  IndexedView.key (IndexedView.add_indexes view cv) = IndexedView.key view.
Proof. reflexivity. Qed.






(** ** Documentation lookup (C9) *)

Section GetInfoFacts.
Context {Info : Type} (gpu_support : Info -> list string).
Context (no_default two_defaults : exn).

Lemma scan_with_default key d : forall l,
  scan gpu_support no_default two_defaults key l (Some d) =
    match List.filter (is_default gpu_support) (before_match gpu_support key l) with
    | _ :: _ => Raise two_defaults
    | [] =>
        match List.find (names_key gpu_support key) l with
        | Some info => Ok info
        | None => Ok d
        end
    end.
Proof.
  unfold names_key, is_default.
  induction l as [|info rest IH]; simpl; [reflexivity|].
  unfold names_key.
  destruct (str_in key (gpu_support info)); [reflexivity|].
  simpl. destruct (gpu_support info); [reflexivity | exact IH].
Qed.

Lemma scan_select key : forall l,
  scan gpu_support no_default two_defaults key l None =
    select gpu_support no_default two_defaults key l.
Proof.
  unfold select, names_key, is_default.
  induction l as [|info rest IH]; simpl; [reflexivity|].
  unfold names_key.
  destruct (str_in key (gpu_support info)); [reflexivity|].
  simpl. destruct (gpu_support info) eqn:E.
  - rewrite scan_with_default. unfold names_key, is_default.
    destruct (List.filter _ _) as [|? [|? ?]]; try reflexivity.
  - rewrite IH. reflexivity.
Qed.
End GetInfoFacts.

(** C9 (as amended).  [get_info_for], of the group and of the section
    container alike, raises a [KeyError] when the entity has no candidate
    list or an empty one.  Otherwise it scans the candidates in order: a
    second entry with an empty applicability list met before any entry
    naming the product's key is an assertion failure; else the first entry
    whose applicability list names the key is returned, entries after it
    not being looked at; else the single entry with an empty applicability
    list; else a [KeyError] is raised. *)
Theorem get_info_for_rule :
  (forall self key group,
      SemanticGroupInfos.get_info_for self key group =
        match dict_get String.eqb (SemanticGroupInfos.groups self) group with
        | None | Some [] =>
            Raise (KeyError ("No group for " +:+ key +:+ "." +:+ group))
        | Some l =>
            select SemanticGroupInfo.gpu_support
              (KeyError ("No default for " +:+ key +:+ "." +:+ group))
              (AssertionError "") key l
        end)
  /\ (forall self key section,
         SemanticSectionInfos.get_info_for self key section =
           match dict_get String.eqb (SemanticSectionInfos.sections self) section with
           | None | Some [] =>
               Raise (KeyError ("No section for " +:+ key +:+ "." +:+ section))
           | Some l =>
               select SemanticSectionInfo.gpu_support
                 (KeyError ("No default for " +:+ key +:+ "." +:+ section))
                 (AssertionError ("Two defaults for " +:+ section)) key l
           end).
Proof.
  split; intros self key g.
  - unfold SemanticGroupInfos.get_info_for.
    destruct (dict_get _ _ _) as [[|i l]|]; try reflexivity. apply scan_select.
  - unfold SemanticSectionInfos.get_info_for.
    destruct (dict_get _ _ _) as [[|i l]|]; try reflexivity. apply scan_select.
Qed.

(** C9, counterexample.  With two defaults ahead of an entry naming the
    product's key the lookup fails instead of returning that entry; with
    the entry ahead of the two defaults it returns the entry and the two
    defaults go unreported. *)
Lemma get_info_for_counterexample :
  SemanticGroupInfos.get_info_for
    (Examples3.infos [Examples3.default1; Examples3.default2; Examples3.exact])
    "Mali-G78" "Shader core" = Raise (AssertionError "")
  /\ SemanticGroupInfos.get_info_for
       (Examples3.infos [Examples3.exact; Examples3.default1; Examples3.default2])
       "Mali-G78" "Shader core" = Ok Examples3.exact.
Proof. split; reflexivity. Qed.

(** ** Stable IDs (C8) *)

(** C8, the code at the failing inputs.  Two entries of different machine
    names that both lack a stable ID are given the same new ID, 1, because
    the set of IDs in use is not extended by the first assignment; the
    check itself then reports the patched database for a stable ID used by
    two machine names.  When no entry of the database carries an ID, the
    search for an unused ID raises instead of assigning 0. *)
Theorem validate_stable_ids_reuses_new_id :
  lgcpy_validate.validate_stable_ids Examples4.two_missing
    = Ok (2%nat, Examples4.two_missing_patched)
  /\ lgcpy_validate.validate_stable_ids Examples4.two_missing_patched
     = Ok (1%nat, Examples4.two_missing_patched)
  /\ lgcpy_validate.validate_stable_ids Examples4.none_assigned
     = Raise ValueError.
Proof. repeat split; reflexivity. Qed.

(** ** Filtering an indexed view (C7) *)

Lemma update_last (h : list IndexedView.t) x f :
  IndexedView.update (h ++ [x])%list (length h) f = (h ++ [f x])%list.
Proof.
  unfold IndexedView.update.
  rewrite lookup_app_r by lia. rewrite Nat.sub_diag. simpl.
  induction h as [|y h IH]; simpl; [reflexivity|]. f_equal. exact IH.
Qed.

Lemma filter_loop max_visibility derived (h : list IndexedView.t) : forall l x,
  fold_left (IndexedView.filter_step max_visibility derived (length h)) l
            (h ++ [x])%list
  = (h ++ [fold_left IndexedView.add_indexes
             (List.filter (passes max_visibility derived) l) x])%list.
Proof.
  induction l as [|c l IH]; intros x; simpl; [reflexivity|].
  unfold IndexedView.filter_step at 2, passes.
  destruct (CounterView.is_visible c max_visibility); simpl; [|apply IH].
  destruct (CounterView.is_derived c), derived; simpl;
    rewrite ?update_last; apply IH.
Qed.

Lemma fold_add_indexes_by_stable_id : forall l v,
  IndexedView.by_stable_id (fold_left IndexedView.add_indexes l v)
  = fold_left (fun d c => dict_set Z.eqb d (CounterView.stable_id c) c) l
              (IndexedView.by_stable_id v).
Proof. induction l as [|c l IH]; intros v; simpl; [reflexivity | apply IH]. Qed.

Lemma fold_add_indexes_gpu_key : forall l v,
  IndexedView.gpu (fold_left IndexedView.add_indexes l v) = IndexedView.gpu v
  /\ IndexedView.key (fold_left IndexedView.add_indexes l v) = IndexedView.key v.
Proof.
  induction l as [|c l IH]; intros v; simpl; [auto|].
  destruct (IH (IndexedView.add_indexes v c)) as [-> ->]. auto.
Qed.

Lemma fold_dict_set_fresh {V} (key : V -> Z) : forall l d,
  NoDup (map key l) ->
  (forall c, In c l -> ~ In (key c) (dict_keys d)) ->
  fold_left (fun d c => dict_set Z.eqb d (key c) c) l d
  = (d ++ map (fun c => (key c, c)) l)%list.
Proof.
  induction l as [|c l IH]; intros d Hnd Hfresh; cbn [fold_left map].
  - rewrite app_nil_r. reflexivity.
  - cbn [map] in Hnd. apply NoDup_cons in Hnd as [Hc Hnd].
    rewrite list_elem_of_In in Hc.
    rewrite dict_set_fresh;
      [|exact Z.eqb_spec
       |apply dict_get_None_keys; [exact Z.eqb_spec | apply Hfresh; left; reflexivity]].
    rewrite IH; [rewrite <- app_assoc; reflexivity | exact Hnd |].
    intros c' Hin. unfold dict_keys. rewrite map_app, in_app_iff. simpl.
    intros [H|[H|[]]].
    + eapply Hfresh; [right; exact Hin | exact H].
    + apply Hc. rewrite H. apply in_map. exact Hin.
Qed.

Lemma wf_values view :
  by_stable_id_wf view ->
  map CounterView.stable_id (dict_values (IndexedView.by_stable_id view))
  = dict_keys (IndexedView.by_stable_id view).
Proof.
  intros [_ Hk]. unfold dict_values, dict_keys.
  induction (IndexedView.by_stable_id view) as [|[k c] d IH]; simpl; [reflexivity|].
  rewrite <- (Hk k c) by (left; reflexivity). f_equal.
  apply IH. intros k' c' Hin. apply Hk. right. exact Hin.
Qed.

Lemma NoDup_map_filter {A B} (f : A -> B) (p : A -> bool) (l : list A) :
  NoDup (map f l) -> NoDup (map f (List.filter p l)).
Proof.
  induction l as [|x l IH]; cbn [map List.filter]; intros H; [constructor|].
  apply NoDup_cons in H as [Hx Hl]. rewrite list_elem_of_In in Hx.
  destruct (p x); cbn [map]; [|auto].
  apply NoDup_cons. split; [|auto]. rewrite list_elem_of_In.
  intros Hin. apply Hx. apply in_map_iff in Hin as (y & Hy & Hin).
  apply in_map_iff. exists y. split; [exact Hy|].
  apply filter_In in Hin. tauto.
Qed.




Lemma source_view_wf : by_stable_id_wf Examples5.source_view.
Proof.
  split.
  - simpl.
    repeat (apply NoDup_cons_2;
            [rewrite list_elem_of_In; simpl; intuition discriminate|]).
    apply NoDup_nil_2.
  - simpl. intros k c H.
    repeat (destruct H as [H|H]; [inversion H; reflexivity|]).
    destruct H.
Qed.


(** The views [from_db] builds have a well-formed index by stable ID, so
    the theorem on [filter] applies to them. *)
Lemma dict_set_entries {V} (d : dict Z V) k v k' v' :
  In (k', v') (dict_set Z.eqb d k v) -> (k', v') = (k, v) \/ In (k', v') d.
Proof.
  induction d as [|[k0 v0] d IH]; simpl.
  - intros [H|[]]; left; congruence.
  - destruct (Z.eqb_spec k k0) as [->|Hne]; simpl.
    + intros [H|H]; [left; congruence | right; right; exact H].
    + intros [H|H]; [right; left; exact H | destruct (IH H); tauto].
Qed.

Lemma dict_set_keys_NoDup {V} (d : dict Z V) k v :
  NoDup (dict_keys d) -> NoDup (dict_keys (dict_set Z.eqb d k v)).
Proof.
  destruct (dict_get Z.eqb d k) as [x|] eqn:E.
  - replace (dict_keys (dict_set Z.eqb d k v)) with (dict_keys d); [auto|].
    revert E. induction d as [|[k0 v0] d IH]; simpl; [discriminate|].
    destruct (Z.eqb_spec k k0); simpl; [reflexivity|].
    intros E. f_equal. apply IH. exact E.
  - rewrite dict_set_fresh by (exact Z.eqb_spec || exact E).
    unfold dict_keys. rewrite map_app. simpl. intros Hnd.
    apply NoDup_app. split; [exact Hnd|]. split; [|apply NoDup_singleton].
    intros x Hx Hk. apply list_elem_of_In in Hx.
    apply list_elem_of_In in Hk. destruct Hk as [<-|[]].
    apply (dict_get_None_keys _ Z.eqb_spec) in E. contradiction.
Qed.

Lemma add_indexes_wf view c :
  by_stable_id_wf view -> by_stable_id_wf (IndexedView.add_indexes view c).
Proof.
  intros [Hnd Hk]. split; simpl.
  - apply dict_set_keys_NoDup. exact Hnd.
  - intros k c' Hin. apply dict_set_entries in Hin as [E|Hin]; [congruence | auto].
Qed.

Lemma from_db_wf product pi hw_db ct_db view :
  IndexedView.from_db product pi hw_db ct_db = Ok view -> by_stable_id_wf view.
Proof.
  unfold IndexedView.from_db.
  assert (H0 : by_stable_id_wf (IndexedView.init product (ProductInfo.database_key pi))).
  { split; simpl; [apply NoDup_nil_2 | intros ? ? []]. }
  revert H0. generalize (IndexedView.init product (ProductInfo.database_key pi)).
  induction ct_db as [|c l IH]; intros v0 H0; simpl.
  - intros H; injection H as <-. exact H0.
  - unfold IndexedView.from_db_step at 1.
    destruct (negb _); simpl; [apply IH; exact H0|].
    destruct (IndexedView.from_db_counter_view pi hw_db c) as [cv|e]; simpl;
      [|discriminate].
    apply IH. apply add_indexes_wf. exact H0.
Qed.

(** ** Induction on equation trees *)

Lemma Tree_ind_nested (P : Tree -> Prop) :
  (forall e, P e -> P (T_start e)) ->
  (forall n, P (T_name n)) ->
  (forall sub, P sub -> P (T_name_tree sub)) ->
  P T_name_None ->
  (forall s, P (T_NUMBER s)) ->
  (forall a op b, P a -> P b -> P (T_add a op b)) ->
  (forall a op b, P a -> P b -> P (T_mul a op b)) ->
  (forall f ps, Forall P ps -> P (T_function f ps)) ->
  (forall ps, Forall P ps -> P (T_min ps)) ->
  (forall ps, Forall P ps -> P (T_max ps)) ->
  forall t, P t.
Proof.
  intros Hs Hn Ht Hnone Hnum Ha Hm Hf Hmin Hmax.
  refine (fix IH (t : Tree) : P t :=
            let all :=
              fix all (ps : list Tree) : Forall P ps :=
                match ps with
                | [] => List.Forall_nil P
                | p :: ps' => List.Forall_cons P p ps' (IH p) (all ps')
                end in
            match t with
            | T_start e => Hs e (IH e)
            | T_name n => Hn n
            | T_name_tree sub => Ht sub (IH sub)
            | T_name_None => Hnone
            | T_NUMBER s => Hnum s
            | T_add a op b => Ha a op b (IH a) (IH b)
            | T_mul a op b => Hm a op b (IH a) (IH b)
            | T_function f ps => Hf f ps (all ps)
            | T_min ps => Hmin ps (all ps)
            | T_max ps => Hmax ps (all ps)
            end).
Qed.

Lemma map_result_Ok {A B} (f : A -> result B) : forall l l',
  map_result f l = Ok l' -> Forall2 (fun x y => f x = Ok y) l l'.
Proof.
  induction l as [|x l IH]; simpl; intros l' H.
  - injection H as <-. constructor.
  - apply bind_Ok in H as (y & Hy & H). apply bind_Ok in H as (ys & Hys & H).
    injection H as <-. constructor; [exact Hy | apply IH; exact Hys].
Qed.

(** ** Resolving equations (C1) *)

Section ResolveFacts.
Context (index_view : IndexedView.t).

Let good (t r : Tree) : Prop :=
  Forall (primitive_name index_view) (leaf_names r)
  /\ (holds_None r = false -> resolved_of index_view t r).

Lemma good_list (f : Tree -> result Tree) ps ps' :
  Forall (fun t => forall r, f t = Ok r -> good t r) ps ->
  Forall2 (fun x y => f x = Ok y) ps ps' ->
  Forall (primitive_name index_view) (flat_map leaf_names ps')
  /\ (existsb holds_None ps' = false ->
      Forall2 (resolved_of index_view) ps ps').
Proof.
  intros HP H2. induction H2 as [|p p' ps ps' Hp H2 IH]; simpl.
  - split; constructor.
  - apply Forall_cons in HP as [Hgp HP]. destruct (Hgp _ Hp) as [Hprim Hr].
    destruct (IH HP) as [Hprims Hrs]. split.
    + apply Forall_app. split; assumption.
    + intros Hn. apply orb_false_elim in Hn as [Hn1 Hn2].
      constructor; auto.
Qed.

Lemma walk_good (transform : option (Tree -> result Tree)) :
  (forall f, transform = Some f -> forall ast r, f ast = Ok r -> good ast r) ->
  forall t r,
    EquationResolveTransformer.walk
      (EquationResolveTransformer.NAME transform index_view) t = Ok r ->
    good t r.
Proof.
  intros Htr. unfold good in *.
  induction t as [e IHe|n|sub IHs| |s|a op b IHa IHb|a op b IHa IHb
                  |f ps IHps|ps IHps|ps IHps] using Tree_ind_nested;
    intros r H; simpl in H.
  - apply bind_Ok in H as (e' & He & H). injection H as <-.
    destruct (IHe _ He) as [Hp Hr].
    split; [exact Hp | intros Hn; constructor; exact (Hr Hn)].
  - apply bind_Ok in H as (x & Hx & H). injection H as <-.
    apply call_userfunc_Ok in Hx. unfold EquationResolveTransformer.NAME in Hx.
    destruct (CONSTANT_PATTERN_match n) eqn:Hc.
    { injection Hx as <-. split; [|intros _; apply res_constant; exact Hc].
      simpl. constructor; [left; exact Hc | constructor]. }
    destruct (IndexedView.get_by_machine_name index_view n) as [counter|] eqn:Hg;
      [|discriminate].
    destruct (CounterView.is_derived counter) eqn:Hd; simpl in Hx.
    + destruct transform as [f|]; [|discriminate].
      destruct (CounterView.equation_ast counter) as [ast|] eqn:Ha.
      * apply bind_Ok in Hx as (res & Hres & Hx). injection Hx as <-.
        destruct (Htr f eq_refl _ _ Hres) as [Hp Hr].
        split; [exact Hp|]. intros Hn. eapply res_derived; eauto.
      * injection Hx as <-. split; [constructor | discriminate].
    + injection Hx as <-. split; [|intros _; eapply res_native; eassumption].
      simpl. constructor; [right; exists counter; auto | constructor].
  - apply bind_Ok in H as (s' & Hs & H). injection H as <-.
    destruct (IHs _ Hs) as [Hp Hr].
    split; [exact Hp | intros Hn; constructor; exact (Hr Hn)].
  - injection H as <-. split; [constructor | discriminate].
  - injection H as <-. split; constructor.
  - apply bind_Ok in H as (a' & Ha & H). apply bind_Ok in H as (b' & Hb & H).
    injection H as <-. destruct (IHa _ Ha) as [Hpa Hra], (IHb _ Hb) as [Hpb Hrb].
    split; [simpl; apply Forall_app; split; assumption|].
    simpl. intros Hn. apply orb_false_elim in Hn as [Hna Hnb].
    constructor; auto.
  - apply bind_Ok in H as (a' & Ha & H). apply bind_Ok in H as (b' & Hb & H).
    injection H as <-. destruct (IHa _ Ha) as [Hpa Hra], (IHb _ Hb) as [Hpb Hrb].
    split; [simpl; apply Forall_app; split; assumption|].
    simpl. intros Hn. apply orb_false_elim in Hn as [Hna Hnb].
    constructor; auto.
  - apply bind_Ok in H as (ps' & Hps & H). injection H as <-.
    apply map_result_Ok in Hps. destruct (good_list _ _ _ IHps Hps) as [Hp Hr].
    split; [exact Hp | intros Hn; constructor; exact (Hr Hn)].
  - apply bind_Ok in H as (ps' & Hps & H). injection H as <-.
    apply map_result_Ok in Hps. destruct (good_list _ _ _ IHps Hps) as [Hp Hr].
    split; [exact Hp | intros Hn; constructor; exact (Hr Hn)].
  - apply bind_Ok in H as (ps' & Hps & H). injection H as <-.
    apply map_result_Ok in Hps. destruct (good_list _ _ _ IHps Hps) as [Hp Hr].
    split; [exact Hp | intros Hn; constructor; exact (Hr Hn)].
Qed.

Lemma transform_good : forall depth ast r,
  EquationResolveTransformer.transform depth index_view ast = Ok r ->
  good ast r.
Proof.
  induction depth as [|d IH]; intros ast r H; simpl in H.
  - eapply walk_good; [|exact H]. intros f E; discriminate E.
  - eapply walk_good; [|exact H]. intros f E ast' r' Hf.
    injection E as <-. eapply IH. exact Hf.
Qed.
End ResolveFacts.

(** C1, as amended.  When the resolve of an equation succeeds against an
    indexed view and has put [None] nowhere (no derived counter it met
    lacks a parsed equation), every name of the resolved tree is either a
    name matching the constant pattern, kept literally without being
    looked up, or the machine name of a native counter of the view (the
    other leaves being numeric literals); the resolved tree is the
    equation with every name outside the constant pattern that referred to
    a derived counter replaced in place by the resolved tree of that
    counter's own equation; so no name of the result outside the constant
    pattern resolves to a derived counter. *)
Theorem resolve_primitive depth index_view ast resolved :
  equation_ast_to_resolved_ast depth ast index_view = Ok (Some resolved, None) ->
  holds_None resolved = false ->
  Forall (primitive_name index_view) (leaf_names resolved)
  /\ resolved_of index_view ast resolved
  /\ (forall n counter,
        In n (leaf_names resolved) ->
        CONSTANT_PATTERN_match n = false ->
        IndexedView.get_by_machine_name index_view n = Some counter ->
        CounterView.is_derived counter = false).
Proof.
  unfold equation_ast_to_resolved_ast. intros H Hn.
  destruct (EquationResolveTransformer.transform depth index_view ast)
    as [r|e] eqn:Ht; [|destruct e; discriminate].
  injection H as <-.
  destruct (transform_good index_view depth ast r Ht) as [Hp Hr].
  split; [exact Hp|]. split; [exact (Hr Hn)|].
  intros n counter Hin Hc Hg.
  rewrite Forall_forall in Hp. apply list_elem_of_In in Hin.
  destruct (Hp n Hin) as [Hc'|(c' & Hg' & Hd)]; congruence.
Qed.

(** Witness for C1: a derived counter over another derived counter and a
    constant. *)
Lemma resolve_primitive_witness :
  equation_ast_to_resolved_ast 2 Examples6.scaled_equation Examples6.view
    = Ok (Some Examples6.scaled_resolved, None)
  /\ Forall (primitive_name Examples6.view) (leaf_names Examples6.scaled_resolved)
  /\ resolved_of Examples6.view Examples6.scaled_equation Examples6.scaled_resolved.
Proof.
  split; [reflexivity|].
  destruct (resolve_primitive 2 Examples6.view Examples6.scaled_equation
              Examples6.scaled_resolved eq_refl eq_refl) as (H1 & H2 & _).
  split; [exact H1 | exact H2].
Defined.

(** The claim C1 as it stands fails in two ways.  A name matching the
    constant pattern is kept without being looked up, also when the view
    has a derived counter of that name: the resolve of
    [MALIRATIO * 100] succeeds and returns the equation as it is, with a
    name that [get_by_machine_name] resolves to a derived counter.  And a
    reference to a derived counter without a parsed equation is replaced
    by [None]: the resolve of [MaliBroken + 1] succeeds with a [name] node
    holding [None], which is no literal, constant or counter name. *)
Lemma resolve_counterexample :
  (equation_ast_to_resolved_ast 2 Examples17.percent_equation Examples17.view
     = Ok (Some Examples17.percent_equation, None)
   /\ holds_None Examples17.percent_equation = false
   /\ In "MALIRATIO" (leaf_names Examples17.percent_equation)
   /\ exists counter,
        IndexedView.get_by_machine_name Examples17.view "MALIRATIO" = Some counter
        /\ CounterView.is_derived counter = true
        /\ CounterView.equation_ast counter = Some Examples17.ratio_equation)
  /\ (equation_ast_to_resolved_ast 2 Examples17.broken_user_equation Examples17.view
        = Ok (Some Examples17.broken_user_resolved, None)
      /\ holds_None Examples17.broken_user_resolved = true
      /\ exists counter,
           IndexedView.get_by_machine_name Examples17.view "MaliBroken" = Some counter
           /\ CounterView.is_derived counter = true
           /\ CounterView.equation_ast counter = None).
Proof.
  split.
  - split; [reflexivity|]. split; [reflexivity|]. split; [left; reflexivity|].
    eexists. split; [reflexivity|]. split; reflexivity.
  - split; [reflexivity|]. split; [reflexivity|].
    eexists. split; [reflexivity|]. split; reflexivity.
Qed.

(** ** The cardinality check (C5) *)

Section CardinalityFacts.
Import lgcpy_validate cardinality.
Context (cnt_db : IndexedView.t).

Lemma scaling_constants_inv n d :
  scaling_constants n = Some d ->
  scaling_constant_of d = Some n
  /\ str_in n other_constants = false /\ contains_chr "(" n = false.
Proof.
  unfold scaling_constants.
  destruct (String.eqb_spec n "MALI_CONFIG_L2_CACHE_COUNT") as [->|_].
  { intros H; injection H as <-. repeat split. }
  destruct (String.eqb_spec n "MALI_CONFIG_SHADER_CORE_COUNT") as [->|_].
  { intros H; injection H as <-. repeat split. }
  discriminate.
Qed.

Lemma scaling_constant_of_inv d k :
  scaling_constant_of d = Some k -> scaling_constants k = Some d.
Proof. destruct d; simpl; intros H; [discriminate| |]; injection H as <-; reflexivity. Qed.

Lemma constant_present_cons n names d :
  constant_present (n :: names) d =
    match scaling_constant_of d with
    | Some k => String.eqb k n || constant_present names d
    | None => false
    end.
Proof. unfold constant_present. destruct (scaling_constant_of d); reflexivity. Qed.

(** The loop over the [name] nodes: it completes when the operands are
    known, and the two sets it builds are the domains touched and the
    domains whose scaling constant is present. *)
Lemma use_loop : forall nodes domain_use0 scale_use0,
  operands_known cnt_db (token_texts nodes) ->
  exists domain_use scale_use,
    for_each (use_step cnt_db) nodes (domain_use0, scale_use0)
      = Ok (domain_use, scale_use)
    /\ (forall d, d ∈ domain_use <->
                  d ∈ domain_use0 \/ touches cnt_db (token_texts nodes) d = true)
    /\ (forall d, d ∈ scale_use <->
                  d ∈ scale_use0 \/ constant_present (token_texts nodes) d = true).
Proof.
  induction nodes as [|node nodes IH]; intros du0 su0 Hk.
  - exists du0, su0. split; [reflexivity|].
    split; intros d; unfold constant_present; simpl;
      [|destruct (scaling_constant_of d)]; intuition discriminate.
  - revert Hk.
    assert (Htok : forall n,
      operands_known cnt_db (n :: token_texts nodes) ->
      exists domain_use scale_use,
        for_each (use_step cnt_db) (child_token n :: nodes) (du0, su0)
          = Ok (domain_use, scale_use)
        /\ (forall d, d ∈ domain_use <->
              d ∈ du0 \/ touches cnt_db (n :: token_texts nodes) d = true)
        /\ (forall d, d ∈ scale_use <->
              d ∈ su0 \/ constant_present (n :: token_texts nodes) d = true));
      [|destruct node as [n| |]; intros Hk;
        [exact (Htok n Hk) | simpl; apply IH; exact Hk | exact (Htok "None" Hk)]].
    intros n Hk.
    assert (Hk' : operands_known cnt_db (token_texts nodes)).
    { intros m Hm. apply Hk. right. exact Hm. }
    cbn [for_each token_texts]. unfold use_step at 1.
    cbn [has_paren].
    destruct (str_in n other_constants || contains_chr "(" n) eqn:Hskip.
    { simpl. destruct (IH du0 su0 Hk') as (du & su & Hrun & Hdu & Hsu).
      exists du, su. split; [exact Hrun|].
      assert (Hop : counter_operand n = false).
      { unfold counter_operand.
        destruct (str_in n other_constants), (contains_chr "(" n);
          try discriminate; reflexivity. }
      split; intros d.
      - rewrite Hdu. unfold touches. simpl. unfold in_domain at 2. rewrite Hop.
        simpl. tauto.
      - rewrite Hsu, constant_present_cons.
        destruct (scaling_constant_of d) as [k|] eqn:Ek;
          [|unfold constant_present; rewrite Ek; tauto].
        destruct (String.eqb_spec k n) as [->|_]; [|simpl; tauto].
        apply scaling_constant_of_inv, scaling_constants_inv in Ek as (_ & E1 & E2).
        rewrite E1, E2 in Hskip. discriminate. }
    apply orb_false_elim in Hskip as [Ho Hp].
    destruct (scaling_constants n) as [d'|] eqn:Esc.
    { simpl. destruct (IH du0 ({[d']} ∪ su0) Hk') as (du & su & Hrun & Hdu & Hsu).
      exists du, su. split; [exact Hrun|].
      split; intros d.
      - rewrite Hdu. unfold touches. simpl. unfold in_domain at 2, counter_operand.
        rewrite Esc, andb_false_r. simpl. tauto.
      - rewrite Hsu, constant_present_cons, elem_of_union, elem_of_singleton.
        destruct (scaling_constant_of d) as [k|] eqn:Ek.
        + destruct (String.eqb_spec k n) as [->|Hne]; simpl.
          * apply scaling_constant_of_inv in Ek. split; [auto|].
            intros _. left. left. congruence.
          * split; [intros [[->|H]|H]; auto|tauto].
            exfalso. apply scaling_constants_inv in Esc as (E & _). congruence.
        + unfold constant_present. rewrite Ek.
          split; [intros [[->|H]|H]; auto|tauto].
          apply scaling_constants_inv in Esc as (E & _). congruence. }
    assert (Hop : counter_operand n = true).
    { unfold counter_operand. rewrite Ho, Hp, Esc. reflexivity. }
    destruct (Hk n (or_introl eq_refl) Hop) as (c & bt & Hg & Hb).
    rewrite Hg, Hb. simpl.
    destruct (IH ({[domains bt]} ∪ du0) su0 Hk') as (du & su & Hrun & Hdu & Hsu).
    exists du, su. split; [exact Hrun|].
    split; intros d.
    + rewrite Hdu, elem_of_union, elem_of_singleton. unfold touches. simpl.
      unfold in_domain at 2. rewrite Hop, Hg, Hb. simpl.
      destruct (bool_decide_reflect (domains bt = d)) as [E|E]; simpl.
      * split; auto.
      * split; [intros [[->|H]|H]; [congruence | auto | auto] | tauto].
    + rewrite Hsu, constant_present_cons.
      destruct (scaling_constant_of d) as [k|] eqn:Ek;
        [|unfold constant_present; rewrite Ek; tauto].
      destruct (String.eqb_spec k n) as [->|_]; [|simpl; tauto].
      apply scaling_constant_of_inv in Ek. congruence.
Qed.

Lemma use_step_known acc n :
  operand_known cnt_db n = true ->
  exists acc', use_step cnt_db acc (child_token n) = Ok acc'.
Proof.
  destruct acc as [du su]. unfold operand_known, counter_operand, use_step.
  cbn [has_paren]. intros H.
  destruct (str_in n other_constants); cbn; [eauto|].
  destruct (contains_chr "(" n); cbn; [eauto|].
  destruct (scaling_constants n); [eauto|]. cbn in H.
  destruct (IndexedView.get_by_machine_name cnt_db n) as [c|]; [|discriminate].
  destruct (CounterView.block_type c); [eauto|discriminate].
Qed.

Lemma use_step_unknown acc n :
  operand_known cnt_db n = false ->
  use_step cnt_db acc (child_token n) = Raise (AssertionError "").
Proof.
  destruct acc as [du su]. unfold operand_known, counter_operand, use_step.
  cbn [has_paren]. intros H.
  destruct (str_in n other_constants); cbn in *; [discriminate|].
  destruct (contains_chr "(" n); cbn in *; [discriminate|].
  destruct (scaling_constants n); [discriminate|]. cbn in H.
  destruct (IndexedView.get_by_machine_name cnt_db n) as [c|]; [|reflexivity].
  destruct (CounterView.block_type c); [discriminate|reflexivity].
Qed.

(** The loop over the [name] nodes stops on an assertion when a name is
    not known. *)
Lemma use_loop_fails : forall nodes acc,
  forallb (operand_known cnt_db) (token_texts nodes) = false ->
  for_each (use_step cnt_db) nodes acc = Raise (AssertionError "").
Proof.
  induction nodes as [|node nodes IH]; intros acc; [discriminate|].
  assert (Htok : forall n,
    forallb (operand_known cnt_db) (n :: token_texts nodes) = false ->
    for_each (use_step cnt_db) (child_token n :: nodes) acc
    = Raise (AssertionError ""));
    [|destruct node as [n| |]; intros Hk;
      [exact (Htok n Hk)
      |destruct acc; cbn [for_each]; exact (IH _ Hk)
      |destruct acc; exact (Htok "None" Hk)]].
  intros n Hk. cbn [forallb] in Hk. cbn [for_each].
  destruct (operand_known cnt_db n) eqn:Hn.
  - destruct (use_step_known acc n Hn) as (acc' & ->). cbn [bind].
    apply IH. exact Hk.
  - rewrite (use_step_unknown acc n Hn). reflexivity.
Qed.

Lemma count_fold (p : Domain -> bool) : forall l n,
  fold_left (fun errors d => if p d then S errors else errors) l n
  = (n + length (List.filter p l))%nat.
Proof.
  induction l as [|d l IH]; intros n; simpl; [lia|].
  rewrite IH. destruct (p d); simpl; lia.
Qed.

Lemma NoDup_List_filter {A} (p : A -> bool) (l : list A) :
  NoDup l -> NoDup (List.filter p l).
Proof.
  induction l as [|x l IH]; simpl; intros H; [constructor|].
  apply NoDup_cons in H as [Hx Hl]. destruct (p x); [|auto].
  apply NoDup_cons. split; [|auto].
  rewrite list_elem_of_In, filter_In. rewrite list_elem_of_In in Hx. tauto.
Qed.

Lemma NoDup_all_domains : NoDup [GPU; MEM; SC].
Proof.
  repeat (apply NoDup_cons_2;
          [rewrite list_elem_of_In; simpl; intuition discriminate|]).
  apply NoDup_nil_2.
Qed.

Lemma same_length_filters (p q : Domain -> bool) (l k : list Domain) :
  NoDup l -> NoDup k ->
  (forall d, (In d l /\ p d = true) <-> (In d k /\ q d = true)) ->
  length (List.filter p l) = length (List.filter q k).
Proof.
  intros Hl Hk H. apply Permutation_length, NoDup_Permutation.
  - apply NoDup_List_filter. exact Hl.
  - apply NoDup_List_filter. exact Hk.
  - intros d. rewrite !list_elem_of_In, !filter_In. apply H.
Qed.
End CardinalityFacts.

Section CardinalityRule.
Import lgcpy_validate cardinality.

Lemma count_missing_filter (domain_use scale_use : gset Domain) :
  count_missing domain_use scale_use
  = length (List.filter
              (fun d => negb (bool_decide (d = GPU)) && bool_decide (d ∉ scale_use))
              (elements domain_use)).
Proof.
  unfold count_missing.
  change (length ?l) with (0 + length l)%nat.
  generalize 0%nat. induction (elements domain_use) as [|d l IH]; intros n; simpl;
    [lia|].
  rewrite IH. destruct (bool_decide (d = GPU)), (bool_decide (d ∉ scale_use));
    simpl; lia.
Qed.

Lemma in_all_domains (d : Domain) : In d [GPU; MEM; SC].
Proof. destruct d; simpl; auto. Qed.

(** For a derived counter with a resolved equation that is not in the
    exception list and whose counter operands are known: when the
    operands touch more than one domain, the check adds one error for each
    of the domains MEM and SC that an operand touches while its scaling
    constant stands nowhere in the expression; it adds none when the
    operands touch at most one domain. *)
Lemma check_counter_rule cnt_db counter resolved :
  CounterView.equation_ast_resolved counter = Some resolved ->
  CounterView.is_derived counter = true ->
  str_in (CounterView.machine_name counter) exceptions = false ->
  operands_known cnt_db (name_tokens resolved) ->
  check_counter cnt_db counter
    = Ok (if (domains_touched cnt_db (name_tokens resolved) <=? 1)%nat then O
          else length (missing_scaling cnt_db (name_tokens resolved))).
Proof.
  intros Hres Hder Hexc Hknown. set (names := name_tokens resolved).
  unfold check_counter. rewrite Hres, Hder, Hexc.
    destruct (use_loop cnt_db (find_data_name resolved) ∅ ∅ Hknown)
      as (du & su & Hrun & Hdu & Hsu).
    rewrite Hrun. cbn [Py.bind].
    assert (Hsize : size du = domains_touched cnt_db names).
    { transitivity (length (List.filter (fun _ : Domain => true) (elements du))).
      { rewrite List.filter_true by (intros; reflexivity). reflexivity. }
      unfold domains_touched.
      apply same_length_filters;
        [apply NoDup_elements | apply NoDup_all_domains|].
      intros d. rewrite <- list_elem_of_In, elem_of_elements, Hdu.
      split.
      + intros [[H|H] _]; [set_solver | split; [apply in_all_domains | exact H]].
      + intros [_ H]. split; [right; exact H | reflexivity]. }
    rewrite Hsize. destruct (domains_touched cnt_db names <=? 1)%nat; [reflexivity|].
    f_equal. rewrite count_missing_filter. unfold missing_scaling.
    apply same_length_filters.
    - apply NoDup_elements.
    - apply NoDup_cons_2; [rewrite list_elem_of_In; simpl; intuition discriminate|].
      apply NoDup_cons_2; [rewrite list_elem_of_In; simpl; intuition|].
      apply NoDup_nil_2.
    - intros d. rewrite <- list_elem_of_In, elem_of_elements, Hdu.
      rewrite !andb_true_iff, negb_true_iff, bool_decide_eq_false,
        bool_decide_eq_true, Hsu.
      split.
      + intros [[H|Ht] [Hg Hns]]; [set_solver|].
        split; [destruct d; simpl; tauto|]. split; [exact Ht|].
        destruct (constant_present names d) eqn:Ec; [|reflexivity].
        exfalso. apply Hns. right. exact Ec.
      + intros [Hin [Ht Hnp]]. split; [right; exact Ht|].
        split; [destruct Hin as [<-|[<-|[]]]; discriminate|].
        intros [H|H]; [set_solver|]. unfold names, name_tokens in Hnp.
        rewrite H in Hnp.
        discriminate.
Qed.

(** Counters that are native, have no resolved equation or stand in the
    exception list add no error. *)
Lemma check_counter_skips cnt_db counter :
  CounterView.is_derived counter = false
  \/ CounterView.equation_ast_resolved counter = None
  \/ str_in (CounterView.machine_name counter) exceptions = true ->
  check_counter cnt_db counter = Ok O.
Proof.
  unfold check_counter. intros [H|[H|H]]; rewrite ?H.
  - destruct (CounterView.equation_ast_resolved counter); reflexivity.
  - reflexivity.
  - destruct (CounterView.equation_ast_resolved counter),
      (CounterView.is_derived counter); reflexivity.
Qed.

Lemma names_known_operands cnt_db names :
  forallb (operand_known cnt_db) names = true -> operands_known cnt_db names.
Proof.
  intros H n Hin Hop. rewrite forallb_forall in H. specialize (H n Hin).
  unfold operand_known in H. rewrite Hop in H. cbn [negb orb] in H.
  destruct (IndexedView.get_by_machine_name cnt_db n) as [c|] eqn:Hg;
    [|discriminate].
  destruct (CounterView.block_type c) as [bt|] eqn:Hb; [|discriminate].
  exists c, bt. split; [reflexivity | exact Hb].
Qed.

(** What one counter adds: the errors the rule asks for when the names
    of its equation are known, an assertion error otherwise. *)
Lemma check_counter_outcome cnt_db counter :
  check_counter cnt_db counter
  = if names_known cnt_db counter then Ok (expected_errors cnt_db counter)
    else Raise (AssertionError "").
Proof.
  unfold names_known, expected_errors, examined.
  destruct (CounterView.equation_ast_resolved counter) as [resolved|] eqn:Hres;
    [|apply check_counter_skips; auto].
  destruct (CounterView.is_derived counter) eqn:Hd;
    [|apply check_counter_skips; auto].
  destruct (str_in (CounterView.machine_name counter) exceptions) eqn:He;
    [apply check_counter_skips; auto|].
  cbn [negb andb].
  destruct (forallb (operand_known cnt_db) (name_tokens resolved)) eqn:Hk.
  - exact (check_counter_rule cnt_db counter resolved Hres Hd He
             (names_known_operands _ _ Hk)).
  - unfold check_counter. rewrite Hres, Hd, He.
    rewrite (use_loop_fails cnt_db (find_data_name resolved) (∅, ∅) Hk).
    reflexivity.
Qed.

(** The loop over the counters of the view. *)
Lemma validate_loop cnt_db : forall l n0,
  for_each (fun errors counter =>
              let* n := check_counter cnt_db counter in Ok (errors + n)%nat)
           l n0
  = if forallb (names_known cnt_db) l
    then Ok (n0 + list_sum (map (expected_errors cnt_db) l))%nat
    else Raise (AssertionError "").
Proof.
  unfold list_sum.
  induction l as [|c l IH]; intros n0; cbn [for_each forallb map fold_right].
  - f_equal. lia.
  - rewrite check_counter_outcome.
    destruct (names_known cnt_db c); cbn [bind andb]; [|reflexivity].
    rewrite IH. destruct (forallb (names_known cnt_db) l); [|reflexivity].
    f_equal. lia.
Qed.

(** C5, as amended.  When every examined counter (derived, with a
    resolved equation, not in the exception list) names only listed
    constants and counters of the view placed in a hardware block, the
    validator returns the sum of what the rule asks for each counter of
    the view; when one of them names anything else, the validator stops
    on an assertion.  What the rule asks for an examined counter: nothing
    when its operands touch at most one domain, nothing when every
    domain among MEM and SC that an operand touches has its scaling
    constant (MALI_CONFIG_L2_CACHE_COUNT, MALI_CONFIG_SHADER_CORE_COUNT)
    somewhere in the expression, and otherwise one error for each of the
    domains MEM and SC touched without its constant. *)
Theorem cardinality_rule cnt_db :
  validate_derived_equation_cardinality cnt_db
  = (if forallb (names_known cnt_db) (IndexedView.iter cnt_db)
     then Ok (list_sum (map (expected_errors cnt_db) (IndexedView.iter cnt_db)))
     else Raise (AssertionError ""))
  /\ (forall counter,
        examined counter = None -> expected_errors cnt_db counter = O)
  /\ (forall counter resolved,
        examined counter = Some resolved ->
        let names := name_tokens resolved in
        ((domains_touched cnt_db names <= 1)%nat ->
         expected_errors cnt_db counter = O)
        /\ ((forall d, In d [MEM; SC] -> touches cnt_db names d = true ->
                       constant_present names d = true) ->
            expected_errors cnt_db counter = O)
        /\ ((1 < domains_touched cnt_db names)%nat ->
            expected_errors cnt_db counter
            = length (missing_scaling cnt_db names))).
Proof.
  split; [|split].
  - unfold validate_derived_equation_cardinality. rewrite validate_loop.
    reflexivity.
  - intros counter H. unfold expected_errors. rewrite H. reflexivity.
  - intros counter resolved H names. unfold expected_errors. rewrite H.
    fold names. split; [|split].
    + intros Hle. apply Nat.leb_le in Hle. rewrite Hle. reflexivity.
    + intros Hall.
      destruct (domains_touched cnt_db names <=? 1)%nat; [reflexivity|].
      unfold missing_scaling. simpl.
      destruct (touches cnt_db names MEM) eqn:E1; simpl.
      * rewrite (Hall MEM (or_introl eq_refl) E1). simpl.
        destruct (touches cnt_db names SC) eqn:E2; simpl; [|reflexivity].
        rewrite (Hall SC (or_intror (or_introl eq_refl)) E2). reflexivity.
      * destruct (touches cnt_db names SC) eqn:E2; simpl; [|reflexivity].
        rewrite (Hall SC (or_intror (or_introl eq_refl)) E2). reflexivity.
    + intros Hlt. apply Nat.leb_gt in Hlt. rewrite Hlt. reflexivity.
Qed.
End CardinalityRule.

(** A shader-core counter plus a memory-system counter with no scaling
    constant gives one error for MEM and one for SC; with both constants
    as divisors it gives none, and the validator returns two errors for
    the view that holds both equations. *)
Lemma cardinality_example :
  cardinality.expected_errors Examples7.view Examples7.mixed_view = 2%nat
  /\ cardinality.missing_scaling Examples7.view
       (cardinality.name_tokens Examples7.mixed_equation)
     = [lgcpy_validate.MEM; lgcpy_validate.SC]
  /\ cardinality.expected_errors Examples7.view Examples7.scaled_view = 0%nat
  /\ lgcpy_validate.validate_derived_equation_cardinality Examples7.view
     = Ok 2%nat.
Proof.
  split; [reflexivity|]. split; [reflexivity|]. split; [reflexivity|].
  unfold lgcpy_validate.validate_derived_equation_cardinality.
  rewrite validate_loop. reflexivity.
Qed.

(** The claim C5 as it stands fails where an examined counter names an
    unlisted constant.  The equation
    [MaliFragActive + MaliL2Rd * MALI_CONFIG_FOO] resolves, touches the
    domains SC and MEM and has neither scaling constant, so the claim
    asks for two errors; the validator stops on its assertion that the
    name is a counter of the view. *)
Lemma cardinality_counterexample :
  equation_ast_to_resolved_ast 1 Examples18.foo_equation Examples18.view
  = Ok (Some Examples18.foo_equation, None)
  /\ In Examples18.foo_view (IndexedView.iter Examples18.view)
  /\ cardinality.examined Examples18.foo_view = Some Examples18.foo_equation
  /\ cardinality.missing_scaling Examples18.view
       (cardinality.name_tokens Examples18.foo_equation)
     = [lgcpy_validate.MEM; lgcpy_validate.SC]
  /\ cardinality.domains_touched Examples18.view
       (cardinality.name_tokens Examples18.foo_equation) = 2%nat
  /\ lgcpy_validate.validate_derived_equation_cardinality Examples18.view
     = Raise (AssertionError "").
Proof.
  split; [reflexivity|].
  split; [vm_compute; right; right; left; reflexivity|].
  split; [reflexivity|]. split; [reflexivity|]. split; [reflexivity|].
  unfold lgcpy_validate.validate_derived_equation_cardinality.
  rewrite validate_loop. reflexivity.
Qed.

(** ** Integer literals read back as the integer *)

Lemma read_digits_uint : forall d b acc,
  read_digits b acc (list_ascii_of_string (NilEmpty.string_of_uint d))
  = Some ((acc ++ udigits d)%list, []).
Proof.
  induction d; intros b acc; simpl;
    [rewrite app_nil_r; reflexivity | ..];
    (etransitivity; [apply IHd|]; rewrite <- app_assoc; reflexivity).
Qed.

Lemma fold_digits_acc : forall d acc,
  fold_left (fun a x => 10 * a + x) (udigits d) (Zpos acc)
  = Zpos (Pos.of_uint_acc d acc).
Proof.
  induction d; intros acc; simpl; try reflexivity;
    (etransitivity; [|apply IHd]); f_equal; lia.
Qed.

Lemma digits_value_uint d :
  digits_value (udigits d) = Z.of_N (Pos.of_uint d).
Proof.
  unfold digits_value. induction d; simpl; try reflexivity; try exact IHd;
    apply (fold_digits_acc d).
Qed.

Lemma uint_chars_not_space d :
  Forall (fun c => is_space c = false)
         (list_ascii_of_string (NilEmpty.string_of_uint d)).
Proof. induction d; simpl; constructor; auto. Qed.

Lemma lstrip_id c l : is_space c = false -> lstrip (c :: l) = c :: l.
Proof. intros H. simpl. rewrite H. reflexivity. Qed.

Lemma strip_id l :
  Forall (fun c => is_space c = false) l -> strip l = l.
Proof.
  intros H. unfold strip.
  assert (Hl : forall k, Forall (fun c => is_space c = false) k -> lstrip k = k).
  { intros [|c k] Hk; [reflexivity|]. apply lstrip_id.
    apply Forall_cons in Hk as [Hc _]. exact Hc. }
  rewrite (Hl l H). rewrite Hl.
  - apply rev_involutive.
  - apply Forall_forall. intros c Hc. rewrite Forall_forall in H. apply H.
    apply list_elem_of_In. apply list_elem_of_In in Hc. apply in_rev. exact Hc.
Qed.

Lemma float_of_numeral_uint s d :
  d <> Decimal.Nil ->
  float_of_numeral s (list_ascii_of_string (NilEmpty.string_of_uint d))
  = Ok (float_of_decimal s (Z.of_N (Pos.of_uint d)) 0).
Proof.
  intros Hd. unfold float_of_numeral. rewrite read_digits_uint. simpl.
  rewrite app_nil_r, digits_value_uint.
  destruct d; [contradiction | reflexivity ..].
Qed.

Lemma not_special_uint d :
  d <> Decimal.Nil ->
  let w := lower (NilEmpty.string_of_uint d) in
  String.eqb w "inf" || String.eqb w "infinity" = false
  /\ String.eqb w "nan" = false.
Proof. intros Hd. destruct d; [contradiction | split; reflexivity ..]. Qed.

Lemma read_sign_uint d :
  read_sign (list_ascii_of_string (NilEmpty.string_of_uint d))
  = (false, list_ascii_of_string (NilEmpty.string_of_uint d)).
Proof. destruct d; reflexivity. Qed.

Lemma float_of_str_uint d :
  d <> Decimal.Nil ->
  float_of_str (NilEmpty.string_of_uint d)
  = Ok (float_of_decimal false (Z.of_N (Pos.of_uint d)) 0)
  /\ float_of_str (String "-" (NilEmpty.string_of_uint d))
     = Ok (float_of_decimal true (Z.of_N (Pos.of_uint d)) 0).
Proof.
  intros Hd. destruct (not_special_uint d Hd) as [H1 H2]. split.
  - unfold float_of_str. rewrite strip_id by apply uint_chars_not_space.
    rewrite read_sign_uint, string_of_list_ascii_of_string, H1, H2.
    apply float_of_numeral_uint. exact Hd.
  - unfold float_of_str. cbn [list_ascii_of_string].
    rewrite strip_id by (constructor; [reflexivity | apply uint_chars_not_space]).
    cbn [read_sign Ascii.eqb Bool.eqb]. simpl Ascii.eqb. cbv iota.
    rewrite string_of_list_ascii_of_string, H1, H2.
    apply float_of_numeral_uint. exact Hd.
Qed.

Lemma float_of_str_of_int z :
  float_of_str (str_of_int z) = Ok (float_of_int z).
Proof.
  unfold str_of_int, float_of_int. destruct z as [|p|p]; [reflexivity | |].
  - simpl Z.to_int. unfold Pos.to_int.
    unfold NilZero.string_of_int, NilZero.string_of_uint.
    pose proof (DecimalPos.Unsigned.to_uint_nonnil p) as Hn.
    destruct (Pos.to_uint p) eqn:E; [contradiction | ..];
      rewrite <- E; rewrite <- E in Hn;
      rewrite (proj1 (float_of_str_uint _ Hn)), DecimalPos.Unsigned.of_to;
      unfold float_of_decimal; simpl Z.of_N; cbv iota;
      rewrite Z.mul_1_r; reflexivity.
  - simpl Z.to_int.
    unfold NilZero.string_of_int, NilZero.string_of_uint.
    pose proof (DecimalPos.Unsigned.to_uint_nonnil p) as Hn.
    destruct (Pos.to_uint p) eqn:E; [contradiction | ..];
      rewrite <- E; rewrite <- E in Hn;
      rewrite (proj2 (float_of_str_uint _ Hn)), DecimalPos.Unsigned.of_to;
      unfold float_of_decimal; simpl Z.of_N; cbv iota;
      rewrite Z.mul_1_r; reflexivity.
Qed.

(** ** Peephole simplification (C2) *)

Lemma str_of_int_truthy z : truthy_str (str_of_int z) = true.
Proof.
  unfold str_of_int. destruct z as [|p|p]; [reflexivity | |]; simpl Z.to_int.
  - unfold Pos.to_int, NilZero.string_of_int, NilZero.string_of_uint.
    pose proof (DecimalPos.Unsigned.to_uint_nonnil p) as Hn.
    destruct (Pos.to_uint p); [contradiction | reflexivity ..].
  - reflexivity.
Qed.

Lemma to_literal_integer r z :
  float_integer r z -> to_literal r = Ok (str_of_int z).
Proof.
  intros [Hi He]. unfold to_literal. rewrite Hi. simpl.
  rewrite float_of_str_of_int. simpl. rewrite He. reflexivity.
Qed.

Lemma is_number_PStr s x : float_of_str s = Ok x -> is_number (PStr s) = true.
Proof. unfold is_number. simpl. intros ->. reflexivity. Qed.

Lemma is_number_inv v :
  is_number v = true -> exists x, float_of_str (py_str v) = Ok x.
Proof.
  unfold is_number. destruct (float_of_str (py_str v)) as [x|e]; [eauto|discriminate].
Qed.

Lemma eqb_neq_false (s t : string) : s <> t -> String.eqb s t = false.
Proof. intros H. destruct (String.eqb_spec s t); [contradiction | reflexivity]. Qed.

Lemma mul_rule_sound a op b r :
  mul_rule a op b r -> EquationPrettyPrintTransformer.mul a op b = Ok r.
Proof.
  unfold EquationPrettyPrintTransformer.mul.
  intros H. destruct H as [a op|b Hb|sa op sb x y r z Hsb Hsa Hx Hy Hr Hz
                           |p aa sab s sb x y z Hsb Hx Hy Hz|a op b Hb Ha Hl Hc].
  - reflexivity.
  - rewrite Hb. reflexivity.
  - cbn [py_eq_str]. rewrite (eqb_neq_false _ _ Hsb).
    assert (E : String.eqb op "*" && String.eqb sa "1" = false).
    { destruct (String.eqb_spec op "*") as [->|]; [|reflexivity].
      simpl. apply eqb_neq_false. auto. }
    rewrite E. unfold EquationPrettyPrintTransformer._simplify_mul_str_str.
    rewrite (is_number_PStr _ _ Hx), (is_number_PStr _ _ Hy). cbn [negb orb py_float].
    rewrite Hx, Hy. cbn [Py.bind]. unfold float_binop in Hr.
    destruct (String.eqb op "*").
    + injection Hr as <-. rewrite (to_literal_integer _ _ Hz). cbn [Py.bind truthy_opt_str].
      rewrite str_of_int_truthy. reflexivity.
    + rewrite Hr. cbn [Py.bind]. rewrite (to_literal_integer _ _ Hz).
      cbn [Py.bind truthy_opt_str]. rewrite str_of_int_truthy. reflexivity.
  - cbn [py_eq_str]. rewrite (eqb_neq_false _ _ Hsb). rewrite andb_false_r.
    cbn [EquationPrettyPrintTransformer._simplify_mul_str_str Py.bind truthy_opt_str].
    unfold EquationPrettyPrintTransformer._simplify_mul_op_str.
    rewrite (is_number_PStr _ _ Hx), (is_number_PStr _ _ Hy). cbn [negb orb py_float].
    rewrite Hx, Hy. cbn [Py.bind]. simpl (String.eqb "*" "*" && String.eqb "*" "*").
    cbv iota. rewrite (to_literal_integer _ _ Hz). reflexivity.
  - rewrite Hb.
    assert (E : String.eqb op "*" && py_eq_str a "1" = false).
    { destruct (String.eqb_spec op "*") as [->|]; [|reflexivity]. simpl. auto. }
    rewrite E.
    assert (E1 : EquationPrettyPrintTransformer._simplify_mul_str_str a op b = Ok None).
    { unfold EquationPrettyPrintTransformer._simplify_mul_str_str.
      destruct a, b; try reflexivity. simpl in Hl.
      destruct (is_number (PStr s)), (is_number (PStr s0)); try discriminate;
        reflexivity. }
    rewrite E1. cbn [Py.bind truthy_opt_str].
    assert (E2 : EquationPrettyPrintTransformer._simplify_mul_op_str a op b = Ok None).
    { unfold EquationPrettyPrintTransformer._simplify_mul_op_str.
      destruct Hc as [Hc|(ao & p & aa & sab & s & -> & Hops)].
      - destruct a, b; try reflexivity. simpl in Hc.
        destruct (is_number a2), (is_number (PStr s)); try discriminate; reflexivity.
      - destruct b as [sb| |]; try reflexivity.
        destruct (is_number (PStr sab)) eqn:N1; [|reflexivity].
        destruct (is_number (PStr sb)) eqn:N2; [|reflexivity].
        apply is_number_inv in N1 as (x & Hx). apply is_number_inv in N2 as (y & Hy).
        simpl in Hx, Hy. cbn [negb orb py_float]. rewrite Hx, Hy. cbn [Py.bind].
        destruct (String.eqb_spec ao "*"), (String.eqb_spec op "*");
          try reflexivity. exfalso. apply Hops. auto. }
    rewrite E2. reflexivity.
Qed.

(** C2 (as amended).  A multiplicative node is rewritten by the first of
    these rules that applies: an operand followed by the literal 1 is the
    operand alone, for * and for /; the literal 1 times an operand is that
    operand, for * only; the product or the quotient of two numeric
    literals, computed as a float, is the single integer literal of its
    value when that value is exactly an integer; (a * lit1) * lit2, both
    operators being *, is a * lit with lit the integer literal of
    lit1 * lit2 when that product is exactly an integer; in any other case
    the node stays as the operator node of its two operands.  "A * 1"
    prints as "A", "2 * 3" as "6" and "(A * 2) * 3" as "A * 6". *)
Theorem peephole_rules :
  (forall a op b r,
      mul_rule a op b r -> EquationPrettyPrintTransformer.mul a op b = Ok r)
  /\ equation_ast_to_str Examples8.times_one = Ok "A"
  /\ equation_ast_to_str Examples8.two_times_three = Ok "6"
  /\ equation_ast_to_str Examples8.nested_literals = Ok "A * 6".
Proof.
  split; [exact mul_rule_sound|]. repeat split; reflexivity.
Qed.

(** Witness for C2: the fold of [2 * 3], the floats being 2.0, 3.0 and
    6.0. *)
Lemma peephole_rules_witness :
  EquationPrettyPrintTransformer.mul (PStr "2") "*" (PStr "3") = Ok (PStr "6").
Proof.
  apply (proj1 peephole_rules (PStr "2") "*" (PStr "3") (PStr (str_of_int 6))).
  apply (rule_fold "2" "*" "3"
           (S754_finite false 4503599627370496 (-51))
           (S754_finite false 6755399441055744 (-51))
           (S754_finite false 6755399441055744 (-50)) 6).
  - discriminate.
  - intros _. discriminate.
  - reflexivity.
  - reflexivity.
  - reflexivity.
  - split; reflexivity.
Defined.

(** C2, counterexample.  The quotient of two literals is folded too:
    [6 / 3] prints as "2", where the rules of the claim, which fold
    products only, would leave the node to print as "6 / 3". *)
Lemma peephole_counterexample :
  EquationPrettyPrintTransformer.mul (PStr "6") "/" (PStr "3") = Ok (PStr "2")
  /\ EquationPrettyPrintTransformer.mul (PStr "6") "/" (PStr "3")
     <> Ok (OperatorNode (PStr "6") "/" (PStr "3") 1)
  /\ equation_ast_to_str Examples8.six_by_three = Ok "2".
Proof. repeat split; try reflexivity. discriminate. Qed.

(** ** The round trip through the parser (C4) *)

(** ** Lexing the text of the pretty-printer *)

Section LexFacts.
Import equationgrammar.

Lemma append_cons c (a b : string) : String c a +:+ b = String c (a +:+ b).
Proof. reflexivity. Qed.

Lemma append_nil_l (b : string) : "" +:+ b = b.
Proof. reflexivity. Qed.

Lemma append_assoc3 (a b c : string) : (a +:+ b) +:+ c = a +:+ (b +:+ c).
Proof.
  induction a as [|x a IH]; [reflexivity|].
  rewrite !append_cons, IH. reflexivity.
Qed.

Lemma append_empty_r (a : string) : a +:+ "" = a.
Proof.
  induction a as [|x a IH]; [reflexivity|]. rewrite append_cons, IH. reflexivity.
Qed.

Lemma sep_head_start s s' : sep_head s -> sep_start (s +:+ s').
Proof. destruct s as [|c s]; [contradiction|]. intros H. exact H. Qed.

Lemma lex_word : forall w cur s',
  all_chr is_word_chr w = true ->
  lex_from cur (w +:+ s') = lex_from (cur +:+ w) s'.
Proof.
  induction w as [|c w IH]; intros cur s' H.
  - rewrite append_empty_r. reflexivity.
  - simpl in H. apply andb_prop in H as [Hc Hw].
    rewrite append_cons. cbn [lex_from]. rewrite Hc.
    rewrite IH by exact Hw. rewrite append_assoc3. reflexivity.
Qed.

Lemma lex_flush cur s' :
  sep_start s' ->
  lex_from cur s' =
    match flush cur, lex_from "" s' with
    | Some a, Some d => Some (a ++ d)%list
    | _, _ => None
    end.
Proof.
  destruct s' as [|c s'']; simpl; intros H.
  - destruct (flush cur); [rewrite app_nil_r|]; reflexivity.
  - rewrite H. destruct (flush cur), (sep_token c), (lex_from "" s''); reflexivity.
Qed.

Lemma lexes_word w t :
  all_chr is_word_chr w = true -> w <> "" -> classify w = Some t ->
  lexes w [t].
Proof.
  intros Hw Hne Hc s' Hs'. rewrite lex_word by exact Hw. rewrite append_nil_l.
  rewrite lex_flush by exact Hs'. unfold flush. rewrite Hc.
  destruct w; [contradiction|]. reflexivity.
Qed.

Lemma lexes_nil : lexes "" [].
Proof. intros s' _. rewrite append_nil_l. destruct (lex_from "" s'); reflexivity. Qed.

Lemma lexes_sep c b s ts :
  is_word_chr c = false -> sep_token c = Some b ->
  lexes s ts -> lexes (String c s) (b ++ ts).
Proof.
  intros Hc Hb Hs s' Hs'. rewrite append_cons. cbn [lex_from flush].
  rewrite Hc, Hb. rewrite (Hs s' Hs').
  destruct (lex_from "" s'); [|reflexivity].
  cbn [app]. rewrite <- app_assoc. reflexivity.
Qed.

Lemma lexes_app s1 t1 s2 t2 :
  lexes s1 t1 -> sep_head s2 -> lexes s2 t2 -> lexes (s1 +:+ s2) (t1 ++ t2).
Proof.
  intros H1 Hh H2 s' Hs'. rewrite append_assoc3.
  rewrite (H1 (s2 +:+ s')) by (apply sep_head_start; exact Hh).
  rewrite (H2 s' Hs'). destruct (lex_from "" s'); [rewrite <- app_assoc|]; reflexivity.
Qed.

Lemma lexes_lex s ts : lexes s ts -> lex s = Some ts.
Proof.
  intros H. unfold lex. specialize (H "" I). rewrite append_empty_r in H.
  rewrite H. simpl. rewrite app_nil_r. reflexivity.
Qed.

(** Characters *)

Lemma name_chr_word c : is_name_chr c = true -> is_word_chr c = true.
Proof. unfold is_word_chr. intros ->. reflexivity. Qed.

Lemma name_start_chr c : is_name_start c = true -> is_name_chr c = true.
Proof.
  unfold is_name_start, is_name_chr. intros H.
  apply orb_prop in H as [->| ->]; [reflexivity | apply orb_true_r].
Qed.

Lemma all_chr_impl (p q : ascii -> bool) s :
  (forall c, p c = true -> q c = true) -> all_chr p s = true -> all_chr q s = true.
Proof.
  intros Hpq. induction s as [|c s IH]; simpl; [reflexivity|].
  intros H. apply andb_prop in H as [Hc Hs]. rewrite (Hpq c Hc), (IH Hs). reflexivity.
Qed.

Lemma digit_not_name_start c : is_digit c = true -> is_name_start c = false.
Proof.
  destruct c as [[|] [|] [|] [|] [|] [|] [|] [|]]; vm_compute; congruence.
Qed.

Lemma digit_name_chr c : is_digit c = true -> is_name_chr c = true.
Proof. unfold is_name_chr. intros ->. rewrite orb_true_r. reflexivity. Qed.

Lemma lexes_NAME n : is_NAME n = true -> lexes n [NAME n].
Proof.
  intros H. apply lexes_word.
  - destruct n as [|c n]; [discriminate|]. simpl in *.
    apply andb_prop in H as [Hc Hn].
    rewrite (name_chr_word c (name_start_chr c Hc)).
    apply (all_chr_impl is_name_chr); [exact name_chr_word | exact Hn].
  - destruct n; [discriminate | discriminate].
  - unfold classify. rewrite H. reflexivity.
Qed.

Lemma number_tail_word s : number_tail s = true -> all_chr is_word_chr s = true.
Proof.
  induction s as [|c s IH]; simpl; [reflexivity|].
  destruct (is_digit c) eqn:Hd.
  - intros H. rewrite (name_chr_word c (digit_name_chr c Hd)). auto.
  - intros H. apply andb_prop in H as [H Hs]. apply andb_prop in H as [Hc _].
    apply Ascii.eqb_eq in Hc. subst c. simpl.
    apply (all_chr_impl is_digit); [|exact Hs].
    intros c Hc. apply name_chr_word, digit_name_chr, Hc.
Qed.

Lemma lexes_NUMBER s : is_NUMBER s = true -> lexes s [NUMBER s].
Proof.
  intros H. apply lexes_word.
  - destruct s as [|c s]; [discriminate|]. simpl in *.
    apply andb_prop in H as [Hc Hs].
    rewrite (name_chr_word c (digit_name_chr c Hc)). apply number_tail_word, Hs.
  - destruct s; discriminate.
  - unfold classify. rewrite H.
    destruct s as [|c s]; [discriminate|]. simpl in *.
    apply andb_prop in H as [Hc _]. rewrite (digit_not_name_start c Hc). reflexivity.
Qed.

End LexFacts.

(** ** The tokens of the printed text *)

Section PrintFacts.
Import equationgrammar.

Lemma lexes_rpar : lexes ")" [RPAR].
Proof. apply (lexes_sep ")" [RPAR] "" []); [reflexivity | reflexivity | apply lexes_nil]. Qed.

Lemma lexes_parens s ts : lexes s ts -> lexes ("(" +:+ s +:+ ")") (LPAR :: ts ++ [RPAR]).
Proof.
  intros H. rewrite append_cons, append_nil_l.
  apply (lexes_sep "(" [LPAR]); [reflexivity | reflexivity|].
  apply lexes_app; [exact H | reflexivity | apply lexes_rpar].
Qed.

Lemma operand_lexes op prec x vx :
  value_shape x vx ->
  lexes (py_str vx) (rendering.tokens x) ->
  lexes (py_str (add_parens op prec vx))
        (rendering.operand op prec x (rendering.tokens x)).
Proof.
  unfold value_shape, rendering.operand. intros Hs Hl.
  destruct (top_operator x) as [[o p]|].
  - destruct Hs as (a & b & s & ->). simpl.
    destruct (needs_parens op prec o p); [|exact Hl].
    apply lexes_parens. exact Hl.
  - destruct (is_call x); destruct Hs as (? & Hs); [destruct Hs as (? & ->)|subst];
      exact Hl.
Qed.

Lemma lexes_binary op (tok : token) a b ta tb :
  (op = "+" /\ tok = ADD_OP "+" \/ op = "-" /\ tok = ADD_OP "-"
   \/ op = "*" /\ tok = MUL_OP "*" \/ op = "/" /\ tok = MUL_OP "/") ->
  lexes a ta -> lexes b tb ->
  lexes (a +:+ " " +:+ op +:+ " " +:+ b) (ta ++ tok :: tb).
Proof.
  intros Hop Ha Hb.
  apply lexes_app; [exact Ha | reflexivity|].
  rewrite append_cons, append_nil_l.
  apply (lexes_sep " " []); [reflexivity | reflexivity|].
  destruct Hop as [[-> ->]|[[-> ->]|[[-> ->]|[-> ->]]]];
    rewrite append_cons, append_nil_l;
    (eapply (lexes_sep _ [_]); [reflexivity | reflexivity|]);
    rewrite append_cons, append_nil_l;
    (apply (lexes_sep " " []); [reflexivity | reflexivity | exact Hb]).
Qed.

Lemma OperatorNode_prints a op b prec tok va vb :
  (op = "+" /\ tok = ADD_OP "+" \/ op = "-" /\ tok = ADD_OP "-"
   \/ op = "*" /\ tok = MUL_OP "*" \/ op = "/" /\ tok = MUL_OP "/") ->
  value_shape a va -> lexes (py_str va) (rendering.tokens a) ->
  value_shape b vb -> lexes (py_str vb) (rendering.tokens b) ->
  lexes (py_str (OperatorNode va op vb prec))
        (rendering.operand op prec a (rendering.tokens a)
           ++ tok :: rendering.operand op prec b (rendering.tokens b)).
Proof.
  intros Hop Hsa Hla Hsb Hlb. unfold OperatorNode. cbn [py_str].
  apply lexes_binary; [exact Hop | apply operand_lexes | apply operand_lexes];
    assumption.
Qed.

Lemma arguments_eq ps :
  (fix arguments (ps : list Tree) : list token :=
     match ps with
     | [] => []
     | [p] => rendering.tokens p
     | p :: (_ :: _) as ps' => (rendering.tokens p ++ COMMA :: arguments ps')%list
     end) ps = rendering.arguments ps.
Proof.
  set (F := fix arguments (ps : list Tree) : list token :=
              match ps with
              | [] => []
              | [p] => rendering.tokens p
              | p :: (_ :: _) as ps' =>
                  (rendering.tokens p ++ COMMA :: arguments ps')%list
              end).
  induction ps as [|p ps IH]; [reflexivity|].
  destruct ps as [|q ps]; [reflexivity|].
  change (F (p :: q :: ps)) with (rendering.tokens p ++ COMMA :: F (q :: ps))%list.
  rewrite IH. reflexivity.
Qed.

Lemma join_lexes : forall ps vs,
  Forall2 (fun p v => lexes (py_str v) (rendering.tokens p)) ps vs ->
  ps <> [] ->
  lexes (join ", " (map py_str vs) +:+ ")") (rendering.arguments ps ++ [RPAR]).
Proof.
  intros ps vs H. induction H as [|p v ps vs Hp H IH]; intros Hne; [contradiction|].
  destruct H as [|q w ps vs Hq H].
  - simpl. apply lexes_app; [exact Hp | reflexivity | apply lexes_rpar].
  - change (join ", " (map py_str (v :: w :: vs)))
      with (py_str v +:+ ", " +:+ join ", " (map py_str (w :: vs))).
    change (rendering.arguments (p :: q :: ps))
      with (rendering.tokens p ++ COMMA :: rendering.arguments (q :: ps))%list.
    rewrite !append_assoc3. rewrite <- app_assoc.
    apply lexes_app; [exact Hp | reflexivity|].
    rewrite append_cons. apply (lexes_sep "," [COMMA]); [reflexivity | reflexivity|].
    rewrite append_cons, append_nil_l.
    apply (lexes_sep " " []); [reflexivity | reflexivity|].
    apply IH. discriminate.
Qed.

Lemma FunctionNode_lexes f ps vs :
  is_NAME f = true ->
  Forall2 (fun p v => lexes (py_str v) (rendering.tokens p)) ps vs ->
  ps <> [] ->
  lexes (py_str (FunctionNode f vs))
        (NAME f :: LPAR :: rendering.arguments ps ++ [RPAR]).
Proof.
  intros Hf H Hne. unfold FunctionNode. cbn [py_str].
  change (NAME f :: LPAR :: rendering.arguments ps ++ [RPAR])%list
    with ([NAME f] ++ ([LPAR] ++ (rendering.arguments ps ++ [RPAR])))%list.
  apply lexes_app; [apply lexes_NAME; exact Hf | reflexivity|].
  rewrite append_cons, append_nil_l.
  apply (lexes_sep "(" [LPAR]); [reflexivity | reflexivity|].
  apply join_lexes; assumption.
Qed.

Lemma map_result_prints ps :
  Forall (fun t => left_associated t -> exists v, prints t v) ps ->
  Forall left_associated ps ->
  exists vs,
    map_result EquationPrettyPrintTransformer.transform ps = Ok vs
    /\ Forall2 (fun p v => lexes (py_str v) (rendering.tokens p)) ps vs.
Proof.
  induction ps as [|p ps IH]; intros HP Hla.
  - exists []. split; [reflexivity | constructor].
  - apply Forall_cons in HP as [Hp HP]. apply Forall_cons in Hla as [Hlp Hla].
    destruct (Hp Hlp) as (v & Ht & _ & Hl). destruct (IH HP Hla) as (vs & Hvs & H2).
    exists (v :: vs). split; [|constructor; assumption].
    simpl. rewrite Ht. simpl. rewrite Hvs. reflexivity.
Qed.

Lemma la_start_inv e : left_associated (T_start e) -> left_associated e.
Proof. inversion 1; assumption. Qed.

Lemma la_name_inv n : left_associated (T_name n) -> is_NAME n = true.
Proof. inversion 1; assumption. Qed.

Lemma la_name_tree_inv sub :
  left_associated (T_name_tree sub) -> left_associated sub /\ is_call sub = false.
Proof. inversion 1; auto. Qed.

Lemma la_NUMBER_inv s : left_associated (T_NUMBER s) -> is_NUMBER s = true.
Proof. inversion 1; assumption. Qed.

Lemma la_add_inv a op b :
  left_associated (T_add a op b) ->
  (op = "+" \/ op = "-") /\ left_associated a /\ left_associated b
  /\ top_operator b <> Some (op, 0).
Proof. inversion 1; auto. Qed.

Lemma la_mul_inv a op b :
  left_associated (T_mul a op b) ->
  (op = "*" \/ op = "/") /\ left_associated a /\ left_associated b
  /\ top_operator b <> Some (op, 1)
  /\ (forall va vb,
        EquationPrettyPrintTransformer.transform a = Ok va ->
        EquationPrettyPrintTransformer.transform b = Ok vb ->
        EquationPrettyPrintTransformer.mul va op vb = Ok (OperatorNode va op vb 1)).
Proof. inversion 1; auto 6. Qed.

Lemma la_function_inv f ps :
  left_associated (T_function f ps) ->
  is_NAME f = true /\ f <> "min" /\ f <> "max" /\ ps <> []
  /\ Forall left_associated ps.
Proof. inversion 1; subst. repeat split; try assumption. discriminate. Qed.

Lemma la_min_inv ps :
  left_associated (T_min ps) ->
  (2 <= length ps)%nat /\ Forall left_associated ps.
Proof. inversion 1; subst. split; [simpl; lia | assumption]. Qed.

Lemma la_max_inv ps :
  left_associated (T_max ps) ->
  (2 <= length ps)%nat /\ Forall left_associated ps.
Proof. inversion 1; subst. split; [simpl; lia | assumption]. Qed.

Lemma two_nonempty {A} (l : list A) : (2 <= length l)%nat -> l <> [].
Proof. destruct l; simpl; [lia | discriminate]. Qed.

Lemma left_associated_prints : forall t,
  left_associated t -> exists v, prints t v.
Proof.
  unfold prints.
  induction t as [e IHe|n|sub IHs| |s|a op b IHa IHb|a op b IHa IHb
                  |f ps IHps|ps IHps|ps IHps] using Tree_ind_nested;
    intros Hla.
  - apply la_start_inv in Hla.
    destruct (IHe Hla) as (v & Ht & Hs & Hl). exists v.
    split; [simpl; rewrite Ht; reflexivity|]. split; assumption.
  - apply la_name_inv in Hla.
    exists (PStr n). split; [reflexivity|]. split; [exists n; reflexivity|].
    apply lexes_NAME. assumption.
  - apply la_name_tree_inv in Hla as [Hla Hcall].
    destruct (IHs Hla) as (v & Ht & Hs & Hl).
    unfold value_shape in *.
    cbn [top_operator is_call EquationPrettyPrintTransformer.transform rendering.tokens].
    rewrite Ht. cbn [Py.bind].
    destruct (top_operator sub) as [[o p]|].
    + destruct Hs as (a & b & s & ->). eexists. split; [reflexivity|].
      split; [eauto | exact Hl].
    + rewrite Hcall in Hs |- *. destruct Hs as (s & ->). eexists.
      split; [reflexivity|]. split; [eauto | exact Hl].
  - inversion Hla.
  - apply la_NUMBER_inv in Hla.
    exists (PStr s). split; [reflexivity|]. split; [exists s; reflexivity|].
    apply lexes_NUMBER. assumption.
  - apply la_add_inv in Hla as (Hop & Ha & Hb & _).
    destruct (IHa Ha) as (va & Hta & Hsa & Hlxa).
    destruct (IHb Hb) as (vb & Htb & Hsb & Hlxb).
    exists (OperatorNode va op vb 0). split; [simpl; rewrite Hta, Htb; reflexivity|].
    split; [unfold value_shape, OperatorNode; simpl; eauto|].
    apply OperatorNode_prints; try assumption.
    destruct Hop as [->| ->]; auto.
  - apply la_mul_inv in Hla as (Hop & Ha & Hb & _ & Hmul).
    destruct (IHa Ha) as (va & Hta & Hsa & Hlxa).
    destruct (IHb Hb) as (vb & Htb & Hsb & Hlxb).
    exists (OperatorNode va op vb 1).
    split; [simpl; rewrite Hta, Htb; simpl; rewrite (Hmul va vb Hta Htb); reflexivity|].
    split; [unfold value_shape, OperatorNode; simpl; eauto|].
    apply OperatorNode_prints; try assumption.
    destruct Hop as [->| ->]; auto 6.
  - apply la_function_inv in Hla as (Hf & _ & _ & Hne & Hps).
    destruct (map_result_prints _ IHps Hps) as (vs & Hvs & H2).
    exists (FunctionNode f vs). split; [simpl; rewrite Hvs; reflexivity|].
    split; [unfold value_shape, FunctionNode; simpl; eauto|].
    cbn [rendering.tokens]. rewrite arguments_eq.
    apply FunctionNode_lexes; assumption.
  - apply la_min_inv in Hla as (Hlen & Hps).
    destruct (map_result_prints _ IHps Hps) as (vs & Hvs & H2).
    exists (FunctionNode "min" vs). split; [simpl; rewrite Hvs; reflexivity|].
    split; [unfold value_shape, FunctionNode; simpl; eauto|].
    cbn [rendering.tokens]. rewrite arguments_eq.
    apply FunctionNode_lexes; [reflexivity | exact H2 | apply two_nonempty, Hlen].
  - apply la_max_inv in Hla as (Hlen & Hps).
    destruct (map_result_prints _ IHps Hps) as (vs & Hvs & H2).
    exists (FunctionNode "max" vs). split; [simpl; rewrite Hvs; reflexivity|].
    split; [unfold value_shape, FunctionNode; simpl; eauto|].
    cbn [rendering.tokens]. rewrite arguments_eq.
    apply FunctionNode_lexes; [reflexivity | exact H2 | apply two_nonempty, Hlen].
Qed.

End PrintFacts.

(** ** Parsing the tokens of the printed text *)

Section ParseFacts.
Import equationgrammar.

Lemma args_loop_consumes E : consumes E ->
  forall k acc ts ps r,
    args_loop E k acc ts = Some (ps, r) -> (length r < length ts)%nat.
Proof.
  intros HE. induction k as [|k IH]; intros acc ts ps r H.
  - destruct ts as [|[] ts]; simpl in H; try discriminate.
    injection H as <- <-. simpl. lia.
  - destruct ts as [|[] ts]; simpl in H; try discriminate.
    + injection H as <- <-. simpl. lia.
    + destruct (E ts) as [[e r']|] eqn:He; [|discriminate].
      apply IH in H. apply HE in He. simpl. lia.
Qed.

Lemma atom_consumes E : consumes E ->
  forall ts e r, atom E ts = Some (e, r) -> (length r < length ts)%nat.
Proof.
  intros HE ts e r H. unfold atom in H.
  destruct ts as [|t ts]; [discriminate|].
  destruct t; try discriminate.
  - destruct ts as [|t' ts'].
    + injection H as <- <-. simpl. lia.
    + destruct t'; try (injection H as <- <-; simpl; lia).
      destruct (E ts') as [[e1 r1]|] eqn:He; [|discriminate].
      destruct (args_loop E (length r1) [e1] r1) as [[ps r2]|] eqn:Ha; [|discriminate].
      destruct (call text ps); [|discriminate]. injection H as <- <-.
      apply HE in He. apply (args_loop_consumes E HE) in Ha. simpl. lia.
  - injection H as <- <-. simpl. lia.
  - destruct (E ts) as [[e1 r1]|] eqn:He; [|discriminate].
    destruct r1 as [|[] r1]; try discriminate. injection H as <- <-.
    apply HE in He. simpl in *. lia.
Qed.

Lemma mul_loop_consumes E : consumes E ->
  forall k acc ts e r, mul_loop E k acc ts = Some (e, r) -> (length r <= length ts)%nat.
Proof.
  intros HE. induction k as [|k IH]; intros acc ts e r H.
  - destruct ts as [|[] ts]; simpl in H; try discriminate; injection H as <- <-; lia.
  - destruct ts as [|[] ts]; simpl in H; try (injection H as <- <-; lia).
    destruct (atom E ts) as [[b r']|] eqn:Hb; [|discriminate].
    apply IH in H. apply (atom_consumes E HE) in Hb. simpl. lia.
Qed.

Lemma product_consumes E : consumes E ->
  forall ts e r, product E ts = Some (e, r) -> (length r < length ts)%nat.
Proof.
  intros HE ts e r H. unfold product in H.
  destruct (atom E ts) as [[a r']|] eqn:Ha; [|discriminate].
  apply (mul_loop_consumes E HE) in H. apply (atom_consumes E HE) in Ha. lia.
Qed.

Lemma add_loop_consumes E : consumes E ->
  forall k acc ts e r, add_loop E k acc ts = Some (e, r) -> (length r <= length ts)%nat.
Proof.
  intros HE. induction k as [|k IH]; intros acc ts e r H.
  - destruct ts as [|[] ts]; simpl in H; try discriminate; injection H as <- <-; lia.
  - destruct ts as [|[] ts]; simpl in H; try (injection H as <- <-; lia).
    destruct (product E ts) as [[b r']|] eqn:Hb; [|discriminate].
    apply IH in H. apply (product_consumes E HE) in Hb. simpl. lia.
Qed.

Lemma expr_consumes : forall d, consumes (expr d).
Proof.
  induction d as [|d IH]; intros ts e r H; simpl in H; [discriminate|].
  unfold sum in H.
  destruct (product (expr d) ts) as [[a r']|] eqn:Ha; [|discriminate].
  apply (add_loop_consumes _ IH) in H. apply (product_consumes _ IH) in Ha. lia.
Qed.

(** With enough of it, the fuel of a loop does not matter. *)
Lemma mul_loop_fuel E : consumes E ->
  forall k k' acc ts,
    (length ts <= k)%nat -> (length ts <= k')%nat ->
    mul_loop E k acc ts = mul_loop E k' acc ts.
Proof.
  intros HE. induction k as [|k IH]; intros k' acc ts Hk Hk'.
  - destruct ts; [|simpl in Hk; lia]. destruct k'; reflexivity.
  - destruct ts as [|t ts]; [destruct k'; reflexivity|].
    destruct k' as [|k']; [simpl in Hk'; lia|].
    destruct t; try reflexivity. simpl.
    destruct (atom E ts) as [[b r']|] eqn:Hb; [|reflexivity].
    apply (atom_consumes E HE) in Hb. simpl in Hk, Hk'. apply IH; lia.
Qed.

Lemma add_loop_fuel E : consumes E ->
  forall k k' acc ts,
    (length ts <= k)%nat -> (length ts <= k')%nat ->
    add_loop E k acc ts = add_loop E k' acc ts.
Proof.
  intros HE. induction k as [|k IH]; intros k' acc ts Hk Hk'.
  - destruct ts; [|simpl in Hk; lia]. destruct k'; reflexivity.
  - destruct ts as [|t ts]; [destruct k'; reflexivity|].
    destruct k' as [|k']; [simpl in Hk'; lia|].
    destruct t; try reflexivity. simpl.
    destruct (product E ts) as [[b r']|] eqn:Hb; [|reflexivity].
    apply (product_consumes E HE) in Hb. simpl in Hk, Hk'. apply IH; lia.
Qed.

Lemma mul_loop_done E k acc rest :
  no_mul rest -> mul_loop E k acc rest = Some (acc, rest).
Proof. destruct rest as [|[] rest], k; simpl; intros H; try reflexivity; destruct H. Qed.

Lemma add_loop_done E k acc rest :
  no_add rest -> add_loop E k acc rest = Some (acc, rest).
Proof. destruct rest as [|[] rest], k; simpl; intros H; try reflexivity; destruct H. Qed.

Lemma arguments_cons p ps :
  rendering.arguments (p :: ps) = (rendering.tokens p ++ rest_arguments ps)%list.
Proof.
  revert p. induction ps as [|q ps IH]; intros p.
  - simpl. rewrite app_nil_r. reflexivity.
  - change (rendering.arguments (p :: q :: ps))
      with (rendering.tokens p ++ COMMA :: rendering.arguments (q :: ps))%list.
    rewrite IH. reflexivity.
Qed.

Lemma parses_full t :
  parses_as t ->
  forall d rest,
    (length (rendering.tokens t) <= d)%nat -> closing rest ->
    sum (expr d) (rendering.tokens t ++ rest) = Some (inline t, rest).
Proof.
  intros Hp d rest Hd (Hl & Hm & Ha). specialize (Hp d rest Hd Hl).
  destruct (top_operator t) as [[o p]|].
  - destruct (p =? 1)%Z.
    + unfold sum. rewrite (Hp (length rest)) by lia.
      rewrite mul_loop_done by exact Hm. apply add_loop_done. exact Ha.
    + rewrite (Hp Hm (length rest)) by lia. apply add_loop_done. exact Ha.
  - unfold sum, product. rewrite Hp.
    rewrite mul_loop_done by exact Hm. apply add_loop_done. exact Ha.
Qed.

Lemma atom_paren t d rest :
  parses_as t ->
  (length (rendering.tokens t) < d)%nat ->
  atom (expr d) (LPAR :: rendering.tokens t ++ RPAR :: rest) = Some (inline t, rest).
Proof.
  intros Hp Hd. destruct d as [|d]; [lia|].
  cbn [atom expr]. rewrite (parses_full t Hp d (RPAR :: rest)); [reflexivity | lia|].
  repeat split.
Qed.

Lemma needs_parens_false op prec o p :
  needs_parens op prec o p = false -> o = op /\ p = prec.
Proof.
  unfold needs_parens. intros H. apply orb_false_elim in H as [H1 H2].
  apply negb_false_iff in H1, H2. apply String.eqb_eq in H1. apply Z.eqb_eq in H2.
  auto.
Qed.

Lemma operand_length op prec x :
  (length (rendering.tokens x)
   <= length (rendering.operand op prec x (rendering.tokens x)))%nat.
Proof.
  unfold rendering.operand. destruct (top_operator x) as [[o p]|]; [|lia].
  destruct (needs_parens op prec o p); [|lia]. simpl. rewrite length_app. lia.
Qed.

(** An operand that does not carry on the chain of its parent is read by
    [atom]. *)
Lemma operand_atom op prec x d rest :
  parses_as x ->
  top_operator x <> Some (op, prec) ->
  (length (rendering.operand op prec x (rendering.tokens x)) < d)%nat ->
  no_lpar rest ->
  atom (expr d) (rendering.operand op prec x (rendering.tokens x) ++ rest)
  = Some (inline x, rest).
Proof.
  intros Hp Hne Hd Hl. unfold rendering.operand in *.
  destruct (top_operator x) as [[o p]|] eqn:Htop.
  - destruct (needs_parens op prec o p) eqn:Hn.
    + cbn [app]. rewrite <- app_assoc. cbn [app].
      apply atom_paren; [exact Hp|]. simpl in Hd. rewrite length_app in Hd. lia.
    + apply needs_parens_false in Hn as [-> ->]. contradiction.
  - specialize (Hp d rest). rewrite Htop in Hp. apply Hp; [lia | exact Hl].
Qed.

(** The left operand of a multiplicative node opens the product. *)
Lemma operand_product_head op x d R :
  parses_as x ->
  (length (rendering.operand op 1 x (rendering.tokens x)) < d)%nat ->
  no_lpar R ->
  product (expr d) (rendering.operand op 1 x (rendering.tokens x) ++ R)
  = mul_loop (expr d) (length R) (inline x) R.
Proof.
  intros Hp Hd Hl.
  destruct (decide (top_operator x = Some (op, 1))) as [Htop|Hne].
  - unfold rendering.operand in *. rewrite Htop in *.
    unfold needs_parens in *. rewrite String.eqb_refl, Z.eqb_refl in *. cbn [negb orb] in *.
    specialize (Hp d R). rewrite Htop in Hp. cbn in Hp. apply Hp; [lia | exact Hl | lia].
  - unfold product. rewrite operand_atom; auto.
Qed.

(** The left operand of an additive node opens the sum. *)
Lemma operand_sum_head op x d R :
  parses_as x ->
  (length (rendering.operand op 0 x (rendering.tokens x)) < d)%nat ->
  no_lpar R -> no_mul R ->
  sum (expr d) (rendering.operand op 0 x (rendering.tokens x) ++ R)
  = add_loop (expr d) (length R) (inline x) R.
Proof.
  intros Hp Hd Hl Hm.
  destruct (decide (top_operator x = Some (op, 0))) as [Htop|Hne].
  - unfold rendering.operand in *. rewrite Htop in *.
    unfold needs_parens in *. rewrite String.eqb_refl, Z.eqb_refl in *. cbn [negb orb] in *.
    specialize (Hp d R). rewrite Htop in Hp. cbn in Hp.
    apply Hp; [lia | exact Hl | exact Hm | lia].
  - unfold sum, product. rewrite operand_atom; auto.
    rewrite mul_loop_done by exact Hm. reflexivity.
Qed.

Lemma args_parse d rest : forall ps acc k,
  Forall parses_as ps ->
  Forall (fun p => (length (rendering.tokens p) < d)%nat) ps ->
  (length (rest_arguments ps ++ RPAR :: rest) <= k)%nat ->
  args_loop (expr d) k acc (rest_arguments ps ++ RPAR :: rest)
  = Some ((acc ++ map inline ps)%list, rest).
Proof.
  induction ps as [|p ps IH]; intros acc k Hps Hlen Hk.
  - simpl. rewrite app_nil_r. destruct k; reflexivity.
  - apply Forall_cons in Hps as [Hp Hps]. apply Forall_cons in Hlen as [Hlp Hlen].
    cbn [rest_arguments app] in *. rewrite <- app_assoc in *.
    destruct k as [|k]; [simpl in Hk; lia|]. cbn [args_loop].
    destruct d as [|d]; [lia|]. cbn [expr].
    rewrite (parses_full p Hp d); [|lia|].
    + rewrite IH; try assumption.
      * rewrite <- app_assoc. reflexivity.
      * simpl in Hk. rewrite length_app in Hk. lia.
    + destruct ps; repeat split.
Qed.

Lemma call_parse d f p ps rest :
  Forall parses_as (p :: ps) ->
  (length (rendering.arguments (p :: ps)) + 3 <= d)%nat ->
  atom (expr d)
       ((NAME f :: LPAR :: rendering.arguments (p :: ps) ++ [RPAR]) ++ rest)
  = match call f (map inline (p :: ps)) with
    | Some t => Some (t, rest)
    | None => None
    end.
Proof.
  intros Hps Hd. apply Forall_cons in Hps as [Hp Hps].
  rewrite arguments_cons in *. rewrite length_app in Hd.
  cbn [app atom]. rewrite <- !app_assoc. cbn [app].
  destruct d as [|d]; [lia|]. cbn [expr].
  rewrite (parses_full p Hp d); [|lia|].
  - rewrite (args_parse (S d) rest ps [inline p]); [reflexivity | exact Hps | | lia].
    clear -Hd. revert Hd. generalize (length (rendering.tokens p)).
    induction ps as [|q ps IH]; intros n Hd; constructor.
    + simpl in Hd. rewrite length_app in Hd. lia.
    + apply (IH n). simpl in Hd. rewrite length_app in Hd. lia.
  - destruct ps; repeat split.
Qed.

Lemma Forall_modus_ponens (P Q : Tree -> Prop) ps :
  Forall (fun p => P p -> Q p) ps -> Forall P ps -> Forall Q ps.
Proof.
  induction 1 as [|p ps Hp _ IH]; intros HP; constructor;
    apply Forall_cons in HP as [H1 H2]; auto.
Qed.

Lemma tokens_function f ps :
  rendering.tokens (T_function f ps)
  = (NAME f :: LPAR :: rendering.arguments ps ++ [RPAR])%list.
Proof. cbn [rendering.tokens]. rewrite arguments_eq. reflexivity. Qed.

Lemma tokens_min ps :
  rendering.tokens (T_min ps)
  = (NAME "min" :: LPAR :: rendering.arguments ps ++ [RPAR])%list.
Proof. cbn [rendering.tokens]. rewrite arguments_eq. reflexivity. Qed.

Lemma tokens_max ps :
  rendering.tokens (T_max ps)
  = (NAME "max" :: LPAR :: rendering.arguments ps ++ [RPAR])%list.
Proof. cbn [rendering.tokens]. rewrite arguments_eq. reflexivity. Qed.

Lemma tokens_binary_length op prec a b tok :
  (length (rendering.operand op prec a (rendering.tokens a))
   + length (rendering.operand op prec b (rendering.tokens b)) + 1
   = length (rendering.operand op prec a (rendering.tokens a)
             ++ tok :: rendering.operand op prec b (rendering.tokens b)))%nat.
Proof. rewrite length_app. simpl. lia. Qed.

Lemma left_associated_parses : forall t, left_associated t -> parses_as t.
Proof.
  induction t as [e IHe|n|sub IHs| |s|a op b IHa IHb|a op b IHa IHb
                  |f ps IHps|ps IHps|ps IHps] using Tree_ind_nested;
    intros Hla.
  - apply la_start_inv in Hla. exact (IHe Hla).
  - intros d rest _ Hl. simpl. destruct rest as [|[] rest]; try reflexivity.
    destruct Hl.
  - apply la_name_tree_inv in Hla as [Hla _]. exact (IHs Hla).
  - inversion Hla.
  - intros d rest _ _. reflexivity.
  - apply la_add_inv in Hla as (_ & Ha & Hb & Htop).
    specialize (IHa Ha). specialize (IHb Hb).
    intros d rest Hd Hl. cbn [top_operator]. cbn [Z.eqb]. intros Hm k Hk.
    cbn [rendering.tokens inline] in *. rewrite <- tokens_binary_length in Hd.
    rewrite <- app_assoc. cbn [app].
    rewrite operand_sum_head; [|exact IHa|lia|exact I|exact I].
    cbn [length add_loop].
    unfold product. rewrite operand_atom; [|exact IHb|exact Htop|lia|exact Hl].
    rewrite mul_loop_done by exact Hm.
    apply add_loop_fuel; [apply expr_consumes | rewrite length_app; lia | exact Hk].
  - apply la_mul_inv in Hla as (_ & Ha & Hb & Htop & _).
    specialize (IHa Ha). specialize (IHb Hb).
    intros d rest Hd Hl. cbn [top_operator]. cbn [Z.eqb Pos.eqb]. intros k Hk.
    cbn [rendering.tokens inline] in *. rewrite <- tokens_binary_length in Hd.
    rewrite <- app_assoc. cbn [app].
    rewrite operand_product_head; [|exact IHa|lia|exact I].
    cbn [length mul_loop].
    rewrite operand_atom; [|exact IHb|exact Htop|lia|exact Hl].
    apply mul_loop_fuel; [apply expr_consumes | rewrite length_app; lia | exact Hk].
  - apply la_function_inv in Hla as (Hf & Hmin & Hmax & Hne & Hps).
    destruct ps as [|p ps]; [contradiction|].
    assert (Hpa : Forall parses_as (p :: ps))
      by exact (Forall_modus_ponens _ _ _ IHps Hps).
    intros d rest Hd _. cbn [top_operator]. rewrite tokens_function in *.
    rewrite call_parse; [|exact Hpa|].
    + unfold call. rewrite (eqb_neq_false _ _ Hmin), (eqb_neq_false _ _ Hmax).
      reflexivity.
    + cbn [length] in Hd. rewrite length_app in Hd. cbn [length] in Hd. lia.
  - apply la_min_inv in Hla as (Hlen & Hps).
    destruct ps as [|p ps]; [simpl in Hlen; lia|].
    assert (Hpa : Forall parses_as (p :: ps))
      by exact (Forall_modus_ponens _ _ _ IHps Hps).
    intros d rest Hd _. cbn [top_operator]. rewrite tokens_min in *.
    rewrite call_parse; [|exact Hpa|].
    + unfold call. simpl String.eqb.
      rewrite length_map. apply Nat.leb_le in Hlen. rewrite Hlen. reflexivity.
    + cbn [length] in Hd. rewrite length_app in Hd. cbn [length] in Hd. lia.
  - apply la_max_inv in Hla as (Hlen & Hps).
    destruct ps as [|p ps]; [simpl in Hlen; lia|].
    assert (Hpa : Forall parses_as (p :: ps))
      by exact (Forall_modus_ponens _ _ _ IHps Hps).
    intros d rest Hd _. cbn [top_operator]. rewrite tokens_max in *.
    rewrite call_parse; [|exact Hpa|].
    + unfold call. simpl String.eqb.
      rewrite length_map. apply Nat.leb_le in Hlen. rewrite Hlen. reflexivity.
    + cbn [length] in Hd. rewrite length_app in Hd. cbn [length] in Hd. lia.
Qed.

End ParseFacts.

Section RoundTrip.
Import equationgrammar EquationPrettyPrintTransformer.

Lemma map_result_ext {A B} (f : A -> result B) (g : A -> A) (l : list A) :
  Forall (fun x => f (g x) = f x) l ->
  map_result f (map g l) = map_result f l.
Proof.
  induction 1 as [|x l Hx _ IH]; [reflexivity|].
  cbn [map map_result]. rewrite Hx, IH. reflexivity.
Qed.

Lemma name_id t v :
  value_shape t v -> is_call t = false -> name v = v.
Proof.
  unfold value_shape. intros Hs Hc. rewrite Hc in Hs.
  destruct (top_operator t) as [[o p]|].
  - destruct Hs as (a & b & s & ->). reflexivity.
  - destruct Hs as (s & ->). reflexivity.
Qed.

(** Without its wrappers a tree prints the same. *)
Lemma inline_transform : forall t,
  left_associated t -> transform (inline t) = transform t.
Proof.
  induction t as [e IHe|n|sub IHs| |s|a op b IHa IHb|a op b IHa IHb
                  |f ps IHps|ps IHps|ps IHps] using Tree_ind_nested;
    intros Hla.
  - apply la_start_inv in Hla.
    destruct (left_associated_prints e Hla) as (v & Hv & _).
    cbn [inline transform]. rewrite (IHe Hla), Hv. reflexivity.
  - reflexivity.
  - apply la_name_tree_inv in Hla as [Hla Hc].
    destruct (left_associated_prints sub Hla) as (v & Hv & Hs & _).
    cbn [inline transform]. rewrite (IHs Hla), Hv. cbn [bind].
    rewrite (name_id sub v Hs Hc). reflexivity.
  - reflexivity.
  - reflexivity.
  - apply la_add_inv in Hla as (_ & Ha & Hb & _).
    cbn [inline transform]. rewrite (IHa Ha), (IHb Hb). reflexivity.
  - apply la_mul_inv in Hla as (_ & Ha & Hb & _).
    cbn [inline transform]. rewrite (IHa Ha), (IHb Hb). reflexivity.
  - apply la_function_inv in Hla as (_ & _ & _ & _ & Hps).
    cbn [inline transform]. rewrite map_result_ext; [reflexivity|].
    exact (Forall_modus_ponens _ _ _ IHps Hps).
  - apply la_min_inv in Hla as (_ & Hps).
    cbn [inline transform]. rewrite map_result_ext; [reflexivity|].
    exact (Forall_modus_ponens _ _ _ IHps Hps).
  - apply la_max_inv in Hla as (_ & Hps).
    cbn [inline transform]. rewrite map_result_ext; [reflexivity|].
    exact (Forall_modus_ponens _ _ _ IHps Hps).
Qed.

Lemma parse_rendering t v :
  left_associated t -> prints t v ->
  parse (py_str v) = Ok (T_start (inline t)).
Proof.
  intros Hla (_ & _ & Hlex). unfold parse.
  rewrite (lexes_lex _ _ Hlex). cbn [expr].
  pose proof (parses_full t (left_associated_parses t Hla)
                (length (rendering.tokens t)) [] (le_n _)) as H.
  rewrite app_nil_r in H. rewrite H; [reflexivity|]. repeat split.
Qed.

End RoundTrip.

(** A tree in the parser's form pretty-prints to a string, the parser
    reads that string as the tree without the wrappers of the
    substitutions, and pretty-printing the parse result gives the same
    string again. *)
Lemma left_associated_roundtrip (u : Tree) :
  left_associated u ->
  exists s,
    equation_ast_to_str u = Ok s
    /\ equation_string_to_ast s = (Some (T_start (inline u)), None)
    /\ equation_ast_to_str (T_start (inline u)) = Ok s.
Proof.
  intros Hla. destruct (left_associated_prints u Hla) as (v & Hp).
  exists (py_str v). pose proof Hp as (Hv & _ & _).
  split; [|split].
  - unfold equation_ast_to_str, equation_ast_to_string. rewrite Hv. reflexivity.
  - unfold equation_string_to_ast. rewrite (parse_rendering u v Hla Hp). reflexivity.
  - unfold equation_ast_to_str, equation_ast_to_string.
    cbn [EquationPrettyPrintTransformer.transform].
    rewrite (inline_transform u Hla), Hv. reflexivity.
Qed.

(** C4 (as amended).  The round trip depends on the printed text alone.
    For every resolved tree [t] whose pretty-printed string is also the
    string of a tree [u] in the parser's form (no right operand of [u] is
    a binary node with the operator of its parent, no substituted equation
    is a bare function call, no multiplicative node offers the
    pretty-printer a peephole simplification): [t] pretty-prints to a
    string, the parser reads that string as [u] without the wrappers of
    its substitutions, and pretty-printing the parse result gives the same
    string again. *)
Theorem roundtrip_left_associated (t u : Tree) :
  left_associated u ->
  equation_ast_to_str t = equation_ast_to_str u ->
  exists s,
    equation_ast_to_str t = Ok s
    /\ equation_string_to_ast s = (Some (T_start (inline u)), None)
    /\ equation_ast_to_str (T_start (inline u)) = Ok s.
Proof.
  intros Hla Heq. rewrite Heq. apply left_associated_roundtrip, Hla.
Qed.

Lemma substituted_left_associated : left_associated Examples9.substituted.
Proof.
  unfold Examples9.substituted.
  apply la_start. apply la_mul.
  - left; reflexivity.
  - apply la_add.
    + left; reflexivity.
    + apply la_name; reflexivity.
    + apply la_name_tree; [|reflexivity]. apply la_start. apply la_add.
      * right; reflexivity.
      * apply la_name; reflexivity.
      * apply la_NUMBER; reflexivity.
      * discriminate.
    + discriminate.
  - apply la_name; reflexivity.
  - discriminate.
  - intros va vb Ha Hb. vm_compute in Ha, Hb.
    injection Ha as <-. injection Hb as <-. reflexivity.
Defined.

Lemma left_difference_left_associated :
  left_associated Examples9.left_difference.
Proof.
  unfold Examples9.left_difference.
  apply la_start. apply la_add.
  - right; reflexivity.
  - apply la_add; [right; reflexivity | apply la_name; reflexivity
                  | apply la_name; reflexivity | discriminate].
  - apply la_name; reflexivity.
  - discriminate.
Defined.

Lemma times_six_left_associated : left_associated Examples9.times_six.
Proof.
  unfold Examples9.times_six.
  apply la_start. apply la_mul.
  - left; reflexivity.
  - apply la_name; reflexivity.
  - apply la_NUMBER; reflexivity.
  - discriminate.
  - intros va vb Ha Hb. vm_compute in Ha, Hb.
    injection Ha as <-. injection Hb as <-. reflexivity.
Defined.

Lemma bare_call_left_associated : left_associated Examples9.bare_call.
Proof.
  unfold Examples9.bare_call.
  apply la_start. apply la_function; [reflexivity|discriminate|discriminate|].
  constructor; [apply la_name; reflexivity | constructor].
Defined.

(** Witness for C4: the resolved tree of [(A + D) * C] prints as
    "(A + (B - 2)) * C" before and after the parse; the tree of
    [A - (B - C)] prints as the tree of [(A - B) - C] does, the trees of
    [(A * 2) * 3] and of [(A * 6) * 1] as the tree of [A * 6], a
    substituted bare call as the call, and each of them makes the round
    trip. *)
Lemma roundtrip_left_associated_witness :
  (exists s,
     equation_ast_to_str Examples9.substituted = Ok s
     /\ equation_string_to_ast s
        = (Some (T_start (inline Examples9.substituted)), None)
     /\ equation_ast_to_str (T_start (inline Examples9.substituted)) = Ok s)
  /\ (exists s,
        equation_ast_to_str Examples9.right_difference = Ok s
        /\ equation_string_to_ast s
           = (Some (T_start (inline Examples9.left_difference)), None)
        /\ equation_ast_to_str (T_start (inline Examples9.left_difference)) = Ok s)
  /\ (exists s,
        equation_ast_to_str Examples9.folded_product = Ok s
        /\ equation_string_to_ast s
           = (Some (T_start (inline Examples9.times_six)), None)
        /\ equation_ast_to_str (T_start (inline Examples9.times_six)) = Ok s)
  /\ (exists s,
        equation_ast_to_str Examples9.times_one = Ok s
        /\ equation_string_to_ast s
           = (Some (T_start (inline Examples9.times_six)), None)
        /\ equation_ast_to_str (T_start (inline Examples9.times_six)) = Ok s)
  /\ (exists s,
        equation_ast_to_str Examples9.substituted_call = Ok s
        /\ equation_string_to_ast s
           = (Some (T_start (inline Examples9.bare_call)), None)
        /\ equation_ast_to_str (T_start (inline Examples9.bare_call)) = Ok s).
Proof.
  split; [|split; [|split; [|split]]].
  - exact (roundtrip_left_associated Examples9.substituted Examples9.substituted
             substituted_left_associated eq_refl).
  - exact (roundtrip_left_associated Examples9.right_difference
             Examples9.left_difference left_difference_left_associated eq_refl).
  - exact (roundtrip_left_associated Examples9.folded_product
             Examples9.times_six times_six_left_associated eq_refl).
  - exact (roundtrip_left_associated Examples9.times_one
             Examples9.times_six times_six_left_associated eq_refl).
  - exact (roundtrip_left_associated Examples9.substituted_call
             Examples9.bare_call bare_call_left_associated eq_refl).
Defined.

(** C4, counterexample.  The fourth peephole rule builds its node
    without trying the first rule on it: the resolved tree of
    [(MaliFragActive * 0.5) * 2] prints as "MaliFragActive * 1", a product
    of two operands that the parser reads as it stands, and the second
    printing drops the factor 1.  Next to that, the resolved tree of
    [2 * (3 * MaliFragActive)] prints without the parentheses, the
    operator being the same; the parser reads the text to the left, and
    the product of the two literals is folded at the second printing.  The
    printer drops the parentheses on the left as well, so a parser reading
    to the right would not save the round trip: the tree of
    [(MaliFragActive / 6) / 3] prints as "MaliFragActive / 6 / 3", and the
    tree of [MaliFragActive / (6 / 3)], which that text would then be read
    as, prints as "MaliFragActive / 2". *)
Lemma roundtrip_counterexample :
  (equation_string_to_ast Examples9.halved_doubled_text
     = (Some Examples9.halved_doubled, None)
   /\ equation_ast_to_resolved_ast 1 Examples9.halved_doubled Examples6.view
      = Ok (Some Examples9.halved_doubled, None)
   /\ equation_ast_to_str Examples9.halved_doubled = Ok "MaliFragActive * 1"
   /\ equation_string_to_ast "MaliFragActive * 1"
      = (Some Examples9.product_with_one, None)
   /\ equation_ast_to_str Examples9.product_with_one = Ok "MaliFragActive")
  /\ (equation_string_to_ast Examples9.nested_product_text
        = (Some Examples9.nested_product, None)
      /\ equation_ast_to_resolved_ast 1 Examples9.nested_product Examples6.view
         = Ok (Some Examples9.nested_product, None)
      /\ equation_ast_to_str Examples9.nested_product
         = Ok "2 * 3 * MaliFragActive"
      /\ equation_string_to_ast "2 * 3 * MaliFragActive"
         = (Some Examples9.reparsed_product, None)
      /\ equation_ast_to_str Examples9.reparsed_product
         = Ok "6 * MaliFragActive")
  /\ (equation_ast_to_str Examples9.left_quotient
        = Ok "MaliFragActive / 6 / 3"
      /\ equation_ast_to_str Examples9.right_quotient
         = Ok "MaliFragActive / 2").
Proof. repeat split; vm_compute; reflexivity. Qed.

Section IndexFacts.
Context {K V : Type} (eqb : K -> K -> bool).
Context (eqb_spec : forall a b, reflect (a = b) (eqb a b)).

Lemma dict_get_set (d : dict K V) k k' v :
  dict_get eqb (dict_set eqb d k' v) k
  = if eqb k k' then Some v else dict_get eqb d k.
Proof.
  destruct (eqb_spec k k') as [->|Hne].
  - apply dict_get_set_eq. exact eqb_spec.
  - apply dict_get_set_ne; [exact eqb_spec | congruence].
Qed.

Lemma last_match_cons {A} (p : A -> bool) c l :
  last_match p (c :: l)
  = match last_match p l with
    | Some x => Some x
    | None => if p c then Some c else None
    end.
Proof.
  unfold last_match. cbn [rev]. generalize (rev l). intros r.
  induction r as [|x r IH]; cbn [app find]; [reflexivity|].
  destruct (p x); [reflexivity | exact IH].
Qed.

(** A dictionary filled by assignments in list order returns, for a key,
    the last element assigned under it. *)
Lemma fold_dict_set_get (keyo : V -> option K) k : forall l d,
  dict_get eqb
    (fold_left (fun d c => match keyo c with
                           | Some k' => dict_set eqb d k' c
                           | None => d
                           end) l d) k
  = match last_match (fun c => match keyo c with
                               | Some k' => eqb k k'
                               | None => false
                               end) l with
    | Some c => Some c
    | None => dict_get eqb d k
    end.
Proof.
  induction l as [|c l IH]; intros d; [reflexivity|].
  cbn [fold_left]. rewrite IH, last_match_cons.
  destruct (last_match _ l); [reflexivity|].
  destruct (keyo c) as [k'|]; [|reflexivity].
  rewrite dict_get_set. destruct (eqb k k'); reflexivity.
Qed.

End IndexFacts.

Lemma fold_add_indexes_by_machine_name : forall l v,
  IndexedView.by_machine_name (fold_left IndexedView.add_indexes l v)
  = fold_left (fun d c => match Some (lower (CounterView.machine_name c)) with
                          | Some k => dict_set String.eqb d k c
                          | None => d
                          end) l (IndexedView.by_machine_name v).
Proof. induction l as [|c l IH]; intros v; simpl; [reflexivity | apply IH]. Qed.

Lemma fold_add_indexes_by_human_name : forall l v,
  IndexedView.by_human_name (fold_left IndexedView.add_indexes l v)
  = fold_left (fun d c => match Some (lower (CounterView.human_name c)) with
                          | Some k => dict_set String.eqb d k c
                          | None => d
                          end) l (IndexedView.by_human_name v).
Proof. induction l as [|c l IH]; intros v; simpl; [reflexivity | apply IH]. Qed.

Lemma fold_add_indexes_by_group_names : forall l v,
  IndexedView.by_group_names (fold_left IndexedView.add_indexes l v)
  = fold_left (fun d c => match Some (lower (group_index c)) with
                          | Some k => dict_set String.eqb d k c
                          | None => d
                          end) l (IndexedView.by_group_names v).
Proof. induction l as [|c l IH]; intros v; simpl; [reflexivity | apply IH]. Qed.

Lemma fold_add_indexes_by_source_name : forall l v,
  IndexedView.by_source_name (fold_left IndexedView.add_indexes l v)
  = fold_left (fun d c => match source_key c with
                          | Some k => dict_set String.eqb d k c
                          | None => d
                          end) l (IndexedView.by_source_name v).
Proof.
  induction l as [|c l IH]; intros v; cbn [fold_left]; [reflexivity|].
  rewrite IH. f_equal. unfold source_key. cbn.
  destruct (CounterView.source_name c) as [sn|]; [|reflexivity].
  destruct (truthy_str sn); reflexivity.
Qed.

Lemma fold_add_indexes_stable_id_opt : forall l v,
  IndexedView.by_stable_id (fold_left IndexedView.add_indexes l v)
  = fold_left (fun d c => match Some (CounterView.stable_id c) with
                          | Some k => dict_set Z.eqb d k c
                          | None => d
                          end) l (IndexedView.by_stable_id v).
Proof. induction l as [|c l IH]; intros v; simpl; [reflexivity | apply IH]. Qed.

(** The loop of [from_db] builds the indices over the views of the
    supported entries, or stops at the first one without a stable ID. *)
Lemma from_db_loop_views pi hw_db : forall ct_db v,
  match for_each (IndexedView.from_db_step pi hw_db) ct_db v with
  | Ok v' =>
      exists cvs,
        map_result (IndexedView.from_db_counter_view pi hw_db)
                   (supported (IndexedView.key v) ct_db) = Ok cvs
        /\ v' = fold_left IndexedView.add_indexes cvs v
  | Raise e =>
      e = AssertionError ""
      /\ exists c, In c (supported (IndexedView.key v) ct_db)
                   /\ CounterInfo.stable_id c = None
  end.
Proof.
  induction ct_db as [|c l IH]; intros v; cbn [for_each supported List.filter].
  - exists []. split; reflexivity.
  - unfold IndexedView.from_db_step at 1.
    destruct (CounterInfo.supports_gpu c (IndexedView.key v)) eqn:Hs; cbn [negb bind].
    + destruct (IndexedView.from_db_counter_view pi hw_db c) as [cv|e] eqn:Hcv;
        cbn [bind].
      * specialize (IH (IndexedView.add_indexes v cv)).
        rewrite add_indexes_key in IH. fold (supported (IndexedView.key v) l).
        destruct (for_each (IndexedView.from_db_step pi hw_db) l
                    (IndexedView.add_indexes v cv)) as [v'|e].
        -- destruct IH as (cvs & Hm & ->). exists (cv :: cvs).
           cbn [map_result]. rewrite Hcv, Hm. split; reflexivity.
        -- destruct IH as (-> & c' & Hin & Hn). split; [reflexivity|].
           exists c'. split; [right; exact Hin | exact Hn].
      * unfold IndexedView.from_db_counter_view in Hcv.
        destruct (if truthy_opt_str _ then _ else _) as [[hn hb] hc].
        unfold CounterView.init in Hcv.
        destruct (match hc with Some _ => _ | None => _ end) as [bi sm].
        destruct (CounterInfo.stable_id c) eqn:Hid; [discriminate|].
        injection Hcv as <-. split; [reflexivity|].
        exists c. split; [left; reflexivity | exact Hid].
    + exact (IH v).
Qed.

Lemma from_db_views product pi hw_db ct_db view :
  IndexedView.from_db product pi hw_db ct_db = Ok view ->
  exists cvs,
    map_result (IndexedView.from_db_counter_view pi hw_db)
               (supported (ProductInfo.database_key pi) ct_db) = Ok cvs
    /\ view = build_indexes product (ProductInfo.database_key pi) cvs.
Proof.
  unfold IndexedView.from_db. intros H.
  pose proof (from_db_loop_views pi hw_db ct_db
                (IndexedView.init product (ProductInfo.database_key pi))) as L.
  rewrite H in L. exact L.
Qed.

(** X1.  [IndexedView.from_db] succeeds exactly when every entry of the
    counter database that supports the product carries a stable ID;
    otherwise it fails with the assertion of [CounterView.__init__].
    Entries that do not support the product never make it fail. *)
Theorem from_db_needs_stable_ids product pi hw_db ct_db :
  match IndexedView.from_db product pi hw_db ct_db with
  | Ok _ =>
      forall c, In c ct_db ->
        CounterInfo.supports_gpu c (ProductInfo.database_key pi) = true ->
        CounterInfo.stable_id c <> None
  | Raise e =>
      e = AssertionError ""
      /\ exists c, In c ct_db
           /\ CounterInfo.supports_gpu c (ProductInfo.database_key pi) = true
           /\ CounterInfo.stable_id c = None
  end.
Proof.
  unfold IndexedView.from_db.
  pose proof (from_db_loop_views pi hw_db ct_db
                (IndexedView.init product (ProductInfo.database_key pi))) as L.
  destruct (for_each _ ct_db _) as [v|e].
  - destruct L as (cvs & Hm & _). cbn [IndexedView.init IndexedView.key] in Hm.
    intros c Hin Hs Hnone. apply map_result_Ok in Hm.
    assert (Hc : In c (supported (ProductInfo.database_key pi) ct_db)).
    { apply filter_In. split; assumption. }
    clear Hin Hs. induction Hm as [|x y l l' Hxy _ IH]; [destruct Hc|].
    destruct Hc as [->|Hc]; [|exact (IH Hc)].
    rewrite from_db_counter_view_cases in Hxy.
    destruct (truthy_opt_str _);
      [destruct (IndexedView.find_hw _ _) as [[[? ?] ?]|]|];
      apply init_fields in Hxy as (_ & _ & Hid & _); congruence.
  - destruct L as (-> & c & Hin & Hn). split; [reflexivity|].
    apply filter_In in Hin as [Hin Hs]. exists c. auto.
Qed.

(** X2.  In the view [from_db] builds, each of the five lookups returns
    the view of the last supported entry of the counter database filed
    under the key asked for: by stable ID; by machine name, human name
    and group name with group human name, compared without regard to
    letter case; by source name for counters that have one, likewise
    without regard to letter case. *)
Theorem from_db_lookups product pi hw_db ct_db view :
  IndexedView.from_db product pi hw_db ct_db = Ok view ->
  exists cvs,
    map_result (IndexedView.from_db_counter_view pi hw_db)
               (supported (ProductInfo.database_key pi) ct_db) = Ok cvs
    /\ (forall sid,
          IndexedView.get_by_stable_id view sid
          = last_match (fun c => Z.eqb sid (CounterView.stable_id c)) cvs)
    /\ (forall k,
          IndexedView.get_by_machine_name view k
          = last_match (fun c => String.eqb (lower k)
                                   (lower (CounterView.machine_name c))) cvs)
    /\ (forall k,
          IndexedView.get_by_source_name view k
          = last_match (fun c => match source_key c with
                                 | Some k' => String.eqb (lower k) k'
                                 | None => false
                                 end) cvs)
    /\ (forall k,
          IndexedView.get_by_human_name view k
          = last_match (fun c => String.eqb (lower k)
                                   (lower (CounterView.human_name c))) cvs)
    /\ (forall g h,
          IndexedView.get_by_group_names view g h
          = last_match (fun c => String.eqb (lower (g +:+ "|" +:+ h))
                                   (lower (group_index c))) cvs).
Proof.
  intros H. apply from_db_views in H as (cvs & Hm & ->).
  exists cvs. split; [exact Hm|]. unfold build_indexes.
  repeat split; intros.
  - unfold IndexedView.get_by_stable_id.
    rewrite fold_add_indexes_stable_id_opt.
    rewrite (fold_dict_set_get Z.eqb Z.eqb_spec
               (fun c => Some (CounterView.stable_id c))). cbn.
    destruct (last_match _ cvs); reflexivity.
  - unfold IndexedView.get_by_machine_name.
    rewrite fold_add_indexes_by_machine_name.
    rewrite (fold_dict_set_get String.eqb String.eqb_spec
               (fun c => Some (lower (CounterView.machine_name c)))). cbn.
    destruct (last_match _ cvs); reflexivity.
  - unfold IndexedView.get_by_source_name.
    rewrite fold_add_indexes_by_source_name.
    rewrite (fold_dict_set_get String.eqb String.eqb_spec source_key). cbn.
    destruct (last_match _ cvs); reflexivity.
  - unfold IndexedView.get_by_human_name.
    rewrite fold_add_indexes_by_human_name.
    rewrite (fold_dict_set_get String.eqb String.eqb_spec
               (fun c => Some (lower (CounterView.human_name c)))). cbn.
    destruct (last_match _ cvs); reflexivity.
  - unfold IndexedView.get_by_group_names.
    rewrite fold_add_indexes_by_group_names.
    rewrite (fold_dict_set_get String.eqb String.eqb_spec
               (fun c => Some (lower (group_index c)))). cbn.
    destruct (last_match _ cvs); reflexivity.
Qed.

(** Witness for X2: the database of three native counters on Mali-G78. *)
Lemma from_db_lookups_witness :
  exists view cvs,
    IndexedView.from_db "Mali-G78" Examples.product_sync Examples.layout
      [Examples.frag; Examples.orphan; Examples.tiler] = Ok view
    /\ map_result
         (IndexedView.from_db_counter_view Examples.product_sync Examples.layout)
         (supported "Mali-G78" [Examples.frag; Examples.orphan; Examples.tiler])
       = Ok cvs
    /\ IndexedView.get_by_machine_name view "MALITILERACTIVE"
       = last_match (fun c => String.eqb (lower "MALITILERACTIVE")
                                (lower (CounterView.machine_name c))) cvs.
Proof.
  eexists.
  destruct (from_db_lookups "Mali-G78" Examples.product_sync Examples.layout
              [Examples.frag; Examples.orphan; Examples.tiler] _ eq_refl)
    as (cvs & Hm & _ & Hn & _).
  exists cvs. split; [reflexivity|]. split; [exact Hm | apply Hn].
Defined.

(** ** Filtering twice *)

Lemma filter_builds (h : list IndexedView.t) self max_visibility derived v :
  h !! self = Some v ->
  IndexedView.filter h self max_visibility derived
  = Some ((h ++ [build_indexes (IndexedView.gpu v) (IndexedView.key v)
                   (List.filter (passes max_visibility derived)
                      (dict_values (IndexedView.by_stable_id v)))])%list,
          length h).
Proof.
  intros Hv. unfold IndexedView.filter, IndexedView.alloc. rewrite Hv.
  rewrite filter_loop. reflexivity.
Qed.

Lemma build_indexes_stable_values gpu key l :
  NoDup (map CounterView.stable_id l) ->
  dict_values (IndexedView.by_stable_id (build_indexes gpu key l)) = l.
Proof.
  intros Hnd. unfold build_indexes. rewrite fold_add_indexes_by_stable_id.
  rewrite fold_dict_set_fresh; [|exact Hnd|intros c _ []].
  cbn [IndexedView.init IndexedView.by_stable_id app].
  unfold dict_values. rewrite map_map. cbn. apply map_id.
Qed.

Lemma passes_lower_visibility m1 d1 m2 d2 c :
  passes (lower_visibility m1 m2) (d1 && d2) c
  = passes m1 d1 c && passes m2 d2 c.
Proof.
  unfold passes, lower_visibility, CounterView.is_visible.
  destruct (CounterView.is_derived c), d1, d2,
    (Z.leb_spec (CounterVisibility.value m1) (CounterVisibility.value m2)),
    (Z.leb_spec (CounterVisibility.value (CounterView.visibility c))
                (CounterVisibility.value m1)),
    (Z.leb_spec (CounterVisibility.value (CounterView.visibility c))
                (CounterVisibility.value m2));
    cbn; try reflexivity; lia.
Qed.

Lemma filter_filter_list {A} (p q : A -> bool) (l : list A) :
  List.filter q (List.filter p l) = List.filter (fun x => p x && q x) l.
Proof.
  induction l as [|x l IH]; cbn [List.filter]; [reflexivity|].
  destruct (p x); cbn [List.filter andb]; [|exact IH].
  destruct (q x); [f_equal|]; exact IH.
Qed.

(** X3.  Filtering a filtered view gives the view that a single filter
    gives with the lower of the two visibility levels and with derived
    counters shown only if both filters show them; in particular a filter
    applied twice gives the view of the first application again.  Each
    call adds one view object and leaves the others as they were. *)
Theorem filter_twice (h : list IndexedView.t) self m1 d1 m2 d2 v :
  h !! self = Some v ->
  by_stable_id_wf v ->
  exists nv1 nv2,
    IndexedView.filter h self m1 d1 = Some ((h ++ [nv1])%list, length h)
    /\ IndexedView.filter (h ++ [nv1])%list (length h) m2 d2
       = Some ((h ++ [nv1; nv2])%list, S (length h))
    /\ IndexedView.filter h self (lower_visibility m1 m2) (d1 && d2)
       = Some ((h ++ [nv2])%list, length h)
    /\ (m1 = m2 -> d1 = d2 -> nv2 = nv1).
Proof.
  intros Hv Hwf.
  set (vals := dict_values (IndexedView.by_stable_id v)).
  assert (Hnd : NoDup (map CounterView.stable_id
                         (List.filter (passes m1 d1) vals))).
  { apply NoDup_map_filter. unfold vals. rewrite wf_values by exact Hwf.
    apply Hwf. }
  set (nv1 := build_indexes (IndexedView.gpu v) (IndexedView.key v)
                 (List.filter (passes m1 d1) vals)).
  exists nv1,
         (build_indexes (IndexedView.gpu v) (IndexedView.key v)
            (List.filter (fun c => passes m1 d1 c && passes m2 d2 c) vals)).
  split; [apply filter_builds; exact Hv|]. split; [|split].
  - rewrite (filter_builds (h ++ [nv1])%list (length h) m2 d2 nv1).
    2:{ rewrite lookup_app_r by lia. rewrite Nat.sub_diag. reflexivity. }
    assert (Hvals : dict_values (IndexedView.by_stable_id nv1)
                    = List.filter (passes m1 d1) vals)
      by (apply build_indexes_stable_values; exact Hnd).
    assert (Hgk : IndexedView.gpu nv1 = IndexedView.gpu v
                  /\ IndexedView.key nv1 = IndexedView.key v)
      by (apply (fold_add_indexes_gpu_key _ (IndexedView.init _ _))).
    destruct Hgk as [-> ->]. rewrite Hvals, filter_filter_list.
    rewrite length_app, <- app_assoc. cbn [length app]. f_equal. f_equal. lia.
  - rewrite (filter_builds h self _ _ v Hv). fold vals.
    rewrite (filter_ext _ _ (passes_lower_visibility m1 d1 m2 d2)).
    reflexivity.
  - intros <- <-. unfold nv1. f_equal. apply filter_ext. intros c.
    destruct (passes m1 d1 c); reflexivity.
Qed.

(** Witness for X3: a view of four counters, filtered for the advanced
    application level without derived counters, then for the novice level
    with them. *)
Lemma filter_twice_witness :
  exists nv1 nv2,
    IndexedView.filter [Examples5.source_view] 0%nat
      CounterVisibility.ADVANCED_APPLICATION false
    = Some ([Examples5.source_view; nv1], 1%nat)
    /\ IndexedView.filter [Examples5.source_view; nv1] 1%nat
         CounterVisibility.NOVICE true
       = Some ([Examples5.source_view; nv1; nv2], 2%nat)
    /\ IndexedView.filter [Examples5.source_view] 0%nat
         CounterVisibility.NOVICE false
       = Some ([Examples5.source_view; nv2], 1%nat).
Proof.
  destruct (filter_twice [Examples5.source_view] 0%nat
              CounterVisibility.ADVANCED_APPLICATION false
              CounterVisibility.NOVICE true Examples5.source_view
              eq_refl source_view_wf)
    as (nv1 & nv2 & H1 & H2 & H3 & _).
  exists nv1, nv2. split; [exact H1|]. split; [exact H2 | exact H3].
Defined.

(** ** The hardware view *)

Lemma block_from_db_loop i_view : forall slots bv,
  match for_each
          (fun view hw_cnt =>
             match IndexedView.get_by_source_name i_view
                     (HardwareCounterLayout.name hw_cnt) with
             | Some child_view => Ok (HardwareBlockView.append view child_view)
             | None => Raise (AssertionError "")
             end) slots bv with
  | Ok bv' =>
      exists cvs,
        bv' = HardwareBlockView.mk (HardwareBlockView.btype bv)
                (HardwareBlockView.counters bv ++ cvs)%list
        /\ Forall2 (fun cv slot =>
                      IndexedView.get_by_source_name i_view
                        (HardwareCounterLayout.name slot) = Some cv) cvs slots
  | Raise e =>
      e = AssertionError ""
      /\ exists slot, In slot slots
           /\ IndexedView.get_by_source_name i_view
                (HardwareCounterLayout.name slot) = None
  end.
Proof.
  induction slots as [|s slots IH]; intros bv; cbn [for_each].
  - exists []. rewrite app_nil_r. destruct bv; split; [reflexivity | constructor].
  - destruct (IndexedView.get_by_source_name i_view _) as [cv|] eqn:E; cbn [bind].
    + specialize (IH (HardwareBlockView.append bv cv)).
      destruct (for_each _ slots _) as [bv'|e].
      * destruct IH as (cvs & -> & HF). exists (cv :: cvs). split.
        -- cbn. rewrite <- app_assoc. reflexivity.
        -- constructor; assumption.
      * destruct IH as (-> & slot & Hin & Hn). split; [reflexivity|].
        exists slot. split; [right; exact Hin | exact Hn].
    + split; [reflexivity|]. exists s. split; [left; reflexivity | exact E].
Qed.

Lemma block_from_db_cases bl i_view :
  match HardwareBlockView.from_db bl i_view with
  | Ok bv => block_of_layout i_view bv bl
  | Raise e =>
      e = AssertionError ""
      /\ exists slot, In slot (HardwareBlockLayout.counters bl)
           /\ IndexedView.get_by_source_name i_view
                (HardwareCounterLayout.name slot) = None
  end.
Proof.
  unfold HardwareBlockView.from_db.
  pose proof (block_from_db_loop i_view (HardwareBlockLayout.counters bl)
                (HardwareBlockView.init (HardwareBlockLayout.btype bl))) as L.
  destruct (for_each _ _ _) as [bv|e]; [|exact L].
  destruct L as (cvs & -> & HF). split; [reflexivity | exact HF].
Qed.

Lemma view_from_db_loop i_view : forall hw_db view,
  match for_each
          (fun view hw_bl =>
             if negb (Z.eqb (HardwareBlockLayout.bank hw_bl) 0) then Ok view
             else
               let* child_view := HardwareBlockView.from_db hw_bl i_view in
               Ok (view ++ [child_view])%list) hw_db view with
  | Ok view' =>
      exists bvs, view' = (view ++ bvs)%list
                  /\ Forall2 (block_of_layout i_view) bvs (bank0 hw_db)
  | Raise e =>
      e = AssertionError ""
      /\ exists bl slot,
           In bl (bank0 hw_db) /\ In slot (HardwareBlockLayout.counters bl)
           /\ IndexedView.get_by_source_name i_view
                (HardwareCounterLayout.name slot) = None
  end.
Proof.
  induction hw_db as [|bl hw_db IH]; intros view; cbn [for_each bank0 List.filter].
  - exists []. rewrite app_nil_r. split; [reflexivity | constructor].
  - fold (bank0 hw_db).
    destruct (Z.eqb (HardwareBlockLayout.bank bl) 0); cbn [negb bind];
      [|exact (IH view)].
    pose proof (block_from_db_cases bl i_view) as Hb.
    destruct (HardwareBlockView.from_db bl i_view) as [bv|e]; cbn [bind].
    + specialize (IH (view ++ [bv])%list).
      destruct (for_each _ hw_db _) as [view'|e].
      * destruct IH as (bvs & -> & HF). exists (bv :: bvs). split.
        -- rewrite <- app_assoc. reflexivity.
        -- constructor; assumption.
      * destruct IH as (-> & bl' & slot & H1 & H2 & H3). split; [reflexivity|].
        exists bl', slot. split; [right; exact H1 | auto].
    + destruct Hb as (-> & slot & H2 & H3). split; [reflexivity|].
      exists bl, slot. split; [left; reflexivity | auto].
Qed.

(** X4.  [HardwareView.from_db] looks only at the blocks of bank 0.  When
    every slot of these blocks is found in the index by source name it
    returns one block view per block, in layout order and of the same
    block type, holding for each slot, in slot order, the counter found
    under the name of the slot.  Otherwise it fails with an assertion
    error, and some slot of a block of bank 0 is not in the index. *)
Theorem hardware_view_from_db hw_db i_view :
  match HardwareView.from_db hw_db i_view with
  | Ok view => Forall2 (block_of_layout i_view) view (bank0 hw_db)
  | Raise e =>
      e = AssertionError ""
      /\ exists bl slot,
           In bl hw_db /\ HardwareBlockLayout.bank bl = 0
           /\ In slot (HardwareBlockLayout.counters bl)
           /\ IndexedView.get_by_source_name i_view
                (HardwareCounterLayout.name slot) = None
  end.
Proof.
  unfold HardwareView.from_db.
  pose proof (view_from_db_loop i_view hw_db []) as L.
  destruct (for_each _ hw_db _) as [view|e].
  - destruct L as (bvs & -> & HF). exact HF.
  - destruct L as (-> & bl & slot & H1 & H2 & H3). split; [reflexivity|].
    apply filter_In in H1 as [H1 Hb]. apply Z.eqb_eq in Hb.
    exists bl, slot. auto.
Qed.

(** ** Filtering the hardware view *)

Lemma filter_block_loop m d : forall cs fb,
  fold_left
    (fun filtered_block counter =>
       if negb (CounterView.is_visible counter m) then filtered_block
       else if CounterView.is_derived counter && negb d then filtered_block
       else HardwareBlockView.append filtered_block counter) cs fb
  = HardwareBlockView.mk (HardwareBlockView.btype fb)
      (HardwareBlockView.counters fb ++ List.filter (passes m d) cs)%list.
Proof.
  induction cs as [|c cs IH]; intros fb; cbn [fold_left List.filter].
  - rewrite app_nil_r. destruct fb; reflexivity.
  - rewrite IH. unfold passes.
    destruct (CounterView.is_visible c m); cbn [negb andb]; [|reflexivity].
    destruct (CounterView.is_derived c), d; cbn; try reflexivity;
      rewrite <- app_assoc; reflexivity.
Qed.

Lemma filter_block_eq m d b :
  HardwareView.filter_block m d b
  = HardwareBlockView.mk (HardwareBlockView.btype b)
      (List.filter (passes m d) (HardwareBlockView.counters b)).
Proof. unfold HardwareView.filter_block. rewrite filter_block_loop. reflexivity. Qed.

Lemma filter_view_loop m d : forall v acc,
  fold_left
    (fun filtered_view block =>
       let filtered_block := HardwareView.filter_block m d block in
       match HardwareBlockView.counters filtered_block with
       | _ :: _ => (filtered_view ++ [filtered_block])%list
       | [] => filtered_view
       end) v acc
  = (acc ++ kept_blocks m d v)%list.
Proof.
  induction v as [|b v IH]; intros acc; cbn [fold_left kept_blocks].
  - rewrite app_nil_r. reflexivity.
  - rewrite IH, filter_block_eq. cbn [HardwareBlockView.counters].
    destruct (List.filter (passes m d) (HardwareBlockView.counters b));
      [reflexivity|].
    rewrite <- app_assoc. reflexivity.
Qed.

Lemma hardware_filter_eq v m d :
  HardwareView.filter v m d = kept_blocks m d v.
Proof. unfold HardwareView.filter. apply filter_view_loop. Qed.

(** X5.  [HardwareView.filter] keeps, in hardware order, exactly the
    counters that pass the visibility and derived tests; it returns no
    empty block; and the blocks it returns are, in order, the blocks of
    the source that hold at least one passing counter, each with its
    block type. *)
Theorem hardware_filter_counters v m d :
  HardwareView.iter_counters (HardwareView.filter v m d)
  = List.filter (passes m d) (HardwareView.iter_counters v)
  /\ Forall (fun b => HardwareBlockView.counters b <> []) (HardwareView.filter v m d)
  /\ map HardwareBlockView.btype (HardwareView.filter v m d)
     = map HardwareBlockView.btype
         (List.filter (fun b => existsb (passes m d) (HardwareBlockView.counters b)) v).
Proof.
  rewrite hardware_filter_eq. unfold HardwareView.iter_counters.
  induction v as [|b v (IH1 & IH2 & IH3)];
    cbn [kept_blocks flat_map List.filter map].
  - repeat split. constructor.
  - rewrite List.filter_app, <- IH1.
    assert (He : existsb (passes m d) (HardwareBlockView.counters b)
                 = match List.filter (passes m d) (HardwareBlockView.counters b) with
                   | [] => false | _ => true end).
    { induction (HardwareBlockView.counters b) as [|c cs IHc];
        cbn [existsb List.filter]; [reflexivity|].
      destruct (passes m d c); [reflexivity | exact IHc]. }
    rewrite He.
    destruct (List.filter (passes m d) (HardwareBlockView.counters b)) as [|c cs];
      cbn [flat_map app map HardwareBlockView.counters HardwareBlockView.btype].
    + repeat split; assumption.
    + split; [reflexivity|].
      split; [constructor; [discriminate | exact IH2] | f_equal; exact IH3].
Qed.

(** X6.  Filtering a filtered hardware view gives the view that a single
    filter gives with the lower of the two visibility levels and with
    derived counters shown only if both filters show them; a filter
    applied twice changes nothing the second time. *)
Theorem hardware_filter_twice v m1 d1 m2 d2 :
  HardwareView.filter (HardwareView.filter v m1 d1) m2 d2
  = HardwareView.filter v (lower_visibility m1 m2) (d1 && d2)
  /\ HardwareView.filter (HardwareView.filter v m1 d1) m1 d1
     = HardwareView.filter v m1 d1.
Proof.
  rewrite !hardware_filter_eq.
  assert (H : forall m2 d2,
             kept_blocks m2 d2 (kept_blocks m1 d1 v)
             = kept_blocks (lower_visibility m1 m2) (d1 && d2) v).
  { clear m2 d2. intros m2 d2.
    induction v as [|b v IH]; cbn [kept_blocks]; [reflexivity|].
    rewrite (filter_ext _ _ (passes_lower_visibility m1 d1 m2 d2)).
    rewrite <- filter_filter_list.
    destruct (List.filter (passes m1 d1) (HardwareBlockView.counters b)) as [|c cs];
      [exact IH|].
    cbn [kept_blocks HardwareBlockView.counters HardwareBlockView.btype].
    rewrite IH. reflexivity. }
  split; [apply H|]. rewrite H. clear H.
  induction v as [|b v IH]; cbn [kept_blocks]; [reflexivity|].
  rewrite IH.
  rewrite (filter_ext (passes (lower_visibility m1 m1) (d1 && d1)) (passes m1 d1));
    [reflexivity|].
  intros c. rewrite passes_lower_visibility.
  destruct (passes m1 d1 c); reflexivity.
Qed.

Lemma last_match_Some {A} (p : A -> bool) l x :
  last_match p l = Some x -> In x l /\ p x = true.
Proof.
  unfold last_match. intros H. apply find_some in H as [Hin Hp].
  split; [apply in_rev; exact Hin | exact Hp].
Qed.

(** What the index by source name of a view built by [from_db] returns is
    a native counter whose source name is the key up to letter case. *)
Lemma from_db_source_lookup product pi hw_db ct_db view k c :
  IndexedView.from_db product pi hw_db ct_db = Ok view ->
  IndexedView.get_by_source_name view k = Some c ->
  CounterView.is_derived c = false
  /\ exists sn, CounterView.source_name c = Some sn /\ lower sn = lower k.
Proof.
  intros H Hc. apply from_db_views in H as (cvs & _ & ->).
  unfold IndexedView.get_by_source_name, build_indexes in Hc.
  rewrite fold_add_indexes_by_source_name in Hc.
  rewrite (fold_dict_set_get String.eqb String.eqb_spec source_key) in Hc.
  cbn [IndexedView.init IndexedView.by_source_name dict_get] in Hc.
  destruct (last_match _ cvs) as [c'|] eqn:E; [|discriminate].
  injection Hc as ->. apply last_match_Some in E as [_ E].
  unfold source_key in E. unfold CounterView.is_derived.
  destruct (CounterView.source_name c) as [sn|]; [|discriminate].
  cbn [truthy_opt_str]. destruct (truthy_str sn); [|discriminate].
  split; [reflexivity|]. exists sn. split; [reflexivity|].
  apply String.eqb_eq in E. congruence.
Qed.

(** X7.  The hardware view built over the indexed view of [from_db] holds
    native counters only, one per slot of the blocks of bank 0, and the
    source name of each is the name of its slot up to letter case. *)
Theorem hardware_view_native product pi hw_db ct_db i_view blocks view :
  IndexedView.from_db product pi hw_db ct_db = Ok i_view ->
  HardwareView.from_db blocks i_view = Ok view ->
  Forall2
    (fun c slot =>
       CounterView.is_derived c = false
       /\ exists sn, CounterView.source_name c = Some sn
                     /\ lower sn = lower (HardwareCounterLayout.name slot))
    (HardwareView.iter_counters view)
    (flat_map HardwareBlockLayout.counters (bank0 blocks)).
Proof.
  intros Hi Hv.
  pose proof (view_from_db_loop i_view blocks []) as L.
  unfold HardwareView.from_db in Hv. rewrite Hv in L.
  destruct L as (bvs & -> & HF). clear Hv. cbn [app].
  unfold HardwareView.iter_counters.
  induction HF as [|bv bl bvs bls [_ Hb] _ IH]; cbn [flat_map]; [constructor|].
  apply Forall2_app; [|exact IH].
  clear IH. induction Hb as [|c slot cs slots Hc _ IHc]; constructor; [|exact IHc].
  exact (from_db_source_lookup _ _ _ _ _ _ _ Hi Hc).
Qed.

Lemma hardware_view_example :
  HardwareView.from_db Examples10.blocks Examples10.index_view
  = Ok Examples10.hardware_view.
Proof. reflexivity. Qed.

(** Witness for X7: two native counters in two blocks of bank 0. *)
Lemma hardware_view_native_witness :
  exists i_view view,
    IndexedView.from_db "Mali-G78" Examples.product_sync Examples.layout
      [Examples.frag; Examples.tiler] = Ok i_view
    /\ HardwareView.from_db Examples10.blocks i_view = Ok view
    /\ Forall2
         (fun c slot =>
            CounterView.is_derived c = false
            /\ exists sn, CounterView.source_name c = Some sn
                          /\ lower sn = lower (HardwareCounterLayout.name slot))
         (HardwareView.iter_counters view)
         (flat_map HardwareBlockLayout.counters (bank0 Examples10.blocks)).
Proof.
  eexists. eexists. split; [reflexivity|]. split; [reflexivity|].
  exact (hardware_view_native "Mali-G78" Examples.product_sync Examples.layout
           [Examples.frag; Examples.tiler] _ Examples10.blocks _ eq_refl eq_refl).
Defined.

(** ** Dictionaries filled from the items of another *)

Section ItemsFacts.
Context {V W : Type}.

Lemma items_map_keys (f : string -> V -> option W) (d : dict string V) k :
  In k (dict_keys (items_map f d)) -> In k (dict_keys d).
Proof.
  unfold dict_keys, items_map.
  induction d as [|[k0 x] d IH]; cbn [flat_map map fst snd]; [auto|].
  rewrite map_app, in_app_iff. intros [H|H]; [|right; exact (IH H)].
  destruct (f k0 x); cbn in H; [|destruct H]. destruct H as [<-|[]]. left. reflexivity.
Qed.

Lemma items_map_distinct (f : string -> V -> option W) (d : dict string V) :
  NoDup (dict_keys d) -> NoDup (dict_keys (items_map f d)).
Proof.
  unfold dict_keys.
  induction d as [|[k0 x] d IH]; cbn [items_map flat_map map fst snd];
    intros Hnd; [constructor|].
  apply NoDup_cons in Hnd as [Hk Hnd]. rewrite list_elem_of_In in Hk.
  fold (items_map f d). rewrite map_app.
  destruct (f k0 x); cbn [map app fst]; [|exact (IH Hnd)].
  apply NoDup_cons. split; [|exact (IH Hnd)].
  rewrite list_elem_of_In. intros H. apply Hk. exact (items_map_keys f d k0 H).
Qed.

(** A loop over the items of a dictionary with distinct keys that assigns
    what it keeps to a dictionary holding none of these keys appends the
    kept entries in order. *)
Lemma fold_items_set (f : string -> V -> option W) : forall d acc,
  NoDup (dict_keys d) ->
  (forall k, In k (dict_keys d) -> ~ In k (dict_keys acc)) ->
  fold_left (fun acc kx => match f (fst kx) (snd kx) with
                           | Some y => dict_set String.eqb acc (fst kx) y
                           | None => acc
                           end) d acc
  = (acc ++ items_map f d)%list.
Proof.
  induction d as [|[k0 x] d IH]; intros acc Hnd Hfresh;
    cbn [fold_left items_map flat_map fst snd].
  - rewrite app_nil_r. reflexivity.
  - fold (items_map f d). cbn [dict_keys map fst] in Hnd, Hfresh.
    apply NoDup_cons in Hnd as [Hk Hnd]. rewrite list_elem_of_In in Hk.
    destruct (f k0 x) as [y|].
    + rewrite dict_set_fresh;
        [|exact String.eqb_spec
         |apply dict_get_None_keys; [exact String.eqb_spec | apply Hfresh; left; reflexivity]].
      rewrite IH; [rewrite <- app_assoc; reflexivity | exact Hnd |].
      intros k Hin. unfold dict_keys. rewrite map_app, in_app_iff.
      intros [H|[H|[]]].
      * eapply Hfresh; [right; exact Hin | exact H].
      * cbn in H. subst k. exact (Hk Hin).
    + apply IH; [exact Hnd|]. intros k Hin. apply Hfresh. right. exact Hin.
Qed.

Lemma items_map_ext (f g : string -> V -> option W) (d : dict string V) :
  Forall (fun x => forall k, f k x = g k x) (dict_values d) ->
  items_map f d = items_map g d.
Proof.
  unfold dict_values.
  induction d as [|[k0 x] d IH]; cbn [items_map flat_map map fst snd];
    intros H; [reflexivity|].
  apply Forall_cons in H as [Hx H]. rewrite Hx. f_equal. exact (IH H).
Qed.

End ItemsFacts.

Lemma items_map_kept_counter_values m d (cs : dict string CounterView.t) :
  dict_values (items_map (kept_counter m d) cs)
  = List.filter (passes m d) (dict_values cs).
Proof.
  unfold dict_values.
  induction cs as [|[k c] cs IH]; [reflexivity|].
  cbn [items_map flat_map map fst snd List.filter].
  fold (items_map (kept_counter m d) cs).
  rewrite map_app, IH. unfold kept_counter.
  destruct (passes m d c); reflexivity.
Qed.

(** ** Filtering the semantic view *)

Lemma filter_group_loop m d : forall (cs : dict string CounterView.t) g,
  fold_left
    (fun flt_grp '(cnt_name, cnt) =>
       if negb (CounterView.is_visible cnt m) then flt_grp
       else if CounterView.is_derived cnt && negb d then flt_grp
       else SemanticGroupView.set_counter flt_grp cnt_name cnt) cs g
  = SemanticGroupView.mk (SemanticGroupView.name g)
      (SemanticGroupView.long_description g)
      (fold_left (fun acc kx => match kept_counter m d (fst kx) (snd kx) with
                                | Some y => dict_set String.eqb acc (fst kx) y
                                | None => acc
                                end) cs (SemanticGroupView.counters g)).
Proof.
  induction cs as [|[k c] cs IH]; intros g; cbn [fold_left fst snd].
  - destruct g; reflexivity.
  - rewrite IH. unfold kept_counter, passes.
    destruct (CounterView.is_visible c m); cbn [negb andb]; [|reflexivity].
    destruct (CounterView.is_derived c), d; reflexivity.
Qed.

Lemma filter_group_eq m d n g :
  distinct_keys (SemanticGroupView.counters g) ->
  SemanticView.filter_group m d n g
  = SemanticGroupView.mk n (SemanticGroupView.long_description g)
      (items_map (kept_counter m d) (SemanticGroupView.counters g)).
Proof.
  intros Hnd. unfold SemanticView.filter_group. rewrite filter_group_loop.
  cbn [SemanticGroupView.init SemanticGroupView.name
       SemanticGroupView.long_description SemanticGroupView.counters].
  rewrite fold_items_set; [reflexivity | exact Hnd | intros k _ []].
Qed.

Lemma filter_section_loop m d : forall (gs : dict string SemanticGroupView.t) s,
  Forall (fun g => distinct_keys (SemanticGroupView.counters g)) (dict_values gs) ->
  fold_left
    (fun flt_sec '(grp_name, grp) =>
       let flt_grp := SemanticView.filter_group m d grp_name grp in
       match SemanticGroupView.counters flt_grp with
       | _ :: _ => SemanticSectionView.set_group flt_sec grp_name flt_grp
       | [] => flt_sec
       end) gs s
  = SemanticSectionView.mk (SemanticSectionView.name s)
      (SemanticSectionView.long_description s)
      (fold_left (fun acc kx => match kept_group m d (fst kx) (snd kx) with
                                | Some y => dict_set String.eqb acc (fst kx) y
                                | None => acc
                                end) gs (SemanticSectionView.groups s)).
Proof.
  induction gs as [|[k g] gs IH]; intros s Hwf; cbn [fold_left fst snd].
  - destruct s; reflexivity.
  - cbn [dict_values map snd] in Hwf. apply Forall_cons in Hwf as [Hg Hwf].
    rewrite (IH _ Hwf). rewrite (filter_group_eq m d k g Hg).
    unfold kept_group. cbn [SemanticGroupView.counters].
    destruct (items_map (kept_counter m d) (SemanticGroupView.counters g));
      reflexivity.
Qed.

Lemma filter_section_eq m d n s :
  distinct_keys (SemanticSectionView.groups s) ->
  Forall (fun g => distinct_keys (SemanticGroupView.counters g))
         (dict_values (SemanticSectionView.groups s)) ->
  SemanticView.filter_section m d n s
  = SemanticSectionView.mk n (SemanticSectionView.long_description s)
      (items_map (kept_group m d) (SemanticSectionView.groups s)).
Proof.
  intros Hnd Hwf. unfold SemanticView.filter_section.
  rewrite (filter_section_loop m d _ _ Hwf).
  cbn [SemanticSectionView.init SemanticSectionView.name
       SemanticSectionView.long_description SemanticSectionView.groups].
  rewrite fold_items_set; [reflexivity | exact Hnd | intros k _ []].
Qed.

Lemma filter_view_loop_sem m d : forall (ss : dict string SemanticSectionView.t) v,
  Forall (fun sec =>
            distinct_keys (SemanticSectionView.groups sec)
            /\ Forall (fun grp => distinct_keys (SemanticGroupView.counters grp))
                      (dict_values (SemanticSectionView.groups sec)))
         (dict_values ss) ->
  fold_left
    (fun flt_view '(sec_name, sec) =>
       let flt_sec := SemanticView.filter_section m d sec_name sec in
       match SemanticSectionView.groups flt_sec with
       | _ :: _ =>
           SemanticView.mk
             (dict_set String.eqb (SemanticView.sections flt_view) sec_name flt_sec)
       | [] => flt_view
       end) ss v
  = SemanticView.mk
      (fold_left (fun acc kx => match kept_section m d (fst kx) (snd kx) with
                                | Some y => dict_set String.eqb acc (fst kx) y
                                | None => acc
                                end) ss (SemanticView.sections v)).
Proof.
  induction ss as [|[k s] ss IH]; intros v Hwf; cbn [fold_left fst snd].
  - destruct v; reflexivity.
  - cbn [dict_values map snd] in Hwf. apply Forall_cons in Hwf as [[Hs1 Hs2] Hwf].
    rewrite (IH _ Hwf). rewrite (filter_section_eq m d k s Hs1 Hs2).
    unfold kept_section. cbn [SemanticSectionView.groups].
    destruct (items_map (kept_group m d) (SemanticSectionView.groups s));
      reflexivity.
Qed.

Lemma semantic_filter_eq v m d :
  semantic_view_wf v ->
  SemanticView.filter v m d
  = SemanticView.mk (items_map (kept_section m d) (SemanticView.sections v)).
Proof.
  intros [Hnd Hwf]. unfold SemanticView.filter.
  rewrite (filter_view_loop_sem m d _ _ Hwf).
  cbn [SemanticView.init SemanticView.sections].
  rewrite fold_items_set; [reflexivity | exact Hnd | intros k _ []].
Qed.

Lemma filter_flat_map {A B} (p : B -> bool) (f : A -> list B) (l : list A) :
  List.filter p (flat_map f l) = flat_map (fun x => List.filter p (f x)) l.
Proof.
  induction l as [|x l IH]; cbn [flat_map]; [reflexivity|].
  rewrite List.filter_app, IH. reflexivity.
Qed.

Lemma kept_group_counters m d (gs : dict string SemanticGroupView.t) :
  flat_map (fun g => dict_values (SemanticGroupView.counters g))
           (dict_values (items_map (kept_group m d) gs))
  = flat_map (fun g => List.filter (passes m d)
                         (dict_values (SemanticGroupView.counters g)))
             (dict_values gs).
Proof.
  unfold dict_values at 2 4.
  induction gs as [|[k g] gs IH]; cbn [items_map flat_map map fst snd];
    [reflexivity|].
  fold (items_map (kept_group m d) gs). rewrite map_app, flat_map_app, IH.
  f_equal. rewrite <- items_map_kept_counter_values. unfold kept_group.
  destruct (items_map (kept_counter m d) (SemanticGroupView.counters g));
    cbn; rewrite ?app_nil_r; reflexivity.
Qed.

Lemma kept_section_counters m d (ss : dict string SemanticSectionView.t) :
  flat_map
    (fun sec => flat_map (fun g => dict_values (SemanticGroupView.counters g))
                         (dict_values (SemanticSectionView.groups sec)))
    (dict_values (items_map (kept_section m d) ss))
  = flat_map
      (fun sec => flat_map (fun g => List.filter (passes m d)
                                       (dict_values (SemanticGroupView.counters g)))
                           (dict_values (SemanticSectionView.groups sec)))
      (dict_values ss).
Proof.
  unfold dict_values at 3 6.
  induction ss as [|[k s] ss IH]; cbn [items_map flat_map map fst snd];
    [reflexivity|].
  fold (items_map (kept_section m d) ss). rewrite map_app, flat_map_app, IH.
  f_equal. rewrite <- kept_group_counters. unfold kept_section.
  destruct (items_map (kept_group m d) (SemanticSectionView.groups s));
    cbn; rewrite ?app_nil_r; reflexivity.
Qed.

Lemma kept_group_nonempty m d (gs : dict string SemanticGroupView.t) :
  Forall (fun grp => SemanticGroupView.counters grp <> [])
         (dict_values (items_map (kept_group m d) gs)).
Proof.
  unfold dict_values.
  induction gs as [|[k g] gs IH]; cbn [items_map flat_map map fst snd];
    [constructor|].
  fold (items_map (kept_group m d) gs). rewrite map_app.
  apply Forall_app. split; [|exact IH]. unfold kept_group.
  destruct (items_map (kept_counter m d) (SemanticGroupView.counters g));
    cbn; constructor; [discriminate | constructor].
Qed.

(** X8.  On a semantic view whose dictionaries have distinct keys,
    [SemanticView.filter] keeps, in presentation order, exactly the
    counters that pass the visibility and derived tests, and the view it
    returns has no section without a group and no group without a
    counter. *)
Theorem semantic_filter_counters v m d :
  semantic_view_wf v ->
  SemanticView.iter_counters (SemanticView.filter v m d)
  = List.filter (passes m d) (SemanticView.iter_counters v)
  /\ no_empty_part (SemanticView.filter v m d).
Proof.
  intros Hwf. rewrite (semantic_filter_eq v m d Hwf). split.
  - unfold SemanticView.iter_counters. cbn [SemanticView.sections].
    rewrite kept_section_counters, filter_flat_map.
    apply flat_map_ext. intros sec. rewrite filter_flat_map. reflexivity.
  - unfold no_empty_part. cbn [SemanticView.sections]. unfold dict_values at 2.
    induction (SemanticView.sections v) as [|[k s] ss IH];
      cbn [items_map flat_map map fst snd]; [constructor|].
    fold (items_map (kept_section m d) ss). rewrite map_app.
    apply Forall_app. split; [|exact IH]. unfold kept_section.
    pose proof (kept_group_nonempty m d (SemanticSectionView.groups s)) as Hg.
    destruct (items_map (kept_group m d) (SemanticSectionView.groups s));
      cbn; constructor; [|constructor].
    split; [discriminate | exact Hg].
Qed.

(** ** Building the semantic view *)

Lemma dict_set_distinct {V} (d : dict string V) k v :
  distinct_keys d -> distinct_keys (dict_set String.eqb d k v).
Proof.
  unfold distinct_keys.
  destruct (dict_get String.eqb d k) as [x|] eqn:E.
  - replace (dict_keys (dict_set String.eqb d k v)) with (dict_keys d); [auto|].
    revert E. induction d as [|[k0 v0] d IH]; simpl; [discriminate|].
    destruct (String.eqb_spec k k0); simpl; [reflexivity|].
    intros E. f_equal. apply IH. exact E.
  - rewrite dict_set_fresh by (exact String.eqb_spec || exact E).
    unfold dict_keys. rewrite map_app. simpl. intros Hnd.
    apply NoDup_app. split; [exact Hnd|]. split; [|apply NoDup_singleton].
    intros x Hx Hk. apply list_elem_of_In in Hx.
    apply list_elem_of_In in Hk. destruct Hk as [<-|[]].
    apply (dict_get_None_keys _ String.eqb_spec) in E. contradiction.
Qed.

Lemma dict_set_Forall {V} (P : V -> Prop) (d : dict string V) k v :
  Forall P (dict_values d) -> P v ->
  Forall P (dict_values (dict_set String.eqb d k v)).
Proof.
  intros Hd Hv. apply List.Forall_forall. intros x Hx.
  apply (dict_set_values_incl _ String.eqb_spec) in Hx as [->|Hx]; [exact Hv|].
  rewrite List.Forall_forall in Hd. exact (Hd x Hx).
Qed.

Section ScanRaises.
Context {Info : Type} (gpu_support : Info -> list string).
Context (no_default two_defaults : exn).

Lemma scan_raises key : forall l default e,
  scan gpu_support no_default two_defaults key l default = Raise e ->
  e = no_default \/ e = two_defaults.
Proof.
  induction l as [|info l IH]; intros default e; cbn [scan].
  - destruct default; [discriminate|]. intros H; injection H as <-. auto.
  - destruct (str_in key (gpu_support info)); [discriminate|].
    destruct (gpu_support info); [|apply IH].
    destruct default; [|apply IH]. intros H; injection H as <-. auto.
Qed.
End ScanRaises.

Lemma group_info_raises grp_db key group e :
  SemanticGroupInfos.get_info_for grp_db key group = Raise e ->
  key_or_assertion e.
Proof.
  unfold SemanticGroupInfos.get_info_for, key_or_assertion.
  destruct (dict_get _ _ _) as [[|i l]|].
  - intros H; injection H as <-. left. eexists. reflexivity.
  - intros H. apply scan_raises in H as [-> | ->]; [left | right]; eexists; reflexivity.
  - intros H; injection H as <-. left. eexists. reflexivity.
Qed.

Lemma section_info_raises sec_db key section e :
  SemanticSectionInfos.get_info_for sec_db key section = Raise e ->
  key_or_assertion e.
Proof.
  unfold SemanticSectionInfos.get_info_for, key_or_assertion.
  destruct (dict_get _ _ _) as [[|i l]|].
  - intros H; injection H as <-. left. eexists. reflexivity.
  - intros H. apply scan_raises in H as [-> | ->]; [left | right]; eexists; reflexivity.
  - intros H; injection H as <-. left. eexists. reflexivity.
Qed.

Lemma group_from_db_cases key sem_db grp_db i_view :
  match SemanticGroupView.from_db key sem_db grp_db i_view with
  | Ok g => distinct_keys (SemanticGroupView.counters g)
  | Raise e => key_or_assertion e
  end.
Proof.
  unfold SemanticGroupView.from_db.
  destruct (SemanticGroupInfos.get_info_for grp_db key _) as [info|e] eqn:E;
    cbn [bind]; [|exact (group_info_raises _ _ _ _ E)].
  assert (H0 : distinct_keys
                 (SemanticGroupView.counters
                    (SemanticGroupView.init (SemanticGroupLayout.name sem_db)
                       (SemanticGroupInfo.long_description info))))
    by apply NoDup_nil_2.
  revert H0. generalize (SemanticGroupView.init (SemanticGroupLayout.name sem_db)
                           (SemanticGroupInfo.long_description info)).
  induction (SemanticGroupLayout.iter sem_db) as [|c cs IH]; intros g Hg;
    cbn [fold_left]; [exact Hg|].
  apply IH. destruct (IndexedView.get_by_group_names i_view _ _); [|exact Hg].
  apply dict_set_distinct. exact Hg.
Qed.

Lemma section_from_db_cases key sem_db sec_db grp_db i_view :
  match SemanticSectionView.from_db key sem_db sec_db grp_db i_view with
  | Ok s => groups_ok (SemanticSectionView.groups s)
  | Raise e => key_or_assertion e
  end.
Proof.
  unfold SemanticSectionView.from_db.
  destruct (SemanticSectionInfos.get_info_for sec_db key _) as [info|e] eqn:E;
    cbn [bind]; [|exact (section_info_raises _ _ _ _ E)].
  assert (H0 : groups_ok
                 (SemanticSectionView.groups
                    (SemanticSectionView.init (SemanticSectionLayout.name sem_db)
                       (SemanticSectionInfo.long_description info))))
    by (split; [apply NoDup_nil_2 | constructor]).
  revert H0. generalize (SemanticSectionView.init (SemanticSectionLayout.name sem_db)
                           (SemanticSectionInfo.long_description info)).
  induction (SemanticSectionLayout.iter sem_db) as [|g gs IH]; intros s Hs;
    cbn [for_each]; [exact Hs|].
  pose proof (group_from_db_cases key g grp_db i_view) as Hg.
  destruct (SemanticGroupView.from_db key g grp_db i_view) as [child|e];
    cbn [bind].
  - destruct (SemanticGroupView.counters child) as [|c cs] eqn:Ec; cbn [bind];
      [apply IH; exact Hs|].
    apply IH. destruct Hs as [Hs1 Hs2]. split; cbn [SemanticSectionView.set_group
                                                     SemanticSectionView.groups].
    + apply dict_set_distinct. exact Hs1.
    + apply dict_set_Forall; [exact Hs2|]. rewrite Ec.
      split; [exact Hg | discriminate].
  - destruct Hg as [(msg & ->)|(msg & ->)]; cbn [bind]; [apply IH; exact Hs|].
    right. eexists. reflexivity.
Qed.

(** X9.  [SemanticView.from_db] never lets a [KeyError] out: a section or
    group without documentation for the product is passed over, and the
    only failure is an assertion error (two default documentation
    entries).  The view it returns has dictionaries with distinct keys,
    no section without a group and no group without a counter, so
    [filter] applies to it as described. *)
Theorem semantic_view_from_db key sem_db sec_db grp_db i_view :
  match SemanticView.from_db key sem_db sec_db grp_db i_view with
  | Ok v => semantic_view_wf v /\ no_empty_part v
  | Raise e => exists msg, e = AssertionError msg
  end.
Proof.
  unfold SemanticView.from_db.
  assert (H0 : semantic_view_wf SemanticView.init /\ no_empty_part SemanticView.init)
    by (repeat split; try apply NoDup_nil_2; constructor).
  revert H0. generalize SemanticView.init.
  induction (SemanticLayout.iter sem_db) as [|s ss IH]; intros v Hv;
    cbn [for_each]; [exact Hv|].
  pose proof (section_from_db_cases key s sec_db grp_db i_view) as Hs.
  destruct (SemanticSectionView.from_db key s sec_db grp_db i_view) as [child|e];
    cbn [bind].
  - destruct (SemanticSectionView.groups child) as [|g gs] eqn:Eg; cbn [bind];
      [apply IH; exact Hv|].
    apply IH. destruct Hv as [[Hv1 Hv2] Hv3]. destruct Hs as [Hs1 Hs2].
    unfold semantic_view_wf, no_empty_part. cbn [SemanticView.sections].
    split; [split|].
    + apply dict_set_distinct. exact Hv1.
    + apply dict_set_Forall; [exact Hv2|]. rewrite Eg. split; [exact Hs1|].
      eapply Forall_impl; [exact Hs2|]. intros x [Hx _]. exact Hx.
    + apply dict_set_Forall; [exact Hv3|]. rewrite Eg. split; [discriminate|].
      eapply Forall_impl; [exact Hs2|]. intros x [_ Hx]. exact Hx.
  - destruct Hs as [(msg & ->)|(msg & ->)]; cbn [bind]; [apply IH; exact Hv|].
    eexists. reflexivity.
Qed.

Lemma semantic_view_example_wf : semantic_view_wf Examples11.semantic_view.
Proof.
  unfold semantic_view_wf, distinct_keys. cbn.
  repeat first [ split | constructor | apply NoDup_nil_2
               | apply NoDup_cons_2
               | (rewrite list_elem_of_In; cbn; intuition discriminate) ].
Qed.

(** Witness for X8: filtering for the novice level without derived
    counters leaves one group with one counter. *)
Lemma semantic_filter_counters_witness :
  SemanticView.iter_counters
    (SemanticView.filter Examples11.semantic_view CounterVisibility.NOVICE false)
  = List.filter (passes CounterVisibility.NOVICE false)
      (SemanticView.iter_counters Examples11.semantic_view)
  /\ no_empty_part
       (SemanticView.filter Examples11.semantic_view CounterVisibility.NOVICE false).
Proof.
  exact (semantic_filter_counters Examples11.semantic_view
           CounterVisibility.NOVICE false semantic_view_example_wf).
Defined.

(** ** Anchors *)





Lemma anchor_example :
  SemanticGroupView.get_anchor (SemanticGroupView.init "Shader Core (L1)" "")
  = "g_shadercorel1"
  /\ SemanticSectionView.get_anchor
       (SemanticSectionView.init "Shader-core l1" "")
     = "s_shadercorel1".
Proof. split; reflexivity. Qed.

(** ** Building the semantic layout *)

Section AppendFacts.
Context {V : Type} (key msg : V -> string).

Lemma append_new_loop : forall l d,
  match for_each (append_new key msg) l d with
  | Ok d' =>
      d' = (d ++ map (fun x => (key x, x)) l)%list
      /\ NoDup (map key l)
      /\ (forall x, In x l -> ~ In (key x) (dict_keys d))
  | Raise e =>
      (~ NoDup (map key l) \/ exists x, In x l /\ In (key x) (dict_keys d))
      /\ exists x, In x l /\ e = AssertionError (msg x)
  end.
Proof.
  induction l as [|x l IH]; intros d; cbn [for_each map].
  - rewrite app_nil_r. repeat split; [apply NoDup_nil_2 | intros x []].
  - unfold append_new at 1, dict_contains.
    destruct (dict_get String.eqb d (key x)) as [y|] eqn:E; cbn [negb assert bind].
    + split; [|exists x; split; [left; reflexivity | reflexivity]].
      right. exists x. split; [left; reflexivity|].
      destruct (in_dec string_dec (key x) (dict_keys d)) as [Hin|Hn]; [exact Hin|].
      apply (dict_get_None_keys _ String.eqb_spec) in Hn. congruence.
    + assert (Hx : ~ In (key x) (dict_keys d))
        by (apply (dict_get_None_keys _ String.eqb_spec); exact E).
      rewrite dict_set_fresh by (exact String.eqb_spec || exact E).
      specialize (IH (d ++ [(key x, x)])%list).
      destruct (for_each _ l _) as [d'|e].
      * destruct IH as (-> & Hnd & Hfresh). split; [|split].
        -- rewrite <- app_assoc. reflexivity.
        -- apply NoDup_cons. split; [|exact Hnd]. rewrite list_elem_of_In.
           intros Hin. apply in_map_iff in Hin as (y & Hy & Hin).
           apply (Hfresh y Hin). unfold dict_keys. rewrite map_app, in_app_iff.
           right. left. symmetry. exact Hy.
        -- intros y [<-|Hin]; [exact Hx|]. intros Hk. apply (Hfresh y Hin).
           unfold dict_keys. rewrite map_app, in_app_iff. left. exact Hk.
      * destruct IH as (Hbad & y & Hin & ->).
        split; [|exists y; split; [right; exact Hin | reflexivity]].
        destruct Hbad as [Hnd|(z & Hz & Hk)].
        -- left. intros H. apply NoDup_cons in H as [_ H]. exact (Hnd H).
        -- unfold dict_keys in Hk. rewrite map_app, in_app_iff in Hk.
           destruct Hk as [Hk|[Hk|[]]].
           ++ right. exists z. split; [right; exact Hz | exact Hk].
           ++ left. intros H. apply NoDup_cons in H as [H _].
              rewrite list_elem_of_In in H. apply H. cbn in Hk. rewrite Hk.
              apply in_map. exact Hz.
Qed.

Lemma append_new_from_empty l :
  appended key msg dict_values l (for_each (append_new key msg) l []).
Proof.
  pose proof (append_new_loop l []) as L. unfold appended.
  destruct (for_each _ l _) as [d|e].
  - destruct L as (-> & Hnd & _). split; [exact Hnd|].
    cbn [app]. unfold dict_values. rewrite map_map. apply map_id.
  - destruct L as ([Hnd|(x & _ & [])] & Hex). split; [exact Hnd | exact Hex].
Qed.

End AppendFacts.

Lemma group_layout_appends n : forall cs d,
  for_each SemanticGroupLayout.append cs (SemanticGroupLayout.mk n d)
  = let* d' := for_each
                 (append_new SemanticCounterLayout.name
                    (fun c => "Duplicate semantic counter: "
                                +:+ SemanticCounterLayout.name c)) cs d in
    Ok (SemanticGroupLayout.mk n d').
Proof.
  induction cs as [|c cs IH]; intros d; cbn [for_each bind]; [reflexivity|].
  unfold SemanticGroupLayout.append at 1, append_new at 1.
  cbn [SemanticGroupLayout.counters SemanticGroupLayout.name].
  destruct (assert _ _); cbn [bind]; [apply IH | reflexivity].
Qed.

Lemma section_layout_appends n : forall gs d,
  for_each SemanticSectionLayout.append gs (SemanticSectionLayout.mk n d)
  = let* d' := for_each
                 (append_new SemanticGroupLayout.name
                    (fun g => "Duplicate semantic group: "
                                +:+ SemanticGroupLayout.name g)) gs d in
    Ok (SemanticSectionLayout.mk n d').
Proof.
  induction gs as [|g gs IH]; intros d; cbn [for_each bind]; [reflexivity|].
  unfold SemanticSectionLayout.append at 1, append_new at 1.
  cbn [SemanticSectionLayout.groups SemanticSectionLayout.name].
  destruct (assert _ _); cbn [bind]; [apply IH | reflexivity].
Qed.

Lemma layout_appends n : forall ss d,
  for_each SemanticLayout.append ss (SemanticLayout.mk n d)
  = let* d' := for_each
                 (append_new SemanticSectionLayout.name
                    (fun s => "Duplicate semantic section: "
                                +:+ SemanticSectionLayout.name s)) ss d in
    Ok (SemanticLayout.mk n d').
Proof.
  induction ss as [|s ss IH]; intros d; cbn [for_each bind]; [reflexivity|].
  unfold SemanticLayout.append at 1, append_new at 1.
  cbn [SemanticLayout.sections SemanticLayout.copyright].
  destruct (assert _ _); cbn [bind]; [apply IH | reflexivity].
Qed.

(** X11.  A group, a section or a layout of the semantic layout that is
    built by appending to an empty container is built exactly when the
    names appended are pairwise distinct, and iterating over it then
    yields the appended elements in the order of the appends; otherwise
    the building fails with the assertion error of [append], whose message
    names one of the elements. *)
Theorem semantic_layout_appends :
  (forall n cs,
      appended SemanticCounterLayout.name
        (fun c => "Duplicate semantic counter: " +:+ SemanticCounterLayout.name c)
        SemanticGroupLayout.iter cs
        (for_each SemanticGroupLayout.append cs (SemanticGroupLayout.init n)))
  /\ (forall n gs,
         appended SemanticGroupLayout.name
           (fun g => "Duplicate semantic group: " +:+ SemanticGroupLayout.name g)
           SemanticSectionLayout.iter gs
           (for_each SemanticSectionLayout.append gs (SemanticSectionLayout.init n)))
  /\ (forall n ss,
         appended SemanticSectionLayout.name
           (fun s => "Duplicate semantic section: " +:+ SemanticSectionLayout.name s)
           SemanticLayout.iter ss
           (for_each SemanticLayout.append ss (SemanticLayout.init n))).
Proof.
  split; [|split]; intros n l.
  - unfold SemanticGroupLayout.init. rewrite group_layout_appends.
    pose proof (append_new_from_empty SemanticCounterLayout.name
                  (fun c => "Duplicate semantic counter: "
                              +:+ SemanticCounterLayout.name c) l) as H.
    destruct (for_each (append_new _ _) l []); exact H.
  - unfold SemanticSectionLayout.init. rewrite section_layout_appends.
    pose proof (append_new_from_empty SemanticGroupLayout.name
                  (fun g => "Duplicate semantic group: "
                              +:+ SemanticGroupLayout.name g) l) as H.
    destruct (for_each (append_new _ _) l []); exact H.
  - unfold SemanticLayout.init. rewrite layout_appends.
    pose proof (append_new_from_empty SemanticSectionLayout.name
                  (fun s => "Duplicate semantic section: "
                              +:+ SemanticSectionLayout.name s) l) as H.
    destruct (for_each (append_new _ _) l []); exact H.
Qed.

(** ** The XML text of the enumerations *)

(** X12.  For the visibility and trend enumerations of the counter
    database, [to_xml] and [from_xml] are inverse to each other:
    [from_xml] reads back every member from its text, returns a member
    only for the text [to_xml] gives it, and fails with an assertion
    error on every other string. *)
Theorem counter_enums_xml :
  (forall v, CounterVisibility_from_xml (CounterVisibility_to_xml v) = Ok v)
  /\ (forall s v, CounterVisibility_from_xml s = Ok v ->
                  CounterVisibility_to_xml v = s)
  /\ (forall s, (forall v, CounterVisibility_to_xml v <> s) ->
                CounterVisibility_from_xml s
                = Raise (AssertionError ("Unknown enumeration string " +:+ s)))
  /\ (forall v, CounterTrend.from_xml (CounterTrend.to_xml v) = Ok v)
  /\ (forall s v, CounterTrend.from_xml s = Ok v -> CounterTrend.to_xml v = s)
  /\ (forall s, (forall v, CounterTrend.to_xml v <> s) ->
                CounterTrend.from_xml s
                = Raise (AssertionError ("Unknown enumeration string " +:+ s))).
Proof.
  repeat split.
  - intros []; reflexivity.
  - intros s v. unfold CounterVisibility_from_xml.
    repeat match goal with
           | |- context [String.eqb s ?lit] =>
               destruct (String.eqb_spec s lit) as [->|_];
               [intros H; injection H as <-; reflexivity|]
           end.
    intros H; discriminate H.
  - intros s H. unfold CounterVisibility_from_xml.
    repeat match goal with
           | |- context [String.eqb s ?lit] =>
               destruct (String.eqb_spec s lit) as [->|_];
               [exfalso;
                first [ exact (H CounterVisibility.NOVICE eq_refl)
                   | exact (H CounterVisibility.ADVANCED_APPLICATION eq_refl)
                   | exact (H CounterVisibility.ADVANCED_SYSTEM eq_refl)
                   | exact (H CounterVisibility.INTERNAL eq_refl) ]|]
           end.
    reflexivity.
  - intros []; reflexivity.
  - intros s v. unfold CounterTrend.from_xml.
    repeat match goal with
           | |- context [String.eqb s ?lit] =>
               destruct (String.eqb_spec s lit) as [->|_];
               [intros H; injection H as <-; reflexivity|]
           end.
    intros H; discriminate H.
  - intros s H. unfold CounterTrend.from_xml.
    repeat match goal with
           | |- context [String.eqb s ?lit] =>
               destruct (String.eqb_spec s lit) as [->|_];
               [exfalso;
                first [ exact (H CounterTrend.HIGHER_BETTER eq_refl)
                   | exact (H CounterTrend.LOWER_BETTER eq_refl)
                   | exact (H CounterTrend.INFORMATIVE eq_refl) ]|]
           end.
    reflexivity.
Qed.

(** X13.  For the visibility and architecture enumerations of the product
    database, [to_xml] and [from_xml] are inverse to each other:
    [from_xml] reads back every member from its text, returns a member
    only for the text [to_xml] gives it, and fails with an assertion
    error on every other string. *)
Theorem product_enums_xml :
  (forall v, ProductVisibility.from_xml (ProductVisibility.to_xml v) = Ok v)
  /\ (forall s v, ProductVisibility.from_xml s = Ok v ->
                  ProductVisibility.to_xml v = s)
  /\ (forall s, (forall v, ProductVisibility.to_xml v <> s) ->
                ProductVisibility.from_xml s
                = Raise (AssertionError ("Unknown enumeration string " +:+ s)))
  /\ (forall v, ProductArchitecture.from_xml (ProductArchitecture.to_xml v) = Ok v)
  /\ (forall s v, ProductArchitecture.from_xml s = Ok v ->
                  ProductArchitecture.to_xml v = s)
  /\ (forall s, (forall v, ProductArchitecture.to_xml v <> s) ->
                ProductArchitecture.from_xml s
                = Raise (AssertionError ("Unknown enumeration string " +:+ s))).
Proof.
  repeat split.
  - intros []; reflexivity.
  - intros s v. unfold ProductVisibility.from_xml.
    repeat match goal with
           | |- context [String.eqb s ?lit] =>
               destruct (String.eqb_spec s lit) as [->|_];
               [intros H; injection H as <-; reflexivity|]
           end.
    intros H; discriminate H.
  - intros s H. unfold ProductVisibility.from_xml.
    repeat match goal with
           | |- context [String.eqb s ?lit] =>
               destruct (String.eqb_spec s lit) as [->|_];
               [exfalso;
                first [ exact (H ProductVisibility.PUBLIC eq_refl)
                   | exact (H ProductVisibility.CONFIDENTIAL eq_refl) ]|]
           end.
    reflexivity.
  - intros []; reflexivity.
  - intros s v. unfold ProductArchitecture.from_xml.
    repeat match goal with
           | |- context [String.eqb s ?lit] =>
               destruct (String.eqb_spec s lit) as [->|_];
               [intros H; injection H as <-; reflexivity|]
           end.
    intros H; discriminate H.
  - intros s H. unfold ProductArchitecture.from_xml.
    repeat match goal with
           | |- context [String.eqb s ?lit] =>
               destruct (String.eqb_spec s lit) as [->|_];
               [exfalso;
                first [ exact (H ProductArchitecture.BIFROST eq_refl)
                   | exact (H ProductArchitecture.VALHALL eq_refl)
                   | exact (H ProductArchitecture.FIFTH_GENERATION eq_refl) ]|]
           end.
    reflexivity.
Qed.

(** ** Documentation lookup by architecture *)

Section ScanSound.
Context {Info : Type} (gpu_support : Info -> list string).
Context (no_default two_defaults : exn).

(** What the loop of [get_info_for] returns is the first entry that names
    the key or, when no entry names it, the one default. *)
Lemma scan_Ok key : forall l default info,
  scan gpu_support no_default two_defaults key l default = Ok info ->
  List.find (names_key gpu_support key) l = Some info
  \/ (List.find (names_key gpu_support key) l = None
      /\ match default with
         | Some d => info = d /\ List.filter (is_default gpu_support) l = []
         | None => List.filter (is_default gpu_support) l = [info]
         end).
Proof.
  unfold names_key, is_default.
  induction l as [|i l IH]; intros default info; cbn [scan List.find List.filter].
  - destruct default; [|discriminate]. intros H; injection H as <-. auto.
  - destruct (str_in key (gpu_support i)); [intros H; injection H as <-; auto|].
    destruct (gpu_support i) eqn:E.
    + destruct default; [discriminate|]. intros H.
      apply IH in H as [H|(H1 & -> & H2)]; [auto|]. right. rewrite H2. auto.
    + exact (IH default info).
Qed.
End ScanSound.

(** X14.  The entry [ArchitectureInfos.get_info_for] returns is one of the
    entries listed for the architecture, and either names the product
    key in its applicability list, in which case it is the first entry
    that does, or has an empty applicability list, in which case no
    entry names the key and it is the only entry with an empty list: an
    entry written for other products only is never returned. *)
Theorem architecture_info_sound self key architecture info :
  ArchitectureInfos.get_info_for self key architecture = Ok info ->
  exists info_list,
    dict_get ProductArchitecture.eqb (ArchitectureInfos.architectures self)
             architecture = Some info_list
    /\ In info info_list
    /\ ((str_in key (ArchitectureInfo.gpu_support info) = true
         /\ List.find (fun i => str_in key (ArchitectureInfo.gpu_support i))
                      info_list = Some info)
        \/ (ArchitectureInfo.gpu_support info = []
            /\ (forall i, In i info_list ->
                          str_in key (ArchitectureInfo.gpu_support i) = false)
            /\ List.filter (is_default ArchitectureInfo.gpu_support) info_list
               = [info])).
Proof.
  unfold ArchitectureInfos.get_info_for.
  destruct (dict_get _ _ _) as [[|i l]|]; try discriminate.
  intros H. exists (i :: l). split; [reflexivity|].
  apply scan_Ok in H as [H|[H1 H2]].
  - pose proof (find_some _ _ H) as [Hin Hk]. split; [exact Hin|]. left.
    split; [exact Hk | exact H].
  - assert (Hin : In info (List.filter (is_default ArchitectureInfo.gpu_support)
                             (i :: l))) by (rewrite H2; left; reflexivity).
    apply filter_In in Hin as [Hin Hd]. split; [exact Hin|]. right.
    split; [|split; [|exact H2]].
    + unfold is_default in Hd.
      destruct (ArchitectureInfo.gpu_support info); [reflexivity | discriminate].
    + intros j Hj. pose proof (find_none _ _ H1 j Hj) as Hn. exact Hn.
Qed.

(** Witness for X14: the default entry serves a product that no entry
    names. *)
Lemma architecture_info_sound_witness :
  ArchitectureInfos.get_info_for Examples12.architecture_infos "Mali-G52"
    ProductArchitecture.BIFROST = Ok Examples12.bifrost_default
  /\ exists info_list,
       dict_get ProductArchitecture.eqb
         (ArchitectureInfos.architectures Examples12.architecture_infos)
         ProductArchitecture.BIFROST = Some info_list
       /\ In Examples12.bifrost_default info_list.
Proof.
  split; [reflexivity|].
  destruct (architecture_info_sound Examples12.architecture_infos "Mali-G52"
              ProductArchitecture.BIFROST Examples12.bifrost_default eq_refl)
    as (l & H1 & H2 & _).
  exists l. split; [exact H1 | exact H2].
Defined.

(** ** Products *)

(** X15.  [ProductInfos.get_gpu] returns the product registered under the
    name when there is one, also when another product has the name as
    its database key; otherwise the first product, in product order,
    whose database key is the name; and it raises a [KeyError] exactly
    when the name is neither a product name nor a database key.  Every
    name that [get_gpus] lists is found. *)
Theorem get_gpu_lookup self name :
  match ProductInfos.get_gpu self name with
  | Ok product =>
      dict_get String.eqb (ProductInfos.products self) name = Some product
      \/ (~ In name (ProductInfos.get_gpus self)
          /\ In product (ProductInfos.iter self)
          /\ ProductInfo.database_key product = name
          /\ List.find (fun p => String.eqb (ProductInfo.database_key p) name)
                       (ProductInfos.iter self) = Some product)
  | Raise e =>
      e = KeyError ("Unknown GPU product " +:+ name)
      /\ ~ In name (ProductInfos.get_gpus self)
      /\ forall p, In p (ProductInfos.iter self) ->
                   ProductInfo.database_key p <> name
  end.
Proof.
  unfold ProductInfos.get_gpu, ProductInfos.get_gpus, ProductInfos.iter.
  destruct (dict_get String.eqb (ProductInfos.products self) name) as [p|] eqn:E;
    [left; reflexivity|].
  apply (dict_get_None_keys _ String.eqb_spec) in E.
  destruct (List.find _ _) as [p|] eqn:F.
  - right. pose proof (find_some _ _ F) as [Hin Hk]. apply String.eqb_eq in Hk.
    auto.
  - split; [reflexivity|]. split; [exact E|]. intros p Hin Hk.
    pose proof (find_none _ _ F p Hin) as Hn. cbn in Hn.
    rewrite Hk, String.eqb_refl in Hn. discriminate.
Qed.

Lemma dedup_loop : forall (l : list ProductInfo.t) keys,
  NoDup keys ->
  let r := fold_left
             (fun keys product =>
                if negb (str_in (ProductInfo.database_key product) keys)
                then (keys ++ [ProductInfo.database_key product])%list
                else keys) l keys in
  NoDup r
  /\ (forall k, In k r <-> In k keys \/ In k (map ProductInfo.database_key l)).
Proof.
  induction l as [|p l IH]; intros keys Hnd; cbn [fold_left map].
  - split; [exact Hnd|]. intros k. cbn. tauto.
  - destruct (str_in (ProductInfo.database_key p) keys) eqn:E; cbn [negb].
    + destruct (IH keys Hnd) as [H1 H2]. split; [exact H1|].
      intros k. rewrite H2. cbn [In]. split; [tauto|].
      intros [H|[<-|H]]; auto. left. unfold str_in in E.
      apply existsb_exists in E as (x & Hx & Hk). apply String.eqb_eq in Hk.
      subst x. exact Hx.
    + assert (Hn : ~ In (ProductInfo.database_key p) keys).
      { intros Hin. unfold str_in in E.
        assert (existsb (String.eqb (ProductInfo.database_key p)) keys = true)
          by (apply existsb_exists; eexists; split;
              [exact Hin | apply String.eqb_refl]).
        congruence. }
      destruct (IH (keys ++ [ProductInfo.database_key p])%list) as [H1 H2].
      { apply NoDup_app. split; [exact Hnd|]. split; [|apply NoDup_singleton].
        intros x Hx Hk. apply list_elem_of_In in Hx, Hk.
        destruct Hk as [<-|[]]. exact (Hn Hx). }
      split; [exact H1|]. intros k. rewrite H2, in_app_iff. cbn [In]. tauto.
Qed.

(** X16.  [get_supported_database_keys] lists every database key of a
    product exactly once and nothing else. *)
Theorem database_keys_deduplicated db :
  NoDup (get_supported_database_keys db)
  /\ forall k, In k (get_supported_database_keys db)
               <-> exists p, In p (ProductInfos.iter db)
                             /\ ProductInfo.database_key p = k.
Proof.
  unfold get_supported_database_keys.
  destruct (dedup_loop (ProductInfos.iter db) [] (NoDup_nil_2)) as [H1 H2].
  split; [exact H1|]. intros k. rewrite H2, in_map_iff. cbn [In].
  split.
  - intros [[]|(p & Hk & Hin)]. exists p. auto.
  - intros (p & Hin & Hk). right. exists p. auto.
Qed.

Lemma get_gpu_example :
  ProductInfos.get_gpu Examples12.product_infos "Mali G1"
  = Ok (ProductInfo.mk "Mali G1" ["async_clock"])
  /\ get_supported_database_keys Examples12.product_infos = ["Mali-G78"; "Mali G1"].
Proof. split; reflexivity. Qed.

(** ** Resolving a resolved tree *)

Section ResolveAgain.
Context (index_view : IndexedView.t).
Context (transform : option (Tree -> result Tree)).

Lemma map_result_id (f : Tree -> result Tree) ps :
  Forall (fun t => f t = Ok t) ps -> map_result f ps = Ok ps.
Proof.
  induction 1 as [|p ps Hp _ IH]; [reflexivity|].
  cbn [map_result]. rewrite Hp, IH. reflexivity.
Qed.

Lemma Forall_flat_map_leaf (P : string -> Prop) (Q : Tree -> Prop) ps :
  Forall (fun t => Forall P (leaf_names t) -> Q t) ps ->
  Forall P (flat_map leaf_names ps) -> Forall Q ps.
Proof.
  induction 1 as [|p ps Hp _ IH]; cbn [flat_map]; intros H; constructor.
  - apply Hp. apply Forall_app in H as [H _]. exact H.
  - apply IH. apply Forall_app in H as [_ H]. exact H.
Qed.

(** The walk leaves a tree of primitive names as it is. *)
Lemma walk_primitive : forall t,
  Forall (primitive_name index_view) (leaf_names t) ->
  EquationResolveTransformer.walk
    (EquationResolveTransformer.NAME transform index_view) t = Ok t.
Proof.
  induction t as [e IHe|n|sub IHs| |s|a op b IHa IHb|a op b IHa IHb
                  |f ps IHps|ps IHps|ps IHps] using Tree_ind_nested;
    cbn [leaf_names EquationResolveTransformer.walk]; intros H.
  - rewrite (IHe H). reflexivity.
  - apply Forall_cons in H as [H _].
    unfold EquationResolveTransformer.NAME.
    destruct (CONSTANT_PATTERN_match n) eqn:Hc; [reflexivity|].
    destruct H as [H|(counter & Hg & Hd)]; [congruence|].
    rewrite Hg, Hd. reflexivity.
  - rewrite (IHs H). reflexivity.
  - reflexivity.
  - reflexivity.
  - apply Forall_app in H as [Ha Hb]. rewrite (IHa Ha), (IHb Hb). reflexivity.
  - apply Forall_app in H as [Ha Hb]. rewrite (IHa Ha), (IHb Hb). reflexivity.
  - rewrite map_result_id; [reflexivity|].
    exact (Forall_flat_map_leaf _ _ ps IHps H).
  - rewrite map_result_id; [reflexivity|].
    exact (Forall_flat_map_leaf _ _ ps IHps H).
  - rewrite map_result_id; [reflexivity|].
    exact (Forall_flat_map_leaf _ _ ps IHps H).
Qed.

End ResolveAgain.

(** X17.  Resolving is idempotent: a resolved tree resolves to itself
    against the same view, whatever room for nesting is left: each of its
    names matches the constant pattern, and is not looked up, or is the
    name of a native counter, and a [name] node that holds a tree or
    [None] is walked through. *)
Theorem resolve_idempotent depth depth' index_view ast resolved :
  equation_ast_to_resolved_ast depth ast index_view = Ok (Some resolved, None) ->
  equation_ast_to_resolved_ast depth' resolved index_view
  = Ok (Some resolved, None).
Proof.
  unfold equation_ast_to_resolved_ast. intros H.
  destruct (EquationResolveTransformer.transform depth index_view ast)
    as [r|e] eqn:Ht; [|destruct e; discriminate].
  injection H as <-.
  destruct (transform_good index_view depth ast r Ht) as [Hp _].
  assert (H : EquationResolveTransformer.transform depth' index_view r = Ok r).
  { destruct depth'; cbn [EquationResolveTransformer.transform];
      apply walk_primitive; exact Hp. }
  rewrite H. reflexivity.
Qed.

(** Witness for X17: the resolved tree of a derived counter over another
    derived counter, and a resolved tree that holds [None]. *)
Lemma resolve_idempotent_witness :
  (equation_ast_to_resolved_ast 2 Examples6.scaled_equation Examples6.view
   = Ok (Some Examples6.scaled_resolved, None)
   /\ equation_ast_to_resolved_ast 0 Examples6.scaled_resolved Examples6.view
      = Ok (Some Examples6.scaled_resolved, None))
  /\ (equation_ast_to_resolved_ast 2 Examples17.broken_user_equation
        Examples17.view
      = Ok (Some Examples17.broken_user_resolved, None)
      /\ equation_ast_to_resolved_ast 0 Examples17.broken_user_resolved
           Examples17.view
         = Ok (Some Examples17.broken_user_resolved, None)).
Proof.
  split; (split; [reflexivity|]).
  - exact (resolve_idempotent 2 0 Examples6.view Examples6.scaled_equation
             Examples6.scaled_resolved eq_refl).
  - exact (resolve_idempotent 2 0 Examples17.view
             Examples17.broken_user_equation Examples17.broken_user_resolved
             eq_refl).
Defined.

(** ** A literal divided by zero *)

(** X18.  The pretty-printer folds the quotient of two numeric literals
    with Python's float division, so a literal divided by a literal whose
    value is zero makes it raise: [mul] raises [ZeroDivisionError], which
    reaches the caller of [equation_ast_to_string] wrapped in the
    [VisitError] of the transformer. *)
Theorem literal_division_by_zero a b x z :
  float_of_str a = Ok x ->
  float_of_str b = Ok z ->
  float_is_zero z = true ->
  EquationPrettyPrintTransformer.mul (PStr a) "/" (PStr b)
  = Raise ZeroDivisionError
  /\ equation_ast_to_str (T_start (T_mul (T_NUMBER a) "/" (T_NUMBER b)))
     = Raise (VisitError ZeroDivisionError).
Proof.
  intros Ha Hb Hz.
  assert (Hb1 : String.eqb b "1" = false).
  { destruct (String.eqb_spec b "1") as [->|]; [|reflexivity].
    vm_compute in Hb. injection Hb as <-. discriminate Hz. }
  assert (Hm : EquationPrettyPrintTransformer.mul (PStr a) "/" (PStr b)
               = Raise ZeroDivisionError).
  { unfold EquationPrettyPrintTransformer.mul. cbn [py_eq_str]. rewrite Hb1.
    cbn [String.eqb Ascii.eqb Bool.eqb andb].
    unfold EquationPrettyPrintTransformer._simplify_mul_str_str, is_number.
    cbn [py_str py_float]. rewrite Ha, Hb. cbn [is_ok negb orb bind].
    unfold float_truediv. rewrite Hz. reflexivity. }
  split; [exact Hm|].
  unfold equation_ast_to_str, equation_ast_to_string.
  cbn [EquationPrettyPrintTransformer.transform bind]. rewrite Hm. reflexivity.
Qed.

(** Witness for X18: [6 / 0]. *)
Lemma literal_division_by_zero_witness :
  EquationPrettyPrintTransformer.mul (PStr "6") "/" (PStr "0")
  = Raise ZeroDivisionError
  /\ equation_ast_to_str Examples13.six_by_zero = Raise (VisitError ZeroDivisionError).
Proof.
  exact (literal_division_by_zero "6" "0" _ _ eq_refl eq_refl eq_refl).
Defined.

(** ** Streamline names *)

Section MangleFacts.
Import EquationStreamlineTransformer.

Lemma each_chr_app p a b : each_chr p a -> each_chr p b -> each_chr p (a +:+ b).
Proof.
  unfold each_chr. induction a as [|c a IH]; cbn; intros Ha Hb; [exact Hb|].
  apply Forall_cons in Ha as [Hc Ha]. constructor; [exact Hc | exact (IH Ha Hb)].
Qed.

Lemma re_split_words : forall s cur in_sep,
  each_chr is_word cur ->
  Forall (each_chr is_word) (re_split cur in_sep s).
Proof.
  induction s as [|c s IH]; intros cur in_sep Hcur; cbn [re_split].
  - constructor; [exact Hcur | constructor].
  - destruct (is_word c) eqn:E.
    + apply IH. apply each_chr_app; [exact Hcur|].
      constructor; [exact E | constructor].
    + destruct in_sep; [|constructor; [exact Hcur|]]; apply IH; constructor.
Qed.

Lemma chr_upper_word c : is_word c = true -> is_word (chr_upper c) = true.
Proof.
  destruct c as [[|] [|] [|] [|] [|] [|] [|] [|]]; vm_compute; congruence.
Qed.

Lemma chr_upper_digit c :
  contains_chr (chr_upper c) "0123456789" = is_digit c.
Proof. destruct c as [[|] [|] [|] [|] [|] [|] [|] [|]]; reflexivity. Qed.

Lemma capitalized_words parts :
  Forall (each_chr is_word) parts ->
  Forall (each_chr is_word) (capitalized parts)
  /\ each_chr is_word (join "" (capitalized parts)).
Proof.
  induction 1 as [|p parts Hp _ [IH1 IH2]]; cbn [capitalized].
  - split; constructor.
  - destruct p as [|c p]; [split; assumption|].
    assert (Hcp : each_chr is_word (String (chr_upper c) p)).
    { unfold each_chr in *. cbn in *. apply Forall_cons in Hp as [Hc Hp].
      constructor; [apply chr_upper_word; exact Hc | exact Hp]. }
    split; [constructor; assumption|].
    cbn [join]. destruct (capitalized parts) as [|q qs] eqn:E; [exact Hcp|].
    change (String (chr_upper c) p +:+ "" +:+ join "" (q :: qs))
      with (String (chr_upper c) p +:+ join "" (q :: qs)).
    apply each_chr_app; assumption.
Qed.

(** The parts are all empty exactly when the text has no character of the
    class. *)
Lemma re_split_empty : forall s cur in_sep,
  (in_sep = true -> cur = "") ->
  capitalized (re_split cur in_sep s) = [] <->
  cur = "" /\ ~ has_word_chr s.
Proof.
  unfold has_word_chr.
  induction s as [|c s IH]; intros cur in_sep Hinv;
    cbn [re_split list_ascii_of_string].
  - destruct cur; cbn [capitalized]; split.
    + intros _. split; [reflexivity|]. intros H. apply Exists_nil in H. exact H.
    + reflexivity.
    + discriminate.
    + intros [H _]. discriminate H.
  - assert (Hs : is_word c = false ->
                 (~ Exists (fun c => is_word c = true)
                      (c :: list_ascii_of_string s)
                  <-> ~ Exists (fun c => is_word c = true) (list_ascii_of_string s))).
    { intros E. rewrite Exists_cons. split; [tauto|].
      intros H [H'|H']; [congruence | tauto]. }
    destruct (is_word c) eqn:E.
    + rewrite IH by discriminate. split.
      * intros [H _]. destruct cur; discriminate H.
      * intros [_ H]. exfalso. apply H. apply Exists_cons. left. exact E.
    + rewrite (Hs eq_refl). destruct in_sep.
      * rewrite (Hinv eq_refl). apply IH. reflexivity.
      * destruct cur; cbn [capitalized].
        -- apply IH. reflexivity.
        -- split; [discriminate | intros [H _]; discriminate H].
Qed.

Lemma join_capitalized parts :
  join "" (capitalized parts) = "" -> capitalized parts = [].
Proof.
  induction parts as [|p parts IH]; cbn [capitalized]; [reflexivity|].
  destruct p as [|c p]; [exact IH|]. cbn [join].
  destruct (capitalized parts); discriminate.
Qed.

Lemma contains_digit c : contains_chr c "0123456789" = is_digit c.
Proof. destruct c as [[|] [|] [|] [|] [|] [|] [|] [|]]; reflexivity. Qed.

End MangleFacts.

(** X19.  [mangle_variable_name] fails with its assertion on a derived
    counter.  On a native counter it returns [$Mali] followed by a
    non-empty name made of letters, digits and underscores only that does
    not start with a digit, provided the group name or the group human
    name has such a character; if neither has one, the test of the first
    character raises an [IndexError]. *)
Theorem streamline_variable_names counter :
  match EquationStreamlineTransformer.mangle_variable_name counter with
  | EquationStreamlineTransformer.Returns name =>
      CounterView.is_derived counter = false
      /\ has_word_chr (CounterView.group_name counter +:+ " "
                         +:+ CounterView.group_human_name counter)
      /\ exists c rest,
           name = "$Mali" +:+ String c rest
           /\ each_chr EquationStreamlineTransformer.is_word (String c rest)
           /\ is_digit c = false
  | EquationStreamlineTransformer.RaisesAssertionError =>
      CounterView.is_derived counter = true
  | EquationStreamlineTransformer.RaisesIndexError =>
      CounterView.is_derived counter = false
      /\ ~ has_word_chr (CounterView.group_name counter +:+ " "
                           +:+ CounterView.group_human_name counter)
  | EquationStreamlineTransformer.RaisesKeyError _ => False
  end.
Proof.
  unfold EquationStreamlineTransformer.mangle_variable_name.
  destruct (CounterView.is_derived counter); [reflexivity|].
  set (full := CounterView.group_name counter +:+ " "
                 +:+ CounterView.group_human_name counter).
  pose proof (re_split_words full "" false (List.Forall_nil _)) as Hw.
  apply capitalized_words in Hw as [_ Hw].
  pose proof (re_split_empty full "" false
                (fun H => ltac:(discriminate H))) as He.
  destruct (join "" (EquationStreamlineTransformer.capitalized
             (EquationStreamlineTransformer.re_split "" false full)))
    as [|c rest] eqn:Ej.
  - split; [reflexivity|]. apply join_capitalized in Ej.
    apply He in Ej as [_ Hn]. exact Hn.
  - split; [reflexivity|]. split.
    + destruct (List.Exists_dec
                  (fun c => EquationStreamlineTransformer.is_word c = true)
                  (list_ascii_of_string full)
                  (fun x => bool_dec (EquationStreamlineTransformer.is_word x) true))
        as [Hx|Hx]; [exact Hx|].
      assert (Hc : EquationStreamlineTransformer.capitalized
                     (EquationStreamlineTransformer.re_split "" false full) = [])
        by (apply He; split; [reflexivity | exact Hx]).
      rewrite Hc in Ej. discriminate Ej.
    + rewrite contains_digit. destruct (is_digit c) eqn:Ed.
      * exists "_"%char, (String c rest). split; [reflexivity|].
        split; [|reflexivity]. constructor; [reflexivity | exact Hw].
      * exists c, rest. split; [reflexivity|]. split; [exact Hw | exact Ed].
Qed.

(** The words of the group name and of the group human name of the
    example, each with a capital, after the prefix. *)
Lemma streamline_name_example :
  EquationStreamlineTransformer.mangle_variable_name Examples13.counter
  = EquationStreamlineTransformer.Returns "$MaliShaderCore2xFragmentActiveCycles".
Proof. reflexivity. Qed.

(** ** Uniqueness of names *)

Section NameUniqueness.
Import name_uniqueness.
Context (gpu : string).

Lemma str_in_In x l : str_in x l = true <-> In x l.
Proof.
  unfold str_in. rewrite existsb_exists. split.
  - intros (y & Hy & E). apply String.eqb_eq in E. subst y. exact Hy.
  - intros H. exists x. split; [exact H | apply String.eqb_refl].
Qed.

Lemma opt_in_In x l : opt_in x l = true <-> In x l.
Proof.
  unfold opt_in. rewrite existsb_exists. split.
  - intros (y & Hy & E). destruct x as [a|], y as [b|]; try discriminate.
    + apply String.eqb_eq in E. subst b. exact Hy.
    + exact Hy.
  - intros H. exists x. split; [exact H|]. destruct x; [apply String.eqb_refl|reflexivity].
Qed.

Lemma step_errors st c : (errors st <= errors (step gpu st c))%nat.
Proof.
  unfold step. destruct (negb _); [lia|]. destruct (_ && _); [lia|].
  cbn [errors].
  destruct (opt_in _ _), (str_in (CounterInfo.machine_name c) _),
    (str_in (CounterInfo.human_name c) _), (str_in _ (found_group_names st)); lia.
Qed.

Lemma scan_errors : forall l st, (errors st <= errors (scan gpu l st))%nat.
Proof.
  unfold scan. induction l as [|c l IH]; intros st; cbn [fold_left]; [lia|].
  pose proof (step_errors st c). pose proof (IH (step gpu st c)). lia.
Qed.

Lemma scan_zero : forall l st,
  errors (scan gpu l st) = O ->
  Forall (fresh_in st) (native_counters gpu l)
  /\ distinct_names (native_counters gpu l).
Proof.
  unfold scan.
  induction l as [|c l IH]; intros st H0; cbn [fold_left native_counters List.filter].
  - split; [constructor|]. repeat split; apply NoDup_nil_2.
  - fold (native_counters gpu l). cbn [fold_left] in H0.
    specialize (IH _ H0). pose proof (scan_errors l (step gpu st c)) as Hle.
    unfold scan in Hle. rewrite H0 in Hle. revert IH Hle. unfold step.
    destruct (CounterInfo.supports_gpu c gpu); cbn [negb andb]; [|tauto].
    destruct (opt_in (CounterInfo.source_name c) (found_source_names st)) eqn:Es;
      cbn [andb].
    + destruct (truthy_opt_str (CounterInfo.source_name c)); cbn [negb]; [|tauto].
      cbn [errors]. intros _ Hle. exfalso.
      destruct (str_in (CounterInfo.machine_name c) _),
        (str_in (CounterInfo.human_name c) _),
        (str_in _ (found_group_names st)); lia.
    + cbn [errors found_source_names found_machine_names found_human_names
           found_group_names].
      fold (group_key c).
      destruct (str_in (CounterInfo.machine_name c) (found_machine_names st)) eqn:Em;
        [intros _ Hle; exfalso;
         destruct (str_in (CounterInfo.human_name c) _),
           (str_in _ (found_group_names st)); lia|].
      destruct (str_in (CounterInfo.human_name c) (found_human_names st)) eqn:Eh;
        [intros _ Hle; exfalso; destruct (str_in _ (found_group_names st)); lia|].
      destruct (str_in (group_key c) (found_group_names st)) eqn:Eg;
        [intros _ Hle; exfalso; lia|].
      intros [IHf (D1 & D2 & D3 & D4)] _.
      assert (Hc : fresh_in st c).
      { unfold fresh_in. rewrite <- opt_in_In, <- !str_in_In.
        rewrite Es, Em, Eh, Eg. repeat split; discriminate. }
      assert (Hl : Forall (fun x => fresh_in st x
                             /\ CounterInfo.source_name x <> CounterInfo.source_name c
                             /\ CounterInfo.machine_name x <> CounterInfo.machine_name c
                             /\ CounterInfo.human_name x <> CounterInfo.human_name c
                             /\ group_key x <> group_key c)
                          (native_counters gpu l)).
      { eapply Forall_impl; [exact IHf|]. intros x (F1 & F2 & F3 & F4).
        cbn [found_source_names found_machine_names found_human_names
             found_group_names] in *.
        rewrite in_app_iff in F1, F2, F3, F4. cbn [In] in *.
        unfold fresh_in. repeat split; intros E; intuition congruence. }
      assert (Hf : Forall (fresh_in st) (native_counters gpu l))
        by (eapply Forall_impl; [exact Hl | intros x Hx; apply Hx]).
      destruct (truthy_opt_str (CounterInfo.source_name c));
        [|split; [exact Hf | repeat split; assumption]].
      split; [constructor; assumption|].
      unfold distinct_names. cbn [map].
      repeat split; apply NoDup_cons; (split; [|assumption]);
        rewrite list_elem_of_In, in_map_iff; intros (x & Ex & Hx);
        rewrite List.Forall_forall in Hl; destruct (Hl x Hx) as (_ & N1 & N2 & N3 & N4);
        congruence.
Qed.





End NameUniqueness.

(** X20.  When [validate_name_uniqueness] reports no error for a product,
    the native counters of the product (the supported entries with a
    source name) have pairwise distinct source names, machine names,
    human names and group keys (group name with group human name). *)
Theorem name_uniqueness_sound cnt_db gpu :
  validate_name_uniqueness cnt_db gpu = O ->
  NoDup (map CounterInfo.source_name (native_counters gpu cnt_db))
  /\ NoDup (map CounterInfo.machine_name (native_counters gpu cnt_db))
  /\ NoDup (map CounterInfo.human_name (native_counters gpu cnt_db))
  /\ NoDup (map group_key (native_counters gpu cnt_db)).
Proof.
  unfold validate_name_uniqueness. intros H.
  exact (proj2 (scan_zero gpu cnt_db _ H)).
Qed.

(** Witness for X20: two native counters. *)
Lemma name_uniqueness_sound_witness :
  validate_name_uniqueness [Examples.frag; Examples.tiler] "Mali-G78" = O
  /\ NoDup (map CounterInfo.machine_name
              (native_counters "Mali-G78" [Examples.frag; Examples.tiler])).
Proof.
  split; [reflexivity|].
  exact (proj1 (proj2 (name_uniqueness_sound [Examples.frag; Examples.tiler]
                         "Mali-G78" eq_refl))).
Defined.



(** ** Source names of the layout and of the view *)

(** X22.  [validate_source_name_consistency] counts the source names that
    only the hardware layout has and those that only the indexed view
    has, each once; it reports no error exactly when the slots of the
    layout and the counters of the view carry the same source names,
    compared as they are written. *)
Theorem source_name_consistency hw_counters cnt_db :
  validate_source_name_consistency hw_counters cnt_db = O
  <-> forall name,
        In name (map HardwareCounterLayout.name hw_counters)
        <-> In name (view_source_names cnt_db).
Proof.
  unfold validate_source_name_consistency.
  set (A := list_to_set (map HardwareCounterLayout.name hw_counters) : gset string).
  set (B := list_to_set (view_source_names cnt_db) : gset string).
  assert (HA : forall x, x ∈ A <-> In x (map HardwareCounterLayout.name hw_counters))
    by (intros x; unfold A; rewrite elem_of_list_to_set, list_elem_of_In; reflexivity).
  assert (HB : forall x, x ∈ B <-> In x (view_source_names cnt_db))
    by (intros x; unfold B; rewrite elem_of_list_to_set, list_elem_of_In; reflexivity).
  split.
  - intros H name.
    assert (H1 : size (A ∖ B) = O) by lia. assert (H2 : size (B ∖ A) = O) by lia.
    apply size_empty_inv in H1, H2. rewrite <- HA, <- HB.
    split; intros Hn.
    + destruct (decide (name ∈ B)) as [Hb|Hb]; [exact Hb|]. exfalso.
      apply (proj1 (elem_of_equiv_empty _) H1 name).
      apply elem_of_difference. auto.
    + destruct (decide (name ∈ A)) as [Ha|Ha]; [exact Ha|]. exfalso.
      apply (proj1 (elem_of_equiv_empty _) H2 name).
      apply elem_of_difference. auto.
  - intros H.
    assert (H1 : A ∖ B ≡ ∅).
    { apply elem_of_equiv_empty. intros x Hx. apply elem_of_difference in Hx as [Ha Hb].
      apply Hb. apply HB. apply H. apply HA. exact Ha. }
    assert (H2 : B ∖ A ≡ ∅).
    { apply elem_of_equiv_empty. intros x Hx. apply elem_of_difference in Hx as [Hb Ha].
      apply Ha. apply HA. apply H. apply HB. exact Hb. }
    apply size_empty_iff in H1, H2. lia.
Qed.

Lemma sort_gpus_example :
  gpuutils.sort_gpus Examples15.names = Ok Examples15.sorted_names
  /\ gpuutils.sort_gpus ["Mali G1-Max"] = Raise (KeyError "Max")
  /\ gpuutils.sort_gpus ["Adreno"] = Raise (AssertionError "")
  /\ gpuutils._sort_gpu_code "Mali GAAx"
     = Ok (gpuutils.mk 3 (4 * 256 * 71 + 3 * 256 * 65 + 2 * 256 * 65 + 256 * 120) 0
             "Mali GAAx").
Proof. repeat split; reflexivity. Qed.

(** ** The order of the tuples *)

Section CodeOrder.
Import gpuutils.

Lemma ascii_compare_N a b :
  Ascii.compare a b = N.compare (N_of_ascii a) (N_of_ascii b).
Proof. reflexivity. Qed.

Lemma string_le_trans : forall a b c,
  String.compare a b <> Gt -> String.compare b c <> Gt ->
  String.compare a c <> Gt.
Proof.
  induction a as [|x a IH]; intros [|y b] [|z c]; cbn [String.compare];
    try congruence.
  rewrite !ascii_compare_N.
  destruct (N.compare_spec (N_of_ascii x) (N_of_ascii y)) as [E1|L1|G1];
    destruct (N.compare_spec (N_of_ascii y) (N_of_ascii z)) as [E2|L2|G2];
    try congruence; intros H1 H2.
  - rewrite E1, E2, N.compare_refl. exact (IH b c H1 H2).
  - rewrite E1. rewrite (proj2 (N.compare_lt_iff _ _) L2). discriminate.
  - rewrite <- E2. rewrite (proj2 (N.compare_lt_iff _ _) L1). discriminate.
  - rewrite (proj2 (N.compare_lt_iff _ _) (N.lt_trans _ _ _ L1 L2)). discriminate.
Qed.

Lemma string_ltb_le a b :
  String.ltb a b = false <-> String.compare b a <> Gt.
Proof.
  unfold String.ltb. rewrite (String.compare_antisym b a).
  destruct (String.compare a b); cbn [CompOpp]; split; intros H;
    first [ reflexivity | discriminate H | (exfalso; apply H; reflexivity)
          | (intros E; discriminate E) ].
Qed.

Lemma string_ltb_trans a b c :
  String.ltb b a = false -> String.ltb c b = false -> String.ltb c a = false.
Proof.
  rewrite !string_ltb_le. apply string_le_trans.
Qed.

Lemma string_ltb_asym a b : String.ltb a b = true -> String.ltb b a = false.
Proof.
  unfold String.ltb. rewrite (String.compare_antisym a b).
  destruct (String.compare b a); cbn [CompOpp]; congruence.
Qed.

Lemma string_ltb_antisym a b :
  String.ltb a b = false -> String.ltb b a = false -> a = b.
Proof.
  unfold String.ltb. rewrite (String.compare_antisym a b).
  destruct (String.compare b a) eqn:E; cbn [CompOpp]; try congruence.
  intros _ _. symmetry. apply String.compare_eq_iff. exact E.
Qed.

Ltac code_cases :=
  unfold code_le, code_lt;
  repeat match goal with
         | |- context [Z.eqb ?a ?b] => destruct (Z.eqb_spec a b)
         | H : context [Z.eqb ?a ?b] |- _ => destruct (Z.eqb_spec a b)
         end;
  cbn [negb];
  repeat match goal with
         | |- context [Z.ltb ?a ?b] => destruct (Z.ltb_spec a b)
         | H : context [Z.ltb ?a ?b] |- _ => destruct (Z.ltb_spec a b)
         end.

Lemma code_lt_le x y : code_lt x y = true -> code_le x y.
Proof.
  code_cases; intros Hxy; try discriminate Hxy; try reflexivity; try lia.
  apply string_ltb_asym. exact Hxy.
Qed.

Lemma code_le_trans x y z : code_le x y -> code_le y z -> code_le x z.
Proof.
  code_cases; intros Hxy Hyz; try discriminate; try reflexivity; try lia.
  exact (string_ltb_trans _ _ _ Hxy Hyz).
Qed.

Lemma code_le_antisym x y : code_le x y -> code_le y x -> x = y.
Proof.
  destruct x as [g1 p1 s1 n1], y as [g2 p2 s2 n2]. unfold code_le, code_lt.
  cbn [group product subproduct name].
  destruct (Z.eqb_spec g2 g1), (Z.eqb_spec g1 g2); try congruence; cbn [negb];
    [|destruct (Z.ltb_spec g2 g1), (Z.ltb_spec g1 g2); try discriminate; lia].
  destruct (Z.eqb_spec p2 p1), (Z.eqb_spec p1 p2); try congruence; cbn [negb];
    [|destruct (Z.ltb_spec p2 p1), (Z.ltb_spec p1 p2); try discriminate; lia].
  destruct (Z.eqb_spec s2 s1), (Z.eqb_spec s1 s2); try congruence; cbn [negb];
    [|destruct (Z.ltb_spec s2 s1), (Z.ltb_spec s1 s2); try discriminate; lia].
  intros H1 H2. subst. f_equal. apply string_ltb_antisym; assumption.
Qed.

Lemma insert_perm x : forall l, Permutation (insert x l) (x :: l).
Proof.
  induction l as [|y l IH]; cbn [insert]; [reflexivity|].
  destruct (code_lt x y); [reflexivity|].
  rewrite IH. apply perm_swap.
Qed.

Lemma sort_loop_perm : forall l acc,
  Permutation (fold_left (fun sorted x => insert x sorted) l acc) (l ++ acc).
Proof.
  induction l as [|x l IH]; intros acc; cbn [fold_left app]; [reflexivity|].
  rewrite IH, insert_perm. symmetry. apply Permutation_middle.
Qed.

Lemma sort_perm l : Permutation (sort l) l.
Proof. unfold sort. rewrite sort_loop_perm, app_nil_r. reflexivity. Qed.

Lemma insert_sorted x : forall l,
  StronglySorted code_le l -> StronglySorted code_le (insert x l).
Proof.
  induction l as [|y l IH]; cbn [insert]; intros Hs.
  - constructor; constructor.
  - apply StronglySorted_inv in Hs as [Hs Hy].
    destruct (code_lt x y) eqn:E.
    + constructor; [constructor; assumption|].
      constructor; [apply code_lt_le; exact E|].
      eapply Forall_impl; [exact Hy|]. intros z Hz.
      eapply code_le_trans; [apply code_lt_le; exact E | exact Hz].
    + constructor; [apply IH; exact Hs|].
      eapply Permutation_Forall; [symmetry; apply insert_perm|].
      constructor; [exact E | exact Hy].
Qed.

Lemma sort_sorted l : StronglySorted code_le (sort l).
Proof.
  unfold sort. assert (H : StronglySorted code_le []) by constructor.
  revert H. generalize (@nil code).
  induction l as [|x l IH]; intros acc H; cbn [fold_left]; [exact H|].
  apply IH. apply insert_sorted. exact H.
Qed.

(** Two sorted lists with the same elements are the same list. *)
Lemma sorted_perm_eq : forall l l',
  StronglySorted code_le l -> StronglySorted code_le l' ->
  Permutation l l' -> l = l'.
Proof.
  induction l as [|x l IH]; intros l' Hs Hs' Hp.
  - apply Permutation_nil in Hp. congruence.
  - destruct l' as [|y l']; [apply Permutation_sym, Permutation_nil in Hp; discriminate|].
    apply StronglySorted_inv in Hs as [Hs Hx].
    apply StronglySorted_inv in Hs' as [Hs' Hy].
    assert (Hxy : x = y).
    { assert (H1 : In x (y :: l')) by (eapply Permutation_in; [exact Hp | left; reflexivity]).
      assert (H2 : In y (x :: l))
        by (eapply Permutation_in; [symmetry; exact Hp | left; reflexivity]).
      destruct H1 as [->|H1]; [reflexivity|]. destruct H2 as [->|H2]; [reflexivity|].
      rewrite List.Forall_forall in Hx, Hy.
      apply code_le_antisym; [apply Hx; exact H2 | apply Hy; exact H1]. }
    subst y. f_equal. apply IH; [exact Hs | exact Hs'|].
    eapply Permutation_cons_inv. exact Hp.
Qed.

Lemma code_name n c : _sort_gpu_code n = Ok c -> name c = n.
Proof.
  unfold _sort_gpu_code.
  destruct (_GPU_GROUP_0 n) as [[g1 g2]|].
  { destruct (int_of_digits g2); cbn [bind]; [|discriminate].
    destruct (String.eqb g1 "Mali"); cbn [bind];
      [intros H; injection H as <-; reflexivity|].
    destruct (String.eqb g1 "Immortalis"); cbn [bind];
      [intros H; injection H as <-; reflexivity | discriminate]. }
  destruct (_GPU_GROUP_1 n) as [g1|].
  { destruct (int_of_digits g1); cbn [bind]; [|discriminate].
    intros H; injection H as <-; reflexivity. }
  destruct (_GPU_GROUP_2 n) as [[g1 g2]|].
  { destruct (int_of_digits g1); cbn [bind]; [|discriminate].
    destruct (String.eqb g2 "Pro"); cbn [bind];
      [intros H; injection H as <-; reflexivity|].
    destruct (String.eqb g2 "Premium"); cbn [bind];
      [intros H; injection H as <-; reflexivity|].
    destruct (String.eqb g2 "Ultra"); cbn [bind];
      [intros H; injection H as <-; reflexivity | discriminate]. }
  destruct (_GPU_GROUP_3 n) as [g1|]; [|discriminate].
  intros H; injection H as <-; reflexivity.
Qed.

Lemma map_result_names : forall l codes,
  map_result _sort_gpu_code l = Ok codes ->
  map name codes = l /\ Forall (fun c => _sort_gpu_code (name c) = Ok c) codes.
Proof.
  induction l as [|n l IH]; intros codes; cbn [map_result].
  - intros H; injection H as <-. split; [reflexivity | constructor].
  - destruct (_sort_gpu_code n) as [c|e] eqn:E; cbn [bind]; [|discriminate].
    destruct (map_result _sort_gpu_code l) as [cs|e]; cbn [bind]; [|discriminate].
    intros H; injection H as <-. destruct (IH cs eq_refl) as [H1 H2].
    pose proof (code_name n c E) as Hn. split.
    + cbn [map]. congruence.
    + constructor; [rewrite Hn; exact E | exact H2].
Qed.

Lemma map_result_of_names : forall codes,
  Forall (fun c => _sort_gpu_code (name c) = Ok c) codes ->
  map_result _sort_gpu_code (map name codes) = Ok codes.
Proof.
  induction 1 as [|c cs Hc _ IH]; [reflexivity|].
  cbn [map map_result]. rewrite Hc, IH. reflexivity.
Qed.

Lemma map_result_raises {A B} (f : A -> result B) : forall l e,
  map_result f l = Raise e -> exists x, In x l /\ f x = Raise e.
Proof.
  induction l as [|x l IH]; intros e; cbn [map_result]; [discriminate|].
  destruct (f x) as [y|e'] eqn:E; cbn [bind].
  - destruct (map_result f l) as [ys|e'']; cbn [bind]; [discriminate|].
    intros H; injection H as <-. destruct (IH _ eq_refl) as (z & Hz & Hf).
    exists z. split; [right; exact Hz | exact Hf].
  - intros H; injection H as <-. exists x. split; [left; reflexivity | exact E].
Qed.

Lemma map_result_perm {A B} (f : A -> result B) l l' :
  Permutation l l' ->
  forall r, map_result f l = Ok r ->
  exists r', map_result f l' = Ok r' /\ Permutation r r'.
Proof.
  induction 1 as [|x l l' _ IH|x y l|l l' l'' _ IH1 _ IH2]; intros r;
    cbn [map_result].
  - intros H; injection H as <-. exists []. split; [reflexivity | constructor].
  - destruct (f x) as [a|]; cbn [bind]; [|discriminate].
    destruct (map_result f l) as [rs|]; cbn [bind]; [|discriminate].
    intros H; injection H as <-. destruct (IH rs eq_refl) as (rs' & -> & Hp).
    exists (a :: rs'). split; [reflexivity | constructor; exact Hp].
  - destruct (f y) as [b|]; cbn [bind]; [|discriminate].
    destruct (f x) as [a|]; cbn [bind]; [|discriminate].
    destruct (map_result f l) as [rs|]; cbn [bind]; [|discriminate].
    intros H; injection H as <-. exists (a :: b :: rs).
    split; [reflexivity | apply perm_swap].
  - intros H. destruct (IH1 r H) as (r1 & H1 & P1).
    destruct (IH2 r1 H1) as (r2 & H2 & P2).
    exists r2. split; [exact H2 | etransitivity; eassumption].
Qed.

End CodeOrder.

(** X23.  [sort_gpus] returns the names it is given, each as often as it
    is given, in the order of their sort tuples (group, product number,
    sub-product, name), the smallest first; it fails exactly when
    [_sort_gpu_code] fails on one of the names, with the exception of
    that name. *)
Theorem sort_gpus_sorts product_names :
  match gpuutils.sort_gpus product_names with
  | Ok sorted =>
      Permutation product_names sorted
      /\ exists codes,
           map_result gpuutils._sort_gpu_code sorted = Ok codes
           /\ StronglySorted code_le codes
  | Raise e =>
      exists n, In n product_names /\ gpuutils._sort_gpu_code n = Raise e
  end.
Proof.
  unfold gpuutils.sort_gpus.
  destruct (map_result gpuutils._sort_gpu_code product_names) as [pl|e] eqn:E;
    cbn [bind]; [|exact (map_result_raises _ _ _ E)].
  apply map_result_names in E as [Hn Hc]. split.
  - rewrite <- Hn. apply Permutation_map. symmetry. apply sort_perm.
  - exists (gpuutils.sort pl). split; [|apply sort_sorted].
    apply map_result_of_names.
    eapply Permutation_Forall; [symmetry; apply sort_perm | exact Hc].
Qed.

(** X24.  The presentation order does not depend on the order in which
    the names are given: [sort_gpus] returns the same list for every
    arrangement of the same names. *)
Theorem sort_gpus_order_independent product_names product_names' sorted :
  Permutation product_names product_names' ->
  gpuutils.sort_gpus product_names = Ok sorted ->
  gpuutils.sort_gpus product_names' = Ok sorted.
Proof.
  unfold gpuutils.sort_gpus. intros Hp.
  destruct (map_result gpuutils._sort_gpu_code product_names) as [pl|e] eqn:E;
    cbn [bind]; [|discriminate].
  intros H; injection H as <-.
  destruct (map_result_perm _ _ _ Hp pl E) as (pl' & -> & Hpl). cbn [bind].
  do 2 f_equal. apply sorted_perm_eq; try apply sort_sorted.
  rewrite !sort_perm. symmetry. exact Hpl.
Qed.

(** Witness for X24: the names of the example, reversed. *)
Lemma sort_gpus_order_independent_witness :
  gpuutils.sort_gpus (rev Examples15.names) = Ok Examples15.sorted_names.
Proof.
  apply (sort_gpus_order_independent Examples15.names (rev Examples15.names)).
  - apply Permutation_rev.
  - reflexivity.
Defined.

(** ** Names of the later 5th generation *)

Section PostfixFacts.
Import gpuutils.

Lemma strip_prefix_app p s : strip_prefix p (p +:+ s) = Some s.
Proof.
  induction p as [|c p IH]; [destruct s; reflexivity|].
  rewrite append_cons. cbn [strip_prefix]. rewrite Ascii.eqb_refl. exact IH.
Qed.

Lemma span_app (p : ascii -> bool) a c rest :
  each_chr p a -> p c = false ->
  span p (a +:+ String c rest) = (a, String c rest).
Proof.
  unfold each_chr. induction a as [|x a IH]; cbn [list_ascii_of_string]; intros Ha Hc.
  - rewrite append_nil_l. cbn [span]. rewrite Hc. reflexivity.
  - apply Forall_cons in Ha as [Hx Ha]. rewrite append_cons. cbn [span].
    rewrite Hx, (IH Ha Hc). reflexivity.
Qed.

Lemma span_all (p : ascii -> bool) a : each_chr p a -> span p a = (a, "").
Proof.
  unfold each_chr. induction a as [|x a IH]; cbn [list_ascii_of_string]; intros Ha;
    [reflexivity|].
  apply Forall_cons in Ha as [Hx Ha]. cbn [span]. rewrite Hx, (IH Ha). reflexivity.
Qed.

Lemma nonempty_eqb s : s <> "" -> String.eqb s "" = false.
Proof. destruct s; [congruence | reflexivity]. Qed.

Lemma word_end_all w :
  w <> "" -> each_chr (fun c => negb (is_re_space c)) w -> word_end w = Some w.
Proof.
  intros Hn Hw. unfold word_end. rewrite (span_all _ w Hw).
  rewrite (nonempty_eqb w Hn). reflexivity.
Qed.

End PostfixFacts.

(** X25.  A name of the form [Mali G<digits>-<postfix>] is sorted in
    group 2 under its number, with sub-product 0, 1 or 2 for the postfix
    [Pro], [Premium] or [Ultra]; with any other postfix [_sort_gpu_code]
    raises a [KeyError] for the postfix: the name is not taken for a code
    name of group 3, although the pattern of that group matches it. *)
Theorem fifth_generation_postfix d w n :
  d <> "" -> each_chr is_digit d ->
  gpuutils.int_of_digits d = Ok n ->
  w <> "" -> each_chr (fun c => negb (gpuutils.is_re_space c)) w ->
  let product_name := "Mali G" +:+ d +:+ "-" +:+ w in
  gpuutils._sort_gpu_code product_name
  = (if String.eqb w "Pro" then Ok (gpuutils.mk 2 n 0 product_name)
     else if String.eqb w "Premium" then Ok (gpuutils.mk 2 n 1 product_name)
     else if String.eqb w "Ultra" then Ok (gpuutils.mk 2 n 2 product_name)
     else Raise (KeyError w))
  /\ gpuutils._GPU_GROUP_3 product_name <> None.
Proof.
  intros Hd Hdig Hint Hw Hword product_name.
  assert (Hspan : gpuutils.span is_digit (d +:+ "-" +:+ w) = (d, "-" +:+ w)).
  { change ("-" +:+ w) with (String "-" w). apply span_app; [exact Hdig | reflexivity]. }
  assert (H0 : gpuutils._GPU_GROUP_0 product_name = None).
  { unfold product_name. rewrite !append_cons, append_nil_l. reflexivity. }
  assert (H1 : gpuutils._GPU_GROUP_1 product_name = None).
  { unfold gpuutils._GPU_GROUP_1, product_name. rewrite strip_prefix_app.
    unfold gpuutils.digits_end. rewrite Hspan.
    rewrite (nonempty_eqb d Hd). reflexivity. }
  assert (H2 : gpuutils._GPU_GROUP_2 product_name = Some (d, w)).
  { unfold gpuutils._GPU_GROUP_2, product_name. rewrite strip_prefix_app, Hspan.
    rewrite (nonempty_eqb d Hd). rewrite (strip_prefix_app "-" w).
    rewrite (word_end_all w Hw Hword). reflexivity. }
  split.
  - unfold gpuutils._sort_gpu_code. rewrite H0, H1, H2, Hint. cbn [bind].
    destruct (String.eqb w "Pro"); [reflexivity|].
    destruct (String.eqb w "Premium"); [reflexivity|].
    destruct (String.eqb w "Ultra"); reflexivity.
  - unfold gpuutils._GPU_GROUP_3, product_name.
    change ("Mali G" +:+ d +:+ "-" +:+ w) with ("Mali " +:+ ("G" +:+ d +:+ "-" +:+ w)).
    rewrite strip_prefix_app. rewrite word_end_all; [discriminate| |].
    + rewrite append_cons. discriminate.
    + change ("G" +:+ d +:+ "-" +:+ w) with (String "G" (d +:+ String "-" w)).
      constructor; [reflexivity|]. fold (each_chr (fun c => negb (gpuutils.is_re_space c))
                                           (d +:+ String "-" w)).
      apply each_chr_app.
      * eapply Forall_impl; [exact Hdig|]. intros c Hc.
        destruct c as [[|] [|] [|] [|] [|] [|] [|] [|]]; vm_compute in Hc |- *;
          congruence.
      * constructor; [reflexivity | exact Hword].
Qed.

(** Witness for X25: an unknown postfix. *)
Lemma fifth_generation_postfix_witness :
  gpuutils._sort_gpu_code "Mali G1-Max" = Raise (KeyError "Max")
  /\ gpuutils._GPU_GROUP_3 "Mali G1-Max" <> None.
Proof.
  apply (fifth_generation_postfix "1" "Max" 1).
  - discriminate.
  - repeat constructor.
  - reflexivity.
  - discriminate.
  - repeat constructor.
Defined.

Lemma xmlutils_examples :
  xmlutils.splitlines
    (String "a" (String "013" (String "010" (String "b" (String "010" "")))))
  = ["a"; "b"]
  /\ xmlutils.strip "  a b  " = "a b"
  /\ xmlutils.from_pretty_xml (Examples16.pretty "Fragment active") false
     = inl "Fragment active"
  /\ xmlutils.from_pretty_xml (Examples16.pretty "") false
     = inr xmlutils.assertion_failed
  /\ xmlutils.from_pretty_xml
       (String "010" "  First line of a hyphen-" +:+ String "010" "  ated word."
          +:+ String "010" "" +:+ String "010" "  * bullet" +:+ String "010" " ")
       true
     = inl ("First line of a hyphen-ated word." +:+ String "010" "* bullet").
Proof. repeat split; reflexivity. Qed.

Section StripFacts.
Import xmlutils.

Lemma linebreak_isspace c : is_linebreak c = true -> isspace c = true.
Proof.
  destruct c as [[] [] [] [] [] [] [] []]; vm_compute; congruence.
Qed.

Lemma all_space_spaces n : all_space (spaces n) = true.
Proof.
  unfold spaces. induction (Z.to_nat n) as [|k IH]; [reflexivity|].
  cbn. exact IH.
Qed.

Lemma all_space_app a b :
  all_space a = true -> all_space b = true -> all_space (a +:+ b) = true.
Proof.
  induction a as [|c a IH]; intros Ha Hb; [exact Hb|].
  cbn in Ha. apply andb_prop in Ha as [Hc Ha].
  rewrite append_cons. cbn. rewrite Hc. cbn. apply IH; assumption.
Qed.

Lemma lstrip_all_space s : all_space s = true -> lstrip s = "".
Proof.
  induction s as [|c s IH]; intros H; [reflexivity|].
  cbn in H. apply andb_prop in H as [Hc H]. cbn. rewrite Hc. auto.
Qed.

Lemma rstrip_all_space s : all_space s = true -> rstrip s = "".
Proof.
  induction s as [|c s IH]; intros H; [reflexivity|].
  cbn in H. apply andb_prop in H as [Hc H]. cbn. rewrite (IH H), Hc.
  reflexivity.
Qed.

Lemma lstrip_space_app w s : all_space w = true -> lstrip (w +:+ s) = lstrip s.
Proof.
  induction w as [|c w IH]; intros H; [reflexivity|].
  cbn in H. apply andb_prop in H as [Hc H].
  rewrite append_cons. cbn. rewrite Hc. auto.
Qed.

Lemma rstrip_app_space s w : all_space w = true -> rstrip (s +:+ w) = rstrip s.
Proof.
  intros H. induction s as [|c s IH].
  - rewrite append_nil_l. cbn. apply rstrip_all_space, H.
  - rewrite append_cons. cbn. rewrite IH. reflexivity.
Qed.

Lemma strip_app_space s w : all_space w = true -> strip (s +:+ w) = strip s.
Proof.
  intros H. unfold strip. induction s as [|c s IH].
  - rewrite append_nil_l. rewrite (lstrip_all_space _ H). reflexivity.
  - rewrite append_cons. cbn. destruct (isspace c); [exact IH|].
    rewrite <- append_cons. apply rstrip_app_space, H.
Qed.

Lemma strip_padding w1 s w2 :
  all_space w1 = true -> all_space w2 = true ->
  strip (w1 +:+ s +:+ w2) = strip s.
Proof.
  intros H1 H2. unfold strip. rewrite lstrip_space_app by exact H1.
  apply strip_app_space, H2.
Qed.

Lemma rstrip_cons_nonspace c s :
  isspace c = false -> rstrip (String c s) = String c (rstrip s).
Proof.
  intros H. cbn. rewrite H. destruct (rstrip s); reflexivity.
Qed.

Lemma rstrip_idem s : rstrip (rstrip s) = rstrip s.
Proof.
  induction s as [|c s IH]; [reflexivity|].
  cbn. destruct (rstrip s) as [|d r] eqn:E.
  - destruct (isspace c) eqn:Hc; [reflexivity|]. cbn. rewrite Hc. reflexivity.
  - change (rstrip (String c (String d r))
            = String c (String d r)).
    cbn [rstrip]. fold rstrip. 
    change (match rstrip (String d r) with
            | "" => if isspace c then "" else String c ""
            | String a s0 => String c (String a s0)
            end = String c (String d r)).
    rewrite IH. reflexivity.
Qed.

Lemma lstrip_head s :
  lstrip s = "" \/ exists c r, lstrip s = String c r /\ isspace c = false.
Proof.
  induction s as [|c s IH]; [left; reflexivity|].
  cbn. destruct (isspace c) eqn:Hc; [exact IH|].
  right. exists c, s. split; [reflexivity|exact Hc].
Qed.

(** The shape of a stripped text: empty, or between two characters that
    are no white space. *)
Lemma strip_shape s :
  strip s = ""
  \/ exists c r, strip s = String c (rstrip r) /\ isspace c = false.
Proof.
  unfold strip. destruct (lstrip_head s) as [->|(c & r & -> & Hc)].
  - left. reflexivity.
  - right. exists c, r. split; [apply rstrip_cons_nonspace, Hc|exact Hc].
Qed.

Lemma strip_idem s : strip (strip s) = strip s.
Proof.
  destruct (strip_shape s) as [->|(c & r & -> & Hc)]; [reflexivity|].
  unfold strip. cbn [lstrip]. rewrite Hc.
  rewrite rstrip_cons_nonspace by exact Hc. rewrite rstrip_idem. reflexivity.
Qed.

Lemma rstrip_strip s : rstrip (strip s) = strip s.
Proof. unfold strip. apply rstrip_idem. Qed.

End StripFacts.

Section SplitFacts.
Import xmlutils.

Lemma append_String_assoc cur c s :
  (cur +:+ String c "") +:+ s = cur +:+ String c s.
Proof.
  induction cur as [|d cur IH]; [reflexivity|].
  rewrite !append_cons. f_equal. exact IH.
Qed.

Lemma append_nil_r' s : s +:+ "" = s.
Proof.
  induction s as [|c s IH]; [reflexivity|]. rewrite append_cons, IH.
  reflexivity.
Qed.

Lemma splitlines_from_one_line s : forall cur,
  no_linebreak s = true ->
  splitlines_from cur s
  = match cur +:+ s with "" => [] | _ => [cur +:+ s] end.
Proof.
  induction s as [|c s IH]; intros cur H.
  - cbn. rewrite append_nil_r'. reflexivity.
  - cbn in H. apply andb_prop in H as [Hc H].
    apply negb_true_iff in Hc. cbn [splitlines_from]. rewrite Hc.
    rewrite IH by exact H. rewrite append_String_assoc. reflexivity.
Qed.

Lemma splitlines_from_nonempty s : forall cur,
  cur <> "" \/ s <> "" -> splitlines_from cur s <> [].
Proof.
  induction s as [|c s IH]; intros cur H.
  - cbn. destruct cur; [destruct H; congruence|discriminate].
  - cbn [splitlines_from]. destruct (is_linebreak c); [discriminate|].
    apply IH. left. destruct cur; discriminate.
Qed.

(** A text that is right-stripped and holds a line break has two lines
    at least. *)
Lemma splitlines_from_two s : forall cur,
  rstrip s = s -> no_linebreak s = false ->
  exists a b rest, splitlines_from cur s = a :: b :: rest.
Proof.
  induction s as [|c s IH]; intros cur Hr Hb; [discriminate|].
  assert (Hs : isspace c = true -> s <> "" /\ rstrip s = s).
  { intros Hc. cbn in Hr. destruct (rstrip s) as [|d r] eqn:E.
    - rewrite Hc in Hr. discriminate.
    - injection Hr as <-. split; [discriminate|reflexivity]. }
  assert (Hs' : s <> "" -> rstrip s = s).
  { intros Hne. cbn in Hr. destruct (rstrip s) as [|d r] eqn:E.
    - destruct (isspace c); [discriminate|]. injection Hr as <-.
      congruence.
    - injection Hr as <-. reflexivity. }
  cbn [splitlines_from]. destruct (is_linebreak c) eqn:Hc.
  - destruct (Hs (linebreak_isspace _ Hc)) as [Hne Hrs].
    assert (Hgen : forall t, t <> "" ->
              exists b rest, splitlines_from "" t = b :: rest).
    { intros t Ht. destruct (splitlines_from "" t) as [|b rest] eqn:E.
      - exfalso. apply (splitlines_from_nonempty t ""); [right; exact Ht|exact E].
      - eauto. }
    assert (Hrest : exists b rest,
              match c, s with
              | "013"%char, String "010"%char s'' => splitlines_from "" s''
              | _, _ => splitlines_from "" s
              end = b :: rest).
    { destruct (Ascii.eqb_spec c "013") as [->|Hn13].
      - destruct s as [|d s'']; [congruence|].
        destruct (Ascii.eqb_spec d "010") as [->|Hn10].
        + apply Hgen. intros ->. cbn in Hrs. discriminate.
        + assert (E : match d with
                      | "010"%char => splitlines_from "" s''
                      | _ => splitlines_from "" (String d s'')
                      end = splitlines_from "" (String d s'')).
          { destruct d as [[] [] [] [] [] [] [] []]; try reflexivity.
            congruence. }
          rewrite E. apply Hgen. discriminate.
      - assert (E : match c, s with
                    | "013"%char, String "010"%char s'' => splitlines_from "" s''
                    | _, _ => splitlines_from "" s
                    end = splitlines_from "" s).
        { destruct c as [[] [] [] [] [] [] [] []]; try reflexivity.
          congruence. }
        rewrite E. apply Hgen, Hne. }
    destruct Hrest as (b & rest & ->). eauto.
  - cbn in Hb. rewrite Hc in Hb. cbn in Hb.
    apply IH; [|exact Hb]. apply Hs'. intros ->. discriminate.
Qed.

End SplitFacts.

(** X26. The single-line form is undone by [from_pretty_xml], up to white
    space around the text: reading back what [to_pretty_xml] wrote for
    [data] gives [data.strip()] when that is one non-empty line, whatever
    the indents, and fails the assertion on the number of lines
    otherwise. *)
Theorem single_line_round_trip
    (wrap : string -> Z -> list string) (indent_text : string -> string -> string)
    (data : string) (indent outdent width : Z) :
  xmlutils.from_pretty_xml
    (xmlutils.to_pretty_xml wrap indent_text data false indent outdent width)
    false
  = if single_line (xmlutils.strip data) then inl (xmlutils.strip data)
    else inr xmlutils.assertion_failed.
Proof.
  unfold xmlutils.from_pretty_xml, xmlutils.to_pretty_xml. cbn [negb].
  assert (Hs : xmlutils.strip
                 (String "010" "" +:+ xmlutils.spaces indent +:+ data
                    +:+ String "010" "" +:+ xmlutils.spaces outdent)
               = xmlutils.strip data).
  { rewrite <- (strip_padding (String "010" "" +:+ xmlutils.spaces indent) data
                  (String "010" "" +:+ xmlutils.spaces outdent)).
    - rewrite !append_cons, !append_nil_l. reflexivity.
    - apply all_space_app; [reflexivity|apply all_space_spaces].
    - apply all_space_app; [reflexivity|apply all_space_spaces]. }
  rewrite Hs. unfold single_line.
  destruct (no_linebreak (xmlutils.strip data)) eqn:Hb.
  - unfold xmlutils.splitlines.
    rewrite splitlines_from_one_line by exact Hb. rewrite append_nil_l.
    destruct (xmlutils.strip data) as [|c r] eqn:E; [reflexivity|].
    cbn [String.eqb negb andb]. rewrite <- E, strip_idem. reflexivity.
  - rewrite andb_false_r. unfold xmlutils.splitlines.
    destruct (splitlines_from_two (xmlutils.strip data) ""
                (rstrip_strip data) Hb) as (a & b & rest & ->).
    reflexivity.
Qed.

Section CopyrightFacts.
Import xmlutils.

Lemma copyright_lines_open lines : forall msg,
  msg <> [] ->
  copyright_lines lines msg = (msg ++ leading is_comment lines)%list.
Proof.
  induction lines as [|line rest IH]; intros msg Hne.
  - cbn. rewrite app_nil_r. reflexivity.
  - cbn [copyright_lines leading]. unfold is_comment at 1.
    destruct (startswith line "#") eqn:Hc.
    + cbn [negb andb]. rewrite IH.
      * rewrite <- app_assoc. reflexivity.
      * destruct msg; discriminate.
    + destruct msg as [|m msg]; [congruence|]. cbn [negb andb].
      rewrite app_nil_r. reflexivity.
Qed.

End CopyrightFacts.

(** X27. [get_copyright_from_yaml_str] returns the first line of the
    document, comment or not, followed by the comment lines that come
    directly after it, joined by line feeds; of an empty document it
    returns the empty string. *)
Theorem copyright_is_first_line_and_comments (document : string) :
  xmlutils.get_copyright_from_yaml_str document
  = match xmlutils.splitlines document with
    | [] => ""
    | first :: rest =>
        join (String "010" "") (first :: leading is_comment rest)
    end.
Proof.
  unfold xmlutils.get_copyright_from_yaml_str.
  destruct (xmlutils.splitlines document) as [|first rest]; [reflexivity|].
  cbn [xmlutils.copyright_lines]. rewrite andb_false_r. cbn [app].
  rewrite copyright_lines_open by discriminate. reflexivity.
Qed.

Section UnwrapFacts.
Import xmlutils.

Lemma append_to_last_some nd text :
  nd <> [] -> exists nd', append_to_last nd text = Some nd' /\ nd' <> [].
Proof.
  induction nd as [|p rest IH]; intros H; [congruence|].
  destruct rest as [|q rest].
  - eexists. split; [reflexivity|discriminate].
  - destruct IH as (nd' & E & _); [discriminate|].
    exists (p :: nd'). split; [|discriminate].
    change (option_map (cons p) (append_to_last (q :: rest) text)
            = Some (p :: nd')).
    rewrite E. reflexivity.
Qed.

Lemma last_of_some nd : nd <> [] -> exists last, last_of nd = Some last.
Proof.
  unfold last_of. induction nd as [|p rest IH]; intros H; [congruence|].
  destruct rest as [|q rest]; [eexists; reflexivity|].
  apply IH. discriminate.
Qed.

Lemma app_single_nonempty (nd : list string) line : (nd ++ [line])%list <> [].
Proof. destruct nd; discriminate. Qed.

Lemma unwrap_step_safe st line :
  paragraph_open st ->
  exists st', unwrap_step st line = Some st' /\ paragraph_open st'.
Proof.
  destruct st as [status nd]. unfold paragraph_open. cbn [fst snd].
  intros Hinv. unfold unwrap_step.
  destruct (strip line) as [|c r] eqn:El.
  - eexists. split; [reflexivity|]. cbn. congruence.
  - destruct status.
    + eexists. split; [reflexivity|]. cbn. intros _.
      apply app_single_nonempty.
    + destruct (last_of_some nd) as (last & ->); [apply Hinv; discriminate|].
      destruct (append_to_last_some nd
                  ((if (2 <=? String.length last)%nat && ends_with_hyphen last
                    then "" else " ") +:+ String c r))
        as (nd' & -> & Hne); [apply Hinv; discriminate|].
      eexists. split; [reflexivity|]. cbn. intros _. exact Hne.
    + destruct (startswith (String c r) "*").
      * eexists. split; [reflexivity|]. cbn. intros _.
        apply app_single_nonempty.
      * destruct (last_of_some nd) as (last & ->); [apply Hinv; discriminate|].
        destruct (append_to_last_some nd
                    ((if (2 <=? String.length last)%nat && ends_with_hyphen last
                      then "" else " ") +:+ String c r))
          as (nd' & -> & Hne); [apply Hinv; discriminate|].
        eexists. split; [reflexivity|]. cbn. intros _. exact Hne.
Qed.

Lemma unwrap_loop_safe lines : forall st,
  paragraph_open st -> exists st', unwrap_loop lines st = Some st'.
Proof.
  induction lines as [|line rest IH]; intros st Hinv.
  - eexists. reflexivity.
  - cbn [unwrap_loop].
    destruct (unwrap_step_safe st line Hinv) as (st' & -> & Hinv').
    apply IH, Hinv'.
Qed.

End UnwrapFacts.

(** X28. In multi-line mode [from_pretty_xml] returns a text for every
    input: the read of [new_data[-1]] is never out of range, because a
    continuation line is only met after a paragraph was started. *)
Theorem from_pretty_xml_multiline_returns (data : string) :
  exists text, xmlutils.from_pretty_xml data true = inl text.
Proof.
  unfold xmlutils.from_pretty_xml. cbn [negb].
  destruct (unwrap_loop_safe (xmlutils.splitlines (xmlutils.strip data))
              (xmlutils.is_newline, []))
    as ([status nd] & ->).
  - unfold paragraph_open. cbn. congruence.
  - eexists. reflexivity.
Qed.

Section SpaceFacts.
Import xmlutils.

Lemma space_blocks_loop_nonblank bullet paras : forall first was,
  filter nonblank (space_blocks_loop bullet first was paras)
  = filter nonblank paras.
Proof.
  induction paras as [|para rest IH]; intros first was; [reflexivity|].
  cbn [space_blocks_loop].
  rewrite filter_app.
  assert (E : filter nonblank
                (if negb first && (negb was || was && negb (startswith para bullet))
                 then [""] else []) = []).
  { destruct (negb first && _); reflexivity. }
  rewrite E. cbn [app]. rewrite !filter_cons. rewrite IH. reflexivity.
Qed.

Lemma space_blocks_loop_bullets bullet paras :
  Forall (fun para => startswith para bullet = true) paras ->
  space_blocks_loop bullet false true paras = paras.
Proof.
  induction 1 as [|para rest Hp _ IH]; [reflexivity|].
  cbn [space_blocks_loop]. rewrite Hp. cbn. f_equal. exact IH.
Qed.

Lemma space_blocks_loop_paragraphs bullet paras :
  Forall (fun para => startswith para bullet = false) paras ->
  space_blocks_loop bullet false false paras
  = flat_map (fun para => [""; para]) paras.
Proof.
  induction 1 as [|para rest Hp _ IH]; [reflexivity|].
  cbn [space_blocks_loop flat_map]. rewrite Hp. cbn. rewrite IH. reflexivity.
Qed.

Lemma blank_between_cons para rest :
  blank_between (para :: rest) = para :: flat_map (fun p => [""; p]) rest.
Proof.
  revert para. induction rest as [|q rest IH]; intros para; [reflexivity|].
  change (blank_between (para :: q :: rest))
    with (para :: "" :: blank_between (q :: rest)).
  rewrite IH. reflexivity.
Qed.

End SpaceFacts.

(** X29. [_to_pretty_xml__space_blocks] only adds blank entries: the
    non-empty entries of its result are those of its input, in order.  A
    list of bullet items alone is returned as it is, and a list without
    bullet items gets one blank entry between any two neighbours. *)
Theorem space_blocks_spacing (paras : list string) (indent : Z) :
  let bullet := xmlutils.spaces indent +:+ "*" in
  filter nonblank (xmlutils._to_pretty_xml__space_blocks paras indent)
  = filter nonblank paras
  /\ (Forall (fun para => xmlutils.startswith para bullet = true) paras ->
      xmlutils._to_pretty_xml__space_blocks paras indent = paras)
  /\ (Forall (fun para => xmlutils.startswith para bullet = false) paras ->
      xmlutils._to_pretty_xml__space_blocks paras indent = blank_between paras).
Proof.
  intros bullet. unfold xmlutils._to_pretty_xml__space_blocks. fold bullet.
  split; [apply space_blocks_loop_nonblank|]. split.
  - intros H. destruct H as [|para rest Hp Hrest]; [reflexivity|].
    cbn [xmlutils.space_blocks_loop]. rewrite Hp. cbn. f_equal.
    apply space_blocks_loop_bullets, Hrest.
  - intros H. destruct H as [|para rest Hp Hrest]; [reflexivity|].
    cbn [xmlutils.space_blocks_loop]. rewrite Hp. cbn [negb andb app].
    rewrite blank_between_cons. f_equal.
    apply space_blocks_loop_paragraphs, Hrest.
Qed.

(** X30. The two modes of [from_pretty_xml] agree on one line: a text
    that the single-line mode accepts is read to the same result by the
    multi-line mode. *)
Theorem modes_agree_on_one_line (data text : string) :
  xmlutils.from_pretty_xml data false = inl text ->
  xmlutils.from_pretty_xml data true = inl text.
Proof.
  unfold xmlutils.from_pretty_xml. cbn [negb]. unfold xmlutils.splitlines.
  destruct (no_linebreak (xmlutils.strip data)) eqn:Hb.
  - rewrite splitlines_from_one_line by exact Hb. rewrite append_nil_l.
    destruct (xmlutils.strip data) as [|c r] eqn:E; [discriminate|].
    rewrite <- E, strip_idem. intros [= <-].
    cbn [xmlutils.unwrap_loop xmlutils.unwrap_step].
    rewrite strip_idem, E. reflexivity.
  - destruct (splitlines_from_two (xmlutils.strip data) ""
                (rstrip_strip data) Hb) as (a & b & rest & ->).
    discriminate.
Qed.

Lemma modes_agree_on_one_line_witness :
  xmlutils.from_pretty_xml (Examples16.pretty "Fragment active") false
  = inl "Fragment active"
  /\ xmlutils.from_pretty_xml (Examples16.pretty "Fragment active") true
     = inl "Fragment active".
Proof.
  split; [reflexivity|].
  apply (modes_agree_on_one_line (Examples16.pretty "Fragment active")).
  reflexivity.
Defined.
